(* ===== verification/_CoqProject ===== *)
-Q . S2P
Prelude.v
GoStd.v
Rfc3339.v
Duration.v
Model.v
Numeric.v
Json.v
Sequence.v
Metadata.v
MetadataWf.v
Worker.v
Cluster.v
Reconcile.v
Node.v
Kafka.v
Decode.v
Payload.v
OrderBook.v
Snapshot.v
StorageInterface.v
Storage.v
Facts.v
Partitions.v
Query.v
Api.v
InputWorker.v
Consume.v
Topic.v
Pipeline.v
Reporting.v
EndToEnd.v
InputManager.v
GroupWorker.v
Config.v
Entry.v
Migrate.v
Metrics.v
Logging.v
Commands.v
