(* ===== verification/Prelude.v ===== *)
(** * A verification library for MarketDataBackend: root and prelude

    MarketDataBackend consumes market data (trades, candles, order book deltas
    and snapshots) from Kafka, stores it in PostgreSQL and keeps order books in
    memory.  A control plane stores which market groups and inputs exist; runtime
    nodes lease the groups and run one worker per group, one input worker per
    input.  This library is a shallow embedding of the Go code under
    src/internal/ and src/cmd/: a Go function is a Rocq function of the same name, a method
    takes the state it changes and returns the new one, an error is a value
    ([result]), and a call to a server is a function of the [outcome] the server
    gives it: done, failed, or done without acknowledgement.

    ** How the parts interact

    Control plane and nodes share the metadata tables (Metadata.v).  A node
    (Node.v) plans each pass with Reconcile.v, takes and gives back leases, and
    starts a worker per group (Worker.v); Cluster.v puts several nodes, their
    goroutines, the lease table and the clock together.  In a worker, an input
    worker (InputWorker.v) fetches Kafka records (Kafka.v), decodes and checks
    them (Decode.v, Numeric.v), gates deltas (Sequence.v), writes batches through
    the storage interface (StorageInterface.v, implemented in Storage.v), commits
    offsets and hands the deltas to the order book (OrderBook.v).  The input
    manager of the group worker (InputManager.v) starts and stops the input
    workers, and its snapshot loop (GroupWorker.v) stores the order book now and
    then.  Query.v reads the fact tables back, page by page.  EndToEnd.v puts the
    sessions of an input worker, the topic, Storage.v and the JSON layer together
    and follows a record from its producer to its row.

    Api.v is the HTTP face of the control plane: it checks requests and calls
    Metadata.v and Query.v.  Config.v loads the configuration of both binaries
    (.env, YAML, environment), Entry.v hands it to the components of the runtime,
    Migrate.v makes the schema they need, Partitions.v keeps the hourly partitions
    that the deltas of Storage.v fall into, and Metrics.v counts what happens.
    Commands.v is what the two binaries do with all that, in order.

    ** Files, and the code they model

    - GoStd.v, Rfc3339.v, Duration.v: what the code uses of Go's strings,
      strconv, time and os.Expand.
    - Model.v: model/model.go and model/streamkey.go, the input id helpers of
      runtime/decode.go.
    - Numeric.v: the decimal checks of runtime/decode.go, with big.ParseFloat at
      256 bits computed exactly.
    - Sequence.v: runtime/sequence.go.
    - Metadata.v, MetadataWf.v: metadata/postgres.go over the tables and
      constraints of migrations/000001 and 000003, the range of the integer
      columns included.
    - Worker.v: the lifecycle part of runtime/worker.go; a goroutine is a record
      and each thing it does next a function.
    - Cluster.v: no code of its own; the events of Node.v and Worker.v over one
      database, the discipline they keep and what follows from it.
    - Reconcile.v, Node.v: runtime/reconcile.go and runtime/node.go.
    - Kafka.v: kafka/consumer.go over the reader of kafka-go.
    - Decode.v: runtime/decode.go, kline_decode.go, orderbook_decode.go and
      orderbook_snapshot_decode.go, above the JSON layer, which is the class
      [Decoders].
    - Json.v: what the code uses of encoding/json; Payload.v: the JSON layer of the
      four decoders, an instance of [Decoders], and the levels in the jsonb columns
      of storage/postgres.go.
    - OrderBook.v: runtime/orderbook_state.go, and onDeltaApplied of worker.go.
    - Snapshot.v: runtime/snapshot_input_worker.go and the receive loop of
      runtime/worker.go, as interleaved steps over a channel.
    - Partitions.v: storage/partitions.go; a maintenance pass is a program in a
      small monad over the partition tables and the catalogue of migration 000006,
      one answer of the server per statement.
    - StorageInterface.v: storage/storage.go, the interface with the laws its
      clients use, as the classes [MarketDataStorage] and [MarketDataStorageLaws].
    - Storage.v: the write methods of storage/postgres.go; Query.v: its query
      methods.
    - InputWorker.v: one fact input of runtime/input_worker.go; Consume.v: its
      theorems, proved against the storage interface; Pipeline.v: concrete runs
      over Storage.v; Reporting.v: its run with the status reports; Facts.v,
      Topic.v, EndToEnd.v: no code of their own, stored facts, topics as logs, and
      histories of sessions over Storage.v.
    - InputManager.v: the input manager of runtime/input_worker.go; every worker
      goroutine it ever started is a task of its state, and a log keeps the moments
      inside a pass at which the active map and the goroutines differ.
    - GroupWorker.v: the consuming part of runtime/worker.go.
    - Api.v: api/api.go and api/dto.go; a handler passes the database and the
      answers of the calls it makes.
    - Config.v: config/config.go, yaml.go and dotenv.go; Entry.v: the wiring of
      cmd/md-stream-runtime/main.go, and NewNode, EnableConsumptionWithConfig and
      the guards of Run in runtime/node.go.
    - Migrate.v: db/migrate.go; Metrics.v: observability/metrics.go; Logging.v:
      logging/logging.go.
    - Commands.v: run of cmd/md-control-plane/main.go and of
      cmd/md-stream-runtime/main.go, db/pool.go, and the file names of
      migrations/migrations.go.

    ** What the theorems show

    - Delivery (Consume.v, Pipeline.v): consume always ends; every record of a
      commit is written, poisoned or given up, and when a partition is read in
      increasing offsets the commit covers nothing else; written facts are the
      decodings of their records; a run without faults and redeliveries handles
      everything; restarts never duplicate a fact; a reported offset is durable.
    - End to end (Topic.v, EndToEnd.v): over any history of sessions, crashes and
      faults, no trade or candle of the topic up to the committed position is lost,
      and no delta but one whose ids were reached before; what a producer writes
      arrives with its values; a graceful stop whose last flush succeeds leaves
      everything read in the tables.
    - Storage (Storage.v): a fact batch is atomic and, retried, exactly-once; the
      tables keep their keys under all write methods, the deltas theirs under
      those the program calls (a direct WriteOrderBookDeltas can break them);
      candles never go backwards and converge; the batch check is equivalent to
      the batch contract.
    - Scheduling (Metadata.v, Cluster.v, Node.v, Reconcile.v): a lease excludes
      the other nodes until it expires; under the lease discipline a group has
      one worker; the code of a node keeps that discipline; capacity and plan.
    - Metadata (MetadataWf.v, Metadata.v): integrity of the tables through any
      calls; normalisation.
    - Order book (OrderBook.v, Sequence.v): a synchronised book follows the
      stream, snapshots join it, gaps are detected; export, reload, order guard;
      the delta gate is increasing and idempotent.
    - Snapshots (Snapshot.v, GroupWorker.v): a reference snapshot is committed only
      after it was applied; a refused one blocks its input; the snapshot loop stores
      books that reload.
    - Input manager (InputManager.v): one worker per input at every moment, known
      to the manager unless it is just starting or stopping it; none after a stop;
      a pass leaves exactly the right inputs running.
    - Control plane (Api.v): integrity under any request and any fault, client
      errors change nothing; which answer a request to create a group gets, and
      that a created group is served; the checks of the API agree with those of
      the store.
    - Configuration (Config.v, Entry.v): the layer each field of a configuration
      comes from, the database DSN with its two keys included; .env round trip;
      what loads is what runs.
    - Operations (Migrate.v, Partitions.v, Metrics.v): migrations can be interrupted
      anywhere, whatever their scripts do; partitions are created ahead and never
      dropped early, and a pass without faults retires the recorded expired ones;
      the text of /metrics is what the recorded events amount to.
    - Commands (Commands.v): the readiness check passes exactly when the six
      migrations are applied; the runtime reaches its node only with the loaded
      settings and, unless another process holds the maintenance lock, with the
      partitions the next deltas need.
    - Decoding and codecs (Decode.v, Json.v, Payload.v, Model.v, Query.v): the
      documented payloads are read back, nothing else than an object of known fields
      is accepted, numbers may be spelled as strings; what passes decoding is well
      formed; stream keys, stored levels and cursors are read back.
    - Queries (Query.v): what a page holds, and what a walk over the pages reads.

    Several lemmas show a behaviour the code does not intend; their comments say
    so (a poison write that fails, a redelivered record, pages that skip a row,
    a snapshot ahead of the stream, a stop that times out, an interrupted detach,
    a malformed cursor answered as a server error, erased offsets of a paused
    input, deltas skipped by a start from the order book, a delta copied twice by
    direct writes, a weight too large for its column, a .env file that overrides
    the environment's DSN).

    ** Bounds and fuel

    Integers are [Z]; 64-bit arithmetic is wrapped where it can overflow
    ([wrap64]).  Loops that wait for the environment recurse on the list of its
    answers, so they end when the answers do; [consume] gives its loop one unit of
    fuel per answer and one more, and is proved to return.  FormatInt prints at
    most twenty digits, which every int64 fits.  The client walk of Query.v has
    one step per row and one more.  [precreate_fuel] counts the hours to the horizon,
    and is proved enough; the loops of ParseDuration and Expand consume their text,
    whose length is their fuel.  [parse] of Json.v has twice the length of its
    text and one more, and is proved never to run out.

    ** What is assumed, and what is left out

    A call on a database is one atomic step: statements of one transaction are
    applied to a copy that the commit publishes, and PostgreSQL's row locks
    serialise the writers of a row.  Text is ordered by bytes.  Instants are
    nanoseconds; a session's clock is an argument.  Mutual exclusion of workers
    supposes that no worker outlives its lease ([fresh] in Cluster.v), which the
    code arranges by renewing three times per lifetime and cannot enforce.  Code
    outside the repository is a parameter: the YAML decoder, the order in which Go
    ranges over a map, what PostgreSQL makes of the SQL text of a migration (nothing
    is supposed of it: scripts need not take each other back), the %g format, the
    error texts that statuses carry, what int64 makes of a float64 out of its range,
    which Go leaves to the machine, and the parsed connection string of pgx.  A
    history of EndToEnd.v reads the topic in
    offset order from the committed position or before, as a Kafka consumer group
    does, and keeps times at nanoseconds where timestamptz keeps microseconds.  A status
    report sees an input worker while it waits for a call; a report between two
    assignments of one step is not told apart from the next one.

    Not modelled: the writing of log records, the connections of the pool, the
    broker client, flags, HTTP servers and signals, which are glue over libraries; the YAML and JSON text of configuration
    files and HTTP bodies; waiting times. *)

From stdpp Require Export base gmap strings list sorting.
From Stdlib Require Export ZArith Lia.

#[export] Set Warnings "-clear-no-such-hyp".

(** ** Results

    A fallible Go function returns a value and an [error]; a fallible operation
    of the model returns [Ok v] or [Err e].  The notation [x <- m; k] (written
    with stdpp's arrow) is the early return [if err != nil { return err }]. *)

Inductive result (E A : Type) : Type :=
| Ok (a : A)
| Err (e : E).
Arguments Ok {E A} a.
Arguments Err {E A} e.

#[export] Instance result_ret {E} : MRet (result E) := fun A a => Ok a.

#[export] Instance result_bind {E} : MBind (result E) := fun A B f m =>
  match m with
  | Ok a => f a
  | Err e => Err e
  end.

#[export] Instance result_fmap {E} : FMap (result E) := fun A B f m =>
  match m with
  | Ok a => Ok (f a)
  | Err e => Err e
  end.

Definition is_ok {E A} (r : result E A) : bool :=
  match r with
  | Ok _ => true
  | Err _ => false
  end.

(** Traversal of a slice with early return at the first failing element. *)
Fixpoint result_mapM {E A B} (f : A -> result E B) (l : list A) : result E (list B) :=
  match l with
  | [] => Ok []
  | x :: l' => y ← f x; ys ← result_mapM f l'; Ok (y :: ys)
  end.

(** ** Calls to a server

    A statement or call runs, fails without effect, or (when its acknowledgement
    is lost) takes effect and still reports an error. *)
Inductive outcome := Done | Failed | Lost.

(** ** 64-bit integers

    Go's [int64] (and [int] on the supported platforms) is kept as a [Z]; the
    wrap-around of an arithmetic operation is written out. *)

Definition int64_min : Z := (- 2 ^ 63)%Z.
Definition int64_max : Z := (2 ^ 63 - 1)%Z.

Definition wrap64 (z : Z) : Z := ((z + 2 ^ 63) mod 2 ^ 64 - 2 ^ 63)%Z.

Definition int64 (z : Z) : Prop := (int64_min <= z <= int64_max)%Z.

#[export] Instance int64_dec z : Decision (int64 z).
Proof. unfold int64. apply _. Defined.

(** ** Tactics *)

(** Turn boolean comparisons into propositions. *)
Ltac bool_to_prop :=
  repeat match goal with
  | H : (_ && _)%bool = true |- _ => apply andb_true_iff in H as [? ?]
  | H : (_ && _)%bool = false |- _ => apply andb_false_iff in H
  | H : (_ || _)%bool = true |- _ => apply orb_true_iff in H
  | H : (_ || _)%bool = false |- _ => apply orb_false_iff in H as [? ?]
  | H : negb _ = true |- _ => apply negb_true_iff in H
  | H : negb _ = false |- _ => apply negb_false_iff in H
  | H : (_ <? _)%Z = true |- _ => apply Z.ltb_lt in H
  | H : (_ <? _)%Z = false |- _ => apply Z.ltb_ge in H
  | H : (_ <=? _)%Z = true |- _ => apply Z.leb_le in H
  | H : (_ <=? _)%Z = false |- _ => apply Z.leb_gt in H
  | H : (_ =? _)%Z = true |- _ => apply Z.eqb_eq in H
  | H : (_ =? _)%Z = false |- _ => apply Z.eqb_neq in H
  | H : bool_decide _ = true |- _ => apply bool_decide_eq_true in H
  | H : bool_decide _ = false |- _ => apply bool_decide_eq_false in H
  end.

(** Case analysis on membership in a list written out element by element. *)
Ltac elem_cases H :=
  lazymatch type of H with
  | _ ∈ [] => apply elem_of_nil in H; destruct H
  | _ ∈ _ :: _ => apply elem_of_cons in H as [->|H]; [|elem_cases H]
  end.

(** ** Lemmas on results *)

Lemma bind_Ok {E A B} (m : result E A) (f : A -> result E B) b :
  (m ≫= f) = Ok b -> exists a, m = Ok a /\ f a = Ok b.
Proof. destruct m; [by eauto | done]. Qed.

Lemma result_mapM_length {E A B} (f : A -> result E B) l l' :
  result_mapM f l = Ok l' -> length l' = length l.
Proof.
  revert l'. induction l as [|x l IH]; intros l' H; simpl in H; [by simplify_eq|].
  apply bind_Ok in H as (y & _ & H). apply bind_Ok in H as (ys & Hys & H).
  simplify_eq. simpl. f_equal. by apply IH.
Qed.

Lemma result_mapM_Forall2 {E A B} (f : A -> result E B) l l' :
  result_mapM f l = Ok l' <-> Forall2 (fun x y => f x = Ok y) l l'.
Proof.
  split.
  - revert l'. induction l as [|x l IH]; intros l' H; simpl in H.
    { simplify_eq. constructor. }
    apply bind_Ok in H as (y & Hy & H). apply bind_Ok in H as (ys & Hys & H).
    simplify_eq. constructor; auto.
  - induction 1 as [|x y l l' Hxy _ IH]; [done|].
    simpl. rewrite Hxy. simpl. by rewrite IH.
Qed.

(** ** Lemmas on 64-bit wrap-around *)

Lemma wrap64_small z : int64 z -> wrap64 z = z.
Proof.
  unfold int64, int64_min, int64_max, wrap64. intros [H1 H2].
  rewrite Z.mod_small; lia.
Qed.

Lemma wrap64_range z : int64 (wrap64 z).
Proof.
  unfold int64, int64_min, int64_max, wrap64.
  pose proof (Z.mod_pos_bound (z + 2 ^ 63) (2 ^ 64)). lia.
Qed.

Lemma wrap64_succ z : int64 z -> z <> int64_max -> wrap64 (z + 1) = (z + 1)%Z.
Proof. intros H Hne. apply wrap64_small. unfold int64, int64_min, int64_max in *. lia. Qed.

(** Wrapping an operand first changes nothing. *)
Lemma wrap64_sub x y : wrap64 (wrap64 x - y) = wrap64 (x - y).
Proof.
  unfold wrap64. f_equal.
  replace ((x + 2 ^ 63) mod 2 ^ 64 - 2 ^ 63 - y + 2 ^ 63)%Z with ((x + 2 ^ 63) mod 2 ^ 64 - y)%Z by lia.
  rewrite Zminus_mod_idemp_l. f_equal. lia.
Qed.

(** ** Lemmas on lists and maps *)

Lemma filter_true {A} (f : A -> bool) (l : list A) : (forall x, x ∈ l -> f x = true) -> List.filter f l = l.
Proof.
  induction l as [|a l IH]; intros H; cbn; [done|]. rewrite (H a) by (by left). f_equal. apply IH. intros x Hx. apply H. by right.
Qed.

Lemma filter_none {A} (f : A -> bool) (l : list A) : (forall x, x ∈ l -> f x = false) -> List.filter f l = [].
Proof.
  induction l as [|a l IH]; intros H; cbn; [done|]. rewrite (H a) by (by left). apply IH. intros x Hx. apply H. by right.
Qed.

Lemma filter_perm {A} (f : A -> bool) (l l' : list A) : l ≡ₚ l' -> List.filter f l ≡ₚ List.filter f l'.
Proof.
  induction 1 as [|x l l' _ IH|x y l|]; cbn; [done|destruct (f x); by rewrite IH| |by etrans].
  destruct (f x), (f y); try done. by constructor.
Qed.

(** Deleting the keys of a list, from the back or from the front. *)
Lemma foldr_delete_lookup {A} (ks : list string) (m : gmap string A) k :
  foldr delete m ks !! k = if bool_decide (k ∈ ks) then None else m !! k.
Proof.
  induction ks as [|d ks IH]; cbn; [done|]. destruct (decide (d = k)) as [->|Hne].
  - rewrite lookup_delete_eq. rewrite bool_decide_true; [done|by left].
  - rewrite lookup_delete_ne, IH by done. rewrite (bool_decide_ext (k ∈ d :: ks) (k ∈ ks)); [done|].
    rewrite elem_of_cons. naive_solver.
Qed.

Lemma foldl_delete_lookup {A} (ks : list string) (m : gmap string A) k :
  foldl (fun m d => delete d m) m ks !! k = if bool_decide (k ∈ ks) then None else m !! k.
Proof.
  revert m. induction ks as [|d ks IH]; intros m; cbn; [done|]. rewrite IH. destruct (decide (d = k)) as [->|Hne].
  - rewrite lookup_delete_eq, (bool_decide_true (k ∈ k :: ks)) by (by left). by case_bool_decide.
  - rewrite lookup_delete_ne by done. rewrite (bool_decide_ext (k ∈ d :: ks) (k ∈ ks)); [done|].
    rewrite elem_of_cons. naive_solver.
Qed.

Create HintDb mdb discriminated.
Create Rewrite HintDb mdb_rw.

#[export] Hint Rewrite @length_app @length_map : mdb_rw.
#[export] Hint Resolve wrap64_range : mdb.
