(* ===== verification/GoStd.v ===== *)
(** * GoStd: what the program uses of the Go standard library

    Packages [strings], [strconv] and [time], on byte strings and integers:
    prefix tests, separators, white-space trimming (including the multi-byte
    UTF-8 spaces of [unicode.IsSpace]), decimal conversion with the int64 range
    check, and instants as nanoseconds. *)

From S2P Require Import Prelude.
From Stdlib Require Import Ascii.

(** ** Package [strings] *)

Module strings.

(** [strings.HasPrefix]. *)
Definition HasPrefix (s p : string) : bool := String.prefix p s.

Fixpoint drop (n : nat) (s : string) : string :=
  match n, s with
  | S n', String _ s' => drop n' s'
  | _, _ => s
  end.

(** [strings.TrimPrefix]. *)
Definition TrimPrefix (s p : string) : string :=
  if HasPrefix s p then drop (String.length p) s else s.

(** Does a byte occur in a string? *)
Fixpoint has_byte (c : ascii) (s : string) : bool :=
  match s with
  | EmptyString => false
  | String a s' => Ascii.eqb a c || has_byte c s'
  end.

(** [strings.Cut] on a one-byte separator: the text before and after its first
    occurrence. *)
Fixpoint split_first (c : ascii) (s : string) : option (string * string) :=
  match s with
  | EmptyString => None
  | String a s' =>
      if Ascii.eqb a c then Some (EmptyString, s')
      else match split_first c s' with
           | Some (p, q) => Some (String a p, q)
           | None => None
           end
  end.

(** The two slices around [strings.LastIndexByte]. *)
Fixpoint split_last (c : ascii) (s : string) : option (string * string) :=
  match s with
  | EmptyString => None
  | String a s' =>
      match split_last c s' with
      | Some (p, q) => Some (String a p, q)
      | None => if Ascii.eqb a c then Some (EmptyString, s') else None
      end
  end.

(** The UTF-8 encodings of the runes [unicode.IsSpace] accepts. *)
Definition space_runes : list (list ascii) :=
  Eval compute in map (map ascii_of_nat)
    ([[9]; [10]; [11]; [12]; [13]; [32]; [194; 133]; [194; 160]; [225; 154; 128]]
     ++ map (fun n => [226; 128; n])
          [128; 129; 130; 131; 132; 133; 134; 135; 136; 137; 138; 168; 169; 175]
     ++ [[226; 129; 159]; [227; 128; 128]])%nat.

Fixpoint strip (p l : list ascii) : option (list ascii) :=
  match p, l with
  | [], _ => Some l
  | a :: p', b :: l' => if Ascii.eqb a b then strip p' l' else None
  | _ :: _, [] => None
  end.

Fixpoint strip_any (ps : list (list ascii)) (l : list ascii) : option (list ascii) :=
  match ps with
  | [] => None
  | p :: ps' => match strip p l with
                | Some l' => Some l'
                | None => strip_any ps' l
                end
  end.

Fixpoint trim_front (fuel : nat) (ps : list (list ascii)) (l : list ascii) : list ascii :=
  match fuel with
  | O => l
  | S f => match strip_any ps l with
           | Some l' => trim_front f ps l'
           | None => l
           end
  end.

Definition trim_bytes (l : list ascii) : list ascii :=
  let l1 := trim_front (length l) space_runes l in
  rev (trim_front (length l1) (map (@rev ascii) space_runes) (rev l1)).

(** [strings.TrimSpace]. *)
Definition TrimSpace (s : string) : string :=
  String.string_of_list_ascii (trim_bytes (String.list_ascii_of_string s)).

(** The lower case of one ASCII byte. *)
Definition lower_ascii (c : ascii) : ascii :=
  let n := nat_of_ascii c in
  if ((65 <=? n) && (n <=? 90))%nat then ascii_of_nat (n + 32) else c.

Definition byte_is (n : nat) (c : ascii) : bool := Ascii.eqb c (ascii_of_nat n).

(** [strings.ToLower], up to the images of non-ASCII runes: only U+0130 and
    U+212A have an ASCII image, the other ones are left alone.  That is exact
    for the comparisons with ASCII words the program makes. *)
Fixpoint ToLower (s : string) : string :=
  match s with
  | EmptyString => EmptyString
  | String a EmptyString => String (lower_ascii a) EmptyString
  | String a ((String b s2) as s1) =>
      if byte_is 196 a && byte_is 176 b then String "i"%char (ToLower s2)
      else match s2 with
           | String c s3 =>
               if byte_is 226 a && byte_is 132 b && byte_is 170 c
               then String "k"%char (ToLower s3)
               else String (lower_ascii a) (ToLower s1)
           | EmptyString => String (lower_ascii a) (ToLower s1)
           end
  end.

(** The simple case fold of ASCII letters: U+017F folds to s, U+212A to k. *)
Fixpoint fold_case (s : string) : string :=
  match s with
  | EmptyString => EmptyString
  | String a EmptyString => String (lower_ascii a) EmptyString
  | String a ((String b s2) as s1) =>
      if byte_is 197 a && byte_is 191 b then String "s"%char (fold_case s2)
      else match s2 with
           | String c s3 =>
               if byte_is 226 a && byte_is 132 b && byte_is 170 c
               then String "k"%char (fold_case s3)
               else String (lower_ascii a) (fold_case s1)
           | EmptyString => String (lower_ascii a) (fold_case s1)
           end
  end.

(** [strings.EqualFold], exact when one of the strings is ASCII. *)
Definition EqualFold (s t : string) : bool := bool_decide (fold_case s = fold_case t).

(** [strings.Join]. *)
Fixpoint Join (l : list string) (sep : string) : string :=
  match l with
  | [] => ""
  | [x] => x
  | x :: l' => x +:+ sep +:+ Join l' sep
  end.

End strings.

(** ** Package [strconv] *)

Module strconv.

Definition digit_val (c : ascii) : option Z :=
  let n := Z.of_nat (nat_of_ascii c) in
  if ((48 <=? n) && (n <=? 57))%Z then Some (n - 48)%Z else None.

Definition digit_char (d : Z) : ascii := ascii_of_nat (Z.to_nat (48 + d)).

(** Decimal digits, most significant first, on top of an accumulator. *)
Fixpoint parse_digits (acc : Z) (s : string) : option Z :=
  match s with
  | EmptyString => Some acc
  | String c s' => match digit_val c with
                   | Some d => parse_digits (acc * 10 + d) s'
                   | None => None
                   end
  end.

(** [strconv.ParseInt(s, 10, bits)]: an optional sign, at least one digit, and
    the range check.  [strconv.Atoi] is [ParseInt] at 64 bits. *)
Definition ParseInt (bits : Z) (s : string) : option Z :=
  let digits (neg : bool) (t : string) :=
    match t with
    | EmptyString => None
    | _ => match parse_digits 0 t with
           | Some n =>
               let v := if neg then (- n)%Z else n in
               if ((- 2 ^ (bits - 1) <=? v) && (v <=? 2 ^ (bits - 1) - 1))%Z
               then Some v else None
           | None => None
           end
    end in
  match s with
  | EmptyString => None
  | String c t =>
      if Ascii.eqb c "-"%char then digits true t
      else if Ascii.eqb c "+"%char then digits false t
      else digits false s
  end.

Definition Atoi (s : string) : option Z := ParseInt 64 s.

Fixpoint format_digits (fuel : nat) (n : Z) (acc : string) : string :=
  match fuel with
  | O => acc
  | S f =>
      let acc' := String (digit_char (n mod 10)) acc in
      if (n <? 10)%Z then acc' else format_digits f (n / 10) acc'
  end.

(** Twenty digits are enough for every 64-bit value. *)
Definition int64_digits : nat := 20.

(** [strconv.FormatInt(n, 10)] on an int64. *)
Definition FormatInt (n : Z) : string :=
  if (n <? 0)%Z then String "-"%char (format_digits int64_digits (- n) "")
  else format_digits int64_digits n "".

End strconv.

(** ** Package [time]

    An instant is a number of nanoseconds since the Unix epoch; the zero [Time]
    is January 1 of year 1. *)

Module time.

Definition Time : Type := Z.
Definition Duration : Type := Z.

Definition Nanosecond : Duration := 1%Z.
Definition Microsecond : Duration := (1000 * Nanosecond)%Z.
Definition Millisecond : Duration := (1000 * Microsecond)%Z.
Definition Second : Duration := (1000 * Millisecond)%Z.
Definition Minute : Duration := (60 * Second)%Z.
Definition Hour : Duration := (60 * Minute)%Z.

Definition zero : Time := (-62135596800 * Second)%Z.
Definition IsZero (t : Time) : bool := (t =? zero)%Z.
Definition After (t u : Time) : bool := (u <? t)%Z.
Definition Before (t u : Time) : bool := (t <? u)%Z.

End time.

(** ** Lemmas on [strings] *)

Module strings_facts.
Import strings.

Lemma prefix_app p s : String.prefix p (p +:+ s) = true.
Proof.
  induction p as [|a p IH]; [by destruct s|].
  change (String.prefix (String a p) (String a (p +:+ s)) = true). simpl.
  destruct (ascii_dec a a); [done|congruence].
Qed.

Lemma drop_app p s : drop (String.length p) (p +:+ s) = s.
Proof. induction p as [|a p IH]; [by destruct s|done]. Qed.

Lemma HasPrefix_app p s : HasPrefix (p +:+ s) p = true.
Proof. apply prefix_app. Qed.

Lemma TrimPrefix_app p s : TrimPrefix (p +:+ s) p = s.
Proof. unfold TrimPrefix. rewrite HasPrefix_app. apply drop_app. Qed.

Lemma HasPrefix_split s p : HasPrefix s p = true -> s = p +:+ TrimPrefix s p.
Proof.
  unfold TrimPrefix. intros H. rewrite H. revert s H.
  induction p as [|a p IH]; intros s H; [by destruct s|].
  destruct s as [|b s]; [done|]. unfold HasPrefix in H. simpl in H.
  destruct (ascii_dec a b) as [->|]; [|done].
  simpl. change (String b s = String b (p +:+ drop (String.length p) s)).
  f_equal. by apply IH.
Qed.

Lemma app_cons a s t : (String a s) +:+ t = String a (s +:+ t).
Proof. done. Qed.

Lemma app_nil s : "" +:+ s = s.
Proof. done. Qed.

Lemma app_nil_r s : s +:+ "" = s.
Proof. induction s as [|a s IH]; [done|]. by rewrite app_cons, IH. Qed.

Lemma app_assoc s t u : (s +:+ t) +:+ u = s +:+ t +:+ u.
Proof. induction s as [|a s IH]; [done|]. by rewrite !app_cons, IH. Qed.

Lemma has_byte_app c s t : has_byte c (s +:+ t) = has_byte c s || has_byte c t.
Proof.
  induction s as [|a s IH]; [done|]. rewrite app_cons. simpl. rewrite IH.
  by rewrite orb_assoc.
Qed.

Lemma split_first_app c s t :
  has_byte c s = false -> split_first c (s +:+ String c t) = Some (s, t).
Proof.
  induction s as [|a s IH]; intros H.
  - rewrite app_nil. simpl. by rewrite Ascii.eqb_refl.
  - rewrite app_cons. simpl in *. apply orb_false_iff in H as [Ha Hs].
    rewrite Ha, IH; done.
Qed.

Lemma split_last_none c s : has_byte c s = false -> split_last c s = None.
Proof.
  induction s as [|a s IH]; intros H; [done|].
  simpl in *. apply orb_false_iff in H as [Ha Hs]. by rewrite IH, Ha.
Qed.

Lemma split_last_app c s t :
  has_byte c t = false -> split_last c (s +:+ String c t) = Some (s, t).
Proof.
  intros H. induction s as [|a s IH].
  - rewrite app_nil. simpl. rewrite split_last_none by done. by rewrite Ascii.eqb_refl.
  - rewrite app_cons. simpl. by rewrite IH.
Qed.

(** Two strings around a separator that the right (or left) parts do not
    contain are determined by their concatenation. *)
Lemma sep_last_inj c s1 t1 s2 t2 :
  has_byte c t1 = false -> has_byte c t2 = false ->
  s1 +:+ String c t1 = s2 +:+ String c t2 -> s1 = s2 /\ t1 = t2.
Proof.
  intros H1 H2 Heq. apply (f_equal (split_last c)) in Heq.
  rewrite !split_last_app in Heq by done. by simplify_eq.
Qed.

(** *** Trimming twice is trimming once *)

Lemma strip_length p l l' : strip p l = Some l' -> length l = (length p + length l')%nat.
Proof.
  revert l. induction p as [|a p IH]; intros l; simpl; [by intros [= ->]|].
  destruct l as [|b l]; [done|]. destruct (Ascii.eqb a b); [|done].
  intros H. simpl. by rewrite (IH l H).
Qed.

Lemma strip_any_shorter ps l l' :
  Forall (fun p => p <> []) ps -> strip_any ps l = Some l' -> (length l' < length l)%nat.
Proof.
  induction 1 as [|p ps Hp _ IH]; simpl; [done|].
  destruct (strip p l) as [l1|] eqn:E; [|done]. intros [= <-].
  apply strip_length in E. destruct p; [done|]. simpl in E. lia.
Qed.

(** With enough fuel, what is left starts with no space. *)
Lemma trim_front_stops fuel ps l :
  Forall (fun p => p <> []) ps -> (length l <= fuel)%nat ->
  strip_any ps (trim_front fuel ps l) = None.
Proof.
  intros Hps. revert l. induction fuel as [|f IH]; intros l Hl; simpl.
  - destruct (strip_any ps l) as [l'|] eqn:E; [|done].
    apply strip_any_shorter in E; [lia|done].
  - destruct (strip_any ps l) as [l'|] eqn:E; [|done].
    apply IH. apply strip_any_shorter in E; [lia|done].
Qed.

Lemma trim_front_id fuel ps l : strip_any ps l = None -> trim_front fuel ps l = l.
Proof. destruct fuel; simpl; [done|]. by intros ->. Qed.

(** A prefix of a list that starts with no space starts with none either. *)
Lemma strip_app p l t l' : strip p l = Some l' -> strip p (l ++ t) = Some (l' ++ t).
Proof.
  revert l. induction p as [|a p IH]; intros l; simpl; [by intros [= ->]|].
  destruct l as [|b l]; [done|]. simpl. destruct (Ascii.eqb a b); [apply IH|done].
Qed.

Lemma strip_any_prefix ps l t : strip_any ps (l ++ t) = None -> strip_any ps l = None.
Proof.
  induction ps as [|p ps IH]; simpl; [done|].
  destruct (strip p l) as [l'|] eqn:E; [|destruct (strip p (l ++ t)); [done|exact IH]].
  by rewrite (strip_app p l t l' E).
Qed.

Lemma strip_suffix p l l' : strip p l = Some l' -> l = p ++ l'.
Proof.
  revert l. induction p as [|a p IH]; intros l; simpl; [by intros [= ->]|].
  destruct l as [|b l]; [done|]. destruct (Ascii.eqb_spec a b) as [->|]; [|done].
  intros H. by rewrite (IH l H).
Qed.

Lemma trim_front_suffix fuel ps l : exists t, l = t ++ trim_front fuel ps l.
Proof.
  revert l. induction fuel as [|f IH]; intros l; simpl; [by exists []|].
  destruct (strip_any ps l) as [l1|] eqn:E; [|by exists []].
  destruct (IH l1) as [t Ht].
  assert (exists q, l = q ++ l1) as [q Hq].
  { clear -E. induction ps as [|p ps IH]; simpl in E; [done|].
    destruct (strip p l) as [l2|] eqn:Ep; [|by apply IH].
    injection E as <-. exists p. by apply strip_suffix. }
  exists (q ++ t). by rewrite Hq, <- List.app_assoc, <- Ht.
Qed.

Lemma space_runes_nonempty : Forall (fun p => p <> []) space_runes.
Proof. repeat constructor; done. Qed.

Lemma trim_bytes_idem l : trim_bytes (trim_bytes l) = trim_bytes l.
Proof.
  set (ps := space_runes). set (rs := map (@rev ascii) space_runes).
  assert (Forall (fun p : list ascii => p <> []) rs) as Hrs.
  { unfold rs. rewrite Forall_map. eapply Forall_impl; [exact space_runes_nonempty|].
    intros p Hp E. apply Hp. rewrite <- (rev_involutive p), E. done. }
  unfold trim_bytes. fold ps rs. set (l1 := trim_front (length l) ps l).
  set (m := trim_front (length l1) rs (rev l1)).
  assert (strip_any ps l1 = None) as H1 by (by apply trim_front_stops; [apply space_runes_nonempty|]).
  assert (strip_any rs m = None) as H2.
  { apply trim_front_stops; [done|]. by rewrite length_rev. }
  assert (strip_any ps (rev m) = None) as H3.
  { destruct (trim_front_suffix (length l1) rs (rev l1)) as [t Ht]. fold m in Ht.
    apply (strip_any_prefix ps (rev m) (rev t)).
    rewrite <- rev_app_distr, <- Ht, rev_involutive. exact H1. }
  rewrite (trim_front_id _ ps) by done. rewrite rev_involutive.
  by rewrite (trim_front_id _ rs) by done.
Qed.

Lemma TrimSpace_idem s : TrimSpace (TrimSpace s) = TrimSpace s.
Proof.
  unfold TrimSpace. by rewrite String.list_ascii_of_string_of_list_ascii, trim_bytes_idem.
Qed.

End strings_facts.

(** ** Lemmas on [strconv] *)

(** Byte-wise order of strings: Go's [<=] and [sort.Strings]. *)
Definition string_le (s t : string) : Prop := String.leb s t = true.

#[export] Instance string_le_dec : RelDecision string_le.
Proof. intros s t. unfold string_le. apply _. Defined.

Lemma ascii_compare_N a b : Ascii.compare a b = N.compare (N_of_ascii a) (N_of_ascii b).
Proof. done. Qed.

Lemma string_le_cons a b s t :
  string_le (String a s) (String b t) <->
  (N_of_ascii a < N_of_ascii b)%N \/ (a = b /\ string_le s t).
Proof.
  unfold string_le, String.leb. cbn [String.compare]. rewrite ascii_compare_N.
  destruct (N.compare_spec (N_of_ascii a) (N_of_ascii b)) as [E|E|E].
  - assert (a = b) as <- by (rewrite <- (ascii_N_embedding a), E; apply ascii_N_embedding).
    split; [by right|]. intros [H|[_ H]]; [lia|done].
  - split; [by left|done].
  - split; [done|]. intros [H|[-> _]]; lia.
Qed.

#[export] Instance string_le_total : Total string_le.
Proof. intros s t. apply String.leb_total. Qed.

#[export] Instance string_le_trans : Transitive string_le.
Proof.
  intros s. induction s as [|a s IH]; intros [|b t] [|c u]; try done.
  rewrite !string_le_cons. intros [H1|[-> H1]] [H2|[-> H2]]; [left; lia|by left|by left|].
  right. split; [done|]. by eapply IH.
Qed.

#[export] Instance string_le_antisymm : AntiSymm (=) string_le.
Proof. intros s t. apply String.leb_antisym. Qed.

(** [sort.Strings]. *)
Definition sort_Strings (l : list string) : list string := merge_sort string_le l.

Module strconv_facts.
Import strconv.

(** Enumerate the ten decimal digits. *)
Ltac digit_cases d :=
  let H := fresh in
  intros H;
  assert (d = 0 \/ d = 1 \/ d = 2 \/ d = 3 \/ d = 4 \/ d = 5 \/ d = 6 \/
    d = 7 \/ d = 8 \/ d = 9)%Z as Hd by lia;
  by repeat destruct Hd as [->|Hd]; [..|subst d].

Lemma digit_val_char d : (0 <= d < 10)%Z -> digit_val (digit_char d) = Some d.
Proof. digit_cases d. Qed.

Lemma parse_format_digits fuel n t :
  (0 <= n < 10 ^ Z.of_nat fuel)%Z ->
  parse_digits 0 (format_digits fuel n t) = parse_digits n t.
Proof.
  revert n t. induction fuel as [|f IH]; intros n t Hn.
  { simpl in Hn. assert (n = 0)%Z as -> by lia. done. }
  cbn [format_digits]. destruct (Z.ltb_spec n 10).
  - cbn [parse_digits]. rewrite Z.mod_small by lia. rewrite digit_val_char by lia. done.
  - rewrite Nat2Z.inj_succ, Z.pow_succ_r in Hn by lia.
    assert (0 <= n / 10 < 10 ^ Z.of_nat f)%Z as Hq.
    { split; [apply Z.div_pos; lia|]. apply Z.div_lt_upper_bound; lia. }
    rewrite (IH (n / 10)%Z) by exact Hq. cbn [parse_digits].
    rewrite digit_val_char by (apply Z.mod_pos_bound; lia).
    f_equal. pose proof (Z.div_mod n 10). lia.
Qed.

Lemma format_digits_nonempty fuel n t :
  (0 < fuel)%nat ->
  exists c s, format_digits fuel n t = String c s /\ exists d, (0 <= d < 10)%Z /\ c = digit_char d.
Proof.
  destruct fuel as [|f]; [lia|]. intros _. revert n t.
  induction f as [|f IH]; intros n t; cbn [format_digits].
  - destruct (n <? 10)%Z; do 2 eexists; (split; [reflexivity|]);
      exists (n mod 10)%Z; (split; [apply Z.mod_pos_bound; lia|done]).
  - destruct (n <? 10)%Z; [|apply IH].
    do 2 eexists. split; [reflexivity|]. exists (n mod 10)%Z.
    split; [apply Z.mod_pos_bound; lia|done].
Qed.

Lemma digit_char_not_sign d :
  (0 <= d < 10)%Z ->
  Ascii.eqb (digit_char d) "-"%char = false /\ Ascii.eqb (digit_char d) "+"%char = false.
Proof. digit_cases d. Qed.

(** [ParseInt] reads back what [FormatInt] prints, on every int64. *)
Lemma ParseInt_FormatInt n : int64 n -> ParseInt 64 (FormatInt n) = Some n.
Proof.
  unfold int64, int64_min, int64_max. intros Hn.
  assert (10 ^ Z.of_nat int64_digits = 100000000000000000000)%Z as Hp by reflexivity.
  unfold FormatInt. destruct (Z.ltb_spec n 0).
  - unfold ParseInt. cbn [Ascii.eqb]. simpl (Ascii.eqb _ _).
    destruct (format_digits_nonempty int64_digits (- n) "") as (c & s & E & _); [cbv; lia|].
    rewrite E. rewrite <- E.
    rewrite parse_format_digits by lia. cbn [parse_digits].
    rewrite Z.opp_involutive.
    replace ((- 2 ^ (64 - 1) <=? n) && (n <=? 2 ^ (64 - 1) - 1))%Z with true; [done|].
    symmetry. apply andb_true_iff. split; apply Z.leb_le; lia.
  - unfold ParseInt.
    destruct (format_digits_nonempty int64_digits n "") as (c & s & E & d & Hd & ->); [cbv; lia|].
    rewrite E. destruct (digit_char_not_sign d Hd) as [-> ->].
    rewrite <- E. rewrite parse_format_digits by lia. cbn [parse_digits].
    replace ((- 2 ^ (64 - 1) <=? n) && (n <=? 2 ^ (64 - 1) - 1))%Z with true; [done|].
    symmetry. apply andb_true_iff. split; apply Z.leb_le; lia.
Qed.

(** A digit is never the cursor separator. *)
Lemma digit_char_not_bar d : (0 <= d < 10)%Z -> Ascii.eqb (digit_char d) "|"%char = false.
Proof. digit_cases d. Qed.

Lemma format_digits_no_bar fuel n t :
  strings.has_byte "|"%char t = false ->
  strings.has_byte "|"%char (format_digits fuel n t) = false.
Proof.
  revert n t. induction fuel as [|f IH]; intros n t Ht; [done|].
  cbn [format_digits].
  assert (strings.has_byte "|"%char (String (digit_char (n mod 10)) t) = false) as Hc.
  { cbn [strings.has_byte]. rewrite digit_char_not_bar; [done|].
    apply Z.mod_pos_bound; lia. }
  destruct (n <? 10)%Z; [done|]. by apply IH.
Qed.

Lemma FormatInt_no_bar n : strings.has_byte "|"%char (FormatInt n) = false.
Proof.
  unfold FormatInt. destruct (n <? 0)%Z; [cbn [strings.has_byte]|];
    by rewrite format_digits_no_bar.
Qed.

End strconv_facts.
