(* ===== verification/Rfc3339.v ===== *)
(** * Instants as RFC 3339 text

    The part of Go's package time that the cursors and the query API use:
    [Time.Format] and [time.Parse] with the layout [time.RFC3339Nano], on the
    proleptic Gregorian calendar.  An instant is formatted in a zone given by
    its offset from UTC in minutes. *)

From Stdlib Require Import Ascii.
From S2P Require Import Prelude GoStd.

Open Scope Z_scope.

(** ** The calendar *)

(** Year, month and day of a number of days since 1970-01-01. *)
Definition year_of_doe (doe : Z) : Z * Z :=
  let c := Z.min 3 (doe / 36524) in
  let r := doe - 36524 * c in
  let q := r / 1461 in
  let s := r - 1461 * q in
  let y := Z.min 3 (s / 365) in
  (100 * c + 4 * q + y, s - 365 * y).

Definition month_of_doy (doy : Z) : Z * Z :=
  let mp := (5 * doy + 2) / 153 in
  ((if mp <? 10 then mp + 3 else mp - 9), doy - (153 * mp + 2) / 5 + 1).

(** Years here begin on March 1st, eras of 400 years on March 1st of a year 400 k. *)
Definition civil_from_days (days : Z) : Z * Z * Z :=
  let era := (days + 719468) / 146097 in
  let '(yoe, doy) := year_of_doe ((days + 719468) mod 146097) in
  let '(m, d) := month_of_doy doy in
  (yoe + era * 400 + (if m <=? 2 then 1 else 0), m, d).

Definition doy_of_month (m d : Z) : Z := (153 * (m + (if 2 <? m then -3 else 9)) + 2) / 5 + d - 1.

Definition days_from_civil (y m d : Z) : Z :=
  let y' := y - (if m <=? 2 then 1 else 0) in
  let yoe := y' mod 400 in
  y' / 400 * 146097 + (yoe * 365 + yoe / 4 - yoe / 100 + doy_of_month m d) - 719468.

Definition is_leap (y : Z) : bool := (y mod 4 =? 0) && (negb (y mod 100 =? 0) || (y mod 400 =? 0)).

(** [daysIn] *)
Definition days_in (m y : Z) : Z :=
  if m =? 2 then (if is_leap y then 29 else 28)
  else if (m =? 4) || (m =? 6) || (m =? 9) || (m =? 11) then 30 else 31.

(** ** Formatting *)

Definition day_ns : Z := 24 * time.Hour.

(** [n] in [k] decimal digits. *)
Fixpoint pad (k : nat) (n : Z) (acc : string) : string :=
  match k with
  | O => acc
  | S k' => pad k' (n / 10) (String (strconv.digit_char (n mod 10)) acc)
  end.

(** The digits of a fraction in [k] places, without trailing zeros. *)
Fixpoint frac_digits (k : nat) (n : Z) : string :=
  if n =? 0 then ""
  else match k with
       | O => ""
       | S k' => String (strconv.digit_char (n / 10 ^ Z.of_nat k')) (frac_digits k' (n mod 10 ^ Z.of_nat k'))
       end.

Definition format_zone (off : Z) : string :=
  if off =? 0 then "Z"
  else (if off <? 0 then "-" else "+") +:+ pad 2 (Z.abs off / 60) (":" +:+ pad 2 (Z.abs off mod 60) "").

(** [t.In(zone).Format(time.RFC3339Nano)], for the years 0 to 9999. *)
Definition Format (off : Z) (t : time.Time) : string :=
  let l := t + off * time.Minute in
  let '(y, m, d) := civil_from_days (l / day_ns) in
  let ns := l mod day_ns in
  let frac := ns mod time.Second in
  pad 4 y ("-" +:+ pad 2 m ("-" +:+ pad 2 d ("T" +:+
  pad 2 (ns / time.Hour) (":" +:+ pad 2 (ns / time.Minute mod 60) (":" +:+ pad 2 (ns / time.Second mod 60)
    ((if frac =? 0 then "" else String "."%char (frac_digits 9 frac)) +:+ format_zone off)))))).

(** ** Parsing *)

Inductive parse_error := ErrSyntax | ErrRange.

(** [getnum] with fixed width: [k] digits. *)
Fixpoint take_digits (k : nat) (acc : Z) (s : string) : result parse_error (Z * string) :=
  match k with
  | O => Ok (acc, s)
  | S k' => match s with
            | EmptyString => Err ErrSyntax
            | String c s' => match strconv.digit_val c with
                             | Some v => take_digits k' (acc * 10 + v) s'
                             | None => Err ErrSyntax
                             end
            end
  end.

(** [getnum] without fixed width: one digit, or two. *)
Definition take_one_or_two (s : string) : result parse_error (Z * string) :=
  match take_digits 2 0 s with
  | Ok r => Ok r
  | Err _ => take_digits 1 0 s
  end.

Definition expect (c : ascii) (s : string) : result parse_error string :=
  match s with
  | String c' s' => if Ascii.eqb c c' then Ok s' else Err ErrSyntax
  | EmptyString => Err ErrSyntax
  end.

Definition in_range (lo hi n : Z) : result parse_error () :=
  if (lo <=? n) && (n <=? hi) then Ok () else Err ErrRange.

(** The digits after the separator: the first [k] count, the others are dropped. *)
Fixpoint take_frac (k : nat) (acc : Z) (s : string) : Z * string :=
  match s with
  | String c s' =>
      match strconv.digit_val c with
      | Some v => match k with
                  | O => take_frac O acc s'
                  | S k' => take_frac k' (acc + v * 10 ^ Z.of_nat k') s'
                  end
      | None => (acc, s)
      end
  | EmptyString => (acc, s)
  end.

(** An optional fraction: a point or comma and at least one digit. *)
Definition parse_frac (s : string) : Z * string :=
  match s with
  | String p (String c _ as s') =>
      if (Ascii.eqb p "."%char || Ascii.eqb p ","%char) && bool_decide (is_Some (strconv.digit_val c))
      then take_frac 9 0 s' else (0, s)
  | _ => (0, s)
  end.

(** The zone, as an offset in minutes. *)
Definition parse_zone (s : string) : result parse_error (Z * string) :=
  match s with
  | EmptyString => Err ErrSyntax
  | String c s' =>
      if Ascii.eqb c "Z"%char then Ok (0, s')
      else
        '(hr, s1) ← take_digits 2 0 s';
        s2 ← expect ":"%char s1;
        '(mm, s3) ← take_digits 2 0 s2;
        _ ← in_range 0 24 hr;
        _ ← in_range 0 60 mm;
        if Ascii.eqb c "+"%char then Ok (hr * 60 + mm, s3)
        else if Ascii.eqb c "-"%char then Ok (- (hr * 60 + mm), s3)
        else Err ErrSyntax
  end.

(** [time.Parse(time.RFC3339Nano, s)] *)
Definition Parse (s : string) : result parse_error time.Time :=
  '(y, s) ← take_digits 4 0 s; s ← expect "-"%char s;
  '(m, s) ← take_digits 2 0 s; _ ← in_range 1 12 m; s ← expect "-"%char s;
  '(d, s) ← take_digits 2 0 s; s ← expect "T"%char s;
  '(hh, s) ← take_one_or_two s; _ ← in_range 0 23 hh; s ← expect ":"%char s;
  '(mi, s) ← take_digits 2 0 s; _ ← in_range 0 59 mi; s ← expect ":"%char s;
  '(ss, s) ← take_digits 2 0 s; _ ← in_range 0 59 ss;
  let '(ns, s) := parse_frac s in
  '(off, s) ← parse_zone s;
  if bool_decide (s = "") then
    _ ← in_range 1 (days_in m y) d;
    Ok (days_from_civil y m d * day_ns + hh * time.Hour + mi * time.Minute + ss * time.Second + ns - off * time.Minute)
  else Err ErrSyntax.

(** ** The calendar is a bijection *)

Lemma year_of_doe_ok doe yoe doy :
  0 <= doe < 146097 -> year_of_doe doe = (yoe, doy) ->
  0 <= yoe < 400 /\ 0 <= doy <= 365 /\ yoe * 365 + yoe / 4 - yoe / 100 + doy = doe /\
  (doy = 365 -> is_leap (yoe + 1) = true) /\ (146037 <= doe <-> yoe = 399 /\ 306 <= doy).
Proof.
  intros Hd. unfold year_of_doe. set (c := Z.min 3 (doe / 36524)). set (r := doe - 36524 * c).
  set (q := r / 1461). set (s := r - 1461 * q). set (y := Z.min 3 (s / 365)). intros [= <- <-].
  assert (0 <= c <= 3 /\ 0 <= r <= 36524 /\ (c < 3 -> r < 36524)) as (Hc & Hr & Hr3) by (unfold r, c; Z.div_mod_to_equations; lia).
  assert (0 <= q <= 24 /\ 0 <= s <= 1460) as (Hq & Hs) by (unfold s, q; Z.div_mod_to_equations; lia).
  assert (0 <= y <= 3 /\ 0 <= s - 365 * y <= 365 /\ (s - 365 * y = 365 -> y = 3)) as (Hy & Hdoy & Hy3) by (unfold y; Z.div_mod_to_equations; lia).
  assert (doe = 36524 * c + 1461 * q + s /\ r = 1461 * q + s) as [Hdoe Hrs] by (unfold s, r; lia).
  clearbody y s q r c. subst doe r.
  assert ((100 * c + 4 * q + y) / 4 = 25 * c + q) as E4 by (symmetry; apply (Z.div_unique _ 4 _ y); lia).
  assert ((100 * c + 4 * q + y) / 100 = c) as E100 by (symmetry; apply (Z.div_unique _ 100 _ (4 * q + y)); lia).
  rewrite E4, E100. split_and!; try lia.
  intros H365. pose proof (Hy3 H365) as ->. unfold is_leap.
  assert ((100 * c + 4 * q + 3 + 1) mod 4 = 0) as -> by (symmetry; apply (Z.mod_unique _ 4 (25 * c + q + 1)); lia).
  cbn. destruct (Z.eq_dec q 24) as [->|Hq24].
  - assert (c = 3) as -> by lia. reflexivity.
  - assert ((100 * c + 4 * q + 3 + 1) mod 100 = 4 * q + 4) as -> by (symmetry; apply (Z.mod_unique _ 100 c); lia).
    by rewrite (proj2 (Z.eqb_neq (4 * q + 4) 0)) by lia.
Qed.

(** Every day of a year, checked one by one. *)
Definition doy_ok (doy : Z) : bool :=
  let '(m, d) := month_of_doy doy in
  (1 <=? m) && (m <=? 12) && (1 <=? d) && (doy_of_month m d =? doy) && Bool.eqb (m <=? 2) (306 <=? doy) &&
  (d <=? if m =? 2 then (if doy =? 365 then 29 else 28) else days_in m 0).

Lemma doys_checked : forallb doy_ok (map Z.of_nat (seq 0 366)) = true.
Proof. vm_compute. reflexivity. Qed.

Lemma doy_checked doy : 0 <= doy <= 365 -> doy_ok doy = true.
Proof.
  intros H. pose proof (proj1 (forallb_forall _ _) doys_checked) as Hall. apply Hall.
  apply in_map_iff. exists (Z.to_nat doy). split; [lia|]. apply in_seq. lia.
Qed.

Lemma is_leap_era y k : is_leap (y + k * 400) = is_leap y.
Proof.
  unfold is_leap.
  assert ((y + k * 400) mod 4 = y mod 4) as -> by (replace (k * 400) with (k * 100 * 4) by lia; apply Z_mod_plus_full).
  assert ((y + k * 400) mod 100 = y mod 100) as -> by (replace (k * 400) with (k * 4 * 100) by lia; apply Z_mod_plus_full).
  by rewrite Z_mod_plus_full.
Qed.

Lemma days_in_le m y : days_in m y <= 31.
Proof. unfold days_in. repeat case_match; lia. Qed.

Lemma civil_roundtrip days y m d :
  civil_from_days days = (y, m, d) ->
  days_from_civil y m d = days /\ 1 <= m <= 12 /\ 1 <= d <= days_in m y /\
  (-719528 <= days <= 2932896 -> 0 <= y <= 9999).
Proof.
  unfold civil_from_days. pose proof (Z.mod_pos_bound (days + 719468) 146097 ltac:(lia)) as Hdoe.
  pose proof (Z.div_mod (days + 719468) 146097 ltac:(lia)) as Hdm.
  set (doe := (days + 719468) mod 146097) in *. set (era := (days + 719468) / 146097) in *. clearbody doe era.
  destruct (year_of_doe doe) as [yoe doy] eqn:Ey.
  destruct (year_of_doe_ok _ _ _ Hdoe Ey) as (Hyoe & Hdoy & Hsum & Hleap & Hlast).
  pose proof (doy_checked doy Hdoy) as Hok. unfold doy_ok in Hok. destruct (month_of_doy doy) as [m' d'].
  intros [= <- <- <-]. apply andb_true_iff in Hok as [Hok Hd']. apply andb_true_iff in Hok as [Hok Hm2].
  apply eqb_prop in Hm2. bool_to_prop. unfold days_from_civil. set (c := if m' <=? 2 then 1 else 0) in *.
  replace (yoe + era * 400 + c - c) with (yoe + era * 400) by lia.
  rewrite Z.div_add, Z_mod_plus_full, (Z.div_small yoe), (Z.mod_small yoe) by lia. cbv zeta.
  assert (d' <= days_in m' (yoe + era * 400 + c)) as Hdays.
  { unfold days_in in *. destruct (Z.eqb_spec m' 2) as [->|Hne]; [|done]. unfold c. cbn.
    replace (yoe + era * 400 + 1) with (yoe + 1 + era * 400) by lia. rewrite is_leap_era.
    destruct (Z.eqb_spec doy 365) as [->|Hn]; [by rewrite Hleap|]. destruct (is_leap _); lia. }
  split_and!; try lia; intros Hrange; unfold c in *;
    destruct (Z.leb_spec m' 2), (Z.leb_spec 306 doy); try done; lia.
Qed.

(** ** What is printed is read back *)

Lemma take_digits_pad k j a n acc :
  0 <= n < 10 ^ Z.of_nat k ->
  take_digits (k + j) a (pad k n acc) = take_digits j (a * 10 ^ Z.of_nat k + n) acc.
Proof.
  revert j n acc. induction k as [|k IH]; intros j n acc Hn.
  { cbn in *. f_equal. lia. }
  cbn [pad]. rewrite Nat2Z.inj_succ, Z.pow_succ_r in Hn by lia.
  replace (S k + j)%nat with (k + S j)%nat by lia. rewrite IH.
  - cbn [take_digits]. rewrite strconv_facts.digit_val_char by (apply Z.mod_pos_bound; lia). f_equal.
    rewrite Nat2Z.inj_succ, Z.pow_succ_r by lia. pose proof (Z.div_mod n 10 ltac:(lia)). lia.
  - split; [apply Z.div_pos; lia|apply Z.div_lt_upper_bound; lia].
Qed.

Lemma take_pad k n acc : 0 <= n < 10 ^ Z.of_nat k -> take_digits k 0 (pad k n acc) = Ok (n, acc).
Proof. intros Hn. rewrite <- (Nat.add_0_r k) at 1. by rewrite take_digits_pad. Qed.

Lemma in_range_ok lo hi n : lo <= n <= hi -> in_range lo hi n = Ok ().
Proof. intros H. unfold in_range. by rewrite (proj2 (Z.leb_le lo n)), (proj2 (Z.leb_le n hi)) by lia. Qed.

Lemma String_app c s t : String c s +:+ t = String c (s +:+ t).
Proof. done. Qed.

(** What follows a number is not a digit. *)
Definition no_digit (s : string) : Prop :=
  match s with
  | String c _ => strconv.digit_val c = None
  | EmptyString => True
  end.

Lemma take_frac_stop k a rest : no_digit rest -> take_frac k a rest = (a, rest).
Proof. destruct rest as [|c s]; intros Hr; [by destruct k|]. destruct k; cbn [take_frac]; by rewrite Hr. Qed.

Lemma take_frac_digits k a n rest :
  0 <= n < 10 ^ Z.of_nat k -> no_digit rest -> take_frac k a (frac_digits k n +:+ rest) = (a + n, rest).
Proof.
  revert a n. induction k as [|k IH]; intros a n Hn Hr; cbn [frac_digits].
  - assert (n = 0) as -> by (cbn in Hn; lia). rewrite Z.add_0_r. by apply take_frac_stop.
  - destruct (Z.eqb_spec n 0) as [->|Hne].
    + rewrite Z.add_0_r. by apply take_frac_stop.
    + rewrite Nat2Z.inj_succ, Z.pow_succ_r in Hn by lia.
      assert (0 < 10 ^ Z.of_nat k) as Hp by (apply Z.pow_pos_nonneg; lia).
      rewrite String_app. cbn [take_frac]. rewrite strconv_facts.digit_val_char.
      * rewrite IH; [|apply Z.mod_pos_bound; lia|done]. f_equal.
        pose proof (Z.div_mod n (10 ^ Z.of_nat k) ltac:(lia)). lia.
      * split; [apply Z.div_pos; lia|apply Z.div_lt_upper_bound; lia].
Qed.

Lemma parse_frac_format n rest :
  0 <= n < time.Second -> no_digit rest ->
  match rest with String p _ => Ascii.eqb p "."%char = false /\ Ascii.eqb p ","%char = false | _ => True end ->
  parse_frac ((if n =? 0 then "" else String "."%char (frac_digits 9 n)) +:+ rest) = (n, rest).
Proof.
  intros Hn Hr Hsep. destruct (Z.eqb_spec n 0) as [->|Hne].
  - change (parse_frac rest = (0, rest)). destruct rest as [|p [|c s]]; [done..|].
    unfold parse_frac. by destruct Hsep as [-> ->].
  - rewrite String_app. cbn [parse_frac]. pose proof (take_frac_digits 9 0 n rest Hn Hr) as H. rewrite Z.add_0_l in H.
    assert (exists c s, frac_digits 9 n +:+ rest = String c s /\ is_Some (strconv.digit_val c)) as (c & s & E & Hd).
    { cbn [frac_digits]. rewrite (proj2 (Z.eqb_neq n 0)) by done. do 2 eexists. split; [reflexivity|].
      rewrite strconv_facts.digit_val_char; [by eexists|]. unfold time.Second, time.Millisecond, time.Microsecond, time.Nanosecond in Hn.
      change (10 ^ Z.of_nat 8) with 100000000. split; [apply Z.div_pos; lia|apply Z.div_lt_upper_bound; lia]. }
    rewrite E in *. cbn. rewrite bool_decide_true by done. exact H.
Qed.

Lemma format_zone_shape off rest :
  no_digit (format_zone off +:+ rest) /\
  match format_zone off +:+ rest with String p _ => Ascii.eqb p "."%char = false /\ Ascii.eqb p ","%char = false | _ => True end.
Proof. unfold format_zone. destruct (off =? 0); [done|]. by destruct (off <? 0). Qed.

Lemma pad_app k n acc rest : pad k n acc +:+ rest = pad k n (acc +:+ rest).
Proof. revert n acc. induction k as [|k IH]; intros n acc; cbn [pad]; [done|]. by rewrite IH. Qed.

#[local] Arguments pad : simpl never.
#[local] Arguments take_digits : simpl never.
#[local] Arguments in_range : simpl never.
#[local] Arguments take_one_or_two : simpl never.

Lemma lit_app c s : String c "" +:+ s = String c s.
Proof. done. Qed.

Lemma expect_hit c s : expect c (String c "" +:+ s) = Ok s.
Proof. rewrite lit_app. cbn. by rewrite Ascii.eqb_refl. Qed.

#[local] Arguments expect : simpl never.

Lemma parse_zone_format off : -1440 <= off <= 1440 -> parse_zone (format_zone off) = Ok (off, "").
Proof.
  intros Ho. unfold format_zone. destruct (Z.eqb_spec off 0) as [->|Hne]; [reflexivity|].
  pose proof (Z.div_mod (Z.abs off) 60 ltac:(lia)) as Hdm. pose proof (Z.mod_pos_bound (Z.abs off) 60 ltac:(lia)) as Hm.
  assert (0 <= Z.abs off / 60 <= 24) as Hq by (Z.div_mod_to_equations; lia).
  set (q := Z.abs off / 60) in *. set (r := Z.abs off mod 60) in *. clearbody q r.
  assert (forall c, Ascii.eqb c "Z"%char = false ->
    parse_zone (String c (pad 2 q (":" +:+ pad 2 r ""))) =
    if Ascii.eqb c "+"%char then Ok (q * 60 + r, "")
    else if Ascii.eqb c "-"%char then Ok (- (q * 60 + r), "") else Err ErrSyntax) as H.
  { intros c Hc. unfold parse_zone. rewrite Hc. rewrite take_pad by (cbn; lia). cbn.
    rewrite expect_hit. cbn. rewrite (take_pad 2) by (cbn; lia). cbn. by rewrite !in_range_ok by lia. }
  destruct (Z.ltb_spec off 0); rewrite lit_app, H by done; cbn; do 2 f_equal; lia.
Qed.

Lemma take_one_or_two_pad n acc : 0 <= n < 100 -> take_one_or_two (pad 2 n acc) = Ok (n, acc).
Proof. intros Hn. unfold take_one_or_two. by rewrite take_pad. Qed.

Lemma clock_parts ns :
  0 <= ns < day_ns ->
  let h := ns / time.Hour in let m := ns / time.Minute mod 60 in let s := ns / time.Second mod 60 in
  0 <= h <= 23 /\ 0 <= m <= 59 /\ 0 <= s <= 59 /\
  ns = h * time.Hour + m * time.Minute + s * time.Second + ns mod time.Second.
Proof.
  unfold day_ns, time.Hour, time.Minute, time.Second, time.Millisecond, time.Microsecond, time.Nanosecond.
  intros H. cbv zeta. Z.div_mod_to_equations. lia.
Qed.

(** [Parse] reads back what [Format] prints, in every zone, for the years 0 to 9999. *)
Lemma Parse_Format off t :
  -1440 <= off <= 1440 -> -719528 <= (t + off * time.Minute) / day_ns <= 2932896 ->
  Parse (Format off t) = Ok t.
Proof.
  intros Hoff Hrange. unfold Format. set (l := t + off * time.Minute) in *.
  destruct (civil_from_days (l / day_ns)) as [[y m] d] eqn:Ec.
  destruct (civil_roundtrip _ _ _ _ Ec) as (Hdays & Hm & Hd & Hy). specialize (Hy Hrange).
  pose proof (days_in_le m y) as Hd31.
  pose proof (Z.mod_pos_bound l day_ns ltac:(reflexivity)) as Hns. pose proof (Z.div_mod l day_ns ltac:(discriminate)) as Hl.
  set (ns := l mod day_ns) in *. destruct (clock_parts ns Hns) as (Hh & Hmi & Hs & Hsum).
  pose proof (Z.mod_pos_bound ns time.Second ltac:(reflexivity)) as Hfrac.
  destruct (format_zone_shape off "") as [Hz1 Hz2]. rewrite strings_facts.app_nil_r in Hz1, Hz2.
  pose proof (parse_frac_format (ns mod time.Second) (format_zone off) Hfrac Hz1 Hz2) as Hpf.
  cbv zeta. set (tail := _ +:+ format_zone off) in *. unfold Parse.
  rewrite (take_pad 4) by (cbn; lia). cbn. rewrite expect_hit. cbn.
  rewrite (take_pad 2) by (cbn; lia). cbn. rewrite in_range_ok by lia. cbn. rewrite expect_hit. cbn.
  rewrite (take_pad 2) by (cbn; lia). cbn. rewrite expect_hit. cbn.
  rewrite take_one_or_two_pad by lia. cbn. rewrite in_range_ok by lia. cbn. rewrite expect_hit. cbn.
  rewrite (take_pad 2) by (cbn; lia). cbn. rewrite in_range_ok by lia. cbn. rewrite expect_hit. cbn.
  rewrite (take_pad 2) by (cbn; lia). cbn. rewrite in_range_ok by lia. cbn.
  rewrite Hpf, parse_zone_format by lia. cbn. rewrite in_range_ok by lia. cbn. f_equal. lia.
Qed.

(** The separator of the cursors is not in the text. *)
Lemma pad_no_bar k n acc :
  strings.has_byte "|"%char acc = false -> strings.has_byte "|"%char (pad k n acc) = false.
Proof.
  revert n acc. induction k as [|k IH]; intros n acc Ha; [done|]. cbn [pad]. apply IH. cbn [strings.has_byte].
  rewrite strconv_facts.digit_char_not_bar; [done|]. apply Z.mod_pos_bound; lia.
Qed.

Lemma frac_digits_no_bar k n : 0 <= n < 10 ^ Z.of_nat k -> strings.has_byte "|"%char (frac_digits k n) = false.
Proof.
  revert n. induction k as [|k IH]; intros n Hn; cbn [frac_digits]; [by destruct (n =? 0)|].
  destruct (n =? 0); [done|]. rewrite Nat2Z.inj_succ, Z.pow_succ_r in Hn by lia.
  assert (0 < 10 ^ Z.of_nat k) as Hp by (apply Z.pow_pos_nonneg; lia). cbn [strings.has_byte].
  rewrite strconv_facts.digit_char_not_bar.
  - apply IH, Z.mod_pos_bound; lia.
  - split; [apply Z.div_pos; lia|apply Z.div_lt_upper_bound; lia].
Qed.

Lemma format_zone_no_bar off : strings.has_byte "|"%char (format_zone off) = false.
Proof.
  unfold format_zone. destruct (off =? 0); [done|]. rewrite strings_facts.has_byte_app.
  assert (strings.has_byte "|"%char (if off <? 0 then "-" else "+") = false) as -> by (by destruct (off <? 0)).
  cbn [orb]. apply pad_no_bar. rewrite strings_facts.has_byte_app. by apply pad_no_bar.
Qed.

Lemma Format_no_bar off t : strings.has_byte "|"%char (Format off t) = false.
Proof.
  unfold Format. destruct (civil_from_days _) as [[y m] d].
  pose proof (Z.mod_pos_bound ((t + off * time.Minute) mod day_ns) time.Second ltac:(reflexivity)) as Hf.
  repeat (apply pad_no_bar; rewrite strings_facts.has_byte_app; apply orb_false_iff; split; [reflexivity|]).
  apply pad_no_bar. rewrite strings_facts.has_byte_app, format_zone_no_bar, orb_false_r.
  destruct (_ =? 0); [done|]. cbn [strings.has_byte]. apply orb_false_iff. split; [reflexivity|].
  by apply frac_digits_no_bar.
Qed.
