(* ===== verification/Duration.v ===== *)
(** * Durations and shell variables

    [time.ParseDuration] and [os.Expand] of the Go standard library, as the
    configuration uses them.  A fraction of a unit is computed with binary64
    floating point, as the library does, on the Standard Library's specification
    floats. *)

From Stdlib Require Import Ascii SpecFloat.
From S2P Require Import Prelude GoStd.

Open Scope Z_scope.

(** ** Floating point, as far as a fraction needs it *)

Definition float64 : Type := spec_float.

(** [float64(n)] *)
Definition float_of_Z (n : Z) : float64 := binary_normalize 53 1024 n 0 false.

Definition float_mul (x y : float64) : float64 := SFmul 53 1024 x y.
Definition float_div (x y : float64) : float64 := SFdiv 53 1024 x y.

(** [uint64(x)] of a non-negative finite number: the fraction is dropped. *)
Definition Z_of_float (x : float64) : Z :=
  match x with
  | S754_finite _ m e => if (0 <=? e) then Z.pos m * 2 ^ e else Z.pos m / 2 ^ (- e)
  | _ => 0
  end.

(** ** [time.ParseDuration] *)

Definition is_digit (c : ascii) : bool := bool_decide (is_Some (strconv.digit_val c)).

(** [leadingInt]: the digits, unless they exceed 2^63. *)
Fixpoint leadingInt (x : Z) (s : string) : option (Z * string) :=
  match s with
  | String c s' =>
      match strconv.digit_val c with
      | Some d =>
          if (2 ^ 63 / 10 <? x) then None
          else if (2 ^ 63 <? x * 10 + d) then None
          else leadingInt (x * 10 + d) s'
      | None => Some (x, s)
      end
  | EmptyString => Some (x, s)
  end.

(** [leadingFraction]: the digits as an integer and their scale; those that do
    not fit are dropped. *)
Fixpoint leadingFraction (x scale : Z) (overflow : bool) (s : string) : Z * Z * string :=
  match s with
  | String c s' =>
      match strconv.digit_val c with
      | Some d =>
          if overflow then leadingFraction x scale true s'
          else if ((2 ^ 63 - 1) / 10 <? x) then leadingFraction x scale true s'
          else if (2 ^ 63 <? x * 10 + d) then leadingFraction x scale true s'
          else leadingFraction (x * 10 + d) (scale * 10) false s'
      | None => (x, scale, s)
      end
  | EmptyString => (x, scale, s)
  end.

(** The unit: what comes before the next digit or point. *)
Fixpoint take_unit (s : string) : string * string :=
  match s with
  | String c s' =>
      if Ascii.eqb c "."%char || is_digit c then ("", s)
      else let '(u, r) := take_unit s' in (String c u, r)
  | EmptyString => ("", "")
  end.

(** [unitMap]; the two spellings of the micro sign are U+00B5 and U+03BC. *)
Definition unit_of (u : string) : option Z :=
  if bool_decide (u = "ns") then Some time.Nanosecond
  else if bool_decide (u = "us") then Some time.Microsecond
  else if bool_decide (u = String (ascii_of_nat 194) (String (ascii_of_nat 181) "s")) then Some time.Microsecond
  else if bool_decide (u = String (ascii_of_nat 206) (String (ascii_of_nat 188) "s")) then Some time.Microsecond
  else if bool_decide (u = "ms") then Some time.Millisecond
  else if bool_decide (u = "s") then Some time.Second
  else if bool_decide (u = "m") then Some time.Minute
  else if bool_decide (u = "h") then Some time.Hour
  else None.

(** [v += uint64(float64(f) * (float64(unit) / scale))] *)
Definition fraction_ns (f scale unit : Z) : Z :=
  Z_of_float (float_mul (float_of_Z f) (float_div (float_of_Z unit) (float_of_Z scale))).

(** One number and its unit, on top of what came before. *)
Definition duration_step (d : Z) (s : string) : option (Z * string) :=
  match s with
  | EmptyString => None
  | String c _ =>
      if negb (Ascii.eqb c "."%char || is_digit c) then None
      else
        '(v, s1) ← leadingInt 0 s;
        let pre := negb (Nat.eqb (String.length s) (String.length s1)) in
        let '(f, scale, s2, post) :=
          match s1 with
          | String "."%char s1' =>
              let '(f, scale, s2) := leadingFraction 0 1 false s1' in
              (f, scale, s2, negb (Nat.eqb (String.length s1') (String.length s2)))
          | _ => (0, 1, s1, false)
          end in
        if negb pre && negb post then None
        else
          let '(u, s3) := take_unit s2 in
          if bool_decide (u = "") then None
          else
            unit ← unit_of u;
            if (2 ^ 63 / unit <? v) then None
            else
              let v := v * unit + (if (0 <? f) then fraction_ns f scale unit else 0) in
              if (2 ^ 63 <? v) then None
              else if (2 ^ 63 <? d + v) then None
              else Some (d + v, s3)
  end.

(** The loop; a step consumes at least one byte. *)
Fixpoint duration_loop (fuel : nat) (d : Z) (s : string) : option Z :=
  match s with
  | EmptyString => Some d
  | _ => match fuel with
         | O => None
         | S fuel' => '(d', s') ← duration_step d s; duration_loop fuel' d' s'
         end
  end.

Definition ParseDuration (s : string) : option time.Duration :=
  let '(neg, s1) := match s with
                    | String "-"%char s' => (true, s')
                    | String "+"%char s' => (false, s')
                    | _ => (false, s)
                    end in
  if bool_decide (s1 = "0") then Some 0
  else if bool_decide (s1 = "") then None
  else
    d ← duration_loop (String.length s1) 0 s1;
    if (neg : bool) then Some (wrap64 (- d))
    else if (2 ^ 63 - 1 <? d) then None
    else Some d.

Example ParseDuration_mixed : ParseDuration "1h15m30.918s" = Some 4530918000000.
Proof. vm_compute. reflexivity. Qed.

Example ParseDuration_rejects : map ParseDuration ["1"; "s"; "1 s"; ".s"; ""; "-"; "9223372036854775808ns"] = repeat None 7.
Proof. vm_compute. reflexivity. Qed.

(** ** A step of the loop consumes its input *)

Lemma leadingInt_length x s v r : leadingInt x s = Some (v, r) -> (String.length r <= String.length s)%nat.
Proof.
  revert x. induction s as [|c s IH]; intros x; cbn [leadingInt]; [by intros [= _ <-]|].
  destruct (strconv.digit_val c) as [d|]; [|by intros [= _ <-]].
  destruct (_ <? _); [done|]. destruct (_ <? _); [done|]. intros H. apply IH in H. cbn. lia.
Qed.

Lemma leadingFraction_length x scale o s :
  (String.length (leadingFraction x scale o s).2 <= String.length s)%nat.
Proof.
  revert x scale o. induction s as [|c s IH]; intros x scale o; cbn [leadingFraction]; [done|].
  assert (forall a b o', (String.length (leadingFraction a b o' s).2 <= String.length (String c s))%nat) as IH'
    by (intros; etrans; [apply IH|cbn; lia]).
  destruct (strconv.digit_val c) as [d|]; [|done]. destruct o; [done|]. destruct (_ <? _); [done|]. by destruct (_ <? _).
Qed.

Lemma take_unit_length s : String.length s = (String.length (take_unit s).1 + String.length (take_unit s).2)%nat.
Proof. induction s as [|c s IH]; cbn [take_unit]; [done|]. destruct (_ || _); [done|]. destruct (take_unit s). cbn in *. lia. Qed.

Lemma duration_step_shorter d s d' s' : duration_step d s = Some (d', s') -> (String.length s' < String.length s)%nat.
Proof.
  unfold duration_step. destruct s as [|c s0]; [done|]. set (s := String c s0). destruct (negb _); [done|].
  destruct (leadingInt 0 s) as [[v s1]|] eqn:Ei; [|done]. apply leadingInt_length in Ei. cbn [mbind option_bind].
  destruct (match s1 with String "."%char _ => _ | _ => _ end) as [[[f scale] s2] post] eqn:Ef.
  assert (String.length s2 <= String.length s1)%nat as H2.
  { destruct s1 as [|c1 s1']; [by injection Ef as _ _ <- _|].
    destruct (Ascii.eqb c1 "."%char) eqn:Ec.
    - apply Ascii.eqb_eq in Ec as ->. pose proof (leadingFraction_length 0 1 false s1') as H.
      destruct (leadingFraction 0 1 false s1') as [[? ?] ?]. injection Ef as _ _ <- _. cbn in *. lia.
    - assert ((0, 1, String c1 s1', false) = (f, scale, s2, post)) as [= _ _ <- _]; [|done].
      rewrite <- Ef. clear -Ec. destruct c1 as [[] [] [] [] [] [] [] []]; done. }
  destruct (_ && _); [done|]. pose proof (take_unit_length s2) as Hu. destruct (take_unit s2) as [u s3]. cbn in Hu.
  case_bool_decide as Hne; [done|]. destruct (unit_of u) as [unit|]; [|done]. cbn [mbind option_bind].
  destruct (_ <? _); [done|]. destruct (_ <? _); [done|]. destruct (_ <? _); [done|]. intros [= _ <-].
  destruct u; [done|]. cbn in Hu. lia.
Qed.

(** More fuel than bytes changes nothing. *)
Lemma duration_loop_fuel fuel fuel' d s :
  (String.length s <= fuel)%nat -> (String.length s <= fuel')%nat -> duration_loop fuel d s = duration_loop fuel' d s.
Proof.
  revert fuel' d s. induction fuel as [|fuel IH]; intros fuel' d s H1 H2.
  { destruct s; [by destruct fuel'|cbn in H1; lia]. }
  destruct fuel' as [|fuel']; [destruct s; [done|cbn in H2; lia]|].
  destruct s as [|c s]; [done|]. cbn [duration_loop]. destruct (duration_step d (String c s)) as [[d' s']|] eqn:E; [|done].
  cbn [mbind option_bind]. apply duration_step_shorter in E. cbn in *. apply IH; lia.
Qed.

(** A parsed duration is a 64-bit integer. *)
Lemma float_nonneg x : 0 <= Z_of_float x.
Proof. destruct x; cbn; try lia. destruct (Z.leb_spec 0 e); [nia|]. apply Z.div_pos; lia. Qed.

Lemma leadingInt_nonneg x s v r : 0 <= x -> leadingInt x s = Some (v, r) -> 0 <= v.
Proof.
  revert x. induction s as [|c s IH]; intros x Hx; cbn [leadingInt]; [by intros [= <- _]|].
  destruct (strconv.digit_val c) as [d|] eqn:Ed; [|by intros [= <- _]].
  assert (0 <= d) by (unfold strconv.digit_val in Ed; destruct (_ && _) eqn:E; [bool_to_prop; injection Ed as <-; lia|done]).
  destruct (_ <? _); [done|]. destruct (_ <? _); [done|]. apply IH. lia.
Qed.

Lemma unit_of_pos u unit : unit_of u = Some unit -> 0 < unit.
Proof. unfold unit_of. repeat case_bool_decide; intros [= <-]; reflexivity. Qed.

Lemma duration_step_range d s d' s' : 0 <= d <= 2 ^ 63 -> duration_step d s = Some (d', s') -> 0 <= d' <= 2 ^ 63.
Proof.
  intros Hd. unfold duration_step. destruct s as [|c s0]; [done|]. destruct (negb _); [done|].
  destruct (leadingInt 0 _) as [[v s1]|] eqn:Ei; [|done]. apply leadingInt_nonneg in Ei; [|lia]. cbn [mbind option_bind].
  destruct (match s1 with String "."%char _ => _ | _ => _ end) as [[[f scale] s2] post].
  destruct (_ && _); [done|]. destruct (take_unit s2) as [u s3]. case_bool_decide; [done|].
  destruct (unit_of u) as [unit|] eqn:Eu; [|done]. apply unit_of_pos in Eu. cbn [mbind option_bind].
  destruct (_ <? v); [done|]. cbv zeta. set (w := v * unit + _). destruct (Z.ltb_spec (2 ^ 63) w); [done|].
  destruct (Z.ltb_spec (2 ^ 63) (d + w)); [done|]. intros [= <- _].
  assert (0 <= w); [|lia]. unfold w. pose proof (float_nonneg (float_mul (float_of_Z f) (float_div (float_of_Z unit) (float_of_Z scale)))).
  unfold fraction_ns. destruct (0 <? f); nia.
Qed.

Lemma duration_loop_range fuel d s r : 0 <= d <= 2 ^ 63 -> duration_loop fuel d s = Some r -> 0 <= r <= 2 ^ 63.
Proof.
  revert d s. induction fuel as [|fuel IH]; intros d s Hd; (destruct s as [|c s]; cbn [duration_loop]; [by intros [= <-]|]); [done|].
  destruct (duration_step d _) as [[d' s']|] eqn:E; [|done]. cbn [mbind option_bind]. apply IH. by eapply duration_step_range.
Qed.

Lemma ParseDuration_int64 s d : ParseDuration s = Some d -> int64 d.
Proof.
  unfold ParseDuration. destruct (match s with String "-"%char _ => _ | _ => _ end) as [neg s1].
  case_bool_decide; [intros [= <-]; split; discriminate|]. case_bool_decide; [done|].
  destruct (duration_loop _ 0 s1) as [r|] eqn:E; [|done]. apply duration_loop_range in E; [|lia]. cbn [mbind option_bind].
  destruct neg; [intros [= <-]; apply wrap64_range|]. destruct (Z.ltb_spec (2 ^ 63 - 1) r); [done|]. intros [= <-].
  unfold int64, int64_min, int64_max. lia.
Qed.

(** ** [os.Expand] *)

Definition byte_in (c : ascii) (lo hi : nat) : bool := ((lo <=? nat_of_ascii c) && (nat_of_ascii c <=? hi))%nat.

Definition isShellSpecialVar (c : ascii) : bool :=
  existsb (Ascii.eqb c) ["*"; "#"; "$"; "@"; "!"; "?"; "-"]%char || is_digit c.

Definition isAlphaNum (c : ascii) : bool :=
  Ascii.eqb c "_"%char || is_digit c || byte_in c 97 122 || byte_in c 65 90.

Fixpoint span_name (s : string) : string * string :=
  match s with
  | String c s' => if isAlphaNum c then let '(n, r) := span_name s' in (String c n, r) else ("", s)
  | EmptyString => ("", "")
  end.

(** What [getShellName] finds after a dollar, with what is left. *)
Inductive shell_name :=
| NoName                        (* no name: the dollar stays *)
| BadName (rest : string)       (* bad syntax is eaten *)
| Name (name rest : string).

Definition getShellName (s : string) : shell_name :=
  match s with
  | EmptyString => NoName
  | String c s' =>
      if Ascii.eqb c "{"%char then
        match s' with
        | String d (String "}"%char s2) =>
            if isShellSpecialVar d then Name (String d "") s2
            else if Ascii.eqb d "}"%char then BadName (String "}"%char s2)
            else Name (String d "") s2
        | _ => match strings.split_first "}"%char s' with
               | Some ("", r) => BadName r
               | Some (n, r) => Name n r
               | None => BadName s'
               end
        end
      else if isShellSpecialVar c then Name (String c "") s'
      else match span_name s with
           | ("", _) => NoName
           | (n, r) => Name n r
           end
  end.

(** The fuel bounds the bytes read; every step reads one. *)
Fixpoint expand_loop (fuel : nat) (mapping : string -> string) (s : string) : string :=
  match fuel, s with
  | O, _ => s
  | S f, EmptyString => ""
  | S f, String c s' =>
      if Ascii.eqb c "$"%char && negb (bool_decide (s' = "")) then
        match getShellName s' with
        | NoName => String c (expand_loop f mapping s')
        | BadName r => expand_loop f mapping r
        | Name n r => mapping n +:+ expand_loop f mapping r
        end
      else String c (expand_loop f mapping s')
  end.

Definition Expand (s : string) (mapping : string -> string) : string := expand_loop (String.length s) mapping s.

Example Expand_sample :
  Expand "a$X-${Y}z$ ${}$" (fun n => "<" +:+ n +:+ ">") = "a<X>-<Y>z$ $".
Proof. vm_compute. reflexivity. Qed.
