(* ===== verification/Model.v ===== *)
(** * Model: domain records, enumerations and identifiers

    internal/model: the rows exchanged by every other component, the canonical
    enumerations, and the identifiers derived from a market symbol and a stream
    key (streamkey.go). Decimal values stay strings, as in the source; a
    nullable [*int64] is an [option Z]. *)

From S2P Require Import Prelude GoStd.
From Stdlib Require Import Ascii.

(** ** Enumerations (model.go) *)

Definition DesiredStatusRunning : string := "running".
Definition DesiredStatusPaused : string := "paused".
Definition DesiredStatusDisabled : string := "disabled".

Definition StreamKindTrade : string := "trade".
Definition StreamKindKline : string := "kline".
Definition StreamKindOrderBookDelta : string := "orderbook_delta".
Definition StreamKindOrderBookSnapshot : string := "orderbook_snapshot".

Definition MarketTypeSpot : string := "spot".
Definition MarketTypeMargin : string := "margin".
Definition MarketTypeFutures : string := "futures".
Definition MarketTypeSwap : string := "swap".
Definition MarketTypeOption : string := "option".

Definition TradeSideBuy : string := "buy".
Definition TradeSideSell : string := "sell".

Definition KlineSourceExchange : string := "exchange".
Definition KlineSourceComputed : string := "computed".

Definition NodeStatusAlive : string := "alive".
Definition NodeStatusDraining : string := "draining".
Definition NodeStatusDead : string := "dead".

Definition ActualStatusPending : string := "pending".
Definition ActualStatusStarting : string := "starting".
Definition ActualStatusRunning : string := "running".
Definition ActualStatusPaused : string := "paused".
Definition ActualStatusError : string := "error".
Definition ActualStatusStopped : string := "stopped".

Definition DesiredStatuses : gset string :=
  {[ DesiredStatusRunning; DesiredStatusPaused; DesiredStatusDisabled ]}.

Definition StreamKinds : gset string :=
  {[ StreamKindTrade; StreamKindKline; StreamKindOrderBookDelta; StreamKindOrderBookSnapshot ]}.

Definition MarketTypes : gset string :=
  {[ MarketTypeSpot; MarketTypeMargin; MarketTypeFutures; MarketTypeSwap; MarketTypeOption ]}.

Definition NodeStatuses : gset string :=
  {[ NodeStatusAlive; NodeStatusDraining; NodeStatusDead ]}.

Definition IsValidDesiredStatus (s : string) : bool := bool_decide (s ∈ DesiredStatuses).
Definition IsValidStreamKind (s : string) : bool := bool_decide (s ∈ StreamKinds).
Definition IsValidMarketType (s : string) : bool := bool_decide (s ∈ MarketTypes).
Definition IsValidNodeStatus (s : string) : bool := bool_decide (s ∈ NodeStatuses).

(** ** Records (model.go) *)

Record GroupInput := mkGroupInput {
  gi_InputID : string;
  gi_GroupID : string;
  gi_StreamKey : string;
  gi_StreamKind : string;
  gi_Interval : string;
  gi_Enabled : bool;
  gi_KafkaCluster : string;
  gi_KafkaTopic : string;
  gi_KafkaGroupID : string;
  gi_DesiredStatus : string;
  gi_SchemaVersion : Z;
  gi_CreatedAt : time.Time;
  gi_UpdatedAt : time.Time
}.

Record MarketGroup := mkMarketGroup {
  mg_GroupID : string;
  mg_Exchange : string;
  mg_MarketType : string;
  mg_Symbol : string;
  mg_BaseAsset : string;
  mg_QuoteAsset : string;
  mg_DesiredStatus : string;
  mg_Weight : Z;
  mg_Inputs : list GroupInput;
  mg_CreatedAt : time.Time;
  mg_UpdatedAt : time.Time
}.

Record RuntimeNode := mkRuntimeNode {
  rn_NodeID : string;
  rn_Hostname : string;
  rn_PodName : string;
  rn_Status : string;
  rn_MaxGroups : Z;
  rn_CurrentGroups : Z;
  rn_MaxWeight : Z;
  rn_CurrentWeight : Z;
  rn_LastHeartbeatAt : time.Time;
  rn_CreatedAt : time.Time;
  rn_UpdatedAt : time.Time
}.

Record RuntimeCapacity := mkRuntimeCapacity {
  rc_CurrentGroups : Z;
  rc_CurrentWeight : Z
}.

Record GroupLease := mkGroupLease {
  gl_GroupID : string;
  gl_NodeID : string;
  gl_LeaseExpiresAt : time.Time;
  gl_Version : Z;
  gl_AcquiredAt : time.Time;
  gl_UpdatedAt : time.Time
}.

Record StreamRuntimeStatus := mkStreamRuntimeStatus {
  rs_InputID : string;
  rs_GroupID : string;
  rs_StreamKey : string;
  rs_NodeID : string;
  rs_ActualStatus : string;
  rs_KafkaPartition : option Z;
  rs_KafkaLag : option Z;
  rs_CommittedOffset : option Z;
  rs_HighWatermarkOffset : option Z;
  rs_LastEventTime : option time.Time;
  rs_LastProcessedTime : option time.Time;
  rs_LastError : string;
  rs_UpdatedAt : time.Time
}.

Record PriceLevel := mkPriceLevel {
  pl_Price : string;
  pl_Quantity : string
}.

Record Trade := mkTrade {
  tr_ID : Z;
  tr_GroupID : string;
  tr_InputID : string;
  tr_EventTime : time.Time;
  tr_ExchangeTime : option time.Time;
  tr_LocalReceiveTime : option time.Time;
  tr_TradeID : string;
  tr_RawTradeID : string;
  tr_Price : string;
  tr_Quantity : string;
  tr_Side : string;
  tr_IsAggregated : bool;
  tr_KafkaTopic : string;
  tr_KafkaPartition : Z;
  tr_KafkaOffset : Z;
  tr_SchemaVersion : Z;
  tr_IngestedAt : time.Time
}.

Record Kline := mkKline {
  kl_GroupID : string;
  kl_InputID : string;
  kl_Source : string;
  kl_Interval : string;
  kl_OpenTime : time.Time;
  kl_CloseTime : time.Time;
  kl_Open : string;
  kl_High : string;
  kl_Low : string;
  kl_Close : string;
  kl_Volume : string;
  kl_QuoteVolume : string;
  kl_TradeCount : Z;
  kl_IsClosed : bool;
  kl_Revision : Z;
  kl_KafkaTopic : string;
  kl_KafkaPartition : Z;
  kl_KafkaOffset : Z;
  kl_UpdatedAt : time.Time
}.

Record OrderBookDelta := mkOrderBookDelta {
  od_GroupID : string;
  od_InputID : string;
  od_EventTime : time.Time;
  od_ExchangeTime : option time.Time;
  od_LocalReceiveTime : option time.Time;
  od_RawEventID : string;
  od_FirstUpdateID : option Z;
  od_LastUpdateID : option Z;
  od_PrevUpdateID : option Z;
  od_Sequence : option Z;
  od_Bids : list PriceLevel;
  od_Asks : list PriceLevel;
  od_RawPayload : string;
  od_KafkaTopic : string;
  od_KafkaPartition : Z;
  od_KafkaOffset : Z;
  od_IngestedAt : time.Time
}.

Record StreamWriteProgress := mkStreamWriteProgress {
  wp_InputID : string;
  wp_KafkaPartition : Z;
  wp_DurableOffset : Z;
  wp_LastRawEventID : string;
  wp_LastUpdateID : option Z;
  wp_LastSequence : option Z;
  wp_UpdatedAt : time.Time
}.

Record OrderBookSnapshot := mkOrderBookSnapshot {
  os_SnapshotID : Z;
  os_GroupID : string;
  os_InputID : string;
  os_SnapshotTime : time.Time;
  os_Sequence : option Z;
  os_Bids : list PriceLevel;
  os_Asks : list PriceLevel;
  os_CreatedAt : time.Time
}.

Record PoisonRecord := mkPoisonRecord {
  po_InputID : string;
  po_GroupID : string;
  po_StreamKind : string;
  po_Topic : string;
  po_Partition : Z;
  po_Offset : Z;
  po_ErrorMessage : string;
  po_RawPayload : string;
  po_RecordedAt : time.Time
}.

#[export] Instance PriceLevel_eq_dec : EqDecision PriceLevel.
Proof. solve_decision. Defined.

#[export] Instance Trade_eq_dec : EqDecision Trade.
Proof. solve_decision. Defined.

#[export] Instance Kline_eq_dec : EqDecision Kline.
Proof. solve_decision. Defined.

#[export] Instance OrderBookDelta_eq_dec : EqDecision OrderBookDelta.
Proof. solve_decision. Defined.

#[export] Instance GroupInput_eq_dec : EqDecision GroupInput.
Proof. solve_decision. Defined.

(** ** Identifiers (streamkey.go) *)

Definition klineStreamKeyPrefix : string := "kline_".

Definition NewGroupID (exchange marketType symbol : string) : string :=
  strings.TrimSpace exchange +:+ ":" +:+ strings.TrimSpace marketType
    +:+ ":" +:+ strings.TrimSpace symbol.

Definition NewInputID (groupID streamKey : string) : string :=
  groupID +:+ ":" +:+ streamKey.

Definition DefaultKafkaGroupID (groupID streamKey : string) : string :=
  "md-runtime." +:+ groupID +:+ "." +:+ streamKey.

Inductive streamkey_error :=
| ErrMustNotCarryInterval (kind : string)
| ErrKlineRequiresInterval
| ErrInvalidStreamKind (kind : string)
| ErrMissingInterval (streamKey : string)
| ErrUnrecognizedStreamKey (streamKey : string).

Definition StreamKeyFor (kind interval : string) : result streamkey_error string :=
  if bool_decide (kind = StreamKindTrade) || bool_decide (kind = StreamKindOrderBookDelta)
     || bool_decide (kind = StreamKindOrderBookSnapshot) then
    if bool_decide (interval <> "") then Err (ErrMustNotCarryInterval kind)
    else Ok kind
  else if bool_decide (kind = StreamKindKline) then
    if bool_decide (interval = "") then Err ErrKlineRequiresInterval
    else Ok (klineStreamKeyPrefix +:+ interval)
  else Err (ErrInvalidStreamKind kind).

Definition ParseStreamKey (streamKey : string) : result streamkey_error (string * string) :=
  if bool_decide (streamKey = StreamKindTrade)
     || bool_decide (streamKey = StreamKindOrderBookDelta)
     || bool_decide (streamKey = StreamKindOrderBookSnapshot) then Ok (streamKey, "")
  else if strings.HasPrefix streamKey klineStreamKeyPrefix then
    let interval := strings.TrimPrefix streamKey klineStreamKeyPrefix in
    if bool_decide (interval = "") then Err (ErrMissingInterval streamKey)
    else Ok (StreamKindKline, interval)
  else Err (ErrUnrecognizedStreamKey streamKey).

(** ** Helpers of decode.go that only look at the input's row *)

Definition schemaVersionOrDefault (v : Z) : Z := if (v <=? 0)%Z then 1%Z else v.

Definition inputID (g : GroupInput) : string :=
  if bool_decide (gi_InputID g <> "") then gi_InputID g
  else NewInputID (gi_GroupID g) (gi_StreamKey g).

Definition consumerGroupID (g : GroupInput) : string :=
  if bool_decide (gi_KafkaGroupID g <> "") then gi_KafkaGroupID g
  else DefaultKafkaGroupID (gi_GroupID g) (gi_StreamKey g).

(** ** Stream keys: lemmas and properties *)

#[export] Instance streamkey_error_eq_dec : EqDecision streamkey_error.
Proof. solve_decision. Defined.

Lemma app_empty_r_iff p s : p +:+ s = p <-> s = "".
Proof.
  split; [|intros ->; apply strings_facts.app_nil_r].
  rewrite <- (strings_facts.app_nil_r p) at 2. by intros ?%(inj (String.append p)).
Qed.

(** The two functions on each class of arguments. *)
Definition fixed_key (k : string) : bool :=
  bool_decide (k = StreamKindTrade) || bool_decide (k = StreamKindOrderBookDelta)
  || bool_decide (k = StreamKindOrderBookSnapshot).

Lemma fixed_key_not_kline k :
  fixed_key k = true -> strings.HasPrefix k klineStreamKeyPrefix = false /\ k <> StreamKindKline.
Proof.
  unfold fixed_key. rewrite !orb_true_iff, !bool_decide_eq_true.
  by intros [[->| ->]| ->].
Qed.

Lemma fixed_key_kline_prefix iv : fixed_key (klineStreamKeyPrefix +:+ iv) = false.
Proof.
  destruct (fixed_key _) eqn:E; [|done]. apply fixed_key_not_kline in E as [E _].
  by rewrite strings_facts.HasPrefix_app in E.
Qed.

(** The two tables agree in both directions. *)
Lemma StreamKeyFor_ParseStreamKey kind interval key :
  StreamKeyFor kind interval = Ok key <-> ParseStreamKey key = Ok (kind, interval).
Proof.
  unfold StreamKeyFor, ParseStreamKey. fold (fixed_key kind) (fixed_key key).
  split; intros H.
  - destruct (fixed_key kind) eqn:Ef.
    + case_bool_decide; simplify_eq. by rewrite Ef.
    + case_bool_decide; [|done]. case_bool_decide; [done|]. simplify_eq.
      rewrite fixed_key_kline_prefix, strings_facts.HasPrefix_app, strings_facts.TrimPrefix_app.
      by rewrite bool_decide_eq_false_2.
  - destruct (fixed_key key) eqn:Ef; simplify_eq.
    + rewrite Ef. by rewrite bool_decide_eq_false_2 by (intros Hne; by apply Hne).
    + destruct (strings.HasPrefix key klineStreamKeyPrefix) eqn:Hp; [|done].
      case_bool_decide as Hi; [done|]. simplify_eq/=.
      rewrite bool_decide_eq_false_2 by done. f_equal.
      symmetry. by apply strings_facts.HasPrefix_split.
Qed.

(** [StreamKeyFor] and [ParseStreamKey] are inverse to each other: a
    [(stream_kind, interval)] pair derives a stream key exactly when that key
    parses back to the pair, so the two tables of the code cannot disagree and
    neither accepts what the other rejects. *)
Theorem stream_key_roundtrip kind interval key :
  StreamKeyFor kind interval = Ok key <-> ParseStreamKey key = Ok (kind, interval).
Proof. apply StreamKeyFor_ParseStreamKey. Qed.

(** [NewInputID] identifies an input of a group by its stream key as long
    as the keys hold no [":"]: the last separator of the id splits it back. *)
Theorem input_id_injective g1 k1 g2 k2 :
  strings.has_byte ":"%char k1 = false ->
  strings.has_byte ":"%char k2 = false ->
  NewInputID g1 k1 = NewInputID g2 k2 -> g1 = g2 /\ k1 = k2.
Proof.
  intros H1 H2 H. apply (strings_facts.sep_last_inj ":"%char _ _ _ _ H1 H2).
  exact H.
Qed.

Lemma input_id_injective_witness :
  NewInputID "binance:spot:BTCUSDT" "kline_1m" = NewInputID "binance:spot:BTCUSDT" "kline_1m" /\
  "binance:spot:BTCUSDT" = "binance:spot:BTCUSDT" /\ "kline_1m" = "kline_1m".
Proof.
  split; [reflexivity|].
  apply (input_id_injective "binance:spot:BTCUSDT" "kline_1m" "binance:spot:BTCUSDT" "kline_1m");
    reflexivity.
Defined.

(** The ids are not collision free on every accepted stream key: the
    interval of a kline key is not restricted, so two different groups of the
    same exchange, each with a stream key that [ParseStreamKey] accepts, can
    derive the same input id. *)
Theorem input_id_collision :
  exists g1 k1 g2 k2,
    g1 = NewGroupID "x" MarketTypeSpot "A" /\ g2 = NewGroupID "x" MarketTypeSpot "A:kline_1m" /\
    g1 <> g2 /\
    is_ok (ParseStreamKey k1) = true /\ is_ok (ParseStreamKey k2) = true /\
    NewInputID g1 k1 = NewInputID g2 k2.
Proof.
  exists "x:spot:A", "kline_1m:trade", "x:spot:A:kline_1m", "trade".
  vm_compute. repeat split; discriminate.
Qed.
