(* ===== verification/Numeric.v ===== *)
(** * Numeric: decimal literals and their 256-bit comparison

    internal/runtime/decode.go, [decimalPattern], [validPositiveNumeric],
    [validNonNegativeNumeric] and [compareNumeric].  Prices are strings; they are
    compared through [big.ParseFloat(s, 10, 256, big.ToNearestEven)], modelled
    as its documentation states it: the value of the literal rounded to a
    256-bit mantissa, ties to even, with the exponent range of [big.Float]. *)

From S2P Require Import Prelude GoStd.
From Stdlib Require Import Ascii.

(** ** The literal grammar *)

Definition is_digit (c : ascii) : bool :=
  match strconv.digit_val c with
  | Some _ => true
  | None => false
  end.

(** The longest prefix of digits, and the rest. *)
Fixpoint span_digits (s : string) : string * string :=
  match s with
  | String c t => if is_digit c then let '(d, r) := span_digits t in (String c d, r)
                  else ("", s)
  | EmptyString => ("", "")
  end.

Definition span_sign (s : string) : bool * string :=
  match s with
  | String c t => if Ascii.eqb c "-"%char then (true, t)
                  else if Ascii.eqb c "+"%char then (false, t)
                  else (false, s)
  | EmptyString => (false, s)
  end.

(** Exponent marks: decimal ([e]) or, for [big.Float] only, binary ([p]). *)
Inductive exp_base := exp10 | exp2.

Definition exp_mark (c : ascii) : option exp_base :=
  if Ascii.eqb c "e"%char || Ascii.eqb c "E"%char then Some exp10
  else if Ascii.eqb c "p"%char || Ascii.eqb c "P"%char then Some exp2
  else None.

Record literal := mkLiteral {
  lit_neg : bool;
  lit_int : string;
  lit_frac : string;
  lit_exp : option (exp_base * bool * string)
}.

(** A sign, digits with an optional point (at least one digit), an exponent. *)
Definition scan_literal (s : string) : option literal :=
  let '(neg, s1) := span_sign s in
  let '(i, s2) := span_digits s1 in
  let '(f, s3) := match s2 with
                  | String c t => if Ascii.eqb c "."%char then span_digits t else ("", s2)
                  | EmptyString => ("", s2)
                  end in
  if bool_decide (i = "") && bool_decide (f = "") then None
  else match s3 with
       | EmptyString => Some (mkLiteral neg i f None)
       | String c t =>
           match exp_mark c with
           | Some b =>
               let '(eneg, t1) := span_sign t in
               let '(ds, rest) := span_digits t1 in
               if bool_decide (ds = "") || bool_decide (rest <> "") then None
               else Some (mkLiteral neg i f (Some (b, eneg, ds)))
           | None => None
           end
       end.

(** [decimalPattern.MatchString]: the same grammar with [e]/[E] only. *)
Definition decimalPattern (s : string) : bool :=
  match scan_literal s with
  | Some l => match lit_exp l with
              | Some (exp2, _, _) => false
              | _ => true
              end
  | None => false
  end.

(** ** [big.Float] at 256 bits *)

(** A finite value is [m * 2 ^ e]. *)
Inductive bigfloat :=
| Fin (m e : Z)
| Inf (neg : bool).

Definition prec : Z := 256.
Definition MinExp : Z := (- 2 ^ 31)%Z.
Definition MaxExp : Z := (2 ^ 31 - 1)%Z.

Definition bitlen (n : Z) : Z := if (n <=? 0)%Z then 0%Z else (Z.log2 n + 1)%Z.

(** Round [n / d] to the nearest integer, ties to even. *)
Definition div_ne (n d : Z) : Z :=
  let q := (n / d)%Z in
  let r := (n mod d)%Z in
  match (2 * r ?= d)%Z with
  | Lt => q
  | Gt => (q + 1)%Z
  | Eq => if Z.even q then q else (q + 1)%Z
  end.

(** [n / d * 2 ^ sh] as a fraction with integral parts. *)
Definition scaled (n d sh : Z) : Z * Z :=
  if (0 <=? sh)%Z then ((n * 2 ^ sh)%Z, d) else (n, (d * 2 ^ (- sh))%Z).

(** The positive rational [n / d * 2 ^ e] to [prec] bits. *)
Definition round_prec (n d e : Z) : bigfloat :=
  let sh0 := (prec - (bitlen n - bitlen d))%Z in
  let '(n0, d0) := scaled n d sh0 in
  let sh := if (2 ^ prec <=? n0 / d0)%Z then (sh0 - 1)%Z else sh0 in
  let '(n1, d1) := scaled n d sh in
  let m := div_ne n1 d1 in
  let e1 := (e - sh)%Z in
  if (MaxExp <? bitlen m + e1)%Z then Inf false
  else if (bitlen m + e1 <? MinExp)%Z then Fin 0 0
  else Fin m e1.

Definition negate (f : bigfloat) : bigfloat :=
  match f with
  | Fin m e => Fin (- m) e
  | Inf b => Inf (negb b)
  end.

Definition parse_inf (s : string) : option bigfloat :=
  let is_inf t := bool_decide (t = "Inf") || bool_decide (t = "inf") in
  if is_inf s then Some (Inf false)
  else match s with
       | String c t =>
           if is_inf t then
             if Ascii.eqb c "+"%char then Some (Inf false)
             else if Ascii.eqb c "-"%char then Some (Inf true)
             else None
           else None
       | EmptyString => None
       end.

(** The signed exponent of a literal, when it fits an int64. *)
Definition exp_value (l : literal) : option (exp_base * Z) :=
  match lit_exp l with
  | None => Some (exp10, 0%Z)
  | Some (b, eneg, ds) =>
      match strconv.ParseInt 64 (if eneg then String "-"%char ds else ds) with
      | Some x => Some (b, x)
      | None => None
      end
  end.

(** [big.ParseFloat(s, 10, 256, big.ToNearestEven)]; [None] is the nil
    [*big.Float] returned with an error. *)
Definition ParseFloat (s : string) : option bigfloat :=
  match parse_inf s with
  | Some f => Some f
  | None =>
      match scan_literal s with
      | None => None
      | Some l =>
          match strconv.parse_digits 0 (lit_int l +:+ lit_frac l), exp_value l with
          | Some m, Some (b, x) =>
              if (m =? 0)%Z then Some (Fin 0 0)
              else
                let fcount := (- Z.of_nat (String.length (lit_frac l)))%Z in
                let e2 := wrap64 (wrap64 (bitlen m + fcount) + x) in
                if ((e2 <? MinExp) || (MaxExp <? e2))%Z then None
                else
                  let e5 := match b with exp10 => wrap64 (fcount + x) | exp2 => fcount end in
                  let f := if (0 <=? e5)%Z then round_prec (m * 5 ^ e5) 1 (e2 - bitlen m)
                           else round_prec m (5 ^ (- e5)) (e2 - bitlen m) in
                  Some (if lit_neg l then negate f else f)
          | _, _ => None
          end
      end
  end.

Definition Sign (f : bigfloat) : Z :=
  match f with
  | Fin m _ => Z.sgn m
  | Inf true => (-1)%Z
  | Inf false => 1%Z
  end.

(** The method [Cmp] of [big.Float], on values. *)
Definition Cmp (x y : bigfloat) : comparison :=
  match x, y with
  | Fin m1 e1, Fin m2 e2 =>
      let e := Z.min e1 e2 in (m1 * 2 ^ (e1 - e) ?= m2 * 2 ^ (e2 - e))%Z
  | Inf true, Inf true => Eq
  | Inf true, _ => Lt
  | _, Inf true => Gt
  | Inf false, Inf false => Eq
  | Inf false, _ => Gt
  | _, Inf false => Lt
  end.

(** ** The functions of decode.go *)

Definition validPositiveNumeric (s0 : string) : bool :=
  let s := strings.TrimSpace s0 in
  if negb (decimalPattern s) then false
  else match ParseFloat s with
       | Some v => (0 <? Sign v)%Z
       | None => false
       end.

Definition validNonNegativeNumeric (s0 : string) : bool :=
  let s := strings.TrimSpace s0 in
  if negb (decimalPattern s) then false
  else match ParseFloat s with
       | Some v => (0 <=? Sign v)%Z
       | None => false
       end.

(** The parsed key of a price. *)
Definition price_key (s : string) : option bigfloat := ParseFloat (strings.TrimSpace s).

(** [None] is the nil-pointer panic of [Cmp] on an unparsable operand. *)
Definition compareNumeric (a b : string) : option comparison :=
  match price_key a, price_key b with
  | Some av, Some bv => Some (Cmp av bv)
  | _, _ => None
  end.

(** ** [Cmp] is a total preorder *)

(** Comparing two finite values at any common exponent gives [Cmp]. *)
Lemma Cmp_scale m1 e1 m2 e2 k :
  (k <= e1)%Z -> (k <= e2)%Z ->
  (m1 * 2 ^ (e1 - k) ?= m2 * 2 ^ (e2 - k))%Z = Cmp (Fin m1 e1) (Fin m2 e2).
Proof.
  intros H1 H2. simpl. set (e := Z.min e1 e2).
  assert (0 < 2 ^ (e - k))%Z as Hp by (apply Z.pow_pos_nonneg; lia).
  replace (e1 - k)%Z with ((e1 - e) + (e - k))%Z by lia.
  replace (e2 - k)%Z with ((e2 - e) + (e - k))%Z by lia.
  rewrite !Z.pow_add_r, !Z.mul_assoc by lia.
  destruct (Z.compare_spec (m1 * 2 ^ (e1 - e)) (m2 * 2 ^ (e2 - e))) as [H|H|H].
  - rewrite H. apply Z.compare_refl.
  - apply Z.compare_lt_iff. by apply Z.mul_lt_mono_pos_r.
  - apply Z.compare_gt_iff. by apply Z.mul_lt_mono_pos_r.
Qed.

Lemma Cmp_antisym x y : Cmp y x = CompOpp (Cmp x y).
Proof.
  destruct x as [m1 e1|[]], y as [m2 e2|[]]; try done.
  simpl. rewrite Z.min_comm. by rewrite <- Z.compare_antisym.
Qed.

Lemma Cmp_refl x : Cmp x x = Eq.
Proof. destruct x as [m e|[]]; [|done..]. simpl. apply Z.compare_refl. Qed.

(** The order [x <= y] of the sorted exports: not [Cmp x y > 0]. *)
Definition bf_le (x y : bigfloat) : Prop := Cmp x y <> Gt.

#[export] Instance bf_le_dec : RelDecision bf_le.
Proof. intros x y. unfold bf_le. apply _. Defined.

#[export] Instance bf_le_refl : Reflexive bf_le.
Proof. intros x. unfold bf_le. by rewrite Cmp_refl. Qed.

#[export] Instance bf_le_trans : Transitive bf_le.
Proof.
  intros x y z. unfold bf_le.
  destruct x as [m1 e1|[]], y as [m2 e2|[]], z as [m3 e3|[]]; try done.
  pose (k := Z.min e1 (Z.min e2 e3)).
  rewrite <- (Cmp_scale m1 e1 m2 e2 k), <- (Cmp_scale m2 e2 m3 e3 k),
    <- (Cmp_scale m1 e1 m3 e3 k) by lia.
  rewrite !Z.compare_le_iff. lia.
Qed.

#[export] Instance bf_le_total : Total bf_le.
Proof.
  intros x y. unfold bf_le. rewrite (Cmp_antisym x y).
  destruct (Cmp x y); simpl; auto; by left.
Qed.

Lemma Cmp_Lt_Gt x y : Cmp x y = Lt <-> Cmp y x = Gt.
Proof. rewrite (Cmp_antisym x y). by destruct (Cmp x y). Qed.

Lemma bf_le_antisym_Eq x y : bf_le x y -> bf_le y x -> Cmp x y = Eq.
Proof. unfold bf_le. rewrite (Cmp_antisym x y). by destruct (Cmp x y). Qed.

(** ** Parsing of accepted literals *)

Lemma validPositiveNumeric_key s :
  validPositiveNumeric s = true -> exists v, price_key s = Some v /\ (0 < Sign v)%Z.
Proof.
  unfold validPositiveNumeric, price_key. intros H.
  destruct (negb _); [done|]. destruct (ParseFloat _) as [v|]; [|done].
  exists v. split; [done|]. by apply Z.ltb_lt.
Qed.

Lemma validNonNegativeNumeric_key s :
  validNonNegativeNumeric s = true -> exists v, price_key s = Some v /\ (0 <= Sign v)%Z.
Proof.
  unfold validNonNegativeNumeric, price_key. intros H.
  destruct (negb _); [done|]. destruct (ParseFloat _) as [v|]; [|done].
  exists v. split; [done|]. by apply Z.leb_le.
Qed.

Lemma validPositive_NonNegative s :
  validPositiveNumeric s = true -> validNonNegativeNumeric s = true.
Proof.
  unfold validPositiveNumeric, validNonNegativeNumeric. destruct (negb _); [done|].
  destruct (ParseFloat _) as [v|]; [|done]. rewrite Z.ltb_lt, Z.leb_le. lia.
Qed.

(** Surrounding white space never matters. *)
Lemma price_key_TrimSpace s : price_key (strings.TrimSpace s) = price_key s.
Proof. unfold price_key. by rewrite strings_facts.TrimSpace_idem. Qed.

Lemma validPositiveNumeric_TrimSpace s :
  validPositiveNumeric (strings.TrimSpace s) = validPositiveNumeric s.
Proof. unfold validPositiveNumeric. by rewrite strings_facts.TrimSpace_idem. Qed.

Lemma validNonNegativeNumeric_TrimSpace s :
  validNonNegativeNumeric (strings.TrimSpace s) = validNonNegativeNumeric s.
Proof. unfold validNonNegativeNumeric. by rewrite strings_facts.TrimSpace_idem. Qed.

Lemma compareNumeric_TrimSpace a b :
  compareNumeric (strings.TrimSpace a) (strings.TrimSpace b) = compareNumeric a b.
Proof. unfold compareNumeric. by rewrite !price_key_TrimSpace. Qed.

Lemma compareNumeric_defined a b va vb :
  price_key a = Some va -> price_key b = Some vb -> compareNumeric a b = Some (Cmp va vb).
Proof. unfold compareNumeric. by intros -> ->. Qed.

(** ** Sample values *)

Example compare_trailing_zero : compareNumeric "100.10" "100.1" = Some Eq.
Proof. vm_compute. reflexivity. Qed.

Example compare_exponent : compareNumeric "0.1" "1e-1" = Some Eq.
Proof. vm_compute. reflexivity. Qed.

Example compare_numeric_order : compareNumeric " 9.99" "10" = Some Lt.
Proof. vm_compute. reflexivity. Qed.

Example accepted_literals :
  map validNonNegativeNumeric ["0.00"; "-0"; "1/2"; "NaN"; ".5"; "5."; "."; "1e"; "1p3"]
  = [true; true; false; false; true; true; false; false; false].
Proof. vm_compute. reflexivity. Qed.
