(* ===== verification/Json.v ===== *)
(** * JSON, as encoding/json reads and writes it

    The part of the Go standard library below the payload decoders: a document is
    scanned into a tree ([parse]: the grammar of the scanner with its nesting
    limit, strings unquoted with their escapes, surrogate pairs and invalid UTF-8
    replaced), and a tree is printed as [json.Marshal] prints one.  [parse_print]
    says that the reader takes back what the printer wrote, whatever follows. *)

From Stdlib Require Import Ascii.
From S2P Require Import Prelude GoStd Numeric Duration.

Open Scope Z_scope.

#[local] Set Warnings "-register-all".

(** A number is kept as its text: the program reads it from there. *)
Inductive json :=
| JNull
| JBool (b : bool)
| JNumber (text : string)
| JString (s : string)
| JArray (l : list json)
| JObject (l : list (string * json)).

Lemma json_rect_all (P : json -> Prop) :
  P JNull -> (forall b, P (JBool b)) -> (forall t, P (JNumber t)) -> (forall s, P (JString s)) ->
  (forall l, Forall P l -> P (JArray l)) -> (forall l, Forall (fun kv => P kv.2) l -> P (JObject l)) ->
  forall j, P j.
Proof.
  intros H1 H2 H3 H4 Ha Ho. fix IH 1. intros [|b|t|s|l|l]; [done..| |].
  - apply Ha. induction l; constructor; [apply IH|assumption].
  - apply Ho. induction l; constructor; [apply IH|assumption].
Qed.

Inductive json_error := ErrSyntax | ErrDepth | ErrFuel.

(** ** Characters *)

Definition quote_byte : ascii := "034".
Definition backslash : ascii := "092".

Definition is_byte (n : nat) (c : ascii) : bool := Ascii.eqb c (ascii_of_nat n).

Definition is_space (c : ascii) : bool := is_byte 32 c || is_byte 9 c || is_byte 10 c || is_byte 13 c.

Fixpoint skip_ws (s : string) : string :=
  match s with
  | String c s' => if is_space c then skip_ws s' else s
  | EmptyString => s
  end.

(** The second byte of a three-byte and of a four-byte rune. *)
Definition second_of_three (a b : ascii) : bool :=
  (byte_in a 224 224 && byte_in b 160 191) || (byte_in a 225 236 && byte_in b 128 191) ||
  (byte_in a 237 237 && byte_in b 128 159) || (byte_in a 238 239 && byte_in b 128 191).

Definition second_of_four (a b : ascii) : bool :=
  (byte_in a 240 240 && byte_in b 144 191) || (byte_in a 241 243 && byte_in b 128 191) ||
  (byte_in a 244 244 && byte_in b 128 143).

(** The size of the rune a string starts with; 0 when it starts with none. *)
Definition rune_size (s : string) : nat :=
  match s with
  | EmptyString => 0
  | String a s1 =>
      if byte_in a 0 127 then 1 else
      match s1 with
      | EmptyString => 0
      | String b s2 =>
          if byte_in a 194 223 && byte_in b 128 191 then 2 else
          match s2 with
          | EmptyString => 0
          | String c s3 =>
              if second_of_three a b && byte_in c 128 191 then 3 else
              match s3 with
              | EmptyString => 0
              | String d _ => if second_of_four a b && byte_in c 128 191 && byte_in d 128 191 then 4 else 0
              end
          end
      end
  end.

(** The first [n] bytes, and the others. *)
Fixpoint cut (n : nat) (s : string) : string * string :=
  match n, s with
  | S n', String c s' => let '(p, q) := cut n' s' in (String c p, q)
  | _, _ => (EmptyString, s)
  end.

Definition bytes (l : list N) : string := fold_right (fun n s => String (ascii_of_N n) s) EmptyString l.

(** U+FFFD *)
Definition replacement : string := bytes [239; 191; 189]%N.

(** [utf8.EncodeRune] of a rune that is no surrogate. *)
Definition encode_rune (r : N) : string :=
  (if r <? 128 then bytes [r]
   else if r <? 2048 then bytes [192 + r / 64; 128 + r mod 64]
   else if r <? 65536 then bytes [224 + r / 4096; 128 + r / 64 mod 64; 128 + r mod 64]
   else bytes [240 + r / 262144; 128 + r / 4096 mod 64; 128 + r / 64 mod 64; 128 + r mod 64])%N.

Definition hex_val (c : ascii) : option N :=
  let n := N_of_ascii c in
  (if (48 <=? n) && (n <=? 57) then Some (n - 48)
   else if (97 <=? n) && (n <=? 102) then Some (n - 87)
   else if (65 <=? n) && (n <=? 70) then Some (n - 55)
   else None)%N.

(** Four hexadecimal digits. *)
Definition hex4 (s : string) : option (N * string) :=
  match s with
  | String a (String b (String c (String d s'))) =>
      x ← hex_val a; y ← hex_val b; z ← hex_val c; w ← hex_val d;
      Some (x * 4096 + y * 256 + z * 16 + w, s')%N
  | _ => None
  end.

Definition in_runes (r lo hi : N) : bool := ((lo <=? r) && (r <=? hi))%N.

(** After a backslash and a [u]: a rune, or a surrogate and the other half. *)
Definition unicode_escape (s : string) : option (string * string) :=
  '(r, s1) ← hex4 s;
  if in_runes r 55296 57343 then
    match s1 with
    | String b (String u s2) =>
        if Ascii.eqb b backslash && Ascii.eqb u "u"%char then
          match hex4 s2 with
          | Some (r2, s3) =>
              if in_runes r 55296 56319 && in_runes r2 56320 57343
              then Some (encode_rune ((r - 55296) * 1024 + (r2 - 56320) + 65536)%N, s3)
              else Some (replacement, s1)
          | None => Some (replacement, s1)
          end
        else Some (replacement, s1)
    | _ => Some (replacement, s1)
    end
  else Some (encode_rune r, s1).

(** After a backslash. *)
Definition escape (s : string) : option (string * string) :=
  match s with
  | EmptyString => None
  | String c s' =>
      if Ascii.eqb c quote_byte || Ascii.eqb c backslash || Ascii.eqb c "/"%char then Some (String c "", s')
      else if Ascii.eqb c "b"%char then Some (bytes [8]%N, s')
      else if Ascii.eqb c "f"%char then Some (bytes [12]%N, s')
      else if Ascii.eqb c "n"%char then Some (bytes [10]%N, s')
      else if Ascii.eqb c "r"%char then Some (bytes [13]%N, s')
      else if Ascii.eqb c "t"%char then Some (bytes [9]%N, s')
      else if Ascii.eqb c "u"%char then unicode_escape s'
      else None
  end.

(** The rest of a string literal, unquoted, and what follows it. *)
Fixpoint read_string (fuel : nat) (s : string) : result json_error (string * string) :=
  match fuel with
  | O => Err ErrFuel
  | S f =>
      match s with
      | EmptyString => Err ErrSyntax
      | String c s' =>
          if Ascii.eqb c quote_byte then Ok (EmptyString, s')
          else if Ascii.eqb c backslash then
            match escape s' with
            | None => Err ErrSyntax
            | Some (p, s2) => '(r, rest) ← read_string f s2; Ok (p +:+ r, rest)
            end
          else if byte_in c 0 31 then Err ErrSyntax
          else
            match rune_size s with
            | O => '(r, rest) ← read_string f s'; Ok (replacement +:+ r, rest)
            | n => let '(p, s2) := cut n s in '(r, rest) ← read_string f s2; Ok (p +:+ r, rest)
            end
      end
  end.

(** ** Numbers *)

Definition scan_int (s : string) : option (string * string) :=
  match s with
  | EmptyString => None
  | String c s' =>
      if Ascii.eqb c "0"%char then Some ("0", s')
      else if Numeric.is_digit c then Some (span_digits s) else None
  end.

Definition scan_frac (s : string) : option (string * string) :=
  match s with
  | String c s' =>
      if Ascii.eqb c "."%char then
        let '(ds, r) := span_digits s' in
        if bool_decide (ds = "") then None else Some (String c ds, r)
      else Some ("", s)
  | EmptyString => Some ("", s)
  end.

Definition scan_exp (s : string) : option (string * string) :=
  match s with
  | String c s' =>
      if Ascii.eqb c "e"%char || Ascii.eqb c "E"%char then
        let '(sign, s2) := match s' with
                           | String d s2 => if Ascii.eqb d "+"%char || Ascii.eqb d "-"%char then (String d "", s2) else ("", s')
                           | EmptyString => ("", s')
                           end in
        let '(ds, r) := span_digits s2 in
        if bool_decide (ds = "") then None else Some (String c (sign +:+ ds), r)
      else Some ("", s)
  | EmptyString => Some ("", s)
  end.

(** The text of a number, and what follows it. *)
Definition scan_number (s : string) : option (string * string) :=
  let '(sign, s0) := match s with
                     | String c s' => if Ascii.eqb c "-"%char then ("-", s') else ("", s)
                     | EmptyString => ("", s)
                     end in
  '(i, s1) ← scan_int s0; '(f, s2) ← scan_frac s1; '(e, s3) ← scan_exp s2;
  Some (sign +:+ i +:+ f +:+ e, s3).

(** ** Values *)

Definition maxNestingDepth : Z := 10000.

(** A literal. *)
Definition word (w : string) (j : json) (s : string) : result json_error (json * string) :=
  if strings.HasPrefix s w then Ok (j, strings.TrimPrefix s w) else Err ErrSyntax.

(** A key and the colon. *)
Definition read_key (s : string) : result json_error (string * string) :=
  match skip_ws s with
  | String c s' =>
      if Ascii.eqb c quote_byte then
        '(k, s1) ← read_string (S (String.length s')) s';
        match skip_ws s1 with
        | String d s2 => if Ascii.eqb d ":"%char then Ok (k, s2) else Err ErrSyntax
        | EmptyString => Err ErrSyntax
        end
      else Err ErrSyntax
  | EmptyString => Err ErrSyntax
  end.

(** Does the text go on with a closing bracket? *)
Definition closes (b : ascii) (s : string) : option string :=
  match skip_ws s with
  | String c s' => if Ascii.eqb c b then Some s' else None
  | EmptyString => None
  end.

Fixpoint value (fuel : nat) (depth : Z) (s : string) : result json_error (json * string) :=
  match fuel with
  | O => Err ErrFuel
  | S f =>
      let s := skip_ws s in
      match s with
      | EmptyString => Err ErrSyntax
      | String c s' =>
          if Ascii.eqb c "{"%char then
            if maxNestingDepth <=? depth then Err ErrDepth
            else match closes "}"%char s' with
                 | Some s2 => Ok (JObject [], s2)
                 | None => '(l, r) ← members f (depth + 1) s'; Ok (JObject l, r)
                 end
          else if Ascii.eqb c "["%char then
            if maxNestingDepth <=? depth then Err ErrDepth
            else match closes "]"%char s' with
                 | Some s2 => Ok (JArray [], s2)
                 | None => '(l, r) ← elements f (depth + 1) s'; Ok (JArray l, r)
                 end
          else if Ascii.eqb c quote_byte then '(x, r) ← read_string (S (String.length s')) s'; Ok (JString x, r)
          else if Ascii.eqb c "n"%char then word "null" JNull s
          else if Ascii.eqb c "t"%char then word "true" (JBool true) s
          else if Ascii.eqb c "f"%char then word "false" (JBool false) s
          else match scan_number s with
               | Some (t, r) => Ok (JNumber t, r)
               | None => Err ErrSyntax
               end
      end
  end
with members (fuel : nat) (depth : Z) (s : string) : result json_error (list (string * json) * string) :=
  match fuel with
  | O => Err ErrFuel
  | S f =>
      '(k, s1) ← read_key s; '(v, s2) ← value f depth s1;
      match skip_ws s2 with
      | String c s3 =>
          if Ascii.eqb c ","%char then '(l, r) ← members f depth s3; Ok ((k, v) :: l, r)
          else if Ascii.eqb c "}"%char then Ok ([(k, v)], s3) else Err ErrSyntax
      | EmptyString => Err ErrSyntax
      end
  end
with elements (fuel : nat) (depth : Z) (s : string) : result json_error (list json * string) :=
  match fuel with
  | O => Err ErrFuel
  | S f =>
      '(v, s2) ← value f depth s;
      match skip_ws s2 with
      | String c s3 =>
          if Ascii.eqb c ","%char then '(l, r) ← elements f depth s3; Ok (v :: l, r)
          else if Ascii.eqb c "]"%char then Ok ([v], s3) else Err ErrSyntax
      | EmptyString => Err ErrSyntax
      end
  end.

(** A whole document: one value and nothing else but blanks. *)
Definition parse (s : string) : result json_error json :=
  '(j, r) ← value (2 * String.length s + 1) 0 s;
  if bool_decide (skip_ws r = "") then Ok j else Err ErrSyntax.

(** ** Printing *)

Definition hex_char (n : N) : ascii := ascii_of_N (if (n <? 10)%N then 48 + n else 87 + n)%N.

Definition html_unsafe (c : ascii) : bool := is_byte 60 c || is_byte 62 c || is_byte 38 c.

(** One rune as [appendString] writes it; [None] stands for an invalid byte. *)
Definition print_rune (p : string) : string :=
  match p with
  | String c EmptyString =>
      if Ascii.eqb c quote_byte || Ascii.eqb c backslash then String backslash p
      else if is_byte 8 c then String backslash "b"
      else if is_byte 12 c then String backslash "f"
      else if is_byte 10 c then String backslash "n"
      else if is_byte 13 c then String backslash "r"
      else if is_byte 9 c then String backslash "t"
      else if byte_in c 0 31 || html_unsafe c then
        String backslash ("u00" +:+ String (hex_char (N_of_ascii c / 16)) (String (hex_char (N_of_ascii c mod 16)) ""))
      else p
  | _ =>
      if bool_decide (p = bytes [226; 128; 168]%N) then String backslash "u2028"
      else if bool_decide (p = bytes [226; 128; 169]%N) then String backslash "u2029"
      else p
  end.

Fixpoint print_runes (fuel : nat) (s : string) : string :=
  match fuel, s with
  | S f, String _ s' =>
      match rune_size s with
      | O => String backslash "ufffd" +:+ print_runes f s'
      | n => let '(p, r) := cut n s in print_rune p +:+ print_runes f r
      end
  | _, _ => ""
  end.

Definition print_string (s : string) : string :=
  String quote_byte (print_runes (String.length s) s +:+ String quote_byte "").

Fixpoint print (j : json) : string :=
  match j with
  | JNull => "null"
  | JBool true => "true"
  | JBool false => "false"
  | JNumber t => t
  | JString s => print_string s
  | JArray l => "[" +:+ strings.Join (map print l) "," +:+ "]"
  | JObject l => "{" +:+ strings.Join (map (fun kv => print_string kv.1 +:+ ":" +:+ print kv.2) l) "," +:+ "}"
  end.


(** ** Strings are read back *)

Open Scope nat_scope.

(** Every byte belongs to a rune. *)
Fixpoint utf8 (fuel : nat) (s : string) : bool :=
  match fuel, s with
  | _, EmptyString => true
  | O, _ => false
  | S f, _ => match rune_size s with
              | O => false
              | n => utf8 f (cut n s).2
              end
  end.

Definition valid_utf8 (s : string) : bool := utf8 (String.length s) s.

Lemma slength_app s t : String.length (s +:+ t) = (String.length s + String.length t)%nat.
Proof. induction s as [|c s IH]; [done|]. rewrite strings_facts.app_cons. cbn. by rewrite IH. Qed.

(** A rune stands on its own. *)
Lemma rune_cut s n : rune_size s = S n ->
  exists p r, cut (S n) s = (p, r) /\ s = p +:+ r /\ String.length p = S n /\
    forall x, rune_size (p +:+ x) = S n /\ cut (S n) (p +:+ x) = (p, x).
Proof.
  intros H. destruct s as [|a [|b [|c [|d s]]]]; cbn [rune_size] in H; try done;
    repeat match type of H with context [if ?b then _ else _] => destruct b eqn:?E end; try done; injection H as <-;
    do 2 eexists; (split; [reflexivity|split; [reflexivity|split; [reflexivity|intros x; split; [|reflexivity]]]]);
    rewrite ?strings_facts.app_cons, ?strings_facts.app_nil; cbn [rune_size];
    repeat match goal with |- context [if ?b then _ else _] => destruct b eqn:?E end; congruence.
Qed.

Lemma high_byte c : byte_in c 0 127 = false ->
  Ascii.eqb c quote_byte = false /\ Ascii.eqb c backslash = false /\ byte_in c 0 31 = false.
Proof. by destruct c as [[] [] [] [] [] [] [] []]. Qed.

Lemma read_ascii c f x : byte_in c 0 127 = true ->
  read_string (S f) (print_rune (String c "") +:+ x) = ('(r, rest) ← read_string f x; Ok (String c "" +:+ r, rest)).
Proof. destruct c as [[] [] [] [] [] [] [] []]; intros H; try discriminate H; reflexivity. Qed.

Lemma read_rune p n f x :
  String.length p = S n -> rune_size (p +:+ x) = S n -> rune_size p = S n -> cut (S n) (p +:+ x) = (p, x) ->
  read_string (S f) (print_rune p +:+ x) = ('(r, rest) ← read_string f x; Ok (p +:+ r, rest)).
Proof.
  intros Hl Hx Hp Hc. destruct p as [|c [|d p]]; [done| |].
  - apply read_ascii. revert Hp. cbn [rune_size]. by destruct (byte_in c 0 127).
  - unfold print_rune. case_bool_decide as E1; [rewrite E1; reflexivity|]. case_bool_decide as E2; [rewrite E2; reflexivity|].
    assert (byte_in c 0 127 = false) as Hb.
    { revert Hp. cbn [rune_size]. destruct (byte_in c 0 127); [|done]. cbn in Hl. congruence. }
    destruct (high_byte c Hb) as (H1 & H2 & H3). rewrite strings_facts.app_cons in *. cbn [read_string].
    rewrite H1, H2, H3, Hx, Hc. done.
Qed.

Lemma print_rune_length p : p <> "" -> 1 <= String.length (print_rune p).
Proof.
  destruct p as [|c [|d p]]; [by intros []| |]; intros _; unfold print_rune;
    repeat match goal with |- context [if ?b then _ else _] => destruct b end; cbn [String.length]; lia.
Qed.

Lemma read_print_runes f s fuel rest :
  utf8 f s = true -> String.length (print_runes f s) < fuel ->
  read_string fuel (print_runes f s +:+ String quote_byte rest) = Ok (s, rest).
Proof.
  revert s fuel. induction f as [|f IH]; intros s fuel Hu Hf.
  - destruct s; [|done]. destruct fuel; [cbn in Hf; lia|done].
  - destruct s as [|c s]; [destruct fuel; [cbn in Hf; lia|done]|].
    cbn [utf8 print_runes] in *. destruct (rune_size (String c s)) as [|n] eqn:En; [done|].
    destruct (rune_cut _ _ En) as (p & r & Hc & Hs & Hl & Hx). rewrite Hc in *. cbn [snd] in Hu.
    rewrite slength_app in Hf. assert (p <> "") as Hp by (by intros ->).
    pose proof (print_rune_length p Hp). destruct fuel as [|fuel]; [lia|].
    rewrite strings_facts.app_assoc, (read_rune p n); [| done | apply Hx | | apply Hx].
    + rewrite IH by (done || lia). cbn. by rewrite Hs.
    + destruct (Hx "") as [H0 _]. by rewrite strings_facts.app_nil_r in H0.
Qed.

Lemma read_print_string s rest :
  valid_utf8 s = true ->
  read_string (S (String.length (print_runes (String.length s) s +:+ String quote_byte rest)))
    (print_runes (String.length s) s +:+ String quote_byte rest) = Ok (s, rest).
Proof. intros H. apply read_print_runes; [done|]. rewrite slength_app. lia. Qed.

(** ** Numbers are read back *)

(** A text that cannot go on with a number. *)
Definition stops (s : string) : bool :=
  match s with
  | EmptyString => true
  | String c _ => negb (Numeric.is_digit c || Ascii.eqb c "."%char || Ascii.eqb c "e"%char || Ascii.eqb c "E"%char)
  end.

Lemma stops_head x : stops x = true ->
  span_digits x = ("", x) /\ scan_frac x = Some ("", x) /\ scan_exp x = Some ("", x).
Proof.
  destruct x as [|c x]; [done|]. cbn [stops span_digits scan_frac scan_exp]. rewrite negb_true_iff.
  intros [[[H1 H2]%orb_false_iff H3]%orb_false_iff H4]%orb_false_iff. by rewrite H1, H2, H3, H4.
Qed.

Lemma span_digits_app s d r x : span_digits s = (d, r) -> stops x = true -> span_digits (s +:+ x) = (d, r +:+ x).
Proof.
  intros H Hx. revert d r H. induction s as [|c s IH]; intros d r.
  - intros [= <- <-]. apply stops_head, Hx.
  - rewrite strings_facts.app_cons. cbn [span_digits]. destruct (Numeric.is_digit c); [|by intros [= <- <-]].
    destruct (span_digits s) as [d' r'] eqn:E. rewrite (IH d' r' eq_refl). by intros [= <- <-].
Qed.

Lemma scan_int_app s i r x : scan_int s = Some (i, r) -> stops x = true -> scan_int (s +:+ x) = Some (i, r +:+ x).
Proof.
  intros H Hx. destruct s as [|c s]; [done|]. rewrite strings_facts.app_cons. cbn [scan_int] in *.
  destruct (Ascii.eqb c "0"%char); [by injection H as <- <-|]. destruct (Numeric.is_digit c); [|done].
  assert (span_digits (String c s) = (i, r)) as H' by congruence.
  by rewrite <- strings_facts.app_cons, (span_digits_app _ _ _ x H' Hx).
Qed.

Lemma scan_frac_app s i r x : scan_frac s = Some (i, r) -> stops x = true -> scan_frac (s +:+ x) = Some (i, r +:+ x).
Proof.
  intros H Hx. destruct s as [|c s]; [injection H as <- <-; apply stops_head, Hx|].
  rewrite strings_facts.app_cons. cbn [scan_frac] in *. destruct (Ascii.eqb c "."%char); [|by injection H as <- <-].
  destruct (span_digits s) as [d' r'] eqn:E. rewrite (span_digits_app _ _ _ x E Hx). case_bool_decide; [done|]. by injection H as <- <-.
Qed.

Lemma scan_exp_app s i r x : scan_exp s = Some (i, r) -> stops x = true -> scan_exp (s +:+ x) = Some (i, r +:+ x).
Proof.
  intros H Hx. destruct s as [|c s]; [injection H as <- <-; apply stops_head, Hx|].
  rewrite strings_facts.app_cons. cbn [scan_exp] in *.
  destruct (Ascii.eqb c "e"%char || Ascii.eqb c "E"%char); [|by injection H as <- <-].
  destruct s as [|d s]; [done|]. rewrite strings_facts.app_cons.
  destruct (Ascii.eqb d "+"%char || Ascii.eqb d "-"%char).
  - destruct (span_digits s) as [d' r'] eqn:E. rewrite (span_digits_app _ _ _ x E Hx). case_bool_decide; [done|]. by injection H as <- <-.
  - destruct (span_digits (String d s)) as [d' r'] eqn:E. rewrite <- strings_facts.app_cons, (span_digits_app _ _ _ x E Hx).
    case_bool_decide; [done|]. by injection H as <- <-.
Qed.

Lemma scan_number_app t i r x : scan_number t = Some (i, r) -> stops x = true -> scan_number (t +:+ x) = Some (i, r +:+ x).
Proof.
  unfold scan_number. intros H Hx.
  destruct (match t with String c s' => if Ascii.eqb c "-"%char then ("-", s') else ("", t) | EmptyString => ("", t) end) as [sign s0] eqn:Es.
  assert (match t +:+ x with String c s' => if Ascii.eqb c "-"%char then ("-", s') else ("", t +:+ x) | EmptyString => ("", t +:+ x) end
          = (sign, s0 +:+ x) \/ t = "") as [-> | ->].
  { destruct t as [|c t]; [by right|left]. rewrite strings_facts.app_cons. destruct (Ascii.eqb c "-"%char); by injection Es as <- <-. }
  2: { injection Es as <- <-. done. }
  destruct (scan_int s0) as [[a s1]|] eqn:E1; [|done]. rewrite (scan_int_app _ _ _ x E1 Hx). cbn in *.
  destruct (scan_frac s1) as [[b s2]|] eqn:E2; [|done]. rewrite (scan_frac_app _ _ _ x E2 Hx). cbn in *.
  destruct (scan_exp s2) as [[e s3]|] eqn:E3; [|done]. rewrite (scan_exp_app _ _ _ x E3 Hx). cbn in *. by injection H as <- <-.
Qed.

(** A number starts with a sign or a digit. *)
Definition number_byte (c : ascii) : bool := Ascii.eqb c "-"%char || Numeric.is_digit c.

Lemma scan_number_head t i r : scan_number t = Some (i, r) -> exists c s, t = String c s /\ number_byte c = true.
Proof.
  unfold scan_number, number_byte. destruct t as [|c t]; [done|]. intros H. exists c, t. split; [done|].
  destruct (Ascii.eqb c "-"%char); [done|]. cbn [scan_int] in H. destruct (Ascii.eqb_spec c "0"%char) as [->|]; [done|].
  by destruct (Numeric.is_digit c).
Qed.

(** ** Documents are read back *)

(** What [json.Marshal] can print so that it is JSON of valid UTF-8. *)
Fixpoint printable (j : json) : bool :=
  match j with
  | JNumber t => bool_decide (scan_number t = Some (t, ""))
  | JString s => valid_utf8 s
  | JArray l => forallb printable l
  | JObject l => forallb (fun kv => valid_utf8 kv.1 && printable kv.2) l
  | JNull | JBool _ => true
  end.

Fixpoint nesting (j : json) : Z :=
  (match j with
   | JArray l => 1 + foldr (fun x n => Z.max (nesting x) n) 0 l
   | JObject l => 1 + foldr (fun kv n => Z.max (nesting kv.2) n) 0 l
   | _ => 0
   end)%Z.

Definition head_byte (c : ascii) : Prop := is_space c = false /\ Ascii.eqb c "]"%char = false /\ Ascii.eqb c "}"%char = false.

Lemma number_byte_cases c : number_byte c = true ->
  head_byte c /\ Ascii.eqb c "{"%char = false /\ Ascii.eqb c "["%char = false /\ Ascii.eqb c quote_byte = false /\
  Ascii.eqb c "n"%char = false /\ Ascii.eqb c "t"%char = false /\ Ascii.eqb c "f"%char = false.
Proof. unfold head_byte. destruct c as [[] [] [] [] [] [] [] []]; intros H; try discriminate H; by split_and!. Qed.

Lemma print_head j : printable j = true -> exists c s, print j = String c s /\ head_byte c.
Proof.
  destruct j as [|[]|t|s|l|l]; cbn [print printable]; intros H; try (do 2 eexists; split; [reflexivity|by split_and!]).
  apply bool_decide_eq_true in H. destruct (scan_number_head _ _ _ H) as (c & s & -> & Hc). exists c, s. split; [done|].
  by apply number_byte_cases.
Qed.

Lemma skip_ws_head c s : is_space c = false -> skip_ws (String c s) = String c s.
Proof. intros H. cbn. by rewrite H. Qed.

Lemma print_skip j x : printable j = true -> skip_ws (print j +:+ x) = print j +:+ x.
Proof.
  intros (c & s & -> & Hc & _)%print_head. by apply skip_ws_head.
Qed.

Lemma print_closes j x b : printable j = true -> b = "]"%char \/ b = "}"%char -> closes b (print j +:+ x) = None.
Proof.
  intros (c & s & -> & Hc & H1 & H2)%print_head Hb. unfold closes. rewrite strings_facts.app_cons, skip_ws_head by done.
  destruct Hb as [-> | ->]; [by rewrite H1|by rewrite H2].
Qed.

(** Reading back one value, in front of anything that does not continue a number. *)
Definition reads_back (j : json) : Prop :=
  forall fuel depth x, printable j = true -> (depth + nesting j <= maxNestingDepth)%Z -> stops x = true ->
    2 * String.length (print j +:+ x) + 1 <= fuel -> value fuel depth (print j +:+ x) = Ok (j, x).

Lemma elements_print l fuel depth x :
  Forall reads_back l -> forallb printable l = true -> l <> [] ->
  (depth + foldr (fun y n => Z.max (nesting y) n) 0 l <= maxNestingDepth)%Z ->
  2 * String.length (strings.Join (map print l) "," +:+ String "]" x) + 2 <= fuel ->
  elements fuel depth (strings.Join (map print l) "," +:+ String "]" x) = Ok (l, x).
Proof.
  intros Hl. revert fuel. induction Hl as [|j l Hj _ IH]; intros fuel Hp Hne Hd Hf; [done|].
  cbn [forallb foldr] in *. apply andb_true_iff in Hp as [Hpj Hpl]. destruct fuel as [|fuel]; [lia|]. cbn [elements].
  destruct l as [|k l].
  - cbn [map strings.Join] in *. rewrite Hj by (done || lia). done.
  - change (strings.Join (map print (j :: k :: l)) ",") with (print j +:+ "," +:+ strings.Join (map print (k :: l)) ",") in *.
    rewrite !strings_facts.app_assoc in *. change ("," +:+ ?y) with (String "," y) in *.
    rewrite Hj by (done || lia). cbn [mbind result_bind].
    cbn [skip_ws]. cbn [is_space]. rewrite slength_app in Hf. cbn [String.length] in Hf.
    change (is_space ",") with false. cbn. rewrite IH by (done || lia). done.
Qed.

Lemma read_key_print k x : valid_utf8 k = true -> read_key (print_string k +:+ ":" +:+ x) = Ok (k, x).
Proof.
  intros Hk. unfold read_key, print_string. rewrite strings_facts.app_cons, skip_ws_head by done.
  rewrite Ascii.eqb_refl, strings_facts.app_assoc. change (String quote_byte "" +:+ ?y) with (String quote_byte y).
  rewrite read_print_string by done. done.
Qed.

Definition print_member (kv : string * json) : string := print_string kv.1 +:+ ":" +:+ print kv.2.

Lemma members_print l fuel depth x :
  Forall (fun kv => reads_back kv.2) l -> forallb (fun kv => valid_utf8 kv.1 && printable kv.2) l = true -> l <> [] ->
  (depth + foldr (fun kv n => Z.max (nesting kv.2) n) 0 l <= maxNestingDepth)%Z ->
  2 * String.length (strings.Join (map print_member l) "," +:+ String "}" x) + 2 <= fuel ->
  members fuel depth (strings.Join (map print_member l) "," +:+ String "}" x) = Ok (l, x).
Proof.
  intros Hl. revert fuel. induction Hl as [|[k j] l Hj _ IH]; intros fuel Hp Hne Hd Hf; [done|].
  cbn [forallb foldr fst snd] in *. apply andb_true_iff in Hp as [[Hk Hpj]%andb_true_iff Hpl]. destruct fuel as [|fuel]; [lia|]. cbn [members].
  destruct l as [|k' l].
  - cbn [map strings.Join] in *. unfold print_member in *. cbn [fst snd] in *. rewrite !strings_facts.app_assoc in *.
    rewrite read_key_print by done. cbn [mbind result_bind]. rewrite !slength_app in Hf. rewrite Hj by (rewrite ?slength_app; done || lia). done.
  - change (strings.Join (map print_member ((k, j) :: k' :: l)) ",")
      with (print_member (k, j) +:+ "," +:+ strings.Join (map print_member (k' :: l)) ",") in *.
    set (more := strings.Join (map print_member (k' :: l)) ",") in *. unfold print_member in Hf |- *. cbn [fst snd] in *.
    rewrite !strings_facts.app_assoc in *. change ("," +:+ ?y) with (String "," y) in *.
    rewrite read_key_print by done. cbn [mbind result_bind]. rewrite !slength_app in Hf. cbn [String.length] in Hf. rewrite slength_app in Hf.
    rewrite Hj by (rewrite ?slength_app; cbn [String.length]; rewrite ?slength_app; done || lia). cbn [mbind result_bind].
    cbn [skip_ws]. change (is_space ",") with false. cbn. rewrite IH by (rewrite ?slength_app; done || lia). done.
Qed.

Lemma print_array l x : print (JArray l) +:+ x = String "[" (strings.Join (map print l) "," +:+ String "]" x).
Proof.
  change (print (JArray l)) with (String "[" (strings.Join (map print l) "," +:+ "]")).
  by rewrite strings_facts.app_cons, strings_facts.app_assoc.
Qed.

Lemma print_object l x : print (JObject l) +:+ x = String "{" (strings.Join (map print_member l) "," +:+ String "}" x).
Proof.
  change (print (JObject l)) with (String "{" (strings.Join (map print_member l) "," +:+ "}")).
  by rewrite strings_facts.app_cons, strings_facts.app_assoc.
Qed.

Lemma word_app w j x : word w j (w +:+ x) = Ok (j, x).
Proof. unfold word. by rewrite strings_facts.HasPrefix_app, strings_facts.TrimPrefix_app. Qed.

(** An object ends with its brace, whatever follows. *)
Lemma value_object l fuel depth x :
  Forall (fun kv => reads_back kv.2) l -> printable (JObject l) = true -> (depth + nesting (JObject l) <= maxNestingDepth)%Z ->
  2 * String.length (print (JObject l) +:+ x) + 1 <= S fuel -> value (S fuel) depth (print (JObject l) +:+ x) = Ok (JObject l, x).
Proof.
  intros IH Hp Hd Hf. cbn [value]. rewrite print_skip by done.
  cbn [printable nesting] in *. rewrite print_object in *. change (Ascii.eqb "{" "{") with true.
  assert ((maxNestingDepth <=? depth)%Z = false) as ->.
  { apply Z.leb_gt. assert (0 <= foldr (fun y n => Z.max (nesting y.2) n) 0 l)%Z by (clear; induction l; cbn; lia). lia. }
  destruct l as [|kv l]; [done|].
  assert (closes "}" (strings.Join (map print_member (kv :: l)) "," +:+ String "}" x) = None) as -> by (destruct l; done).
  cbn [String.length] in Hf. rewrite members_print by (done || lia). done.
Qed.

Lemma value_print j : reads_back j.
Proof.
  induction j as [|b|t|s|l IH|l IH] using json_rect_all; intros fuel depth x Hp Hd Hx Hf; (destruct fuel as [|fuel]; [lia|]);
    [cbn [value]; rewrite print_skip by done..|].
  - transitivity (word "null" JNull ("null" +:+ x)); [reflexivity|apply word_app].
  - destruct b; [transitivity (word "true" (JBool true) ("true" +:+ x))|transitivity (word "false" (JBool false) ("false" +:+ x))];
      [reflexivity|apply word_app|reflexivity|apply word_app].
  - cbn [print printable] in *. apply bool_decide_eq_true in Hp. pose proof (scan_number_app _ _ _ x Hp Hx) as Hn.
    destruct (scan_number_head _ _ _ Hp) as (c & s & -> & Hc). rewrite strings_facts.app_cons in *.
    destruct (number_byte_cases c Hc) as (_ & -> & -> & -> & -> & -> & ->). by rewrite Hn.
  - cbn [print printable] in *. unfold print_string. rewrite strings_facts.app_cons. cbn [Ascii.eqb]. change (Ascii.eqb quote_byte "{") with false.
    change (Ascii.eqb quote_byte "[") with false. rewrite Ascii.eqb_refl, strings_facts.app_assoc.
    change (String quote_byte "" +:+ x) with (String quote_byte x). by rewrite read_print_string.
  - cbn [printable nesting] in *. rewrite print_array in *.
    change (Ascii.eqb "[" "{") with false. change (Ascii.eqb "[" "[") with true.
    assert ((maxNestingDepth <=? depth)%Z = false) as ->.
    { apply Z.leb_gt. assert (0 <= foldr (fun y n => Z.max (nesting y) n) 0 l)%Z by (clear; induction l; cbn; lia). lia. }
    destruct l as [|j l]; [done|].
    assert (closes "]" (strings.Join (map print (j :: l)) "," +:+ String "]" x) = None) as ->.
    { destruct l as [|k l]; [apply andb_true_iff in Hp as [Hp _]; apply print_closes; [done|by left]|].
      change (strings.Join (map print (j :: k :: l)) ",") with (print j +:+ "," +:+ strings.Join (map print (k :: l)) ",").
      rewrite strings_facts.app_assoc. apply andb_true_iff in Hp as [Hp _]. apply print_closes; [done|by left]. }
    cbn [String.length] in Hf. rewrite elements_print by (done || lia). done.
  - by apply value_object.
Qed.

(** The reader takes back what the printer wrote. *)
Lemma parse_print j : printable j = true -> (nesting j <= maxNestingDepth)%Z -> parse (print j) = Ok j.
Proof.
  intros Hp Hd. unfold parse. rewrite <- (strings_facts.app_nil_r (print j)) at 2. rewrite value_print; [done..|].
  rewrite strings_facts.app_nil_r. lia.
Qed.

(** ** Reading ends *)

Abbreviation len := String.length.

Lemma skip_ws_length s : len (skip_ws s) <= len s.
Proof. induction s as [|c s IH]; cbn; [done|]. destruct (is_space c); cbn; lia. Qed.

Lemma cut_length n s : len (cut n s).2 = len s - n.
Proof.
  revert s. induction n as [|n IH]; intros s; [destruct s; cbn; lia|]. destruct s as [|c s]; [done|]. cbn [cut].
  specialize (IH s). destruct (cut n s). cbn in *. lia.
Qed.

Lemma hex4_length s r x : hex4 s = Some (r, x) -> len s = 4 + len x.
Proof.
  destruct s as [|a [|b [|c [|d s]]]]; try done. cbn [hex4].
  destruct (hex_val a), (hex_val b), (hex_val c), (hex_val d); try done. cbn. by intros [= _ <-].
Qed.

Lemma escape_length s p x : escape s = Some (p, x) -> len x < len s.
Proof.
  unfold escape. destruct s as [|c s]; [done|]. cbn [String.length].
  repeat match goal with |- context [if ?b then _ else _] => destruct b end; try (intros [= _ <-]; lia).
  unfold unicode_escape. destruct (hex4 s) as [[r s1]|] eqn:E; [|done]. apply hex4_length in E. cbn.
  destruct (in_runes r _ _); [|intros [= _ <-]; lia].
  destruct s1 as [|b [|u s2]]; try (intros [= _ <-]; cbn in *; lia).
  destruct (_ && _); [|intros [= _ <-]; cbn in *; lia]. destruct (hex4 s2) as [[r2 s3]|] eqn:E2; [|intros [= _ <-]; cbn in *; lia].
  apply hex4_length in E2. destruct (_ && _); intros [= _ <-]; cbn in *; lia.
Qed.

Lemma read_string_ends f s :
  (forall p x, read_string f s = Ok (p, x) -> len x < len s) /\ (len s < f -> read_string f s <> Err ErrFuel).
Proof.
  revert s. induction f as [|f IH]; intros s; [split; [done|lia]|]. cbn [read_string].
  assert (forall q s2 n, len s2 <= n ->
    (forall p x, ('(r, rest) ← read_string f s2; Ok (q +:+ r, rest)) = Ok (p, x) -> len x < n) /\
    (n < f -> ('(r, rest) ← read_string f s2; Ok (q +:+ r, rest)) <> Err ErrFuel)) as Hstep.
  { intros q s2 n Hn. destruct (IH s2) as [IH1 IH2]. destruct (read_string f s2) as [[r rest]|e]; cbn.
    - split; [|done]. intros p x [= _ <-]. specialize (IH1 r rest eq_refl). lia.
    - split; [done|]. intros H [= ->]. destruct IH2; [lia|done]. }
  destruct s as [|c s']; [done|]. cbn [String.length].
  destruct (Ascii.eqb c quote_byte); [split; [intros p x [= _ <-]; lia|done]|].
  destruct (Ascii.eqb c backslash).
  { destruct (escape s') as [[q s2]|] eqn:E; [|done]. apply escape_length in E.
    destruct (Hstep q s2 (len s')) as [H1 H2]; [lia|]. split; [intros p x H; specialize (H1 p x H); lia|intros H; apply H2; lia]. }
  destruct (byte_in c 0 31); [done|]. destruct (rune_size (String c s')) as [|n].
  - destruct (Hstep replacement s' (len s')) as [H1 H2]; [lia|]. split; [intros p x H; specialize (H1 p x H); lia|intros H; apply H2; lia].
  - pose proof (cut_length (S n) (String c s')) as Hc. destruct (cut (S n) (String c s')) as [q s2]. cbn [snd String.length] in Hc.
    destruct (Hstep q s2 (len s')) as [H1 H2]; [lia|]. split; [intros p x H; specialize (H1 p x H); lia|intros H; apply H2; lia].
Qed.

Lemma read_key_ends s :
  (forall k x, read_key s = Ok (k, x) -> len x < len s) /\ read_key s <> Err ErrFuel.
Proof.
  unfold read_key. pose proof (skip_ws_length s) as Hs. destruct (skip_ws s) as [|c s']; [done|]. cbn in Hs.
  destruct (Ascii.eqb c quote_byte); [|done]. destruct (read_string_ends (S (len s')) s') as [H1 H2].
  destruct (read_string (S (len s')) s') as [[k s1]|e]; cbn.
  - specialize (H1 k s1 eq_refl). pose proof (skip_ws_length s1) as Hs1. destruct (skip_ws s1) as [|d s2]; [done|]. cbn in Hs1.
    destruct (Ascii.eqb d ":"%char); [|done]. split; [|done]. intros ? ? [= _ <-]. lia.
  - split; [done|]. intros [= ->]. by apply H2; [lia|].
Qed.

Lemma span_digits_length s : len (span_digits s).2 <= len s.
Proof.
  induction s as [|c s IH]; [done|]. cbn [span_digits]. destruct (Numeric.is_digit c); [|done].
  destruct (span_digits s). cbn in *. lia.
Qed.

Lemma scan_number_length s t x : scan_number s = Some (t, x) -> len x < len s.
Proof.
  unfold scan_number.
  destruct (match s with String c s' => if Ascii.eqb c "-"%char then ("-", s') else ("", s) | EmptyString => ("", s) end) as [sign s0] eqn:Es.
  assert (len s0 <= len s) as H0.
  { destruct s as [|c s']; [by injection Es as <- <-|]. destruct (Ascii.eqb c "-"%char); injection Es as <- <-; cbn; lia. }
  destruct (scan_int s0) as [[i s1]|] eqn:E1; [|done]. cbn.
  assert (len s1 < len s0) as H1.
  { destruct s0 as [|c s0]; [done|]. cbn [scan_int] in E1. destruct (Ascii.eqb c "0"%char); [injection E1 as _ <-; cbn; lia|].
    destruct (Numeric.is_digit c) eqn:Ec; [|done]. assert (span_digits (String c s0) = (i, s1)) as Hd by congruence.
    cbn [span_digits] in Hd. rewrite Ec in Hd. pose proof (span_digits_length s0). destruct (span_digits s0). injection Hd as _ <-. cbn in *. lia. }
  destruct (scan_frac s1) as [[fr s2]|] eqn:E2; [|done]. cbn.
  assert (len s2 <= len s1) as H2.
  { destruct s1 as [|c s1]; [by injection E2 as _ <-|]. cbn [scan_frac] in E2. destruct (Ascii.eqb c "."%char); [|by injection E2 as _ <-].
    pose proof (span_digits_length s1). destruct (span_digits s1). case_bool_decide; [done|]. injection E2 as _ <-. cbn in *. lia. }
  destruct (scan_exp s2) as [[ex s3]|] eqn:E3; [|done]. cbn. intros [= _ <-].
  assert (len s3 <= len s2) as H3; [|lia].
  destruct s2 as [|c s2]; [by injection E3 as _ <-|]. cbn [scan_exp] in E3. destruct (_ || _); [|by injection E3 as _ <-].
  destruct (match s2 with String d s2' => if Ascii.eqb d "+"%char || Ascii.eqb d "-"%char then (String d "", s2') else ("", s2) | EmptyString => ("", s2) end) as [sg s4] eqn:E4.
  assert (len s4 <= len s2).
  { destruct s2 as [|d s2]; [by injection E4 as _ <-|]. destruct (_ || _); injection E4 as _ <-; cbn; lia. }
  pose proof (span_digits_length s4). destruct (span_digits s4). case_bool_decide; [done|]. injection E3 as _ <-. cbn in *. lia.
Qed.

(** What a reader leaves is shorter, and [m] fuel is enough for it. *)
Definition ends {A} (m fuel : nat) (s : string) (r : result json_error (A * string)) : Prop :=
  (forall a x, r = Ok (a, x) -> len x < len s) /\ (m <= fuel -> r <> Err ErrFuel).

Lemma ends_map {A B} (g : A -> B) m fuel s t (r : result json_error (A * string)) n :
  ends m fuel t r -> len t <= len s -> m <= n -> ends n fuel s ('(a, x) ← r; Ok (g a, x)).
Proof.
  intros [H1 H2] Ht Hn. destruct r as [[a x]|e]; cbn.
  - split; [|done]. intros b y [= _ <-]. specialize (H1 a x eq_refl). lia.
  - split; [done|]. intros H [= ->]. apply H2; [lia|done].
Qed.

Lemma ends_err {A} m fuel s (e : json_error) : e <> ErrFuel -> @ends A m fuel s (Err e).
Proof. intros He. split; [done|]. by intros _ [= ->]. Qed.

Lemma ends_word w j m fuel s : w <> "" -> ends m fuel s (word w j s).
Proof.
  intros Hw. unfold word. destruct (strings.HasPrefix s w) eqn:E; [|by apply ends_err]. split; [|done]. intros j' x [= _ <-].
  apply strings_facts.HasPrefix_split in E. rewrite E at 2. rewrite slength_app. destruct w; [done|]. cbn. lia.
Qed.

Lemma closes_length b s x : closes b s = Some x -> len x < len s.
Proof.
  unfold closes. pose proof (skip_ws_length s). destruct (skip_ws s) as [|c s']; [done|]. cbn in *.
  destruct (Ascii.eqb c b); [|done]. intros [= <-]. lia.
Qed.

(** Between two values: a comma and more, or the closing bracket. *)
Lemma ends_next {A} m fuel s x (more : string -> result json_error (A * string)) (last : A) b :
  (forall y, len y < len x -> ends m fuel y (more y)) -> len x <= len s ->
  ends m fuel s (match skip_ws x with
                 | String c y => if Ascii.eqb c ","%char then more y else if Ascii.eqb c b then Ok (last, y) else Err ErrSyntax
                 | EmptyString => Err ErrSyntax
                 end).
Proof.
  intros Hm Hx. pose proof (skip_ws_length x) as Hs. destruct (skip_ws x) as [|c y]; [by apply ends_err|]. cbn in Hs.
  destruct (Ascii.eqb c ","%char).
  - destruct (Hm y) as [H1 H2]; [lia|]. split; [|done]. intros a z Hz. specialize (H1 a z Hz). lia.
  - destruct (Ascii.eqb c b); [|by apply ends_err]. split; [|done]. intros a z [= _ <-]. lia.
Qed.

Lemma value_ends fuel depth s :
  ends (2 * len s + 1) fuel s (value fuel depth s) /\ ends (2 * len s + 2) fuel s (members fuel depth s) /\
  ends (2 * len s + 2) fuel s (elements fuel depth s).
Proof.
  revert depth s. induction fuel as [|fuel IH]; intros depth s.
  { split_and!; (split; [done|lia]). }
  assert (forall A n t r, @ends A n fuel t r -> ends (S n) (S fuel) t r) as Hup by (intros A n t r [H1 H2]; split; [done|intros; apply H2; lia]).
  split_and!.
  - cbn [value]. pose proof (skip_ws_length s) as Hs. set (n := 2 * len s + 1).
    assert (forall A r, @ends A n (S fuel) (skip_ws s) r -> ends n (S fuel) s r) as Hws.
    { intros A r [H1 H2]. split; [|done]. intros a x Hr. specialize (H1 a x Hr). lia. }
    apply Hws. destruct (skip_ws s) as [|c s'] eqn:Es; [by apply ends_err|]. cbn in Hs.
    destruct (Ascii.eqb c "{"%char).
    { destruct (_ <=? _)%Z; [by apply ends_err|]. destruct (closes "}" s') as [s2|] eqn:Ec.
      - split; [|done]. intros a x [= _ <-]. apply closes_length in Ec. cbn. lia.
      - eapply ends_map; [apply Hup, (IH (depth + 1)%Z s')|cbn; lia|lia]. }
    destruct (Ascii.eqb c "["%char).
    { destruct (_ <=? _)%Z; [by apply ends_err|]. destruct (closes "]" s') as [s2|] eqn:Ec.
      - split; [|done]. intros a x [= _ <-]. apply closes_length in Ec. cbn. lia.
      - eapply ends_map; [apply Hup, (IH (depth + 1)%Z s')|cbn; lia|lia]. }
    destruct (Ascii.eqb c quote_byte).
    { apply (ends_map JString (S (len s')) (S fuel) _ s'); [|cbn; lia|lia]. destruct (read_string_ends (S (len s')) s') as [H1 H2].
      split; [done|]. intros _. apply H2. lia. }
    destruct (Ascii.eqb c "n"%char); [by apply ends_word|]. destruct (Ascii.eqb c "t"%char); [by apply ends_word|].
    destruct (Ascii.eqb c "f"%char); [by apply ends_word|]. destruct (scan_number (String c s')) as [[t r]|] eqn:En; [|by apply ends_err].
    split; [|done]. intros a x [= _ <-]. by apply scan_number_length in En.
  - cbn [members]. destruct (read_key_ends s) as [K1 K2]. destruct (read_key s) as [[k s1]|e]; cbn [mbind result_bind]; [|apply ends_err; by intros ->].
    specialize (K1 k s1 eq_refl). destruct (IH depth s1) as ([V1 V2] & _). destruct (value fuel depth s1) as [[v s2]|e]; cbn [mbind result_bind].
    + specialize (V1 v s2 eq_refl). eapply (ends_next _ _ _ s2); [|lia]. intros y Hy.
      eapply (ends_map _ (S (2 * len y + 2))); [apply Hup, IH|done|lia].
    + split; [done|]. intros H [= ->]. apply V2; [lia|done].
  - cbn [elements]. destruct (IH depth s) as ([V1 V2] & _). destruct (value fuel depth s) as [[v s2]|e]; cbn [mbind result_bind].
    + specialize (V1 v s2 eq_refl). eapply (ends_next _ _ _ s2); [|lia]. intros y Hy.
      eapply (ends_map _ (S (2 * len y + 2))); [apply Hup, IH|done|lia].
    + split; [done|]. intros H [= ->]. apply V2; [lia|done].
Qed.

(** The fuel of [parse] is enough for every document. *)
Lemma parse_ends s : parse s <> Err ErrFuel.
Proof.
  unfold parse. destruct (value_ends (2 * len s + 1) 0 s) as ([_ H] & _).
  destruct (value (2 * len s + 1) 0 s) as [[j r]|e]; cbn; [by case_bool_decide|]. intros [= ->]. by apply H.
Qed.

(** An object with anything but blanks behind it is refused. *)
Lemma parse_object_then l x j :
  printable (JObject l) = true -> (nesting (JObject l) <= maxNestingDepth)%Z ->
  parse (print (JObject l) +:+ x) = Ok j -> j = JObject l /\ skip_ws x = "".
Proof.
  intros Hp Hd. unfold parse. rewrite Nat.add_1_r, value_object; [|by apply Forall_forall; intros; apply value_print|done|lia|lia].
  cbn. case_bool_decide; [|done]. by intros [= <-].
Qed.

(** ** Printed integers are numbers *)

Definition digits (s : string) : Prop := span_digits s = (s, "").

Lemma digits_snoc s c : digits s -> Numeric.is_digit c = true -> digits (s +:+ String c "").
Proof.
  unfold digits. intros Hs Hc. induction s as [|a s IH]; [change (span_digits (String c "") = (String c "", "")); cbn [span_digits]; by rewrite Hc|].
  rewrite strings_facts.app_cons. cbn [span_digits] in *. destruct (Numeric.is_digit a); [|done].
  destruct (span_digits s) as [d r]. injection Hs as -> ->. by rewrite IH.
Qed.

Lemma digit_char_digit d : (0 <= d < 10)%Z -> Numeric.is_digit (strconv.digit_char d) = true.
Proof. intros H. unfold Numeric.is_digit. by rewrite strconv_facts.digit_val_char. Qed.

Lemma digit_char_zero d : (0 < d < 10)%Z -> Ascii.eqb (strconv.digit_char d) "0" = false.
Proof. intros H. assert (d = 1 \/ d = 2 \/ d = 3 \/ d = 4 \/ d = 5 \/ d = 6 \/ d = 7 \/ d = 8 \/ d = 9)%Z as Hd by lia. by repeat destruct Hd as [->|Hd]; [..|subst d]. Qed.

Lemma format_digits_shape fuel n acc :
  (0 < n < 10 ^ Z.of_nat fuel)%Z ->
  exists c ds, strconv.format_digits fuel n acc = String c (ds +:+ acc) /\ Numeric.is_digit c = true /\
    Ascii.eqb c "0" = false /\ digits ds.
Proof.
  revert n acc. induction fuel as [|fuel IH]; intros n acc Hn; [cbn in Hn; lia|]. cbn [strconv.format_digits].
  destruct (Z.ltb_spec n 10).
  - rewrite Z.mod_small by lia. exists (strconv.digit_char n), "". split; [done|].
    split; [apply digit_char_digit; lia|]. split; [apply digit_char_zero; lia|done].
  - rewrite Nat2Z.inj_succ, Z.pow_succ_r in Hn by lia.
    destruct (IH (n / 10)%Z (String (strconv.digit_char (n mod 10)) acc)) as (c & ds & E & Hc & H0 & Hds).
    { split; [apply Z.div_str_pos; lia|apply Z.div_lt_upper_bound; lia]. }
    exists c, (ds +:+ String (strconv.digit_char (n mod 10)) ""). split_and!; [|done|done|].
    + by rewrite E, strings_facts.app_assoc.
    + apply digits_snoc; [done|]. apply digit_char_digit, Z.mod_pos_bound. lia.
Qed.

Lemma scan_int_format n : (0 <= n < 10 ^ 20)%Z ->
  exists c s, strconv.format_digits strconv.int64_digits n "" = String c s /\ Numeric.is_digit c = true /\
    scan_int (String c s) = Some (String c s, "").
Proof.
  intros Hn. destruct (Z.eq_dec n 0) as [->|]; [by exists "0"%char, ""|].
  destruct (format_digits_shape strconv.int64_digits n "") as (c & ds & -> & Hc & H0 & Hds); [cbv [strconv.int64_digits]; lia|].
  rewrite strings_facts.app_nil_r. exists c, ds. split_and!; [done|done|]. cbn [scan_int span_digits]. by rewrite H0, Hc, Hds.
Qed.

Lemma scan_number_format n : int64 n -> scan_number (strconv.FormatInt n) = Some (strconv.FormatInt n, "").
Proof.
  unfold int64, int64_min, int64_max. intros Hn. unfold strconv.FormatInt, scan_number. destruct (Z.ltb_spec n 0).
  - destruct (scan_int_format (- n)) as (c & s & E & _ & Hs); [lia|]. rewrite E. change (Ascii.eqb "-" "-") with true. cbn iota.
    rewrite Hs. cbn. by rewrite strings_facts.app_nil_r.
  - destruct (scan_int_format n) as (c & s & E & Hc & Hs); [lia|]. rewrite E.
    assert (Ascii.eqb c "-" = false) as -> by (clear -Hc; destruct (Ascii.eqb_spec c "-"); [by subst c|done]).
    rewrite Hs. cbn. by rewrite !strings_facts.app_nil_r.
Qed.
