(* ===== verification/Sequence.v ===== *)
(** * Sequence: the monotonicity gate of delta ingestion

    internal/runtime/sequence.go.  [checkDeltaContinuity] compares a delta with
    the last accepted delta of its partition; [gate] is the way the input worker
    iterates it (it remembers the delta it accepted). *)

From S2P Require Import Prelude GoStd Model.

Definition sameOptionalInt64 (a b : option Z) : bool :=
  match a, b with
  | None, None => true
  | None, _ | _, None => false
  | Some x, Some y => (x =? y)%Z
  end.

Definition sameDeltaIdentity (a b : OrderBookDelta) : bool :=
  if bool_decide (od_RawEventID a <> "") && bool_decide (od_RawEventID b <> "")
     && bool_decide (od_RawEventID a = od_RawEventID b) then true
  else sameOptionalInt64 (od_FirstUpdateID a) (od_FirstUpdateID b)
       && sameOptionalInt64 (od_LastUpdateID a) (od_LastUpdateID b)
       && sameOptionalInt64 (od_Sequence a) (od_Sequence b)
       && (bool_decide (od_FirstUpdateID a <> None) || bool_decide (od_LastUpdateID a <> None)
           || bool_decide (od_Sequence a <> None)).

Definition deltaTerminal (delta : OrderBookDelta) : option Z :=
  match od_LastUpdateID delta with
  | Some x => Some x
  | None => od_Sequence delta
  end.

(** The Go function returns [(bool, error)]; the error half of the model's
    result is a string. *)
Definition checkDeltaContinuity (previous : option OrderBookDelta) (current : OrderBookDelta)
    : result string bool :=
  match previous with
  | None => Ok true
  | Some prev =>
      if sameDeltaIdentity prev current then Ok false
      else match deltaTerminal prev, deltaTerminal current with
           | Some p, Some c => Ok (p <? c)%Z
           | _, _ => Ok true
           end
  end.

(** The accepted deltas of a stream, and the last one remembered. *)
Fixpoint gate (previous : option OrderBookDelta) (ds : list OrderBookDelta)
    : list OrderBookDelta * option OrderBookDelta :=
  match ds with
  | [] => ([], previous)
  | d :: ds' =>
      match checkDeltaContinuity previous d with
      | Ok true => let '(acc, last) := gate (Some d) ds' in (d :: acc, last)
      | _ => gate previous ds'
      end
  end.

(** ** Lemmas *)

Lemma sameOptionalInt64_spec a b : sameOptionalInt64 a b = true <-> a = b.
Proof.
  destruct a, b; simpl; rewrite ?Z.eqb_eq; split; congruence.
Qed.

Definition has_terminal (d : OrderBookDelta) : Prop := is_Some (deltaTerminal d).

Definition terminal_lt (d e : OrderBookDelta) : Prop :=
  match deltaTerminal d, deltaTerminal e with
  | Some x, Some y => (x < y)%Z
  | _, _ => False
  end.

#[export] Instance terminal_lt_trans : Transitive terminal_lt.
Proof.
  intros d e f. unfold terminal_lt. repeat case_match; try done. lia.
Qed.

Lemma check_accept_terminal_lt p d :
  has_terminal p -> has_terminal d -> checkDeltaContinuity (Some p) d = Ok true -> terminal_lt p d.
Proof.
  intros [x Hx] [y Hy]. simpl. destruct (sameDeltaIdentity p d); [done|].
  unfold terminal_lt. rewrite Hx, Hy. intros H. simplify_eq. by apply Z.ltb_lt.
Qed.

Lemma check_stale p d :
  has_terminal p -> has_terminal d -> ~ terminal_lt p d -> checkDeltaContinuity (Some p) d = Ok false.
Proof.
  intros [x Hx] [y Hy]. simpl. destruct (sameDeltaIdentity p d); [done|].
  unfold terminal_lt. rewrite Hx, Hy. intros H. f_equal. apply Z.ltb_ge. lia.
Qed.

Lemma check_total prev d : exists b, checkDeltaContinuity prev d = Ok b.
Proof. unfold checkDeltaContinuity. repeat case_match; eauto. Qed.

Lemma gate_incl prev ds : fst (gate prev ds) ⊆ ds.
Proof.
  revert prev. induction ds as [|d ds IH]; intros prev; simpl; [done|].
  destruct (checkDeltaContinuity prev d) as [[]|].
  - specialize (IH (Some d)). destruct (gate (Some d) ds) as [acc l].
    by apply list_subseteq_skip.
  - by apply list_subseteq_cons.
  - by apply list_subseteq_cons.
Qed.

Lemma gate_above p ds :
  has_terminal p -> Forall has_terminal ds ->
  Forall (terminal_lt p) (fst (gate (Some p) ds)) /\
  StronglySorted terminal_lt (fst (gate (Some p) ds)).
Proof.
  intros Hp Hds. revert p Hp. induction Hds as [|d ds Hd _ IH]; intros p Hp.
  { split; constructor. }
  cbn [gate]. destruct (check_total (Some p) d) as [[] E]; rewrite E; [|by apply IH].
  apply check_accept_terminal_lt in E; [|done..].
  destruct (IH d Hd) as [Hab Hso]. destruct (gate (Some d) ds) as [acc last]. simpl in *.
  split; constructor; try done.
  eapply Forall_impl; [exact Hab|]. intros x. by apply transitivity.
Qed.

(** A gate whose last accepted delta is at or above every delta of [ds]
    accepts none of them. *)
Lemma gate_all_stale p ds :
  has_terminal p -> Forall has_terminal ds -> Forall (fun d => ~ terminal_lt p d) ds ->
  gate (Some p) ds = ([], Some p).
Proof.
  intros Hp Ht. induction Ht as [|d ds Hd _ IH]; intros Hs; [done|].
  inversion Hs; subst. cbn [gate]. rewrite check_stale by done. by apply IH.
Qed.

(** Two deltas with the same raw event id describe the same event. *)
Definition raw_ids_consistent (ds : list OrderBookDelta) : Prop :=
  forall a b, a ∈ ds -> b ∈ ds -> od_RawEventID a <> "" ->
    od_RawEventID a = od_RawEventID b -> deltaTerminal a = deltaTerminal b.

Lemma same_identity_terminal ds a b :
  raw_ids_consistent ds -> a ∈ ds -> b ∈ ds ->
  sameDeltaIdentity a b = true -> deltaTerminal a = deltaTerminal b.
Proof.
  intros Hc Ha Hb. unfold sameDeltaIdentity. destruct (_ && _)%bool eqn:E.
  - intros _. bool_to_prop. by apply Hc.
  - intros H. bool_to_prop.
    repeat match goal with H : sameOptionalInt64 _ _ = true |- _ =>
      apply sameOptionalInt64_spec in H end.
    unfold deltaTerminal. by repeat match goal with H : _ a = _ b |- _ => rewrite H; clear H end.
Qed.

Lemma check_reject_not_lt ds a b :
  raw_ids_consistent ds -> a ∈ ds -> b ∈ ds ->
  checkDeltaContinuity (Some a) b = Ok false -> ~ terminal_lt a b.
Proof.
  intros Hc Ha Hb. simpl. destruct (sameDeltaIdentity a b) eqn:Hid.
  - intros _. eapply same_identity_terminal in Hid; [|done..].
    unfold terminal_lt. rewrite Hid. case_match; [lia|tauto].
  - unfold terminal_lt. repeat case_match; intros; simplify_eq; try tauto.
    rewrite Z.ltb_ge in *. lia.
Qed.

Lemma not_terminal_lt_trans a b c :
  has_terminal b -> ~ terminal_lt a b -> ~ terminal_lt b c -> ~ terminal_lt a c.
Proof.
  intros [y Hy]. unfold terminal_lt. rewrite Hy. repeat case_match; try tauto. lia.
Qed.

(** The delta remembered at the end of a stream is at or above all of it. *)
Lemma gate_covers d ds :
  Forall has_terminal (d :: ds) -> raw_ids_consistent (d :: ds) ->
  exists p, snd (gate (Some d) ds) = Some p /\ has_terminal p /\
    Forall (fun e => ~ terminal_lt p e) (d :: ds).
Proof.
  assert (forall l, forall d ds, Forall has_terminal (d :: ds) -> raw_ids_consistent l ->
    d :: ds ⊆ l -> exists p, snd (gate (Some d) ds) = Some p /\ has_terminal p /\
    Forall (fun e => ~ terminal_lt p e) (d :: ds)) as Hgen; [|by intros; eapply Hgen].
  clear d ds. intros l d ds. revert d.
  induction ds as [|e ds IH]; intros d Ht Hc Hsub.
  { exists d. inversion Ht; subst. repeat split; [done|]. constructor; [|done].
    unfold terminal_lt. case_match; [lia|tauto]. }
  inversion Ht as [|? ? Hd Ht']; subst. inversion Ht' as [|? ? He Hds]; subst.
  cbn [gate]. destruct (check_total (Some d) e) as [[] E]; rewrite E.
  - destruct (IH e) as (p & Hp & Hpt & Hs); [done..|set_solver|].
    exists p. destruct (gate (Some e) ds) as [acc la]. split; [done|]. split; [done|].
    constructor; [|done]. apply check_accept_terminal_lt in E; [|done..].
    inversion Hs as [|? ? Hpe]; subst. intros Hpd. apply Hpe. by etrans.
  - destruct (IH d) as (p & Hp & Hpt & Hs); [by constructor|done|set_solver|].
    exists p. split; [done|]. split; [done|].
    inversion Hs as [|? ? Hpd Hps]; subst. constructor; [done|]. constructor; [|done].
    eapply (not_terminal_lt_trans p d e); [done|done|].
    eapply check_reject_not_lt; [exact Hc|set_solver|set_solver|done].
Qed.

(** ** Properties *)

(** The gate never fails: [checkDeltaContinuity] returns a nil error on
    every pair, so ingestion never takes the "sequence" error path. *)
Theorem continuity_never_errors prev cur : is_ok (checkDeltaContinuity prev cur) = true.
Proof. destruct (check_total prev cur) as [b ->]. done. Qed.

(** Over a stream whose deltas all carry a cursor, the accepted deltas have
    strictly increasing terminal ids and are a sub-collection of the stream,
    whatever the order, repetitions and gaps of the input. *)
Theorem gate_accepts_increasing d ds :
  has_terminal d -> Forall has_terminal ds ->
  StronglySorted terminal_lt (fst (gate None (d :: ds))) /\
  fst (gate None (d :: ds)) ⊆ d :: ds.
Proof.
  intros Hd Hds. split; [|apply gate_incl]. simpl.
  destruct (gate_above d ds Hd Hds) as [Hab Hso].
  destruct (gate (Some d) ds) as [acc l]. by constructor.
Qed.

Definition sample_delta (last seq : option Z) : OrderBookDelta :=
  mkOrderBookDelta "g" "i" 0%Z None None "" None last None seq [] [] "" "t" 0%Z 0%Z 0%Z.

Lemma gate_accepts_increasing_witness :
  StronglySorted terminal_lt
    (fst (gate None [sample_delta (Some 5%Z) None; sample_delta (Some 3%Z) None;
                     sample_delta (Some 9%Z) None])) /\
  fst (gate None [sample_delta (Some 5%Z) None; sample_delta (Some 3%Z) None;
                  sample_delta (Some 9%Z) None])
  ⊆ [sample_delta (Some 5%Z) None; sample_delta (Some 3%Z) None; sample_delta (Some 9%Z) None].
Proof.
  apply (gate_accepts_increasing (sample_delta (Some 5%Z) None)
           [sample_delta (Some 3%Z) None; sample_delta (Some 9%Z) None]).
  - eexists; reflexivity.
  - repeat constructor; eexists; reflexivity.
Defined.

(** Replaying a stream that was already gated accepts nothing, provided a
    raw event id names one event: once the whole stream has gone through, every
    one of its deltas is stale. *)
Theorem gate_replay_idempotent d ds :
  Forall has_terminal (d :: ds) -> raw_ids_consistent (d :: ds) ->
  fst (gate (snd (gate None (d :: ds))) (d :: ds)) = [].
Proof.
  intros Ht Hc. assert (snd (gate None (d :: ds)) = snd (gate (Some d) ds)) as ->.
  { simpl. by destruct (gate (Some d) ds). }
  destruct (gate_covers d ds Ht Hc) as (p & -> & Hp & Hs).
  by rewrite gate_all_stale.
Qed.

Lemma gate_replay_idempotent_witness :
  fst (gate (snd (gate None [sample_delta (Some 5%Z) None; sample_delta (Some 9%Z) None]))
         [sample_delta (Some 5%Z) None; sample_delta (Some 9%Z) None]) = [].
Proof.
  apply (gate_replay_idempotent (sample_delta (Some 5%Z) None) [sample_delta (Some 9%Z) None]).
  - repeat constructor; eexists; reflexivity.
  - intros a b Ha Hb Hne. exfalso. apply Hne.
    rewrite !elem_of_cons, elem_of_nil in Ha. by destruct Ha as [->|[->|[]]].
Defined.

(** The terminal of a delta mixes two cursors: when the last accepted delta
    carries a [last_update_id] and the next one only a [sequence], the two are
    compared with each other, and a delta that follows in sequence is dropped. *)
Theorem mixed_cursor_delta_dropped :
  exists prev cur,
    od_Sequence prev = Some 4%Z /\ od_Sequence cur = Some 5%Z /\
    sameDeltaIdentity prev cur = false /\
    checkDeltaContinuity (Some prev) cur = Ok false.
Proof.
  exists (sample_delta (Some 1000%Z) (Some 4%Z)), (sample_delta None (Some 5%Z)). done.
Qed.
