(* ===== verification/Metadata.v ===== *)
(** * Metadata: groups, inputs, nodes, leases and statuses

    internal/metadata/postgres.go over the tables of migrations/000001 and
    000003.  As in Storage, a method is a function of the tables, of the outcome
    of the server call and of the server clock; a statement that PostgreSQL
    refuses for a constraint the method does not look at is a failed call. *)

From S2P Require Import Prelude GoStd Model.

Open Scope Z_scope.

Record MetaDB := mkMetaDB {
  md_groups : gmap string MarketGroup;
  md_inputs : gmap string GroupInput;
  md_nodes : gmap string RuntimeNode;
  md_leases : gmap string GroupLease;
  md_status : gmap string StreamRuntimeStatus
}.

Definition emptyMeta : MetaDB := mkMetaDB ∅ ∅ ∅ ∅ ∅.

Inductive meta_error :=
| ErrConflict
| ErrNotFound
| ErrRequired
| ErrInvalid (field value : string)
| ErrStreamKey (e : streamkey_error)
| ErrInconsistent
| ErrLeaseTTL
| ErrServer.

Definition set_groups (g : gmap string MarketGroup) (db : MetaDB) : MetaDB :=
  mkMetaDB g (md_inputs db) (md_nodes db) (md_leases db) (md_status db).
Definition set_inputs (i : gmap string GroupInput) (db : MetaDB) : MetaDB :=
  mkMetaDB (md_groups db) i (md_nodes db) (md_leases db) (md_status db).
Definition set_nodes (n : gmap string RuntimeNode) (db : MetaDB) : MetaDB :=
  mkMetaDB (md_groups db) (md_inputs db) n (md_leases db) (md_status db).
Definition set_leases (l : gmap string GroupLease) (db : MetaDB) : MetaDB :=
  mkMetaDB (md_groups db) (md_inputs db) (md_nodes db) l (md_status db).
Definition set_statuses (s : gmap string StreamRuntimeStatus) (db : MetaDB) : MetaDB :=
  mkMetaDB (md_groups db) (md_inputs db) (md_nodes db) (md_leases db) s.

(** A change of the tables that the server may refuse or leave unacknowledged. *)
Definition call {A} (out : outcome) (db : MetaDB) (r : MetaDB * result meta_error A)
    : MetaDB * result meta_error A :=
  match out with
  | Done => r
  | Failed => (db, Err ErrServer)
  | Lost => (fst r, Err ErrServer)
  end.

(** The columns weight, schema_version and the capacities of a node are 32-bit
    integers (migrations/000001): a value beyond is refused when the statement's
    arguments are encoded, before it looks at any row.  So is kafka_partition, but
    the partitions of Kafka's protocol are 32-bit integers themselves. *)
Definition fits_integer (v : Z) : bool := (-2147483648 <=? v) && (v <=? 2147483647).

(** ** Normalisation *)

(** The stream triple: kind, key, interval. *)
Definition normalize_stream (inp : GroupInput) : result meta_error (string * string * string) :=
  if negb (bool_decide (gi_StreamKind inp = "")) then
    if negb (IsValidStreamKind (gi_StreamKind inp)) then Err (ErrInvalid "stream_kind" (gi_StreamKind inp))
    else match StreamKeyFor (gi_StreamKind inp) (gi_Interval inp) with
         | Err e => Err (ErrStreamKey e)
         | Ok key =>
             if negb (bool_decide (gi_StreamKey inp = "")) && negb (bool_decide (gi_StreamKey inp = key))
             then Err ErrInconsistent
             else Ok (gi_StreamKind inp, key, gi_Interval inp)
         end
  else if negb (bool_decide (gi_StreamKey inp = "")) then
    match ParseStreamKey (gi_StreamKey inp) with
    | Err e => Err (ErrStreamKey e)
    | Ok (kind, interval) =>
        if negb (bool_decide (gi_Interval inp = "")) && negb (bool_decide (gi_Interval inp = interval))
        then Err ErrInconsistent
        else Ok (kind, gi_StreamKey inp, interval)
    end
  else Err ErrRequired.

Definition or_default (s d : string) : string := if bool_decide (s = "") then d else s.

Definition normalizeInput (groupID : string) (inp : GroupInput) : result meta_error GroupInput :=
  '(kind, key, interval) ← normalize_stream inp;
  if bool_decide (gi_KafkaTopic inp = "") then Err (ErrInvalid "kafka_topic" "")
  else if negb (bool_decide (gi_DesiredStatus inp = "")) && negb (IsValidDesiredStatus (gi_DesiredStatus inp))
  then Err (ErrInvalid "desired_status" (gi_DesiredStatus inp))
  else Ok {|
    gi_InputID := or_default (gi_InputID inp) (NewInputID groupID key);
    gi_GroupID := groupID; gi_StreamKey := key; gi_StreamKind := kind; gi_Interval := interval;
    gi_Enabled := gi_Enabled inp;
    gi_KafkaCluster := or_default (gi_KafkaCluster inp) "default";
    gi_KafkaTopic := gi_KafkaTopic inp;
    gi_KafkaGroupID := or_default (gi_KafkaGroupID inp) (DefaultKafkaGroupID groupID key);
    gi_DesiredStatus := or_default (gi_DesiredStatus inp) DesiredStatusRunning;
    gi_SchemaVersion := if (gi_SchemaVersion inp <=? 0) then 1 else gi_SchemaVersion inp;
    gi_CreatedAt := gi_CreatedAt inp; gi_UpdatedAt := gi_UpdatedAt inp |}.

Definition normalizeGroup (g : MarketGroup) : result meta_error MarketGroup :=
  let gid := or_default (mg_GroupID g) (NewGroupID (mg_Exchange g) (mg_MarketType g) (mg_Symbol g)) in
  if negb (bool_decide (mg_DesiredStatus g = "")) && negb (IsValidDesiredStatus (mg_DesiredStatus g))
  then Err (ErrInvalid "desired_status" (mg_DesiredStatus g))
  else
    inputs ← result_mapM (normalizeInput gid) (mg_Inputs g);
    Ok {| mg_GroupID := gid; mg_Exchange := mg_Exchange g; mg_MarketType := mg_MarketType g;
          mg_Symbol := mg_Symbol g; mg_BaseAsset := mg_BaseAsset g; mg_QuoteAsset := mg_QuoteAsset g;
          mg_DesiredStatus := or_default (mg_DesiredStatus g) DesiredStatusRunning;
          mg_Weight := if (mg_Weight g <=? 0) then 1 else mg_Weight g;
          mg_Inputs := inputs; mg_CreatedAt := mg_CreatedAt g; mg_UpdatedAt := mg_UpdatedAt g |}.

(** ** Groups and inputs *)

Definition input_key (i : GroupInput) : string * string := (gi_GroupID i, gi_StreamKey i).
Definition group_venue (g : MarketGroup) : string * string * string :=
  (mg_Exchange g, mg_MarketType g, mg_Symbol g).

(** Does some row of a table satisfy a test? *)
Definition any_row {A} (f : A -> bool) (m : gmap string A) : bool :=
  existsb (fun kv => f kv.2) (map_to_list m).

Definition stamp_input (now : time.Time) (i : GroupInput) : GroupInput :=
  mkGroupInput (gi_InputID i) (gi_GroupID i) (gi_StreamKey i) (gi_StreamKind i) (gi_Interval i)
    (gi_Enabled i) (gi_KafkaCluster i) (gi_KafkaTopic i) (gi_KafkaGroupID i) (gi_DesiredStatus i)
    (gi_SchemaVersion i) now now.

(** INSERT INTO group_inputs ... ON CONFLICT DO NOTHING: a conflict inserts no
    row, so that the foreign key is looked at only without one. *)
Definition insertGroupInput (now : time.Time) (db : MetaDB) (inp : GroupInput) : result meta_error MetaDB :=
  if negb (fits_integer (gi_SchemaVersion inp)) then Err ErrServer
  else if bool_decide (is_Some (md_inputs db !! gi_InputID inp))
     || any_row (fun i => bool_decide (input_key i = input_key inp)) (md_inputs db)
  then Err ErrConflict
  else match md_groups db !! gi_GroupID inp with
       | None => Err ErrNotFound
       | Some _ => Ok (set_inputs (<[gi_InputID inp := stamp_input now inp]> (md_inputs db)) db)
       end.

(** The loop of inserts inside the transaction. *)
Fixpoint insert_inputs (now : time.Time) (db : MetaDB) (inputs : list GroupInput) : result meta_error MetaDB :=
  match inputs with
  | [] => Ok db
  | i :: inputs' => db' ← insertGroupInput now db i; insert_inputs now db' inputs'
  end.

(** The stored row of a group; the inputs live in their own table. *)
Definition group_row (now : time.Time) (g : MarketGroup) : MarketGroup :=
  mkMarketGroup (mg_GroupID g) (mg_Exchange g) (mg_MarketType g) (mg_Symbol g) (mg_BaseAsset g)
    (mg_QuoteAsset g) (mg_DesiredStatus g) (mg_Weight g) [] now now.

(** The transaction of [CreateGroup] on a normalised group. *)
Definition create_tx (now : time.Time) (db : MetaDB) (g : MarketGroup) : result meta_error MetaDB :=
  if negb (fits_integer (mg_Weight g)) then Err ErrServer
  else if bool_decide (is_Some (md_groups db !! mg_GroupID g))
     || any_row (fun h => bool_decide (group_venue h = group_venue g)) (md_groups db)
  then Err ErrConflict
  else insert_inputs now (set_groups (<[mg_GroupID g := group_row now g]> (md_groups db)) db) (mg_Inputs g).

(** Commit the result of a transaction, or roll it back. *)
Definition transact (out : outcome) (db : MetaDB) (r : result meta_error MetaDB)
    : MetaDB * result meta_error () :=
  match r with
  | Err e => (db, Err e)
  | Ok db' => call out db (db', Ok ())
  end.

Definition CreateGroup (out : outcome) (now : time.Time) (db : MetaDB) (g : MarketGroup)
    : MetaDB * result meta_error () :=
  if bool_decide (mg_Exchange g = "") || bool_decide (mg_MarketType g = "") || bool_decide (mg_Symbol g = "")
  then (db, Err ErrRequired)
  else if negb (IsValidMarketType (mg_MarketType g)) then (db, Err (ErrInvalid "market_type" (mg_MarketType g)))
  else match normalizeGroup g with
       | Err e => (db, Err e)
       | Ok g' => transact out db (create_tx now db g')
       end.

(** The loop of [AddInputs]: normalise, then insert, one input at a time. *)
Fixpoint add_inputs_tx (now : time.Time) (db : MetaDB) (groupID : string) (inputs : list GroupInput)
    : result meta_error MetaDB :=
  match inputs with
  | [] => Ok db
  | i :: inputs' =>
      ni ← normalizeInput groupID i;
      db' ← insertGroupInput now db ni;
      add_inputs_tx now db' groupID inputs'
  end.

Definition AddInputs (out : outcome) (now : time.Time) (db : MetaDB) (groupID : string)
    (inputs : list GroupInput) : MetaDB * result meta_error () :=
  match inputs with
  | [] => (db, Ok ())
  | _ => transact out db (add_inputs_tx now db groupID inputs)
  end.

Definition set_group_status (now : time.Time) (status : string) (g : MarketGroup) : MarketGroup :=
  mkMarketGroup (mg_GroupID g) (mg_Exchange g) (mg_MarketType g) (mg_Symbol g) (mg_BaseAsset g)
    (mg_QuoteAsset g) status (mg_Weight g) (mg_Inputs g) (mg_CreatedAt g) now.

Definition UpdateGroupDesiredStatus (out : outcome) (now : time.Time) (db : MetaDB) (groupID status : string)
    : MetaDB * result meta_error () :=
  if negb (IsValidDesiredStatus status) then (db, Err (ErrInvalid "desired_status" status))
  else call out db
    match md_groups db !! groupID with
    | None => (db, Err ErrNotFound)
    | Some g => (set_groups (<[groupID := set_group_status now status g]> (md_groups db)) db, Ok ())
    end.

Definition set_input_status (now : time.Time) (status : string) (i : GroupInput) : GroupInput :=
  mkGroupInput (gi_InputID i) (gi_GroupID i) (gi_StreamKey i) (gi_StreamKind i) (gi_Interval i)
    (gi_Enabled i) (gi_KafkaCluster i) (gi_KafkaTopic i) (gi_KafkaGroupID i) status
    (gi_SchemaVersion i) (gi_CreatedAt i) now.

Definition UpdateInputDesiredStatus (out : outcome) (now : time.Time) (db : MetaDB)
    (groupID streamKey status : string) : MetaDB * result meta_error () :=
  if negb (IsValidDesiredStatus status) then (db, Err (ErrInvalid "desired_status" status))
  else call out db
    (if any_row (fun i => bool_decide (input_key i = (groupID, streamKey))) (md_inputs db)
     then (set_inputs ((fun i => if bool_decide (input_key i = (groupID, streamKey))
                                 then set_input_status now status i else i) <$> md_inputs db) db, Ok ())
     else (db, Err ErrNotFound)).

(** DELETE FROM market_groups, with the cascades of the foreign keys. *)
Definition delete_cascade (groupID : string) (db : MetaDB) : MetaDB :=
  let gone := filter (fun kv => gi_GroupID kv.2 = groupID) (md_inputs db) in
  mkMetaDB (delete groupID (md_groups db)) (md_inputs db ∖ gone) (md_nodes db)
    (delete groupID (md_leases db)) (filter (fun kv => gone !! kv.1 = None) (md_status db)).

Definition DeleteGroup (out : outcome) (db : MetaDB) (groupID : string) : MetaDB * result meta_error () :=
  call out db
    match md_groups db !! groupID with
    | None => (db, Err ErrNotFound)
    | Some _ => (delete_cascade groupID db, Ok ())
    end.

(** The order of a query's ORDER BY column (bytes, as in the C collation). *)
Definition key_le {A} (key : A -> string) (x y : A) : Prop := string_le (key x) (key y).

#[export] Instance key_le_dec {A} (key : A -> string) : RelDecision (key_le key).
Proof. intros x y. unfold key_le. apply _. Defined.

(** Rows of a table by a key, in the order of that key. *)
Definition select_by {A} (key : A -> string) (f : A -> bool) (m : gmap string A) : list A :=
  merge_sort (key_le key) (List.filter f (map snd (map_to_list m))).

(** A query, which changes nothing. *)
Definition query {A} (out : outcome) (r : A) : result meta_error A :=
  match out with
  | Done => Ok r
  | _ => Err ErrServer
  end.

Definition ListRunnableGroups (out : outcome) (db : MetaDB) : result meta_error (list MarketGroup) :=
  query out (select_by mg_GroupID (fun g => bool_decide (mg_DesiredStatus g = DesiredStatusRunning)) (md_groups db)).

Definition ListGroups (out : outcome) (db : MetaDB) : result meta_error (list MarketGroup) :=
  query out (select_by mg_GroupID (fun _ => true) (md_groups db)).

Definition GetGroup (out : outcome) (db : MetaDB) (groupID : string) : result meta_error MarketGroup :=
  r ← query out (md_groups db !! groupID);
  match r with
  | None => Err ErrNotFound
  | Some g => Ok g
  end.

Definition ListGroupInputs (out : outcome) (db : MetaDB) (groupID : string) : result meta_error (list GroupInput) :=
  query out (select_by gi_StreamKey (fun i => bool_decide (gi_GroupID i = groupID)) (md_inputs db)).

(** ** Runtime nodes and stream statuses *)

(** The capacities fit their columns. *)
Definition node_fits (n : RuntimeNode) : bool :=
  fits_integer (rn_MaxGroups n) && fits_integer (rn_CurrentGroups n) && fits_integer (rn_MaxWeight n) && fits_integer (rn_CurrentWeight n).

Definition RegisterRuntimeNode (out : outcome) (now : time.Time) (db : MetaDB) (node : RuntimeNode)
    : MetaDB * result meta_error () :=
  let created := match md_nodes db !! rn_NodeID node with
                 | Some old => rn_CreatedAt old
                 | None => now
                 end in
  call out db
    (if node_fits node then
       (set_nodes (<[rn_NodeID node :=
          mkRuntimeNode (rn_NodeID node) (rn_Hostname node) (rn_PodName node)
            (or_default (rn_Status node) NodeStatusAlive) (rn_MaxGroups node) (rn_CurrentGroups node)
            (rn_MaxWeight node) (rn_CurrentWeight node) now created now]> (md_nodes db)) db, Ok ())
     else (db, Err ErrServer)).

Definition HeartbeatRuntimeNode (out : outcome) (now : time.Time) (db : MetaDB) (nodeID : string)
    (capacity : RuntimeCapacity) : MetaDB * result meta_error () :=
  call out db
    (if negb (fits_integer (rc_CurrentGroups capacity) && fits_integer (rc_CurrentWeight capacity)) then (db, Err ErrServer)
     else match md_nodes db !! nodeID with
     | None => (db, Err ErrNotFound)
     | Some n =>
         (set_nodes (<[nodeID :=
            mkRuntimeNode (rn_NodeID n) (rn_Hostname n) (rn_PodName n) (rn_Status n) (rn_MaxGroups n)
              (rc_CurrentGroups capacity) (rn_MaxWeight n) (rc_CurrentWeight capacity) now
              (rn_CreatedAt n) now]> (md_nodes db)) db, Ok ())
     end).

Definition UpdateRuntimeNodeStatus (out : outcome) (now : time.Time) (db : MetaDB) (nodeID status : string)
    : MetaDB * result meta_error () :=
  if negb (IsValidNodeStatus status) then (db, Err (ErrInvalid "status" status))
  else call out db
    match md_nodes db !! nodeID with
    | None => (db, Err ErrNotFound)
    | Some n =>
        (set_nodes (<[nodeID :=
           mkRuntimeNode (rn_NodeID n) (rn_Hostname n) (rn_PodName n) status (rn_MaxGroups n)
             (rn_CurrentGroups n) (rn_MaxWeight n) (rn_CurrentWeight n) (rn_LastHeartbeatAt n)
             (rn_CreatedAt n) now]> (md_nodes db)) db, Ok ())
    end.

(** The row a report stores; a report on an unknown input is refused. *)
Definition status_row (now : time.Time) (st : StreamRuntimeStatus) : StreamRuntimeStatus :=
  mkStreamRuntimeStatus (rs_InputID st) (rs_GroupID st) (rs_StreamKey st) (rs_NodeID st)
    (or_default (rs_ActualStatus st) ActualStatusPending) (rs_KafkaPartition st) (rs_KafkaLag st)
    (rs_CommittedOffset st) (rs_HighWatermarkOffset st) (rs_LastEventTime st) (rs_LastProcessedTime st)
    (rs_LastError st) now.

Definition ReportStreamRuntimeStatus (out : outcome) (now : time.Time) (db : MetaDB)
    (st : StreamRuntimeStatus) : MetaDB * result meta_error () :=
  call out db
    match md_inputs db !! rs_InputID st with
    | None => (db, Err ErrServer)
    | Some _ => (set_statuses (<[rs_InputID st := status_row now st]> (md_status db)) db, Ok ())
    end.

Definition ListStreamRuntimeStatus (out : outcome) (db : MetaDB) (groupID : string)
    : result meta_error (list StreamRuntimeStatus) :=
  query out (select_by rs_StreamKey (fun s => bool_decide (rs_GroupID s = groupID)) (md_status db)).

(** ** Leases *)

Section leases.

(** [now() + ttl.Seconds() * interval '1 second'], the server's arithmetic. *)
Variable expiry : time.Time -> time.Duration -> time.Time.

(** The row the INSERT or the UPDATE of [TryAcquireGroupLease] stores. *)
Definition acquired_lease (now : time.Time) (groupID nodeID : string) (ttl : time.Duration)
    (old : option GroupLease) : GroupLease :=
  match old with
  | None => mkGroupLease groupID nodeID (expiry now ttl) 1 now now
  | Some l => mkGroupLease groupID nodeID (expiry now ttl) (gl_Version l + 1)
                (if bool_decide (gl_NodeID l = nodeID) then gl_AcquiredAt l else now) now
  end.

(** The WHERE clause: the lease is expired, or ours. *)
Definition may_acquire (now : time.Time) (nodeID : string) (l : GroupLease) : bool :=
  (gl_LeaseExpiresAt l <? now) || bool_decide (gl_NodeID l = nodeID).

Definition TryAcquireGroupLease (out : outcome) (now : time.Time) (db : MetaDB) (groupID nodeID : string)
    (ttl : time.Duration) : MetaDB * result meta_error bool :=
  if (ttl <=? 0) then (db, Err ErrLeaseTTL)
  else
    let grant (old : option GroupLease) :=
      (set_leases (<[groupID := acquired_lease now groupID nodeID ttl old]> (md_leases db)) db, Ok true) in
    call out db
      match md_leases db !! groupID with
      | Some l => if may_acquire now nodeID l then grant (Some l) else (db, Ok false)
      | None => match md_groups db !! groupID with
                | None => (db, Err ErrNotFound)
                | Some _ => grant None
                end
      end.

Definition RenewGroupLease (out : outcome) (now : time.Time) (db : MetaDB) (groupID nodeID : string)
    (ttl : time.Duration) : MetaDB * result meta_error bool :=
  if (ttl <=? 0) then (db, Err ErrLeaseTTL)
  else
    call out db
      match md_leases db !! groupID with
      | Some l =>
          if (bool_decide (gl_NodeID l = nodeID) && (now <=? gl_LeaseExpiresAt l))
          then (set_leases (<[groupID := mkGroupLease groupID nodeID (expiry now ttl)
                  (gl_Version l + 1) (gl_AcquiredAt l) now]> (md_leases db)) db, Ok true)
          else (db, Ok false)
      | None => (db, Ok false)
      end.

Definition ReleaseGroupLease (out : outcome) (db : MetaDB) (groupID nodeID : string)
    : MetaDB * result meta_error () :=
  call out db
    match md_leases db !! groupID with
    | Some l => if bool_decide (gl_NodeID l = nodeID)
                then (set_leases (delete groupID (md_leases db)) db, Ok ())
                else (db, Ok ())
    | None => (db, Ok ())
    end.

Definition GetGroupLease (out : outcome) (db : MetaDB) (groupID : string)
    : result meta_error (option GroupLease) :=
  query out (md_leases db !! groupID).

End leases.

(** ** Normalised inputs *)

(** The CHECK constraint of migrations/000003 on the stream triple. *)
Definition stream_consistent (i : GroupInput) : Prop :=
  gi_StreamKey i <> "" /\
  ((gi_StreamKind i = StreamKindKline /\ gi_Interval i <> "" /\
    gi_StreamKey i = "kline_" +:+ gi_Interval i) \/
   (gi_StreamKind i <> StreamKindKline /\ gi_Interval i = "" /\ gi_StreamKey i = gi_StreamKind i)).

Lemma StreamKeyFor_shape kind interval key :
  StreamKeyFor kind interval = Ok key ->
  IsValidStreamKind kind = true /\ key <> "" /\ kind <> "" /\
  ((kind = StreamKindKline /\ interval <> "" /\ key = "kline_" +:+ interval) \/
   (kind <> StreamKindKline /\ interval = "" /\ key = kind)).
Proof.
  unfold StreamKeyFor. fold (fixed_key kind). destruct (fixed_key kind) eqn:Ef.
  - case_bool_decide as Hi; [done|]. intros [= <-].
    assert (interval = "") as -> by (destruct (decide (interval = "")); [done|by destruct Hi]).
    destruct (fixed_key_not_kline kind Ef) as [_ Hk].
    unfold fixed_key in Ef. rewrite !orb_true_iff, !bool_decide_eq_true in Ef.
    destruct_or!; subst; (split; [reflexivity|split_and!; try done; by right]).
  - case_bool_decide as Hk; [|done]. case_bool_decide as Hi; [done|]. intros [= <-]. subst.
    split; [reflexivity|]. split_and!; [done|done|by left].
Qed.

Lemma normalize_stream_Ok inp kind key interval :
  normalize_stream inp = Ok (kind, key, interval) -> StreamKeyFor kind interval = Ok key.
Proof.
  unfold normalize_stream. repeat case_match; intros; simplify_eq; try done.
  by apply StreamKeyFor_ParseStreamKey.
Qed.

Lemma or_default_id s d : s <> "" -> or_default s d = s.
Proof. intros H. unfold or_default. by rewrite bool_decide_false. Qed.

Lemma or_default_not_empty s d : d <> "" -> or_default s d <> "".
Proof. intros H. unfold or_default. by case_bool_decide. Qed.

Lemma app_not_empty p s : p <> "" -> p +:+ s <> "".
Proof. by destruct p. Qed.

Lemma NewInputID_not_empty g k : NewInputID g k <> "".
Proof. unfold NewInputID. destruct g; discriminate. Qed.

(** What the schema and the schedulers ask of a stored input. *)
Definition input_ok (g : string) (i : GroupInput) : Prop :=
  stream_consistent i /\ IsValidStreamKind (gi_StreamKind i) = true /\ gi_GroupID i = g /\
  gi_InputID i <> "" /\ gi_KafkaTopic i <> "" /\ gi_KafkaCluster i <> "" /\ gi_KafkaGroupID i <> "" /\
  IsValidDesiredStatus (gi_DesiredStatus i) = true /\ 1 <= gi_SchemaVersion i.

Lemma IsValidDesiredStatus_not_empty s : IsValidDesiredStatus s = true -> s <> "".
Proof. intros H ->. vm_compute in H. discriminate. Qed.

Lemma normalizeInput_Ok g inp n :
  normalizeInput g inp = Ok n ->
  input_ok g n /\ StreamKeyFor (gi_StreamKind n) (gi_Interval n) = Ok (gi_StreamKey n).
Proof.
  unfold normalizeInput. intros Hn. apply bind_Ok in Hn as ([[kind key] interval] & Hs & Hn).
  apply normalize_stream_Ok in Hs. destruct (StreamKeyFor_shape _ _ _ Hs) as (Hv & Hkey & Hkind & Hshape).
  case_bool_decide as Ht; [done|].
  destruct (negb (bool_decide (gi_DesiredStatus inp = "")) && _) eqn:Eds; [done|]. injection Hn as <-.
  unfold input_ok. cbn. split; [|done]. split_and!; try done.
  - by apply or_default_not_empty, NewInputID_not_empty.
  - by apply or_default_not_empty.
  - by apply or_default_not_empty.
  - unfold or_default. case_bool_decide as Hd; [reflexivity|]. simpl in Eds. by apply negb_false_iff in Eds.
  - destruct (Z.leb_spec (gi_SchemaVersion inp) 0); lia.
Qed.

(** An input in normal form is left alone. *)
Lemma normalizeInput_fixed g i :
  input_ok g i -> StreamKeyFor (gi_StreamKind i) (gi_Interval i) = Ok (gi_StreamKey i) ->
  normalizeInput g i = Ok i.
Proof.
  intros (_ & Hv & Hg & Hid & Ht & Hc & Hkg & Hds & Hsv) Hs.
  destruct (StreamKeyFor_shape _ _ _ Hs) as (_ & Hkey & Hkind & _).
  unfold normalizeInput, normalize_stream. rewrite (bool_decide_false (gi_StreamKind i = "")) by done. cbn.
  rewrite Hv. cbn. rewrite Hs, (bool_decide_false (gi_StreamKey i = "")), (bool_decide_true (gi_StreamKey i = gi_StreamKey i)) by done.
  cbn. rewrite (bool_decide_false (gi_KafkaTopic i = "")), Hds, andb_false_r by done.
  rewrite !or_default_id by (done || by apply IsValidDesiredStatus_not_empty).
  destruct (Z.leb_spec (gi_SchemaVersion i) 0); [lia|]. destruct i; cbn in *. by subst.
Qed.

(** A normalised input is one the schema accepts and normalisation leaves
    alone: its stream triple satisfies the table's consistency constraint, its
    ids, topic and cluster are non-empty, its status is known and its schema
    version positive, and normalising it again returns it unchanged. *)
Theorem normalized_input_consistent g inp n :
  normalizeInput g inp = Ok n -> input_ok g n /\ normalizeInput g n = Ok n.
Proof.
  intros Hn. apply normalizeInput_Ok in Hn as [Hok Hs]. split; [done|by apply normalizeInput_fixed].
Qed.

Lemma normalized_input_consistent_witness :
  let inp := mkGroupInput "" "" "kline_1m" "" "" true "" "topic" "" "" 0 0 0 in
  match normalizeInput "g" inp with
  | Ok n => stream_consistent n /\ gi_Interval n = "1m"
  | Err _ => False
  end.
Proof.
  intros inp. destruct (normalizeInput "g" inp) as [n|e] eqn:E; [|vm_compute in E; discriminate].
  split; [exact (proj1 (proj1 (normalized_input_consistent "g" inp n E)))|].
  vm_compute in E. by injection E as <-.
Defined.

(** ** Leases as a lock *)

Section lease_facts.

Variable expiry : time.Time -> time.Duration -> time.Time.

(** A call on the lease table, by some node, at some time of the server. *)
Inductive lease_op :=
| Acquire (groupID nodeID : string) (ttl : time.Duration)
| Renew (groupID nodeID : string) (ttl : time.Duration)
| Release (groupID nodeID : string).

Record lease_call := mkLeaseCall { lc_op : lease_op; lc_time : time.Time; lc_outcome : outcome }.

Definition lc_node (c : lease_call) : string :=
  match lc_op c with
  | Acquire _ n _ => n
  | Renew _ n _ => n
  | Release _ n => n
  end.

Definition lc_group (c : lease_call) : string :=
  match lc_op c with
  | Acquire g _ _ => g
  | Renew g _ _ => g
  | Release g _ => g
  end.

(** One call: the tables after it, and whether the caller holds the lease by it. *)
Definition run_lease_call (db : MetaDB) (c : lease_call) : MetaDB * bool :=
  match lc_op c with
  | Acquire g n ttl =>
      let '(db', r) := TryAcquireGroupLease expiry (lc_outcome c) (lc_time c) db g n ttl in
      (db', match r with Ok true => true | _ => false end)
  | Renew g n ttl =>
      let '(db', r) := RenewGroupLease expiry (lc_outcome c) (lc_time c) db g n ttl in
      (db', match r with Ok true => true | _ => false end)
  | Release g n => (fst (ReleaseGroupLease (lc_outcome c) db g n), false)
  end.

(** A sequence of calls, with the answer of each. *)
Fixpoint run_lease_calls (db : MetaDB) (cs : list lease_call) : MetaDB * list bool :=
  match cs with
  | [] => (db, [])
  | c :: cs' =>
      let '(db1, r) := run_lease_call db c in
      let '(db2, rs) := run_lease_calls db1 cs' in
      (db2, r :: rs)
  end.

Lemma run_lease_call_foreign db c g l :
  md_leases db !! g = Some l -> lc_node c <> gl_NodeID l -> lc_time c <= gl_LeaseExpiresAt l ->
  md_leases (run_lease_call db c).1 !! g = Some l /\
  (lc_group c = g -> (run_lease_call db c).2 = false).
Proof.
  intros Hl Hn Ht.
  assert (bool_decide (gl_NodeID l = lc_node c) = false) as Hd by (apply bool_decide_false; congruence).
  assert ((gl_LeaseExpiresAt l <? lc_time c) = false) as He by (apply Z.ltb_ge; lia).
  destruct c as [op t out]. unfold run_lease_call in *. destruct op as [g' n ttl|g' n ttl|g' n]; cbn in *.
  - unfold TryAcquireGroupLease. destruct (ttl <=? 0); [done|].
    destruct (decide (g' = g)) as [->|Hg].
    + rewrite Hl. unfold may_acquire. rewrite Hd, He. by destruct out.
    + destruct (md_leases db !! g') as [l'|]; [destruct (may_acquire _ _ _)|destruct (md_groups db !! g')];
        destruct out; cbn; rewrite ?lookup_insert_ne by done; by split.
  - unfold RenewGroupLease. destruct (ttl <=? 0); [done|].
    destruct (decide (g' = g)) as [->|Hg].
    + rewrite Hl, Hd. by destruct out.
    + destruct (md_leases db !! g') as [l'|]; [destruct (_ && _)|];
        destruct out; cbn; rewrite ?lookup_insert_ne by done; by split.
  - unfold ReleaseGroupLease. destruct (decide (g' = g)) as [->|Hg].
    + rewrite Hl, Hd. by destruct out.
    + destruct (md_leases db !! g') as [l'|]; [destruct (decide (gl_NodeID l' = n))|];
        rewrite ?bool_decide_true, ?bool_decide_false by done;
        destruct out; cbn; rewrite ?lookup_delete_ne by done; by split.
Qed.

(** A lease excludes every other node until it expires: whatever sequence
    of acquire, renew and release calls the other nodes make on any groups up to
    the expiry time of a row, and whichever of them the server executes, fails
    or leaves unacknowledged, the row stays as it is and none of those calls is
    told it holds this group. *)
Theorem lease_exclusive db g l cs :
  md_leases db !! g = Some l ->
  Forall (fun c => lc_node c <> gl_NodeID l /\ lc_time c <= gl_LeaseExpiresAt l) cs ->
  md_leases (run_lease_calls db cs).1 !! g = Some l /\
  Forall2 (fun c r => lc_group c = g -> r = false) cs (run_lease_calls db cs).2.
Proof.
  intros Hl Hcs. revert db Hl. induction Hcs as [|c cs [Hn Ht] Hcs IH]; intros db Hl; cbn; [by split; [|constructor]|].
  destruct (run_lease_call_foreign db c g l Hl Hn Ht) as [Hl1 Hr].
  destruct (run_lease_call db c) as [db1 r] eqn:E1; cbn in *.
  destruct (IH db1 Hl1) as [Hl2 Hrs]. destruct (run_lease_calls db1 cs) as [db2 rs]; cbn in *.
  split; [done|by constructor].
Qed.

(** Renewal and takeover are exclusive and leave no gap: at every instant,
    for a positive lifetime, the recorded owner's renewal is granted exactly when
    another node's acquisition is refused; the grant moves the expiry on, bumps
    the version, keeps the acquisition time on renewal and resets it on takeover. *)
Theorem renew_or_takeover now db g l m ttl :
  md_leases db !! g = Some l -> m <> gl_NodeID l -> 0 < ttl ->
  let renewed := RenewGroupLease expiry Done now db g (gl_NodeID l) ttl in
  let taken := TryAcquireGroupLease expiry Done now db g m ttl in
  (snd renewed = Ok true /\ snd taken = Ok false /\ fst taken = db /\
   md_leases (fst renewed) !! g
     = Some (mkGroupLease g (gl_NodeID l) (expiry now ttl) (gl_Version l + 1) (gl_AcquiredAt l) now)) \/
  (snd renewed = Ok false /\ snd taken = Ok true /\ fst renewed = db /\
   md_leases (fst taken) !! g
     = Some (mkGroupLease g m (expiry now ttl) (gl_Version l + 1) now now)).
Proof.
  intros Hl Hm Httl. unfold RenewGroupLease, TryAcquireGroupLease, may_acquire.
  rewrite (proj2 (Z.leb_gt ttl 0)) by done. rewrite Hl. cbn.
  rewrite bool_decide_true by done. rewrite (bool_decide_false (gl_NodeID l = m)) by congruence. cbn.
  rewrite orb_false_r. destruct (Z.ltb_spec (gl_LeaseExpiresAt l) now).
  - right. rewrite (proj2 (Z.leb_gt now _)) by lia. cbn. by rewrite lookup_insert_eq.
  - left. rewrite (proj2 (Z.leb_le now _)) by lia. cbn. by rewrite lookup_insert_eq.
Qed.

End lease_facts.

Definition held_lease : MetaDB :=
  set_leases {["g" := mkGroupLease "g" "a" 100 1 50 50]} emptyMeta.

Lemma lease_exclusive_witness :
  let cs := [mkLeaseCall (Acquire "g" "b" 30) 99 Done; mkLeaseCall (Release "g" "b") 100 Lost] in
  md_leases (run_lease_calls Z.add held_lease cs).1 !! "g" = Some (mkGroupLease "g" "a" 100 1 50 50).
Proof.
  intros cs. apply (lease_exclusive Z.add held_lease "g" (mkGroupLease "g" "a" 100 1 50 50) cs); [reflexivity|].
  repeat apply Forall_cons_2; [| |apply Forall_nil_2]; (split; [discriminate|cbn; lia]).
Defined.

Lemma renew_or_takeover_witness :
  snd (TryAcquireGroupLease Z.add Done 101 held_lease "g" "b" 30) = Ok true.
Proof.
  destruct (renew_or_takeover Z.add 101 held_lease "g" (mkGroupLease "g" "a" 100 1 50 50) "b" 30)
    as [(H & _)|(_ & H & _)]; [reflexivity|discriminate|lia| |exact H].
  vm_compute in H. discriminate.
Defined.
