(* ===== verification/MetadataWf.v ===== *)
(** * The integrity of the metadata tables

    The keys, references and value constraints that every operation of
    internal/metadata/postgres.go maintains, from the empty tables on. *)

From S2P Require Import Prelude GoStd Model Metadata.

Open Scope Z_scope.

Record meta_wf (db : MetaDB) : Prop := {
  mw_group : map_Forall (fun k g => mg_GroupID g = k /\ IsValidMarketType (mg_MarketType g) = true /\
    IsValidDesiredStatus (mg_DesiredStatus g) = true /\ 1 <= mg_Weight g <= 2147483647) (md_groups db);
  mw_venue : forall k1 k2 g1 g2, md_groups db !! k1 = Some g1 -> md_groups db !! k2 = Some g2 ->
    group_venue g1 = group_venue g2 -> k1 = k2;
  mw_input : map_Forall (fun k i => gi_InputID i = k /\ input_ok (gi_GroupID i) i /\
    is_Some (md_groups db !! gi_GroupID i)) (md_inputs db);
  mw_input_unique : forall k1 k2 i1 i2, md_inputs db !! k1 = Some i1 -> md_inputs db !! k2 = Some i2 ->
    input_key i1 = input_key i2 -> k1 = k2;
  mw_node : map_Forall (fun k n => rn_NodeID n = k) (md_nodes db);
  mw_lease : map_Forall (fun k l => gl_GroupID l = k /\ is_Some (md_groups db !! k)) (md_leases db);
  mw_status : map_Forall (fun k s => rs_InputID s = k /\ is_Some (md_inputs db !! k)) (md_status db)
}.

(** One call on the metadata, whatever its arguments and its outcome. *)
Inductive meta_step (expiry : time.Time -> time.Duration -> time.Time) (db : MetaDB) : MetaDB -> Prop :=
| MCreateGroup out now g : meta_step expiry db (fst (CreateGroup out now db g))
| MAddInputs out now g inputs : meta_step expiry db (fst (AddInputs out now db g inputs))
| MUpdateGroup out now g s : meta_step expiry db (fst (UpdateGroupDesiredStatus out now db g s))
| MUpdateInput out now g k s : meta_step expiry db (fst (UpdateInputDesiredStatus out now db g k s))
| MDeleteGroup out g : meta_step expiry db (fst (DeleteGroup out db g))
| MRegister out now n : meta_step expiry db (fst (RegisterRuntimeNode out now db n))
| MHeartbeat out now n c : meta_step expiry db (fst (HeartbeatRuntimeNode out now db n c))
| MNodeStatus out now n s : meta_step expiry db (fst (UpdateRuntimeNodeStatus out now db n s))
| MReport out now st : meta_step expiry db (fst (ReportStreamRuntimeStatus out now db st))
| MAcquire out now g n t : meta_step expiry db (fst (TryAcquireGroupLease expiry out now db g n t))
| MRenew out now g n t : meta_step expiry db (fst (RenewGroupLease expiry out now db g n t))
| MRelease out g n : meta_step expiry db (fst (ReleaseGroupLease out db g n)).

(** ** Shared lemmas *)

Lemma call_wf {A} out db (r : MetaDB * result meta_error A) :
  meta_wf db -> meta_wf (fst r) -> meta_wf (fst (call out db r)).
Proof. by destruct out. Qed.

Lemma transact_wf out db r :
  meta_wf db -> (forall db', r = Ok db' -> meta_wf db') -> meta_wf (fst (transact out db r)).
Proof. intros Hdb Hr. destruct r as [db'|e]; cbn; [|done]. apply call_wf; [done|]. by apply Hr. Qed.

Lemma any_row_false {A} (f : A -> bool) (m : gmap string A) :
  any_row f m = false -> forall k x, m !! k = Some x -> f x = false.
Proof.
  intros H k x Hk. apply not_true_is_false. intros Hf. assert (any_row f m = true); [|congruence].
  unfold any_row. apply existsb_exists. exists (k, x). split; [|done].
  by apply list_elem_of_In, elem_of_map_to_list.
Qed.

(** Growing the groups hurts no reference. *)
Lemma set_groups_wf db gs :
  meta_wf db -> (forall k, is_Some (md_groups db !! k) -> is_Some (gs !! k)) ->
  map_Forall (fun k g => mg_GroupID g = k /\ IsValidMarketType (mg_MarketType g) = true /\
    IsValidDesiredStatus (mg_DesiredStatus g) = true /\ 1 <= mg_Weight g <= 2147483647) gs ->
  (forall k1 k2 g1 g2, gs !! k1 = Some g1 -> gs !! k2 = Some g2 -> group_venue g1 = group_venue g2 -> k1 = k2) ->
  meta_wf (set_groups gs db).
Proof.
  intros [Hg Hv Hi Hu Hn Hl Hs] Hsub H1 H2. split; cbn; try done.
  - intros k i Hk. destruct (Hi k i Hk) as (? & ? & ?). auto.
  - intros k l Hk. destruct (Hl k l Hk) as (? & ?). auto.
Qed.

(** ** The operations *)

Lemma insertGroupInput_wf now db inp db' g :
  meta_wf db -> input_ok g inp -> insertGroupInput now db inp = Ok db' -> meta_wf db'.
Proof.
  intros [Hg Hv Hi Hu Hn Hl Hs] Hok. unfold insertGroupInput. destruct (negb _); [done|]. destruct (_ || _) eqn:Ec; [done|].
  apply orb_false_iff in Ec as [_ Efresh]. pose proof (any_row_false _ _ Efresh) as Hfresh.
  destruct (md_groups db !! gi_GroupID inp) as [gr|] eqn:Eg; [|done]. intros [= <-].
  assert (forall k i, md_inputs db !! k = Some i -> input_key i <> input_key inp) as Hne
    by (intros k i Hk; by specialize (Hfresh _ _ Hk); apply bool_decide_eq_false in Hfresh).
  split; cbn; try done.
  - apply map_Forall_insert_2; [|done]. cbn. split; [done|]. split; [|by eexists].
    destruct Hok as (H1 & H2 & H3 & H4). rewrite H3. by split_and!; try apply H4.
  - intros k1 k2 i1 i2 [[<- <-]|[_ H1]]%lookup_insert_Some [[<- <-]|[_ H2]]%lookup_insert_Some He; try done.
    + by destruct (Hne _ _ H2).
    + by destruct (Hne _ _ H1).
    + by eapply Hu.
  - intros k s Hk. destruct (Hs k s Hk) as (? & ?). split; [done|]. apply lookup_insert_is_Some'. by right.
Qed.

Lemma insert_inputs_wf now inputs db db' g :
  meta_wf db -> Forall (input_ok g) inputs -> insert_inputs now db inputs = Ok db' -> meta_wf db'.
Proof.
  intros Hdb Hall. revert db Hdb. induction Hall as [|i inputs Hi _ IH]; intros db Hdb; cbn; [by intros [= <-]|].
  intros (db1 & H1 & H2)%bind_Ok. eapply IH; [|done]. by eapply insertGroupInput_wf.
Qed.

Lemma add_inputs_wf now g inputs db db' :
  meta_wf db -> add_inputs_tx now db g inputs = Ok db' -> meta_wf db'.
Proof.
  revert db. induction inputs as [|i inputs IH]; intros db Hdb; cbn; [by intros [= <-]|].
  intros (n & Hn & (db1 & H1 & H2)%bind_Ok)%bind_Ok. eapply IH; [|done].
  apply normalizeInput_Ok in Hn as [Hok _]. by eapply insertGroupInput_wf.
Qed.

Lemma normalizeGroup_Ok g g' :
  normalizeGroup g = Ok g' ->
  IsValidDesiredStatus (mg_DesiredStatus g') = true /\ 1 <= mg_Weight g' /\
  mg_MarketType g' = mg_MarketType g /\ Forall (input_ok (mg_GroupID g')) (mg_Inputs g').
Proof.
  unfold normalizeGroup. destruct (negb _ && _) eqn:Eds; [done|].
  intros (inputs & Hin & [= <-])%bind_Ok. cbn. split_and!; [| |done|].
  - unfold or_default. case_bool_decide as Hd; [reflexivity|]. simpl in Eds. by apply negb_false_iff in Eds.
  - destruct (Z.leb_spec (mg_Weight g) 0); lia.
  - apply result_mapM_Forall2 in Hin. induction Hin as [|i n is_ ns Hi _ IH]; constructor; [|done].
    by apply normalizeInput_Ok in Hi as [? _].
Qed.

Lemma create_tx_wf now db g db' :
  meta_wf db -> IsValidMarketType (mg_MarketType g) = true -> IsValidDesiredStatus (mg_DesiredStatus g) = true ->
  1 <= mg_Weight g -> Forall (input_ok (mg_GroupID g)) (mg_Inputs g) ->
  create_tx now db g = Ok db' -> meta_wf db'.
Proof.
  intros Hdb Hm Hd Hw Hin. unfold create_tx. destruct (fits_integer _) eqn:Ef; [cbn [negb]|done].
  unfold fits_integer in Ef. destruct (_ || _) eqn:Ec; [done|].
  apply orb_false_iff in Ec as [_ Efresh]. pose proof (any_row_false _ _ Efresh) as Hfresh.
  intros Hins. eapply insert_inputs_wf; [|done..]. pose proof Hdb as [Hg Hv _ _ _ _ _].
  assert (forall k h, md_groups db !! k = Some h -> group_venue h <> group_venue g) as Hne
    by (intros k h Hk; by specialize (Hfresh _ _ Hk); apply bool_decide_eq_false in Hfresh).
  apply set_groups_wf; [done| | |].
  - intros k Hk. apply lookup_insert_is_Some'. by right.
  - apply map_Forall_insert_2; [|done]. bool_to_prop. cbn. split_and!; done || lia.
  - intros k1 k2 g1 g2 [[<- <-]|[_ H1]]%lookup_insert_Some [[<- <-]|[_ H2]]%lookup_insert_Some He; try done.
    + by destruct (Hne _ _ H2).
    + by destruct (Hne _ _ H1).
    + by eapply Hv.
Qed.

Lemma CreateGroup_wf out now db g : meta_wf db -> meta_wf (fst (CreateGroup out now db g)).
Proof.
  intros Hdb. unfold CreateGroup. destruct (_ || _ || _); [done|].
  destruct (IsValidMarketType (mg_MarketType g)) eqn:Em; cbn [negb]; [|done].
  destruct (normalizeGroup g) as [g'|e] eqn:En; [|done]. apply transact_wf; [done|]. intros db' Hc.
  destruct (normalizeGroup_Ok _ _ En) as (Hd & Hw & Hmt & Hin).
  apply (create_tx_wf now db g'); [done|by rewrite Hmt|done|done|done|done].
Qed.

Lemma AddInputs_wf out now db g inputs : meta_wf db -> meta_wf (fst (AddInputs out now db g inputs)).
Proof.
  intros Hdb. destruct inputs as [|i inputs]; [done|]. apply transact_wf; [done|]. intros db'.
  by apply add_inputs_wf.
Qed.

Lemma UpdateGroupDesiredStatus_wf out now db g s :
  meta_wf db -> meta_wf (fst (UpdateGroupDesiredStatus out now db g s)).
Proof.
  intros Hdb. unfold UpdateGroupDesiredStatus. destruct (IsValidDesiredStatus s) eqn:Es; cbn [negb]; [|done].
  apply call_wf; [done|]. destruct (md_groups db !! g) as [gr|] eqn:Eg; [|done]. pose proof Hdb as [Hg Hv _ _ _ _ _].
  apply set_groups_wf; [done| | |].
  - intros k Hk. apply lookup_insert_is_Some'. by right.
  - apply map_Forall_insert_2; [|done]. cbn. destruct (Hg _ _ Eg) as (? & ? & ? & ?). by split_and!; try lia.
  - intros k1 k2 g1 g2 [[<- <-]|[_ H1]]%lookup_insert_Some [[<- <-]|[_ H2]]%lookup_insert_Some He; try done; by eapply Hv.
Qed.

Lemma UpdateInputDesiredStatus_wf out now db g k s :
  meta_wf db -> meta_wf (fst (UpdateInputDesiredStatus out now db g k s)).
Proof.
  intros Hdb. unfold UpdateInputDesiredStatus. destruct (IsValidDesiredStatus s) eqn:Es; cbn [negb]; [|done].
  apply call_wf; [done|]. destruct (any_row _ _); [|done]. pose proof Hdb as [Hg Hv Hi Hu Hn Hl Hs].
  assert (forall k' i', ((fun i => if bool_decide (input_key i = (g, k)) then set_input_status now s i else i) <$> md_inputs db) !! k' = Some i' ->
    exists i, md_inputs db !! k' = Some i /\ input_key i' = input_key i /\ (i' = i \/ i' = set_input_status now s i)) as Hback.
  { intros k' i' H. apply lookup_fmap_Some in H as (i & <- & Hi'). exists i. split; [done|].
    case_bool_decide; [by split; [|right]|by split; [|left]]. }
  split; cbn; try done.
  - intros k' i' Hk'. destruct (Hback _ _ Hk') as (i & Hik & _ & Hor). destruct (Hi _ _ Hik) as (H1 & H2 & H3).
    destruct Hor as [->| ->]; [done|]. cbn. split; [done|]. split; [|done].
    destruct H2 as (? & ? & ? & ? & ? & ? & ? & ? & ?). by split_and!.
  - intros k1 k2 i1 i2 H1 H2 He. destruct (Hback _ _ H1) as (j1 & Hj1 & E1 & _), (Hback _ _ H2) as (j2 & Hj2 & E2 & _).
    eapply Hu; [done..|congruence].
  - intros k' st Hk'. destruct (Hs _ _ Hk') as [H1 H2]. split; [done|]. by rewrite lookup_fmap, fmap_is_Some.
Qed.

Lemma DeleteGroup_wf out db g : meta_wf db -> meta_wf (fst (DeleteGroup out db g)).
Proof.
  intros Hdb. unfold DeleteGroup. apply call_wf; [done|]. destruct (md_groups db !! g) as [gr|] eqn:Eg; [|done].
  pose proof Hdb as [Hg Hv Hi Hu Hn Hl Hs]. cbn. unfold delete_cascade.
  set (gone := filter (fun kv => gi_GroupID kv.2 = g) (md_inputs db)).
  assert (forall k, gone !! k = None -> forall i, md_inputs db !! k = Some i -> gi_GroupID i <> g) as Hgone.
  { intros k Hk i Hi' Hg'. apply map_lookup_filter_None in Hk as [Hk|Hk]; [congruence|]. by eapply Hk. }
  split; cbn.
  - intros k h [_ H]%lookup_delete_Some. by apply Hg.
  - intros k1 k2 g1 g2 [_ H1]%lookup_delete_Some [_ H2]%lookup_delete_Some. by eapply Hv.
  - intros k i [H1 H2]%lookup_difference_Some. destruct (Hi _ _ H1) as (? & ? & Hgr). split_and!; try done.
    rewrite lookup_delete_ne; [done|]. intros E. by apply (Hgone k H2 i H1).
  - intros k1 k2 i1 i2 [H1 _]%lookup_difference_Some [H2 _]%lookup_difference_Some. by eapply Hu.
  - done.
  - intros k l [Hne H]%lookup_delete_Some. destruct (Hl _ _ H) as [? Hgr]. split; [done|]. by rewrite lookup_delete_ne.
  - intros k st [H1 H2]%map_lookup_filter_Some. destruct (Hs _ _ H1) as [? [i Hii]]. split; [done|].
    exists i. by apply lookup_difference_Some.
Qed.

Lemma node_wf db ns :
  meta_wf db -> map_Forall (fun k n => rn_NodeID n = k) ns -> meta_wf (set_nodes ns db).
Proof. intros [Hg Hv Hi Hu Hn Hl Hs] H. by split. Qed.

Lemma lease_wf db ls :
  meta_wf db -> map_Forall (fun k l => gl_GroupID l = k /\ is_Some (md_groups db !! k)) ls -> meta_wf (set_leases ls db).
Proof. intros [Hg Hv Hi Hu Hn Hl Hs] H. by split. Qed.

Lemma nodes_wf out now db :
  meta_wf db ->
  (forall n, meta_wf (fst (RegisterRuntimeNode out now db n))) /\
  (forall n c, meta_wf (fst (HeartbeatRuntimeNode out now db n c))) /\
  (forall n s, meta_wf (fst (UpdateRuntimeNodeStatus out now db n s))).
Proof.
  intros Hdb. pose proof (mw_node _ Hdb) as Hn. split_and!.
  - intros n. apply call_wf; [done|]. destruct (node_fits n); [|done]. apply node_wf; [done|]. by apply map_Forall_insert_2.
  - intros n c. unfold HeartbeatRuntimeNode. apply call_wf; [done|]. destruct (negb _); [done|]. destruct (md_nodes db !! n) as [nd|] eqn:E; [|done].
    apply node_wf; [done|]. apply map_Forall_insert_2; [cbn; by rewrite (Hn _ _ E)|done].
  - intros n s. unfold UpdateRuntimeNodeStatus. destruct (negb _); [done|]. apply call_wf; [done|].
    destruct (md_nodes db !! n) as [nd|] eqn:E; [|done].
    apply node_wf; [done|]. apply map_Forall_insert_2; [cbn; by rewrite (Hn _ _ E)|done].
Qed.

Lemma report_wf out now db st : meta_wf db -> meta_wf (fst (ReportStreamRuntimeStatus out now db st)).
Proof.
  intros Hdb. unfold ReportStreamRuntimeStatus. apply call_wf; [done|].
  destruct (md_inputs db !! rs_InputID st) as [i|] eqn:E; [|done]. destruct Hdb as [Hg Hv Hi Hu Hn Hl Hs].
  split; cbn; try done. apply map_Forall_insert_2; [by split; [|eexists]|done].
Qed.

Lemma leases_wf expiry out now db :
  meta_wf db ->
  (forall g n t, meta_wf (fst (TryAcquireGroupLease expiry out now db g n t))) /\
  (forall g n t, meta_wf (fst (RenewGroupLease expiry out now db g n t))) /\
  (forall g n, meta_wf (fst (ReleaseGroupLease out db g n))).
Proof.
  intros Hdb. pose proof (mw_lease _ Hdb) as Hl. split_and!.
  - intros g n t. unfold TryAcquireGroupLease. destruct (t <=? 0); [done|]. cbv zeta. apply call_wf; [done|].
    destruct (md_leases db !! g) as [l|] eqn:E; [destruct (may_acquire now n l); [|done]|destruct (md_groups db !! g) as [gr|] eqn:Eg; [|done]];
      (apply lease_wf; [done|]; apply map_Forall_insert_2; [|done]; split; [done|]).
    + by destruct (Hl _ _ E).
    + by eexists.
  - intros g n t. unfold RenewGroupLease. destruct (t <=? 0); [done|]. apply call_wf; [done|].
    destruct (md_leases db !! g) as [l|] eqn:E; [|done]. destruct (_ && _); [|done].
    apply lease_wf; [done|]. apply map_Forall_insert_2; [|done]. split; [done|]. by destruct (Hl _ _ E).
  - intros g n. unfold ReleaseGroupLease. apply call_wf; [done|]. destruct (md_leases db !! g) as [l|] eqn:E; [|done].
    case_bool_decide; [|done]. apply lease_wf; [done|]. by apply map_Forall_delete.
Qed.

Lemma meta_step_wf expiry db db' : meta_step expiry db db' -> meta_wf db -> meta_wf db'.
Proof.
  intros Hst Hdb. destruct Hst.
  - by apply CreateGroup_wf.
  - by apply AddInputs_wf.
  - by apply UpdateGroupDesiredStatus_wf.
  - by apply UpdateInputDesiredStatus_wf.
  - by apply DeleteGroup_wf.
  - destruct (nodes_wf out now db Hdb) as (H & _ & _). apply H.
  - destruct (nodes_wf out now db Hdb) as (_ & H & _). apply H.
  - destruct (nodes_wf out now db Hdb) as (_ & _ & H). apply H.
  - by apply report_wf.
  - destruct (leases_wf expiry out now db Hdb) as (H & _ & _). apply H.
  - destruct (leases_wf expiry out now db Hdb) as (_ & H & _). apply H.
  - destruct (leases_wf expiry out time.zero db Hdb) as (_ & _ & H). apply H.
Qed.

Lemma emptyMeta_wf : meta_wf emptyMeta.
Proof. split; cbn; done || apply map_Forall_empty. Qed.

(** (C27) The metadata tables keep their integrity.  From the empty tables, through
    any sequence of calls with any arguments, executed, failed or left
    unacknowledged: rows are stored under their own ids, no two groups have the
    same venue and no two inputs of a group the same stream; inputs, leases and
    statuses refer to existing rows, also across deletions; and the values are
    those the schema accepts, a weight between 1 and 2147483647 among them. *)
Theorem reachable_meta_wf expiry db : rtc (meta_step expiry) emptyMeta db -> meta_wf db.
Proof.
  intros H. pose proof emptyMeta_wf as Hwf. induction H as [|x y z Hst _ IH]; [done|].
  apply IH. by eapply meta_step_wf.
Qed.

Lemma reachable_meta_wf_witness :
  let g := mkMarketGroup "" "binance" "spot" "BTCUSDT" "BTC" "USDT" "" 0
             [mkGroupInput "" "" "kline_1m" "" "" true "" "topic" "" "" 0 0 0] 0 0 in
  let db1 := fst (CreateGroup Done 5 emptyMeta g) in
  let db2 := fst (TryAcquireGroupLease Z.add Lost 6 db1 "binance:spot:BTCUSDT" "a" 30) in
  meta_wf db2.
Proof.
  intros g db1 db2. apply (reachable_meta_wf Z.add).
  apply (rtc_l _ _ db1); [apply MCreateGroup|]. apply (rtc_l _ _ db2); [apply MAcquire|apply rtc_refl].
Defined.
