(* ===== verification/Worker.v ===== *)
(** * The group worker

    internal/runtime/worker.go: the worker that owns one market group on a node.
    The goroutine is a record, and what it does next is a function on that
    record: [begin] is the head of [run], [renew] and [leave] the two arms of
    the select in [leaseLoop], [finish] and [report_final] the tail of [run].
    [Stop] is split in the request it makes ([request_stop]) and the wait for
    the done channel ([w_done]), since other goroutines run in between. *)

From S2P Require Import Prelude GoStd Model Metadata.

Open Scope Z_scope.

Inductive WorkerState :=
| WorkerStarting
| WorkerRunning
| WorkerStopping
| WorkerStopped
| WorkerError.

#[export] Instance WorkerState_eq_dec : EqDecision WorkerState.
Proof. solve_decision. Defined.

Definition WorkerState_String (s : WorkerState) : string :=
  match s with
  | WorkerStarting => "starting"
  | WorkerRunning => "running"
  | WorkerStopping => "stopping"
  | WorkerStopped => "stopped"
  | WorkerError => "error"
  end.

Definition terminal (s : WorkerState) : bool :=
  bool_decide (s = WorkerStopped) || bool_decide (s = WorkerError).

(** What [leaseLoop] returns: the terminal state, the status to report and the
    last error. *)
Definition exit_reason : Type := WorkerState * string * string.

Record Worker := mkWorker {
  w_group : MarketGroup;
  w_inputs : list GroupInput;
  w_nodeID : string;
  w_ttl : time.Duration;
  w_renewEvery : time.Duration;
  w_state : WorkerState;
  w_begun : bool;               (* the head of run has been executed *)
  w_canceled : bool;            (* ctx.Err() != nil *)
  w_exit : option exit_reason;  (* leaseLoop has returned *)
  w_done : bool                 (* done is closed *)
}.

Definition newWorker (group : MarketGroup) (inputs : list GroupInput) (nodeID : string)
    (ttl renewEvery : time.Duration) : Worker :=
  {| w_group := group; w_inputs := inputs; w_nodeID := nodeID; w_ttl := ttl; w_renewEvery := renewEvery;
     w_state := WorkerStarting; w_begun := false; w_canceled := false; w_exit := None; w_done := false |}.

Definition set_run (s : WorkerState) (begun canceled : bool) (e : option exit_reason) (done : bool)
    (w : Worker) : Worker :=
  mkWorker (w_group w) (w_inputs w) (w_nodeID w) (w_ttl w) (w_renewEvery w) s begun canceled e done.

(** The group a worker is for and the node it runs on. *)
Definition w_key (w : Worker) : string * string := (w_nodeID w, mg_GroupID (w_group w)).

(** A worker consumes its group until it has published a terminal state. *)
Definition processing (w : Worker) : bool := negb (terminal (w_state w)).

(** One report per input; a failed report is logged and dropped. *)
Fixpoint reportAll (outs : list outcome) (now : time.Time) (db : MetaDB) (w : Worker)
    (inputs : list GroupInput) (status lastErr : string) : MetaDB :=
  match inputs with
  | [] => db
  | i :: inputs' =>
      let st := mkStreamRuntimeStatus (gi_InputID i) (mg_GroupID (w_group w)) (gi_StreamKey i) (w_nodeID w)
                  status None None None None None None lastErr time.zero in
      reportAll (tl outs) now (fst (ReportStreamRuntimeStatus (default Failed (head outs)) now db st))
        w inputs' status lastErr
  end.

(** The head of [run]: the starting and the running status, consumption off.
    [setState] overwrites whatever [Stop] may have put there. *)
Definition begin (outs : list outcome) (now : time.Time) (db : MetaDB) (w : Worker) : MetaDB * Worker :=
  if w_begun w then (db, w)
  else
    let db1 := reportAll outs now db w (w_inputs w) ActualStatusStarting "" in
    let db2 := reportAll (drop (length (w_inputs w)) outs) now db1 w (w_inputs w) ActualStatusRunning "" in
    (db2, set_run WorkerRunning true (w_canceled w) (w_exit w) (w_done w) w).

(** Is the goroutine at the select of [leaseLoop]? *)
Definition in_lease_loop (w : Worker) : bool :=
  w_begun w && negb (bool_decide (is_Some (w_exit w))).

Section worker.

Variable expiry : time.Time -> time.Duration -> time.Time.
(** The text of an error value of the store. *)
Variable err_text : meta_error -> string.

(** The tick arm: how a renewal ends the loop, if it does. *)
Definition renew_verdict (canceled : bool) (r : result meta_error bool) : option exit_reason :=
  match r with
  | Err e =>
      if canceled then Some (WorkerStopped, ActualStatusStopped, "")
      else Some (WorkerError, ActualStatusError, "renew lease: " +:+ err_text e)
  | Ok false => Some (WorkerError, ActualStatusError, "lease lost")
  | Ok true => None
  end.

Definition renew (out : outcome) (now : time.Time) (db : MetaDB) (w : Worker) : MetaDB * Worker :=
  if in_lease_loop w then
    let '(db', r) := RenewGroupLease expiry out now db (mg_GroupID (w_group w)) (w_nodeID w) (w_ttl w) in
    (db', set_run (w_state w) (w_begun w) (w_canceled w) (renew_verdict (w_canceled w) r) (w_done w) w)
  else (db, w).

End worker.

(** The arm of ctx.Done(). *)
Definition leave (w : Worker) : Worker :=
  if in_lease_loop w && w_canceled w
  then set_run (w_state w) (w_begun w) (w_canceled w) (Some (WorkerStopped, ActualStatusStopped, "")) (w_done w) w
  else w.

(** [finish] publishes the terminal state once the input manager has stopped. *)
Definition finish (w : Worker) : Worker :=
  match w_exit w with
  | Some (s, _, _) => if terminal (w_state w) then w
                      else set_run s (w_begun w) (w_canceled w) (w_exit w) (w_done w) w
  | None => w
  end.

(** The final report and the deferred close of the done channel. *)
Definition report_final (outs : list outcome) (now : time.Time) (db : MetaDB) (w : Worker) : MetaDB * Worker :=
  match w_exit w with
  | Some (_, status, lastErr) =>
      if terminal (w_state w) && negb (w_done w)
      then (reportAll outs now db w (w_inputs w) status lastErr,
            set_run (w_state w) (w_begun w) (w_canceled w) (w_exit w) true w)
      else (db, w)
  | None => (db, w)
  end.

(** [Stop] up to its wait: a worker that is not over shows "stopping"; its context is canceled. *)
Definition request_stop (w : Worker) : Worker :=
  let s := if bool_decide (w_state w = WorkerStarting) || bool_decide (w_state w = WorkerRunning)
           then WorkerStopping else w_state w in
  set_run s (w_begun w) true (w_exit w) (w_done w) w.

(** The node's own context is canceled. *)
Definition cancel (w : Worker) : Worker :=
  set_run (w_state w) (w_begun w) true (w_exit w) (w_done w) w.

(** ** The life of a worker *)

(** What any step keeps: the identity of the worker, and a terminal state. *)
Definition advanced (w w' : Worker) : Prop :=
  w_key w' = w_key w /\ w_group w' = w_group w /\ (processing w' = true -> processing w = true) /\
  (w_done w = true -> w_done w' = true).

(** A worker as the code builds it: the state is terminal only after [leaseLoop]
    has returned a terminal state, which happens only after the head of [run];
    the done channel is closed only in a terminal state. *)
Definition worker_wf (w : Worker) : Prop :=
  (terminal (w_state w) = true -> exists e, w_exit w = Some e) /\
  (forall e, w_exit w = Some e -> w_begun w = true /\ terminal e.1.1 = true) /\
  (w_done w = true -> terminal (w_state w) = true).

Lemma newWorker_wf g i n t r : worker_wf (newWorker g i n t r).
Proof. by repeat split. Qed.

Lemma in_lease_loop_not_terminal w : worker_wf w -> in_lease_loop w = true -> terminal (w_state w) = false.
Proof.
  intros (H1 & _ & _) H. unfold in_lease_loop in H. bool_to_prop.
  destruct (terminal (w_state w)) eqn:Et; [|done]. destruct H1 as [e He]; [done|].
  match goal with H : ~ is_Some _ |- _ => destruct H end. by exists e.
Qed.

Lemma done_not_terminal w : worker_wf w -> terminal (w_state w) = false -> w_done w = false.
Proof. intros (_ & _ & H) Ht. destruct (w_done w); [|done]. by rewrite H in Ht. Qed.

Lemma begin_advanced outs now db w :
  worker_wf w -> advanced w (begin outs now db w).2 /\ worker_wf (begin outs now db w).2.
Proof.
  intros Hw. unfold begin. destruct (w_begun w) eqn:Eb; cbn; [by split|].
  assert (w_exit w = None) as He.
  { destruct (w_exit w) as [e|] eqn:E; [|done]. apply Hw in E as [E _]. congruence. }
  assert (terminal (w_state w) = false) as Ht.
  { destruct (terminal (w_state w)) eqn:E; [|done]. apply Hw in E as [e E]. congruence. }
  pose proof (done_not_terminal w Hw Ht) as Hd. unfold advanced, worker_wf, processing; cbn.
  rewrite He, Ht, Hd. naive_solver.
Qed.

Lemma renew_verdict_terminal err_text c r e : renew_verdict err_text c r = Some e -> terminal e.1.1 = true.
Proof. destruct r as [[]|]; cbn; intros; simplify_eq; [done|]. by destruct c; simplify_eq. Qed.

Lemma renew_advanced expiry err_text out now db w :
  worker_wf w ->
  advanced w (renew expiry err_text out now db w).2 /\ worker_wf (renew expiry err_text out now db w).2.
Proof.
  intros Hw. unfold renew. destruct (in_lease_loop w) eqn:E; [|by split].
  pose proof (in_lease_loop_not_terminal w Hw E) as Ht. pose proof (done_not_terminal w Hw Ht) as Hd.
  unfold in_lease_loop in E. bool_to_prop.
  destruct (RenewGroupLease _ _ _ _ _ _ _) as [db' r]; cbn.
  unfold advanced, processing, worker_wf; cbn. rewrite Ht, Hd. split_and!; try done.
  intros e He. split; [done|]. by eapply renew_verdict_terminal.
Qed.

Lemma leave_advanced w : worker_wf w -> advanced w (leave w) /\ worker_wf (leave w).
Proof.
  intros Hw. unfold leave. destruct (_ && _) eqn:E; [|by split]. apply andb_true_iff in E as [E _].
  pose proof (in_lease_loop_not_terminal w Hw E) as Ht. pose proof (done_not_terminal w Hw Ht) as Hd.
  unfold in_lease_loop in E. bool_to_prop. unfold advanced, worker_wf; cbn. rewrite Ht, Hd. naive_solver.
Qed.

Lemma finish_advanced w : worker_wf w -> advanced w (finish w) /\ worker_wf (finish w).
Proof.
  intros Hw. unfold finish. destruct (w_exit w) as [[[s a] b]|] eqn:Ee; [|by split].
  destruct (terminal (w_state w)) eqn:Et; [by split|].
  pose proof (proj1 (proj2 Hw) _ Ee) as [Hb Hs]. pose proof (done_not_terminal w Hw Et) as Hd. cbn in Hs.
  unfold advanced, worker_wf, processing; cbn. rewrite Hs, Hb, Hd, Et. split_and!; try done; [by eexists|naive_solver].
Qed.

Lemma report_final_advanced outs now db w :
  worker_wf w -> advanced w (report_final outs now db w).2 /\ worker_wf (report_final outs now db w).2.
Proof.
  intros Hw. unfold report_final. destruct (w_exit w) as [[[s a] b]|] eqn:Ee; [|by split].
  destruct (_ && _) eqn:E; [|by split]. bool_to_prop. unfold advanced, worker_wf, processing; cbn.
  destruct Hw as (H1 & H2 & _). naive_solver.
Qed.

Lemma request_stop_terminal w :
  terminal (w_state (request_stop w)) = terminal (w_state w).
Proof. unfold request_stop; cbn. by destruct (w_state w). Qed.

Lemma request_stop_advanced w : worker_wf w -> advanced w (request_stop w) /\ worker_wf (request_stop w).
Proof.
  intros Hw. unfold advanced, worker_wf, processing. rewrite request_stop_terminal. cbn. by split_and!; try apply Hw.
Qed.

Lemma cancel_advanced w : worker_wf w -> advanced w (cancel w) /\ worker_wf (cancel w).
Proof. intros Hw. unfold advanced, worker_wf, processing. cbn. by split_and!; try apply Hw. Qed.
