(* ===== verification/Cluster.v ===== *)
(** * The nodes, the leases and the clock

    Several md-stream-runtime processes share one metadata database.  The state
    here is that database, its clock and every worker goroutine; an [event] is
    one atomic action of one of them: a store call, or a step of a goroutine.
    Node.v expresses the code of a node in these events; this file states the
    discipline the events must keep ([legal]), what is asked of time ([fresh])
    and what the two give: a group has one worker. *)

From S2P Require Import Prelude GoStd Model Metadata Worker.

Open Scope Z_scope.

Record Sys := mkSys {
  sy_db : MetaDB;
  sy_now : time.Time;
  sy_procs : list Worker;                (* every goroutine ever started, by number *)
  sy_pending : gset (string * string)    (* node, group: a lease granted, no worker started yet *)
}.

Definition emptySys (db : MetaDB) (now : time.Time) : Sys := mkSys db now [] ∅.

Inductive event :=
| ETime (t : time.Time)
| EMeta (f : time.Time -> MetaDB -> MetaDB)          (* any other call on the database *)
| EAcquire (nodeID groupID : string) (ttl : time.Duration) (out : outcome)
| EStart (nodeID : string) (group : MarketGroup) (inputs : list GroupInput) (ttl renewEvery : time.Duration)
| ERelease (nodeID groupID : string) (out : outcome)
| EStop (nodeID : string) (id : nat)
| ECancel (id : nat)
| EBegin (id : nat) (outs : list outcome)
| ERenew (id : nat) (out : outcome)
| ELeave (id : nat)
| EFinish (id : nat)
| EReport (id : nat) (outs : list outcome).

Section cluster.

Variable expiry : time.Time -> time.Duration -> time.Time.
Variable err_text : meta_error -> string.

(** A step of a goroutine that touches nothing else. *)
Definition on_proc (f : Worker -> Worker) (id : nat) (s : Sys) : Sys :=
  mkSys (sy_db s) (sy_now s) (alter f id (sy_procs s)) (sy_pending s).

(** A step of a goroutine that calls the store. *)
Definition on_proc_db (f : MetaDB -> Worker -> MetaDB * Worker) (id : nat) (s : Sys) : Sys :=
  match sy_procs s !! id with
  | None => s
  | Some w => let '(db', w') := f (sy_db s) w in
              mkSys db' (sy_now s) (<[id := w']> (sy_procs s)) (sy_pending s)
  end.

Definition step (s : Sys) (e : event) : Sys :=
  match e with
  | ETime t => mkSys (sy_db s) (Z.max (sy_now s) t) (sy_procs s) (sy_pending s)
  | EMeta f => mkSys (f (sy_now s) (sy_db s)) (sy_now s) (sy_procs s) (sy_pending s)
  | EAcquire n g ttl out =>
      let '(db', r) := TryAcquireGroupLease expiry out (sy_now s) (sy_db s) g n ttl in
      mkSys db' (sy_now s) (sy_procs s)
        (match r with Ok true => {[(n, g)]} ∪ sy_pending s | _ => sy_pending s end)
  | EStart n g inputs ttl every =>
      mkSys (sy_db s) (sy_now s) (sy_procs s ++ [newWorker g inputs n ttl every])
        (sy_pending s ∖ {[(n, mg_GroupID g)]})
  | ERelease n g out =>
      mkSys (fst (ReleaseGroupLease out (sy_db s) g n)) (sy_now s) (sy_procs s) (sy_pending s ∖ {[(n, g)]})
  | EStop n id => on_proc (fun w => if bool_decide (w_nodeID w = n) then request_stop w else w) id s
  | ECancel id => on_proc cancel id s
  | EBegin id outs => on_proc_db (begin outs (sy_now s)) id s
  | ERenew id out => on_proc_db (renew expiry err_text out (sy_now s)) id s
  | ELeave id => on_proc leave id s
  | EFinish id => on_proc finish id s
  | EReport id outs => on_proc_db (report_final outs (sy_now s)) id s
  end.

Definition run (s : Sys) (es : list event) : Sys := foldl step s es.

(** Is some goroutine of the node processing the group? *)
Definition is_processing (s : Sys) (k : string * string) : bool :=
  existsb (fun w => processing w && bool_decide (w_key w = k)) (sy_procs s).

(** The discipline of a node: it asks for a lease only for a group it neither
    processes nor is about to, starts a worker only on a lease it was granted,
    releases only a group it does not process.  Other calls leave the lease
    table alone (deleting a group does not: it is legal only when that changes
    no lease). *)
Definition legal (s : Sys) (e : event) : Prop :=
  match e with
  | EMeta f => md_leases (f (sy_now s) (sy_db s)) = md_leases (sy_db s)
  | EAcquire n g _ _ => is_processing s (n, g) = false /\ (n, g) ∉ sy_pending s
  | EStart n g _ _ _ => (n, mg_GroupID g) ∈ sy_pending s
  | ERelease n g _ => is_processing s (n, g) = false
  | _ => True
  end.

(** Who is processing a group, or has been told it may. *)
Definition holds (s : Sys) (k : string * string) : Prop :=
  k ∈ sy_pending s \/ exists i w, sy_procs s !! i = Some w /\ processing w = true /\ w_key w = k.

(** No holder has outlived the lease that is recorded for it. *)
Definition fresh (s : Sys) : Prop :=
  forall k l, holds s k -> md_leases (sy_db s) !! k.2 = Some l -> gl_NodeID l = k.1 ->
  sy_now s <= gl_LeaseExpiresAt l.

(** A run that keeps the discipline, with leases renewed in time. *)
Fixpoint lawful (s : Sys) (es : list event) : Prop :=
  match es with
  | [] => True
  | e :: es' => legal s e /\ fresh (step s e) /\ lawful (step s e) es'
  end.

(** The holders, listed; with it the discipline can be checked on a run. *)
Definition holders (s : Sys) : list (string * string) :=
  elements (sy_pending s) ++ map w_key (List.filter processing (sy_procs s)).

Lemma elem_of_holders s k : k ∈ holders s <-> holds s k.
Proof.
  unfold holders, holds. rewrite elem_of_app, elem_of_elements. apply or_iff_compat_l.
  rewrite list_elem_of_In, in_map_iff. split.
  - intros (w & <- & [Hw Hp]%filter_In). apply list_elem_of_In, list_elem_of_lookup in Hw as [i Hi]. by exists i, w.
  - intros (i & w & Hi & Hp & <-). exists w. split; [done|]. apply filter_In. split; [|done].
    apply list_elem_of_In. by eapply list_elem_of_lookup_2.
Qed.

Definition lease_fresh (s : Sys) (k : string * string) : bool :=
  match md_leases (sy_db s) !! k.2 with
  | Some l => negb (bool_decide (gl_NodeID l = k.1)) || (sy_now s <=? gl_LeaseExpiresAt l)
  | None => true
  end.

Lemma fresh_spec s : forallb (lease_fresh s) (holders s) = true <-> fresh s.
Proof.
  rewrite forallb_forall. unfold fresh, lease_fresh. split.
  - intros H k l Hk Hl Hn. specialize (H k). rewrite <- list_elem_of_In, elem_of_holders, Hl in H.
    specialize (H Hk). rewrite bool_decide_true in H by done. by apply Z.leb_le.
  - intros H k Hk. rewrite <- list_elem_of_In, elem_of_holders in Hk. specialize (H k).
    destruct (md_leases (sy_db s) !! k.2) as [l|]; [|done]. case_bool_decide as Hn; [|done].
    apply Z.leb_le. by apply H.
Qed.

#[export] Instance fresh_dec s : Decision (fresh s).
Proof.
  destruct (forallb (lease_fresh s) (holders s)) eqn:E;
    [left; by apply fresh_spec|right; intros H%fresh_spec; congruence].
Defined.

#[export] Instance GroupLease_eq_dec : EqDecision GroupLease.
Proof. solve_decision. Defined.

#[export] Instance legal_dec s e : Decision (legal s e).
Proof. destruct e; cbn; apply _. Defined.

#[export] Instance lawful_dec es : forall s, Decision (lawful s es).
Proof. induction es as [|e es IH]; intros s; cbn; apply _. Defined.

(** ** The invariant *)

Definition owner (db : MetaDB) (g : string) : option string := gl_NodeID <$> md_leases db !! g.

Record cluster_inv (s : Sys) : Prop := {
  ci_owner : forall k, holds s k -> owner (sy_db s) k.2 = Some k.1;
  ci_unique : forall i j w v, sy_procs s !! i = Some w -> sy_procs s !! j = Some v ->
    processing w = true -> processing v = true -> w_key w = w_key v -> i = j;
  ci_pending : forall k i w, k ∈ sy_pending s -> sy_procs s !! i = Some w -> processing w = true -> w_key w <> k;
  ci_wf : Forall worker_wf (sy_procs s)
}.

Lemma is_processing_false s k :
  is_processing s k = false <->
  (forall i w, sy_procs s !! i = Some w -> processing w = true -> w_key w <> k).
Proof.
  unfold is_processing. split.
  - intros H i w Hi Hp Hk. assert (existsb (fun w => processing w && bool_decide (w_key w = k)) (sy_procs s) = true).
    { apply existsb_exists. exists w. rewrite Hp, bool_decide_true by done. split; [|done].
      apply list_elem_of_In. by eapply list_elem_of_lookup_2. }
    congruence.
  - intros H. apply not_true_is_false. intros (w & Hw & Hk)%existsb_exists.
    apply list_elem_of_In, list_elem_of_lookup in Hw as [i Hi]. bool_to_prop. by eapply H.
Qed.

(** A step that only moves goroutines forward and keeps the owners. *)
Lemma procs_advance_inv s s' :
  cluster_inv s -> sy_pending s' = sy_pending s ->
  (forall g, owner (sy_db s') g = owner (sy_db s) g) ->
  (forall i w', sy_procs s' !! i = Some w' ->
    exists w, sy_procs s !! i = Some w /\ advanced w w' /\ worker_wf w') ->
  cluster_inv s'.
Proof.
  intros [Ho Hu Hp Hw] Epend Eown Hadv. split.
  - intros k Hk. rewrite Eown. apply Ho. destruct Hk as [Hk|(i & w' & Hi & Hpr & Hkey)].
    + left. by rewrite <- Epend.
    + destruct (Hadv i w' Hi) as (w & Hiw & (Hk1 & _ & Hk2 & _) & _). right. exists i, w.
      rewrite <- Hk1. auto.
  - intros i j w v Hi Hj Hpw Hpv Hk.
    destruct (Hadv i w Hi) as (w0 & Hi0 & (Hk1 & _ & Hk2 & _) & _).
    destruct (Hadv j v Hj) as (v0 & Hj0 & (Hl1 & _ & Hl2 & _) & _).
    apply (Hu i j w0 v0); auto. congruence.
  - intros k i w Hk Hi Hpw. destruct (Hadv i w Hi) as (w0 & Hi0 & (Hk1 & _ & Hk2 & _) & _).
    rewrite Epend in Hk. rewrite Hk1. eapply Hp; eauto.
  - apply Forall_lookup. intros i w Hi. by destruct (Hadv i w Hi) as (? & _ & _ & ?).
Qed.

Lemma advanced_refl w : advanced w w.
Proof. by repeat split. Qed.

Lemma on_proc_inv f id s :
  (forall w, worker_wf w -> advanced w (f w) /\ worker_wf (f w)) ->
  cluster_inv s -> cluster_inv (on_proc f id s).
Proof.
  intros Hf Hs. apply (procs_advance_inv s); [done|done|done|]. cbn. intros i w' Hi.
  pose proof (ci_wf s Hs) as Hw. rewrite Forall_lookup in Hw.
  destruct (decide (i = id)) as [->|Hne].
  - rewrite list_lookup_alter_eq in Hi. apply fmap_Some in Hi as (w & Hi & ->).
    exists w. split; [done|]. by apply Hf, (Hw id).
  - rewrite list_lookup_alter_ne in Hi by done. exists w'. split_and!; [done|apply advanced_refl|by eapply Hw].
Qed.

Lemma on_proc_db_inv f id s :
  (forall w, worker_wf w -> advanced w (f (sy_db s) w).2 /\ worker_wf (f (sy_db s) w).2) ->
  (forall w g, owner (f (sy_db s) w).1 g = owner (sy_db s) g) ->
  cluster_inv s -> cluster_inv (on_proc_db f id s).
Proof.
  intros Hf Hg Hs. unfold on_proc_db. destruct (sy_procs s !! id) as [w0|] eqn:Eid; [|done].
  pose proof (ci_wf s Hs) as Hw. rewrite Forall_lookup in Hw. pose proof (Hf w0 (Hw _ _ Eid)) as [Ha Hwf].
  specialize (Hg w0). destruct (f (sy_db s) w0) as [db' w']; cbn in *.
  apply (procs_advance_inv s); [done|done|done|]. cbn. intros i v Hi.
  destruct (decide (i = id)) as [->|Hne].
  - rewrite list_lookup_insert_eq in Hi by (by eapply lookup_lt_Some). simplify_eq. by exists w0.
  - rewrite list_lookup_insert_ne in Hi by done. exists v. split_and!; [done|apply advanced_refl|by eapply Hw].
Qed.

(** What the calls do to the owners of leases. *)

Lemma report_leases out now db st :
  md_leases (ReportStreamRuntimeStatus out now db st).1 = md_leases db.
Proof. unfold ReportStreamRuntimeStatus. by destruct (md_inputs db !! rs_InputID st), out. Qed.

Lemma reportAll_leases inputs outs now db w status e :
  md_leases (reportAll outs now db w inputs status e) = md_leases db.
Proof.
  revert outs db. induction inputs as [|i inputs IH]; intros outs db; cbn [reportAll]; [done|].
  by rewrite IH, report_leases.
Qed.

Lemma begin_leases outs now db w : md_leases (begin outs now db w).1 = md_leases db.
Proof. unfold begin. destruct (w_begun w); cbn; [done|]. by rewrite !reportAll_leases. Qed.

Lemma report_final_leases outs now db w : md_leases (report_final outs now db w).1 = md_leases db.
Proof.
  unfold report_final. destruct (w_exit w) as [[[]]|]; [|done]. destruct (_ && _); cbn; [|done].
  by rewrite reportAll_leases.
Qed.

Lemma owner_insert db g l m :
  owner (set_leases (<[g := l]> (md_leases db)) db) m = if bool_decide (g = m) then Some (gl_NodeID l) else owner db m.
Proof.
  unfold owner. cbn. case_bool_decide as E; [subst; by rewrite lookup_insert_eq|by rewrite lookup_insert_ne].
Qed.

Lemma renew_owner out now db w g : owner (renew expiry err_text out now db w).1 g = owner db g.
Proof.
  unfold renew. destruct (in_lease_loop w); [|done]. unfold RenewGroupLease.
  destruct (w_ttl w <=? 0); [done|]. destruct (md_leases db !! mg_GroupID (w_group w)) as [l|] eqn:El; [|by destruct out].
  case_bool_decide as Hn; [|by destruct out]. cbn [andb]. destruct (now <=? gl_LeaseExpiresAt l); [|by destruct out].
  assert (forall g', owner (set_leases (<[mg_GroupID (w_group w) := mkGroupLease (mg_GroupID (w_group w)) (w_nodeID w)
    (expiry now (w_ttl w)) (gl_Version l + 1) (gl_AcquiredAt l) now]> (md_leases db)) db) g' = owner db g') as H.
  { intros g'. rewrite owner_insert. case_bool_decide as E; [|done]. subst g'. unfold owner. rewrite El. cbn. by rewrite Hn. }
  destruct out; cbn; by rewrite ?H.
Qed.

(** An acquisition changes one owner, to the caller, and only if the lease was
    free, expired or already the caller's; a grant makes the caller the owner. *)
Lemma acquire_owner out now db g n ttl :
  let r := TryAcquireGroupLease expiry out now db g n ttl in
  (forall g', g' <> g -> owner r.1 g' = owner db g') /\
  (r.2 = Ok true -> owner r.1 g = Some n) /\
  (owner r.1 g = owner db g \/
   match md_leases db !! g with
   | Some l => gl_LeaseExpiresAt l < now \/ gl_NodeID l = n
   | None => True
   end).
Proof.
  cbv zeta. unfold TryAcquireGroupLease. destruct (ttl <=? 0); [by split_and!; [..|left]|]. cbv zeta.
  assert (forall old g', g' <> g ->
    owner (set_leases (<[g := acquired_lease expiry now g n ttl old]> (md_leases db)) db) g' = owner db g') as Hother.
  { intros old g' Hg'. rewrite owner_insert. by rewrite bool_decide_false. }
  assert (forall old,
    owner (set_leases (<[g := acquired_lease expiry now g n ttl old]> (md_leases db)) db) g = Some n) as Hown.
  { intros old. rewrite owner_insert, bool_decide_true by done. by destruct old. }
  destruct (md_leases db !! g) as [l|] eqn:El.
  - destruct (may_acquire now n l) eqn:Em; [|destruct out; cbn; by split_and!; [..|left]].
    unfold may_acquire in Em. apply orb_true_iff in Em.
    assert (gl_LeaseExpiresAt l < now \/ gl_NodeID l = n) as Hfree by (destruct Em; bool_to_prop; auto).
    destruct out; cbn [call fst snd]; (split_and!; [by auto|done || by auto|by right]).
  - destruct (md_groups db !! g); [|destruct out; cbn; by split_and!; [..|left]].
    destruct out; cbn [call fst snd]; (split_and!; [by auto|done || by auto|by right]).
Qed.

Lemma release_owner out db g n k :
  owner db k.2 = Some k.1 -> k <> (n, g) -> owner (ReleaseGroupLease out db g n).1 k.2 = Some k.1.
Proof.
  intros Ho Hk. unfold ReleaseGroupLease. destruct (md_leases db !! g) as [l|] eqn:El; [|by destruct out].
  case_bool_decide as Hn; [|by destruct out].
  assert (g <> k.2) as Hg.
  { intros ->. apply Hk. unfold owner in Ho. rewrite El in Ho. injection Ho as Ho. destruct k; cbn in *. congruence. }
  destruct out; cbn; try done; unfold owner in *; cbn; by rewrite lookup_delete_ne.
Qed.

(** *** Each event keeps the invariant *)

Lemma holds_mono s s' k :
  (forall k, k ∈ sy_pending s' -> k ∈ sy_pending s) ->
  (forall i w, sy_procs s' !! i = Some w -> processing w = true ->
    exists w0, sy_procs s !! i = Some w0 /\ processing w0 = true /\ w_key w0 = w_key w) ->
  holds s' k -> holds s k.
Proof.
  intros Hp Hq [Hk|(i & w & Hi & Hw & Hk)]; [left; auto|]. right.
  destruct (Hq i w Hi Hw) as (w0 & H0 & Hw0 & Hk0). exists i, w0. split_and!; [done|done|congruence].
Qed.

Lemma acquire_inv s n g ttl out :
  cluster_inv s -> fresh s -> legal s (EAcquire n g ttl out) -> cluster_inv (step s (EAcquire n g ttl out)).
Proof.
  intros Hs Hf [Hl1 Hl2]. rewrite is_processing_false in Hl1. pose proof Hs as [Ho Hu Hp Hw]. cbn [step].
  pose proof (acquire_owner out (sy_now s) (sy_db s) g n ttl) as (Hother & Hgrant & Hfree).
  destruct (TryAcquireGroupLease _ _ _ _ _ _ _) as [db' r]; cbn in *.
  assert (forall k, holds s k -> owner db' k.2 = Some k.1) as Hkeep.
  { intros k Hk. pose proof (Ho k Hk) as Hok. destruct (decide (k.2 = g)) as [Hg|Hg]; [|by rewrite Hother].
    subst g. destruct Hfree as [->|Hfree]; [done|]. exfalso.
    unfold owner in Hok. destruct (md_leases (sy_db s) !! k.2) as [l|] eqn:El; [|done]. cbn in Hok.
    injection Hok as Hok. pose proof (Hf k l Hk El Hok). destruct Hfree as [?|Hn]; [lia|].
    assert (k = (n, k.2)) as Hkk by (destruct k; cbn in *; congruence).
    destruct Hk as [Hk|(i & w & Hi & Hpr & Hkey)]; [rewrite Hkk in Hk; done|].
    apply (Hl1 i w Hi Hpr). congruence. }
  assert (forall k, k ∈ (match r with Ok true => {[(n, g)]} ∪ sy_pending s | _ => sy_pending s end) ->
    (r = Ok true /\ k = (n, g)) \/ k ∈ sy_pending s) as Hpend.
  { intros k Hk. destruct r as [[]|]; [|by right|by right]. set_solver. }
  split; cbn; [|done| |done].
  - intros k [Hk|Hk].
    + destruct (Hpend k Hk) as [[-> ->]|Hk']; [by apply Hgrant|]. apply Hkeep. by left.
    + apply Hkeep. by right.
  - intros k i w Hk Hi Hpr. destruct (Hpend k Hk) as [[_ ->]|Hk']; [by eapply Hl1|by eapply Hp].
Qed.

Lemma start_inv s n g inputs ttl every :
  cluster_inv s -> legal s (EStart n g inputs ttl every) -> cluster_inv (step s (EStart n g inputs ttl every)).
Proof.
  intros [Ho Hu Hp Hw] Hk. cbn [step legal] in *. set (w := newWorker g inputs n ttl every).
  assert (worker_wf w) as Hwf by apply newWorker_wf. change (n, mg_GroupID g) with (w_key w) in *.
  assert (forall i v, (sy_procs s ++ [w]) !! i = Some v ->
    sy_procs s !! i = Some v \/ (i = length (sy_procs s) /\ v = w)) as Hlook.
  { intros i v [H|[Hlen H]]%lookup_app_Some; [by left|right].
    apply list_lookup_singleton_Some in H as [H ->]. split; [lia|done]. }
  assert (forall i v, sy_procs s !! i = Some v -> processing v = true -> w_key v <> w_key w) as Hnew
    by (intros i v; by apply Hp).
  split; cbn.
  - intros k [Hk'|(i & v & Hi & Hpv & <-)].
    + apply Ho. left. set_solver.
    + destruct (Hlook i v Hi) as [Hi'|[_ ->]]; apply Ho; [right; by exists i, v|by left].
  - intros i j v u Hi Hj Hpv Hpu Hkey.
    destruct (Hlook i v Hi) as [Hi'|[-> ->]], (Hlook j u Hj) as [Hj'|[-> ->]]; [by eapply Hu| | |done].
    + by destruct (Hnew i v).
    + by destruct (Hnew j u).
  - intros k i v Hk' Hi Hpv. destruct (Hlook i v Hi) as [Hi'|[_ ->]]; [eapply Hp; eauto; set_solver|set_solver].
  - apply Forall_app. by split; [|constructor].
Qed.

Lemma release_inv s n g out : cluster_inv s -> legal s (ERelease n g out) -> cluster_inv (step s (ERelease n g out)).
Proof.
  intros [Ho Hu Hp Hw] Hl. cbn in Hl. rewrite is_processing_false in Hl. split; cbn; [|done| |done].
  - intros k Hk. apply release_owner.
    + apply Ho. destruct Hk as [Hk|Hk]; [left; set_solver|by right].
    + intros ->. destruct Hk as [Hk|(i & w & Hi & Hpr & Hkey)]; [set_solver|by eapply Hl].
  - intros k i w Hk Hi Hpr. eapply Hp; eauto. set_solver.
Qed.

Lemma step_inv s e : cluster_inv s -> fresh s -> legal s e -> cluster_inv (step s e).
Proof.
  intros Hs Hf Hl. pose proof Hs as [Ho Hu Hp Hw]. destruct e.
  - by split.
  - cbn in *. split; cbn; [|done..]. intros k Hk. unfold owner. cbn. rewrite Hl. by apply Ho.
  - by apply acquire_inv.
  - by apply start_inv.
  - by apply release_inv.
  - apply on_proc_inv; [|done]. intros w Hww. case_bool_decide; [by apply request_stop_advanced|by split; [apply advanced_refl|]].
  - apply on_proc_inv; [|done]. apply cancel_advanced.
  - apply on_proc_db_inv; [|intros w g; unfold owner; by rewrite begin_leases|done]. intros w. apply begin_advanced.
  - apply on_proc_db_inv; [|intros w g; apply renew_owner|done]. intros w. apply renew_advanced.
  - apply on_proc_inv; [|done]. apply leave_advanced.
  - apply on_proc_inv; [|done]. apply finish_advanced.
  - apply on_proc_db_inv; [|intros w g; unfold owner; by rewrite report_final_leases|done]. intros w. apply report_final_advanced.
Qed.

Lemma run_inv es s : cluster_inv s -> fresh s -> lawful s es -> cluster_inv (run s es).
Proof.
  revert s. induction es as [|e es IH]; intros s Hs Hf Hl; [done|]. destruct Hl as (Hl & Hf' & Hrest).
  apply IH; [by apply step_inv|done|done].
Qed.

Lemma emptySys_inv db now : cluster_inv (emptySys db now).
Proof.
  split; cbn; [|done|set_solver|constructor].
  intros k [Hk|(i & w & Hi & _)]; [cbn in Hk; set_solver|by destruct i].
Qed.

Lemma emptySys_fresh db now : fresh (emptySys db now).
Proof. intros k l [Hk|(i & w & Hi & _)]; [cbn in Hk; set_solver|by destruct i]. Qed.

(** (C5) A group has one worker.  However the calls of all the nodes, the steps
    of all the worker goroutines and the clock interleave, and whichever store
    calls fail or go unacknowledged: as long as the nodes keep the discipline
    (which Node.v proves of the code) and no worker outlives its lease, any two
    goroutines processing the same group are one goroutine, and the lease table
    names its node. *)
Theorem one_worker_per_group db now es i j w v :
  lawful (emptySys db now) es ->
  let s := run (emptySys db now) es in
  sy_procs s !! i = Some w -> sy_procs s !! j = Some v ->
  processing w = true -> processing v = true ->
  mg_GroupID (w_group w) = mg_GroupID (w_group v) ->
  i = j /\ owner (sy_db s) (mg_GroupID (w_group w)) = Some (w_nodeID w).
Proof.
  intros Hl s Hi Hj Hw Hv Hg.
  pose proof (run_inv es _ (emptySys_inv db now) (emptySys_fresh db now) Hl) as [Ho Hu _ _].
  fold s in Ho, Hu.
  pose proof (Ho (w_key w) ltac:(right; by exists i, w)) as Hw1.
  pose proof (Ho (w_key v) ltac:(right; by exists j, v)) as Hv1.
  unfold w_key in Hw1, Hv1; cbn in Hw1, Hv1. split; [|done].
  apply (Hu i j w v); try done. unfold w_key. rewrite Hg in *. congruence.
Qed.

End cluster.

Definition sample_group (gid : string) (weight : Z) : MarketGroup :=
  mkMarketGroup gid "binance" "spot" "BTCUSDT" "BTC" "USDT" DesiredStatusRunning weight [] 0 0.

(** A group created, leased and run by one node, handed over to another. *)
Definition sample_events : list event :=
  let create (now : time.Time) (db : MetaDB) := set_groups (<["g" := sample_group "g" 1]> (md_groups db)) db in
  [ETime 10; EMeta create; EAcquire "a" "g" 30 Done; EAcquire "b" "g" 30 Done;
   EStart "a" (sample_group "g" 1) [] 30 10; EBegin 0 []; ETime 20; ERenew 0 Done;
   EStop "a" 0; ELeave 0; EFinish 0; ERelease "a" "g" Lost; EReport 0 [];
   EAcquire "b" "g" 30 Done; EStart "b" (sample_group "g" 1) [] 30 10; EBegin 1 []].

Lemma one_worker_per_group_witness :
  let s := run Z.add (fun _ => "") (emptySys emptyMeta 0) sample_events in
  length (sy_procs s) = 2%nat /\ owner (sy_db s) "g" = Some "b".
Proof.
  split; [vm_compute; reflexivity|].
  destruct (sy_procs (run Z.add (fun _ => "") (emptySys emptyMeta 0) sample_events) !! 1%nat) as [w|] eqn:E;
    [|vm_compute in E; discriminate].
  assert (processing w = true /\ w_nodeID w = "b" /\ mg_GroupID (w_group w) = "g") as (Hp & Hn & Hg)
    by (vm_compute in E; injection E as <-; vm_compute; auto).
  rewrite <- Hg, <- Hn.
  assert (lawful Z.add (fun _ => "") (emptySys emptyMeta 0) sample_events) as Hl
    by (apply (bool_decide_eq_true_1 _); vm_compute; reflexivity).
  exact (proj2 (one_worker_per_group Z.add (fun _ => "") emptyMeta 0 sample_events 1 1 w w Hl E E Hp Hp eq_refl)).
Defined.
