(* ===== verification/Reconcile.v ===== *)
(** * The plan of a scheduling pass

    internal/runtime/reconcile.go: the pure function that says which groups a
    node starts and which it stops. *)

From S2P Require Import Prelude GoStd.

Open Scope Z_scope.

Record reconcilePlan := mkReconcilePlan {
  rp_toStart : list string;
  rp_toStop : list string;
  rp_startSlots : Z
}.

Definition planReconcile (desired running : list string) (maxGroups : Z) : reconcilePlan :=
  let desiredSet : gset string := list_to_set desired in
  let runningSet : gset string := list_to_set running in
  let toStop := List.filter (fun id => negb (bool_decide (id ∈ desiredSet))) running in
  let kept := Z.of_nat (size runningSet) - Z.of_nat (length toStop) in
  let candidates := elements (desiredSet ∖ runningSet) in
  let count := Z.of_nat (length candidates) in
  let available := if (0 <? maxGroups) then
                     let a := maxGroups - kept in if (a <? 0) then 0 else a
                   else count in
  {| rp_toStart := sort_Strings candidates;
     rp_toStop := sort_Strings toStop;
     rp_startSlots := if (count <? available) then count else available |}.

(** ** What it decides *)

Lemma elem_of_toStart desired running maxGroups x :
  x ∈ rp_toStart (planReconcile desired running maxGroups) <-> x ∈ desired /\ x ∉ running.
Proof.
  cbn. unfold sort_Strings. rewrite merge_sort_Permutation, elem_of_elements, elem_of_difference.
  by rewrite !elem_of_list_to_set.
Qed.

Lemma NoDup_toStart desired running maxGroups : NoDup (rp_toStart (planReconcile desired running maxGroups)).
Proof. cbn. unfold sort_Strings. rewrite merge_sort_Permutation. apply NoDup_elements. Qed.

Lemma NoDup_toStop desired running maxGroups :
  NoDup running -> NoDup (rp_toStop (planReconcile desired running maxGroups)).
Proof.
  intros H. cbn. unfold sort_Strings. rewrite merge_sort_Permutation.
  by apply NoDup_ListNoDup, List.NoDup_filter, NoDup_ListNoDup.
Qed.

Lemma elem_of_toStop desired running maxGroups x :
  x ∈ rp_toStop (planReconcile desired running maxGroups) <-> x ∈ running /\ x ∉ desired.
Proof.
  cbn. unfold sort_Strings. rewrite merge_sort_Permutation, !list_elem_of_In, filter_In.
  rewrite negb_true_iff, bool_decide_eq_false, elem_of_list_to_set, list_elem_of_In. done.
Qed.

Lemma sort_Strings_perm l l' : l ≡ₚ l' -> sort_Strings l = sort_Strings l'.
Proof.
  intros H. apply (Sorted_unique string_le); [apply Sorted_merge_sort, _..|].
  unfold sort_Strings. by rewrite !merge_sort_Permutation.
Qed.

Lemma length_sort_Strings l : length (sort_Strings l) = length l.
Proof. unfold sort_Strings. by rewrite merge_sort_Permutation. Qed.

Lemma planReconcile_slots desired running maxGroups :
  NoDup running ->
  let p := planReconcile desired running maxGroups in
  let kept := Z.of_nat (length running) - Z.of_nat (length (rp_toStop p)) in
  0 <= rp_startSlots p <= Z.of_nat (length (rp_toStart p)) /\
  (0 < maxGroups -> kept + rp_startSlots p <= Z.max kept maxGroups) /\
  (rp_startSlots p < Z.of_nat (length (rp_toStart p)) -> 0 < maxGroups) /\
  (rp_startSlots p < Z.of_nat (length (rp_toStart p)) -> maxGroups <= kept + rp_startSlots p).
Proof.
  intros Hnd. cbn [planReconcile rp_toStart rp_toStop rp_startSlots]. cbv zeta.
  rewrite !length_sort_Strings, (size_list_to_set (C := gset string)) by done.
  set (c := Z.of_nat (length (elements _))). set (k := Z.of_nat (length running) - _).
  assert (0 <= c) by lia. clearbody c k.
  destruct (Z.ltb_spec 0 maxGroups); [destruct (Z.ltb_spec (maxGroups - k) 0)|];
    repeat match goal with |- context [if ?x <? ?y then _ else _] => destruct (Z.ltb_spec x y) end; lia.
Qed.

Lemma planReconcile_perm desired desired' running running' maxGroups :
  (forall x, x ∈ desired' <-> x ∈ desired) -> running' ≡ₚ running ->
  planReconcile desired' running' maxGroups = planReconcile desired running maxGroups.
Proof.
  intros Hd Hr. unfold planReconcile.
  assert (list_to_set desired' = (list_to_set desired : gset string)) as -> by (apply set_eq; set_solver).
  assert (list_to_set running' = (list_to_set running : gset string)) as ->
    by (apply set_eq; intros x; by rewrite !elem_of_list_to_set, Hr).
  assert (forall f, List.filter f running' ≡ₚ List.filter f running) as Hf.
  { intros f. induction Hr; cbn; [done| | |by etrans]; repeat case_match; try done; [by constructor|by constructor]. }
  specialize (Hf (fun id => negb (bool_decide (id ∈ (list_to_set desired : gset string))))).
  by rewrite (sort_Strings_perm _ _ Hf), (Permutation_length Hf).
Qed.

(** The plan of a pass: it starts exactly the runnable groups the node does
    not run and stops exactly the running groups that are no longer runnable,
    each once and in byte order, whatever order the two sets came in; the slots
    never take the node above its limit, and it leaves none of them unused while
    there are candidates. *)
Theorem planReconcile_correct desired running maxGroups :
  NoDup running ->
  let p := planReconcile desired running maxGroups in
  let kept := Z.of_nat (length running) - Z.of_nat (length (rp_toStop p)) in
  (forall x, x ∈ rp_toStart p <-> x ∈ desired /\ x ∉ running) /\ NoDup (rp_toStart p) /\
  (forall x, x ∈ rp_toStop p <-> x ∈ running /\ x ∉ desired) /\ NoDup (rp_toStop p) /\
  Sorted string_le (rp_toStart p) /\ Sorted string_le (rp_toStop p) /\
  0 <= rp_startSlots p <= Z.of_nat (length (rp_toStart p)) /\
  (0 < maxGroups -> kept + rp_startSlots p <= Z.max kept maxGroups) /\
  (rp_startSlots p < Z.of_nat (length (rp_toStart p)) -> 0 < maxGroups) /\
  (rp_startSlots p < Z.of_nat (length (rp_toStart p)) -> maxGroups <= kept + rp_startSlots p) /\
  (forall desired' running', (forall x, x ∈ desired' <-> x ∈ desired) -> running' ≡ₚ running ->
     planReconcile desired' running' maxGroups = p).
Proof.
  intros Hnd p kept. pose proof (planReconcile_slots desired running maxGroups Hnd) as Hslots.
  cbv zeta in Hslots. fold p in Hslots. fold kept in Hslots. split_and!.
  - intros x. apply elem_of_toStart.
  - apply NoDup_toStart.
  - intros x. apply elem_of_toStop.
  - by apply NoDup_toStop.
  - apply Sorted_merge_sort, _.
  - apply Sorted_merge_sort, _.
  - lia.
  - lia.
  - lia.
  - lia.
  - lia.
  - intros desired' running' Hd Hr. by apply planReconcile_perm.
Qed.

Lemma planReconcile_correct_witness :
  rp_toStart (planReconcile ["c"; "a"; "b"] ["b"; "z"] 2) = ["a"; "c"] /\
  rp_startSlots (planReconcile ["c"; "a"; "b"] ["b"; "z"] 2) = 1 /\
  NoDup (rp_toStop (planReconcile ["c"; "a"; "b"] ["b"; "z"] 2)).
Proof.
  split; [vm_compute; reflexivity|]. split; [vm_compute; reflexivity|].
  refine (proj1 (proj2 (proj2 (proj2 (planReconcile_correct ["c"; "a"; "b"] ["b"; "z"] 2 _))))).
  apply (bool_decide_eq_true_1 _). vm_compute. reflexivity.
Defined.
