(* ===== verification/Node.v ===== *)
(** * The scheduling loop of a node

    internal/runtime/node.go.  The code of a node is a function
    on the system of Cluster.v: each store call or goroutine operation it makes
    is an event, and before each of them an oracle says what everybody else did
    in the meantime and whether the call succeeds. *)

From S2P Require Import Prelude GoStd Model Metadata Worker Cluster Reconcile.

Open Scope Z_scope.

(** ** Configuration *)

Record NodeConfig := mkNodeConfig {
  nc_NodeID : string;
  nc_Hostname : string;
  nc_PodName : string;
  nc_MaxGroups : Z;
  nc_MaxWeight : Z;
  nc_LeaseTTL : time.Duration;
  nc_RenewInterval : time.Duration;
  nc_ReconcileInterval : time.Duration;
  nc_HeartbeatInterval : time.Duration;
  nc_ShutdownTimeout : time.Duration
}.

Definition withDefaults (c : NodeConfig) : NodeConfig :=
  let ttl := if (nc_LeaseTTL c <=? 0) then 30 * time.Second else nc_LeaseTTL c in
  {| nc_NodeID := nc_NodeID c; nc_Hostname := nc_Hostname c; nc_PodName := nc_PodName c;
     nc_MaxGroups := if (nc_MaxGroups c <=? 0) then 10 else nc_MaxGroups c;
     nc_MaxWeight := if (nc_MaxWeight c <=? 0) then 100 else nc_MaxWeight c;
     nc_LeaseTTL := ttl;
     nc_RenewInterval := if (nc_RenewInterval c <=? 0) || (ttl <=? nc_RenewInterval c)
                         then Z.quot ttl 3 else nc_RenewInterval c;
     nc_ReconcileInterval := if (nc_ReconcileInterval c <=? 0) then 5 * time.Second else nc_ReconcileInterval c;
     nc_HeartbeatInterval := if (nc_HeartbeatInterval c <=? 0) then 10 * time.Second else nc_HeartbeatInterval c;
     nc_ShutdownTimeout := if (nc_ShutdownTimeout c <=? 0) then 10 * time.Second else nc_ShutdownTimeout c |}.

Definition groupWeight (g : MarketGroup) : Z := if (mg_Weight g <=? 0) then 1 else mg_Weight g.

(** ** The node *)

Section node.

Variable expiry : time.Time -> time.Duration -> time.Time.
Variable err_text : meta_error -> string.
Variable cfg : NodeConfig.
(** The order in which Go ranges over the worker map. *)
Variable range : gmap string nat -> list (string * nat).

(** Before a call: what the others did, and how the call will end. *)
Record answer := mkAnswer { an_env : list event; an_out : outcome }.

(** A run of the node's code: the system, what is to come, every event so far
    (with [true] for the node's own), and whether no wait for a worker timed out. *)
Record Run := mkRun {
  r_sys : Sys;
  r_oracle : list answer;
  r_trace : list (bool * event);
  r_clean : bool
}.

Notation workers := (gmap string nat).
Notation name := (nc_NodeID cfg).

(** The others move; an oracle that is used up stands for a dead server. *)
Definition next (r : Run) : outcome * Run :=
  match r_oracle r with
  | [] => (Failed, r)
  | a :: rest =>
      (an_out a, mkRun (foldl (step expiry err_text) (r_sys r) (an_env a)) rest
                   (r_trace r ++ map (pair false) (an_env a)) (r_clean r))
  end.

Definition emit (e : event) (r : Run) : Run :=
  mkRun (step expiry err_text (r_sys r) e) (r_oracle r) (r_trace r ++ [(true, e)]) (r_clean r).

Definition unclean (r : Run) : Run := mkRun (r_sys r) (r_oracle r) (r_trace r) false.

Definition proc_is (f : Worker -> bool) (r : Run) (id : nat) : bool :=
  match sy_procs (r_sys r) !! id with
  | Some w => f w
  | None => false
  end.

Definition releaseLease (gid : string) (r : Run) : Run :=
  let '(out, r1) := next r in emit (ERelease name gid out) r1.

(** Workers whose state is terminal leave the map; their leases are released. *)
Definition pruneDeadWorkers (ws : workers) (r : Run) : workers * Run :=
  let dead := map fst (List.filter (fun gw => proc_is (fun w => terminal (w_state w)) r gw.2) (range ws)) in
  (foldr delete ws dead, foldl (fun r gid => releaseLease gid r) r dead).

(** [Stop] and its bounded wait; the lease is released only if the worker is over. *)
Definition stopWorker (gid : string) (ws : workers) (r : Run) : workers * Run :=
  match ws !! gid with
  | None => (ws, r)
  | Some id =>
      let ws' := delete gid ws in
      let '(_, r1) := next (emit (EStop name id) r) in
      if proc_is w_done r1 id then (ws', releaseLease gid r1) else (ws', unclean r1)
  end.

Definition tryStartWorker (g : MarketGroup) (ws : workers) (r : Run) : workers * Run * bool :=
  let gid := mg_GroupID g in
  let '(out, r1) := next r in
  let answer := snd (TryAcquireGroupLease expiry out (sy_now (r_sys r1)) (sy_db (r_sys r1)) gid name (nc_LeaseTTL cfg)) in
  let r2 := emit (EAcquire name gid (nc_LeaseTTL cfg) out) r1 in
  match answer with
  | Ok true =>
      let '(out2, r3) := next r2 in
      match ListGroupInputs out2 (sy_db (r_sys r3)) gid with
      | Err _ => (ws, releaseLease gid r3, false)
      | Ok inputs =>
          (<[gid := length (sy_procs (r_sys r3))]> ws,
           emit (EStart name g inputs (nc_LeaseTTL cfg) (nc_RenewInterval cfg)) r3, true)
      end
  | _ => (ws, r2, false)
  end.

Definition worker_weight (r : Run) (id : nat) : Z :=
  match sy_procs (r_sys r) !! id with
  | Some w => groupWeight (w_group w)
  | None => 0
  end.

Definition capacity (ws : workers) (r : Run) : RuntimeCapacity :=
  mkRuntimeCapacity (Z.of_nat (size ws))
    (foldl (fun acc gw => wrap64 (acc + worker_weight r gw.2)) 0 (range ws)).

(** The loop over the start candidates. *)
Fixpoint start_loop (groupByID : gmap string MarketGroup) (slots : Z) (toStart : list string)
    (started currentWeight : Z) (ws : workers) (r : Run) : workers * Run :=
  match toStart with
  | [] => (ws, r)
  | gid :: rest =>
      if (slots <=? started) then (ws, r)
      else
        let g := default (mkMarketGroup "" "" "" "" "" "" "" 0 [] time.zero time.zero) (groupByID !! gid) in
        let weight := groupWeight g in
        if (0 <? nc_MaxWeight cfg) && (nc_MaxWeight cfg <? wrap64 (currentWeight + weight))
        then start_loop groupByID slots rest started currentWeight ws r
        else
          let '(ws', r', ok) := tryStartWorker g ws r in
          if ok then start_loop groupByID slots rest (started + 1) (wrap64 (currentWeight + weight)) ws' r'
          else start_loop groupByID slots rest started currentWeight ws' r'
  end.

Definition stop_all (gids : list string) (ws : workers) (r : Run) : workers * Run :=
  foldl (fun wr gid => stopWorker gid wr.1 wr.2) (ws, r) gids.

Definition reconcileOnce (ws : workers) (r : Run) : workers * Run :=
  let '(ws1, r1) := pruneDeadWorkers ws r in
  let '(out, r2) := next r1 in
  match ListRunnableGroups out (sy_db (r_sys r2)) with
  | Err _ => (ws1, r2)
  | Ok groups =>
      let groupByID := foldl (fun m g => <[mg_GroupID g := g]> m) ∅ groups in
      let plan := planReconcile (map mg_GroupID groups) (map fst (range ws1)) (nc_MaxGroups cfg) in
      let '(ws2, r3) := stop_all (rp_toStop plan) ws1 r2 in
      start_loop groupByID (rp_startSlots plan) (rp_toStart plan) 0
        (rc_CurrentWeight (capacity ws2 r3)) ws2 r3
  end.

Definition updateNodeStatus (status : string) (r : Run) : Run :=
  let '(out, r1) := next r in
  emit (EMeta (fun now db => fst (UpdateRuntimeNodeStatus out now db name status))) r1.

Definition shutdown (ws : workers) (r : Run) : workers * Run :=
  let r1 := updateNodeStatus NodeStatusDraining r in
  let '(ws', r2) := stop_all (map fst (range ws)) ws r1 in
  (ws', updateNodeStatus NodeStatusDead r2).

Definition register (r : Run) : Run * bool :=
  let '(out, r1) := next r in
  let node := mkRuntimeNode name (nc_Hostname cfg) (nc_PodName cfg) NodeStatusAlive
                (nc_MaxGroups cfg) 0 (nc_MaxWeight cfg) 0 time.zero time.zero time.zero in
  (emit (EMeta (fun now db => fst (RegisterRuntimeNode out now db node))) r1, match out with Done => node_fits node | _ => false end).

Definition heartbeat (ws : workers) (r : Run) : Run :=
  let '(out, r1) := next r in
  emit (EMeta (fun now db => fst (HeartbeatRuntimeNode out now db name (capacity ws r1)))) r1.

(** What wakes the loops of [Run]; the list ends when ctx is canceled. *)
Inductive tick := TReconcile | THeartbeat.

Fixpoint loops (ticks : list tick) (ws : workers) (r : Run) : workers * Run :=
  match ticks with
  | [] => (ws, r)
  | TReconcile :: ticks' => let '(ws', r') := reconcileOnce ws r in loops ticks' ws' r'
  | THeartbeat :: ticks' => loops ticks' ws (heartbeat ws r)
  end.

(** [Run] of a node whose dependencies are configured: [None] for an error. *)
Definition Node_Run (ticks : list tick) (r : Run) : option (workers * Run) :=
  if bool_decide (name = "") then None
  else
    let '(r1, ok) := register r in
    if ok then
      let '(ws, r2) := loops (TReconcile :: ticks) ∅ r1 in Some (shutdown ws r2)
    else None.

(** ** The node keeps the discipline of Cluster.v *)

(** Events the other nodes, the goroutines and the clock may produce. *)
Definition foreign (e : event) : Prop :=
  match e with
  | EAcquire n _ _ _ | EStart n _ _ _ _ | ERelease n _ _ | EStop n _ => n <> name
  | _ => True
  end.

(** The worker map names the node's workers, every worker that is processing is
    in it, and the only leases granted and not used are those of [pend]. *)
Record node_inv (pend : gset string) (ws : workers) (s : Sys) : Prop := {
  ni_valid : forall g id, ws !! g = Some id -> exists w, sy_procs s !! id = Some w /\ w_key w = (name, g);
  ni_covers : forall i w, sy_procs s !! i = Some w -> processing w = true -> w_nodeID w = name ->
    ws !! mg_GroupID (w_group w) = Some i;
  ni_pending : forall g, (name, g) ∈ sy_pending s <-> g ∈ pend;
  ni_wf : Forall worker_wf (sy_procs s)
}.

(** Every own event of the trace was legal when it happened. *)
Fixpoint trace_ok (s : Sys) (tr : list (bool * event)) : Prop :=
  match tr with
  | [] => True
  | (own, e) :: tr' => (own = true -> legal s e) /\ trace_ok (step expiry err_text s e) tr'
  end.

(** The state of a run from [s0]: as long as no wait timed out. *)
Definition run_inv (s0 : Sys) (pend : gset string) (ws : workers) (r : Run) : Prop :=
  r_clean r = true ->
  node_inv pend ws (r_sys r) /\ trace_ok s0 (r_trace r) /\
  r_sys r = foldl (step expiry err_text) s0 (map snd (r_trace r)) /\
  Forall (fun a => Forall foreign (an_env a)) (r_oracle r).

Local Notation step := (step expiry err_text).

Lemma trace_ok_app s tr1 tr2 :
  trace_ok s (tr1 ++ tr2) <-> trace_ok s tr1 /\ trace_ok (foldl step s (map snd tr1)) tr2.
Proof. revert s. induction tr1 as [|[own e] tr1 IH]; intros s; cbn; [tauto|]. rewrite IH. tauto. Qed.

Lemma trace_ok_foreign s es : trace_ok s (map (pair false) es).
Proof. revert s. induction es as [|e es IH]; intros s; cbn; [done|]. by split. Qed.

Lemma map_snd_pair {A B} (b : A) (es : list B) : map snd (map (pair b) es) = es.
Proof. induction es as [|e es IH]; cbn; congruence. Qed.

(** *** What an event does to the goroutines *)

Definition started_by (s : Sys) (e : event) (i : nat) (w : Worker) : Prop :=
  match e with
  | EStart n g inputs ttl every => i = length (sy_procs s) /\ w = newWorker g inputs n ttl every
  | _ => False
  end.

Lemma on_proc_lookup f id s :
  (forall w, worker_wf w -> advanced w (f w) /\ worker_wf (f w)) -> Forall worker_wf (sy_procs s) ->
  Forall2 (fun w w' => advanced w w' /\ worker_wf w') (sy_procs s) (sy_procs (on_proc f id s)).
Proof.
  intros Hf Hw. rewrite Forall_lookup in Hw. apply Forall2_same_length_lookup_2; cbn; [by rewrite length_alter|].
  intros i w w' Hi Hi'. destruct (decide (i = id)) as [->|Hne].
  - rewrite list_lookup_alter_eq, Hi in Hi'. injection Hi' as <-. by apply Hf, (Hw id).
  - rewrite list_lookup_alter_ne, Hi in Hi' by done. injection Hi' as <-. split; [apply advanced_refl|by eapply Hw].
Qed.

Lemma on_proc_db_lookup f id s :
  (forall w, worker_wf w -> advanced w (f (sy_db s) w).2 /\ worker_wf (f (sy_db s) w).2) ->
  Forall worker_wf (sy_procs s) ->
  Forall2 (fun w w' => advanced w w' /\ worker_wf w') (sy_procs s) (sy_procs (on_proc_db f id s)).
Proof.
  intros Hf Hw. rewrite Forall_lookup in Hw. unfold on_proc_db.
  assert (forall i w w', sy_procs s !! i = Some w -> Some w = Some w' -> advanced w w' /\ worker_wf w') as Hsame.
  { intros i w w' Hi [= <-]. split; [apply advanced_refl|by eapply Hw]. }
  destruct (sy_procs s !! id) as [w0|] eqn:E.
  - pose proof (Hf w0 (Hw _ _ E)) as Hw0. destruct (f (sy_db s) w0) as [db' w0']; cbn in *.
    apply Forall2_same_length_lookup_2; [by rewrite length_insert|]. intros i w w' Hi Hi'.
    destruct (decide (i = id)) as [->|Hne].
    + rewrite list_lookup_insert_eq in Hi' by (by eapply lookup_lt_Some). by simplify_eq.
    + rewrite list_lookup_insert_ne, Hi in Hi' by done. by eapply Hsame.
  - apply Forall2_same_length_lookup_2; [done|]. intros i w w' Hi Hi'. rewrite Hi in Hi'. by eapply Hsame.
Qed.

Lemma Forall2_advanced_refl l : Forall worker_wf l -> Forall2 (fun w w' => advanced w w' /\ worker_wf w') l l.
Proof. intros Hl. apply Forall_Forall2_diag. eapply Forall_impl; [done|]. intros w Hw. by split; [apply advanced_refl|]. Qed.

Lemma step_procs s e :
  Forall worker_wf (sy_procs s) ->
  exists kept new, sy_procs (step s e) = kept ++ new /\
    Forall2 (fun w w' => advanced w w' /\ worker_wf w') (sy_procs s) kept /\
    new = match e with EStart n g inputs ttl every => [newWorker g inputs n ttl every] | _ => [] end.
Proof.
  intros Hw. pose proof (Forall2_advanced_refl _ Hw) as Hrefl.
  assert (forall l, Forall2 (fun w w' => advanced w w' /\ worker_wf w') (sy_procs s) l ->
    exists kept new : list Worker, l = kept ++ new /\
    Forall2 (fun w w' => advanced w w' /\ worker_wf w') (sy_procs s) kept /\ new = []) as Hsame.
  { intros l Hl. exists l, []. by rewrite app_nil_r. }
  destruct e; cbn [Cluster.step]; cbv beta iota.
  - by apply Hsame.
  - by apply Hsame.
  - destruct (TryAcquireGroupLease _ _ _ _ _ _ _). by apply Hsame.
  - by exists (sy_procs s), [newWorker group inputs nodeID ttl renewEvery].
  - by apply Hsame.
  - apply Hsame, on_proc_lookup; [|done]. intros w Hww. case_bool_decide; [by apply request_stop_advanced|by split; [apply advanced_refl|]].
  - apply Hsame, on_proc_lookup; [apply cancel_advanced|done].
  - apply Hsame, on_proc_db_lookup; [intros w; apply begin_advanced|done].
  - apply Hsame, on_proc_db_lookup; [intros w; apply renew_advanced|done].
  - apply Hsame, on_proc_lookup; [apply leave_advanced|done].
  - apply Hsame, on_proc_lookup; [apply finish_advanced|done].
  - apply Hsame, on_proc_db_lookup; [intros w; apply report_final_advanced|done].
Qed.

(** *** The invariant, event by event *)

Lemma node_inv_procs pend pend' ws s s' kept new :
  sy_procs s' = kept ++ new ->
  Forall2 (fun w w' => advanced w w' /\ worker_wf w') (sy_procs s) kept ->
  Forall (fun w => w_nodeID w <> name /\ worker_wf w) new ->
  (forall g, (name, g) ∈ sy_pending s' <-> g ∈ pend') ->
  node_inv pend ws s -> node_inv pend' ws s'.
Proof.
  intros Heq Hk Hn Hp [Hv Hc Hpend Hw]. split.
  - intros g id Hg. destruct (Hv g id Hg) as (w & Hw0 & Hkey).
    destruct (Forall2_lookup_l _ _ _ _ _ Hk Hw0) as (w' & Hw' & [(Ha & _) _]).
    exists w'. rewrite Heq. split; [by apply lookup_app_l_Some|congruence].
  - intros i w Hi Hpr Hname. rewrite Heq in Hi. apply lookup_app_Some in Hi as [Hi|[_ Hi]].
    + destruct (Forall2_lookup_r _ _ _ _ _ Hk Hi) as (w0 & Hw0 & [(Hkey & Hgrp & Hproc & _) _]).
      rewrite Hgrp. apply Hc; auto. unfold w_key in Hkey. congruence.
    + rewrite Forall_lookup in Hn. by destruct (Hn _ _ Hi).
  - done.
  - rewrite Heq. apply Forall_app. split.
    + apply Forall_lookup. intros i w Hi. by destruct (Forall2_lookup_r _ _ _ _ _ Hk Hi) as (? & _ & _ & ?).
    + eapply Forall_impl; [done|]. by intros w [_ ?].
Qed.

Lemma foreign_step pend ws s e : foreign e -> node_inv pend ws s -> node_inv pend ws (step s e).
Proof.
  intros Hf Hs. destruct (step_procs s e (ni_wf _ _ _ Hs)) as (kept & new & Heq & Hk & Hnew).
  assert (forall g, (name, g) ∈ sy_pending (step s e) <-> (name, g) ∈ sy_pending s) as Hp.
  { intros g. destruct e; cbn in *; try done.
    - destruct (TryAcquireGroupLease _ _ _ _ _ _ _) as [db' [[]|]]; cbn; set_solver.
    - set_solver.
    - set_solver.
    - unfold on_proc_db. destruct (sy_procs s !! id); [|done]. by destruct (begin _ _ _ _).
    - unfold on_proc_db. destruct (sy_procs s !! id); [|done]. by destruct (renew _ _ _ _ _ _).
    - unfold on_proc_db. destruct (sy_procs s !! id); [|done]. by destruct (report_final _ _ _ _). }
  eapply (node_inv_procs pend); [done|done| | |done].
  - subst new. destruct e; try constructor; [|constructor]. split; [done|apply newWorker_wf].
  - intros g. rewrite Hp. apply (ni_pending _ _ _ Hs).
Qed.

Lemma foreign_steps pend ws s es :
  Forall foreign es -> node_inv pend ws s -> node_inv pend ws (foldl step s es).
Proof.
  intros Hes. revert s. induction Hes as [|e es He _ IH]; intros s Hs; cbn; [done|].
  by apply IH, foreign_step.
Qed.

Lemma node_inv_idle pend ws s g :
  node_inv pend ws s -> ws !! g = None -> is_processing s (name, g) = false.
Proof.
  intros Hs Hg. apply is_processing_false. intros i w Hi Hp Hk. unfold w_key in Hk.
  pose proof (ni_covers _ _ _ Hs i w Hi Hp ltac:(congruence)). congruence.
Qed.

Lemma node_inv_delete pend ws s g id w :
  node_inv pend ws s -> ws !! g = Some id -> sy_procs s !! id = Some w -> processing w = false ->
  node_inv pend (delete g ws) s.
Proof.
  intros [Hv Hc Hp Hw] Hg Hid Hpr. split; [| |done|done].
  - intros g' id' Hg'. apply lookup_delete_Some in Hg' as [_ Hg']. by apply Hv.
  - intros i v Hi Hpv Hn. pose proof (Hc i v Hi Hpv Hn) as Hiv. rewrite lookup_delete_ne; [done|].
    intros E. rewrite <- E, Hg in Hiv. injection Hiv as ->. rewrite Hid in Hi. congruence.
Qed.

(** *** Runs *)

Lemma run_inv_next s0 pend ws r : run_inv s0 pend ws r -> run_inv s0 pend ws (next r).2.
Proof.
  intros Hr. unfold next. destruct (r_oracle r) as [|a rest] eqn:Eo; [done|]. intros Hc.
  destruct (Hr Hc) as (Hn & Ht & Hs & Ho). rewrite Eo in Ho. apply Forall_cons in Ho as [Ha Ho]. cbn.
  split_and!; [by apply foreign_steps| | |done].
  - apply trace_ok_app. split; [done|apply trace_ok_foreign].
  - by rewrite map_app, map_snd_pair, foldl_app, <- Hs.
Qed.

Lemma run_inv_emit s0 pend pend' ws ws' r e :
  run_inv s0 pend ws r ->
  (node_inv pend ws (r_sys r) -> legal (r_sys r) e /\ node_inv pend' ws' (step (r_sys r) e)) ->
  run_inv s0 pend' ws' (emit e r).
Proof.
  intros Hr He Hc. destruct (Hr Hc) as (Hn & Ht & Hs & Ho). destruct (He Hn) as [Hl Hn']. cbn.
  split_and!; [done| | |done].
  - apply trace_ok_app. split; [done|]. rewrite <- Hs. by split.
  - by rewrite map_app, foldl_app, <- Hs.
Qed.

Lemma run_inv_node s0 pend pend' ws ws' r :
  run_inv s0 pend ws r -> (node_inv pend ws (r_sys r) -> node_inv pend' ws' (r_sys r)) ->
  run_inv s0 pend' ws' r.
Proof. intros Hr Hn Hc. destruct (Hr Hc) as (? & ?). by auto. Qed.

Lemma releaseLease_inv s0 pend ws r gid :
  run_inv s0 pend ws r -> ws !! gid = None -> run_inv s0 (pend ∖ {[gid]}) ws (releaseLease gid r).
Proof.
  intros Hr Hg. unfold releaseLease. pose proof (run_inv_next _ _ _ _ Hr) as Hr1.
  destruct (next r) as [out r1]. eapply run_inv_emit; [done|]. intros Hn.
  split; [by eapply node_inv_idle|]. pose proof (ni_wf _ _ _ Hn) as Hw.
  eapply (node_inv_procs pend _ _ _ _ (sy_procs (r_sys r1)) []); cbn;
    [by rewrite app_nil_r|by apply Forall2_advanced_refl|constructor| |done].
  intros g. pose proof (ni_pending _ _ _ Hn g). set_solver.
Qed.

Lemma updateNodeStatus_inv s0 pend ws r status :
  run_inv s0 pend ws r -> run_inv s0 pend ws (updateNodeStatus status r).
Proof.
  intros Hr. unfold updateNodeStatus. pose proof (run_inv_next _ _ _ _ Hr) as Hr1.
  destruct (next r) as [out r1]. eapply run_inv_emit; [done|]. intros Hn. split; [|by apply (foreign_step _ _ _ (EMeta _))].
  cbn. unfold UpdateRuntimeNodeStatus. destruct (negb _); [done|].
  by destruct (md_nodes _ !! _), out.
Qed.

Lemma stopWorker_inv s0 ws r gid :
  run_inv s0 ∅ ws r ->
  run_inv s0 ∅ (stopWorker gid ws r).1 (stopWorker gid ws r).2 /\ (stopWorker gid ws r).1 = delete gid ws.
Proof.
  intros Hr. unfold stopWorker. destruct (ws !! gid) as [id|] eqn:Eg; [|by rewrite delete_id].
  assert (run_inv s0 ∅ ws (emit (EStop name id) r)) as H1.
  { eapply run_inv_emit; [done|]. intros Hn. split; [done|].
    destruct (step_procs (r_sys r) (EStop name id) (ni_wf _ _ _ Hn)) as (kept & new & Heq & Hk & ->).
    eapply (node_inv_procs ∅); [done..|constructor|apply (ni_pending _ _ _ Hn)|done]. }
  apply run_inv_next in H1. destruct (next (emit (EStop name id) r)) as [out r1]; cbn in H1.
  destruct (proc_is w_done r1 id) eqn:Ed; cbn; [|by split].
  split; [|done]. assert ((∅ : gset string) = ∅ ∖ {[gid]}) as -> by set_solver.
  apply releaseLease_inv; [|by rewrite lookup_delete_eq].
  eapply run_inv_node; [done|]. intros Hn. unfold proc_is in Ed.
  destruct (sy_procs (r_sys r1) !! id) as [w|] eqn:Ew; [|done].
  eapply node_inv_delete; [done..|]. pose proof (ni_wf _ _ _ Hn) as Hw. rewrite Forall_lookup in Hw.
  unfold processing. by rewrite (proj2 (proj2 (Hw _ _ Ew)) Ed).
Qed.

Lemma stop_all_inv s0 gids ws r :
  run_inv s0 ∅ ws r ->
  run_inv s0 ∅ (stop_all gids ws r).1 (stop_all gids ws r).2 /\ (stop_all gids ws r).1 ⊆ ws.
Proof.
  revert ws r. induction gids as [|gid gids IH]; intros ws r Hr; cbn; [done|].
  destruct (stopWorker_inv s0 ws r gid Hr) as [H1 H2].
  destruct (stopWorker gid ws r) as [ws' r']; cbn in *. subst ws'. unfold stop_all in IH.
  destruct (IH _ _ H1) as [H3 H4]. split; [done|]. etrans; [done|apply delete_subseteq].
Qed.

(** *** The plan *)

Lemma groupByID_lookup groups gid :
  gid ∈ map mg_GroupID groups ->
  exists g, foldl (fun m g => <[mg_GroupID g := g]> m) (∅ : gmap string MarketGroup) groups !! gid = Some g /\
    mg_GroupID g = gid /\ g ∈ groups.
Proof.
  induction groups as [|g groups IH] using rev_ind; cbn; [by intros ?%elem_of_nil|].
  rewrite map_app, elem_of_app, foldl_app. cbn. intros H.
  destruct (decide (mg_GroupID g = gid)) as [E|E].
  - exists g. rewrite <- E, lookup_insert_eq. split_and!; [done|done|]. apply elem_of_app. right. by left.
  - destruct H as [H|H%list_elem_of_singleton]; [|congruence]. destruct (IH H) as (g' & H1 & H2 & H3).
    exists g'. rewrite lookup_insert_ne by done. split_and!; [done|done|]. apply elem_of_app. by left.
Qed.

Hypothesis range_perm : forall ws, range ws ≡ₚ map_to_list ws.

Lemma elem_of_range ws gid : gid ∈ map fst (range ws) <-> is_Some (ws !! gid).
Proof.
  rewrite range_perm. split.
  - intros H. apply list_elem_of_In, in_map_iff in H as ([g id] & <- & H). apply list_elem_of_In, elem_of_map_to_list in H.
    by exists id.
  - intros [id H]. apply list_elem_of_In, in_map_iff. exists (gid, id). split; [done|].
    by apply list_elem_of_In, elem_of_map_to_list.
Qed.

(** *** The passes *)

Lemma release_all_inv s0 ws dead r :
  run_inv s0 ∅ ws r -> Forall (fun gid => ws !! gid = None) dead ->
  run_inv s0 ∅ ws (foldl (fun r gid => releaseLease gid r) r dead).
Proof.
  intros Hr Hd. revert r Hr. induction Hd as [|gid dead Hg _ IH]; intros r Hr; cbn; [done|].
  apply IH. assert ((∅ : gset string) = ∅ ∖ {[gid]}) as -> by set_solver. by apply releaseLease_inv.
Qed.

Lemma node_inv_delete_all pend ws s dead :
  node_inv pend ws s ->
  Forall (fun gid => forall id w, ws !! gid = Some id -> sy_procs s !! id = Some w -> processing w = false) dead ->
  node_inv pend (foldr delete ws dead) s.
Proof.
  intros Hs Hd. induction Hd as [|gid dead Hg _ IH]; cbn; [done|].
  destruct (foldr delete ws dead !! gid) as [id|] eqn:E; [|by rewrite delete_id].
  destruct (ni_valid _ _ _ IH _ _ E) as (w & Hw & _). eapply node_inv_delete; [done..|].
  eapply Hg; [|done]. rewrite foldr_delete_lookup in E. by case_bool_decide.
Qed.

Lemma pruneDeadWorkers_inv s0 ws r :
  run_inv s0 ∅ ws r ->
  run_inv s0 ∅ (pruneDeadWorkers ws r).1 (pruneDeadWorkers ws r).2 /\ (pruneDeadWorkers ws r).1 ⊆ ws.
Proof.
  intros Hr. unfold pruneDeadWorkers. set (dead := map fst (List.filter _ (range ws))). cbn. split.
  - apply release_all_inv.
    + eapply run_inv_node; [done|]. intros Hn. apply node_inv_delete_all; [done|].
      apply Forall_forall. intros gid Hg id w Hid Hw. unfold dead in Hg.
      apply list_elem_of_In, in_map_iff in Hg as ([g id'] & <- & [Hin Ht]%filter_In). cbn in *.
      apply list_elem_of_In in Hin. rewrite range_perm in Hin. apply elem_of_map_to_list in Hin.
      assert (id' = id) as -> by congruence. unfold proc_is in Ht. rewrite Hw in Ht. unfold processing. by rewrite Ht.
    + apply Forall_forall. intros gid Hg. rewrite foldr_delete_lookup. by rewrite bool_decide_true.
  - clearbody dead. induction dead as [|d dead IH]; cbn; [done|]. etrans; [apply delete_subseteq|done].
Qed.

Lemma start_node_inv s ws g inputs ttl every :
  node_inv {[mg_GroupID g]} ws s -> ws !! mg_GroupID g = None ->
  node_inv ∅ (<[mg_GroupID g := length (sy_procs s)]> ws) (step s (EStart name g inputs ttl every)).
Proof.
  intros [Hv Hc Hp Hw] Hg. split; cbn.
  - intros g' id [[<- <-]|[Hne Hid]]%lookup_insert_Some.
    + exists (newWorker g inputs name ttl every). split; [|done]. by rewrite lookup_app_r, Nat.sub_diag by done.
    + destruct (Hv _ _ Hid) as (w & Hw0 & Hk). exists w. split; [by apply lookup_app_l_Some|done].
  - intros i w [Hi|[Hlen Hi]]%lookup_app_Some Hpr Hname.
    + pose proof (Hc i w Hi Hpr Hname) as Hiw. rewrite lookup_insert_ne; [done|]. intros E. congruence.
    + apply list_lookup_singleton_Some in Hi as [Hi <-]. cbn. rewrite lookup_insert_eq. f_equal. lia.
  - intros g'. pose proof (Hp g'). set_solver.
  - apply Forall_app. split; [done|]. constructor; [apply newWorker_wf|constructor].
Qed.

Lemma tryStartWorker_inv s0 ws r g :
  run_inv s0 ∅ ws r -> ws !! mg_GroupID g = None ->
  run_inv s0 ∅ (tryStartWorker g ws r).1.1 (tryStartWorker g ws r).1.2 /\
  (forall g', g' <> mg_GroupID g -> (tryStartWorker g ws r).1.1 !! g' = ws !! g').
Proof.
  intros Hr Hg. unfold tryStartWorker. pose proof (run_inv_next _ _ _ _ Hr) as Hr1.
  destruct (next r) as [out r1]; cbn in Hr1. cbv zeta.
  assert (run_inv s0 (match snd (TryAcquireGroupLease expiry out (sy_now (r_sys r1)) (sy_db (r_sys r1)) (mg_GroupID g) name (nc_LeaseTTL cfg))
    with Ok true => {[mg_GroupID g]} | _ => ∅ end) ws (emit (EAcquire name (mg_GroupID g) (nc_LeaseTTL cfg) out) r1)) as Hr2.
  { eapply run_inv_emit; [done|]. intros Hn. split.
    - split; [by eapply node_inv_idle|]. intros Hp%(ni_pending _ _ _ Hn). set_solver.
    - pose proof (ni_wf _ _ _ Hn) as Hw. pose proof (ni_pending _ _ _ Hn) as Hp.
      pose proof Hn as [Hv Hc _ _]. cbn. destruct (TryAcquireGroupLease _ _ _ _ _ _ _) as [db' res]; cbn.
      split; cbn; [done|done| |done]. intros g'. pose proof (Hp g'). destruct res as [[]|]; set_solver. }
  destruct (snd (TryAcquireGroupLease _ _ _ _ _ _ _)) as [[]|]; [|by split|by split].
  apply run_inv_next in Hr2. destruct (next (emit _ r1)) as [out2 r3]; cbn in Hr2.
  destruct (ListGroupInputs _ _ _) as [inputs|]; cbn; split; [| | |done].
  - eapply run_inv_emit; [done|]. intros Hn. split; [apply (ni_pending _ _ _ Hn); set_solver|by apply start_node_inv].
  - intros g' Hne. by rewrite lookup_insert_ne.
  - assert ((∅ : gset string) = {[mg_GroupID g]} ∖ {[mg_GroupID g]}) as -> by set_solver. by apply releaseLease_inv.
Qed.

Lemma start_loop_inv s0 byID slots toStart started weight ws r :
  run_inv s0 ∅ ws r -> NoDup toStart ->
  Forall (fun gid => ws !! gid = None /\ exists g, byID !! gid = Some g /\ mg_GroupID g = gid) toStart ->
  let wr := start_loop byID slots toStart started weight ws r in run_inv s0 ∅ wr.1 wr.2.
Proof.
  cbv zeta. intros Hr Hnd Hall. revert started weight ws r Hr Hall.
  induction Hnd as [|gid rest Hnot _ IH]; intros started weight ws r Hr Hall; cbn [start_loop]; [done|].
  apply Forall_cons in Hall as [(Hws & g & Hg & Hgid) Hall].
  destruct (slots <=? started); [done|]. rewrite Hg. cbn [from_option id]. cbv zeta. subst gid.
  destruct (_ && _); [by apply IH|].
  destruct (tryStartWorker_inv s0 ws r g Hr Hws) as [Hr' Hws'].
  destruct (tryStartWorker g ws r) as [[ws' r'] ok]; cbn in *.
  assert (Forall (fun gid => ws' !! gid = None /\ exists g, byID !! gid = Some g /\ mg_GroupID g = gid) rest) as Hall'.
  { rewrite Forall_forall in Hall. apply Forall_forall. intros gid Hin. destruct (Hall gid Hin) as [Hn He].
    split; [|done]. rewrite Hws'; [done|]. by intros ->. }
  destruct ok; by apply IH.
Qed.

Lemma reconcileOnce_inv s0 ws r :
  run_inv s0 ∅ ws r -> let wr := reconcileOnce ws r in run_inv s0 ∅ wr.1 wr.2.
Proof.
  cbv zeta. intros Hr. unfold reconcileOnce. destruct (pruneDeadWorkers_inv s0 ws r Hr) as [H1 _].
  destruct (pruneDeadWorkers ws r) as [ws1 r1]; cbn in H1.
  apply run_inv_next in H1. destruct (next r1) as [out r2]; cbn in H1.
  destruct (ListRunnableGroups _ _) as [groups|]; [|done]. cbv zeta. set (plan := planReconcile _ _ _).
  destruct (stop_all_inv s0 (rp_toStop plan) ws1 r2 H1) as [H2 Hsub].
  destruct (stop_all (rp_toStop plan) ws1 r2) as [ws2 r3]; cbn in *.
  apply start_loop_inv; [done|apply (NoDup_toStart _ _ (nc_MaxGroups cfg))|]. apply Forall_forall. intros gid Hgid.
  apply (elem_of_toStart _ _ (nc_MaxGroups cfg)) in Hgid as [Hd Hnr]. destruct (groupByID_lookup groups gid Hd) as (g & Hg & Hid & _).
  split; [|by exists g]. rewrite elem_of_range in Hnr. apply eq_None_not_Some. intros [id Hi]. apply Hnr.
  exists id. by eapply lookup_weaken.
Qed.

Lemma heartbeat_inv s0 ws r : run_inv s0 ∅ ws r -> run_inv s0 ∅ ws (heartbeat ws r).
Proof.
  intros Hr. unfold heartbeat. pose proof (run_inv_next _ _ _ _ Hr) as Hr1.
  destruct (next r) as [out r1]. eapply run_inv_emit; [done|]. intros Hn. split; [|by apply (foreign_step _ _ _ (EMeta _))].
  cbn. unfold HeartbeatRuntimeNode. destruct (negb _); [by destruct out|]. by destruct (md_nodes _ !! _), out.
Qed.

Lemma register_inv s0 ws r : run_inv s0 ∅ ws r -> run_inv s0 ∅ ws (register r).1.
Proof.
  intros Hr. unfold register. pose proof (run_inv_next _ _ _ _ Hr) as Hr1.
  destruct (next r) as [out r1]. cbn. eapply run_inv_emit; [done|]. intros Hn.
  split; [|by apply (foreign_step _ _ _ (EMeta _))]. cbn. unfold RegisterRuntimeNode. by destruct (node_fits _), out.
Qed.

Lemma loops_inv s0 ticks ws r :
  run_inv s0 ∅ ws r -> let wr := loops ticks ws r in run_inv s0 ∅ wr.1 wr.2.
Proof.
  cbv zeta. revert ws r. induction ticks as [|[] ticks IH]; intros ws r Hr; cbn [loops]; [done| |].
  - pose proof (reconcileOnce_inv s0 ws r Hr) as H. destruct (reconcileOnce ws r) as [ws' r']. by apply IH.
  - by apply IH, heartbeat_inv.
Qed.

Lemma shutdown_inv s0 ws r :
  run_inv s0 ∅ ws r -> let wr := shutdown ws r in run_inv s0 ∅ wr.1 wr.2.
Proof.
  cbv zeta. intros Hr. unfold shutdown. apply (updateNodeStatus_inv _ _ _ _ NodeStatusDraining) in Hr.
  destruct (stop_all_inv s0 (map fst (range ws)) _ _ Hr) as [H _].
  destruct (stop_all _ _ _) as [ws' r']. by apply updateNodeStatus_inv.
Qed.

(** The part of the discipline that is not the node's: the other events are legal
    and no lease is outlived. *)
Fixpoint env_ok (s : Sys) (tr : list (bool * event)) : Prop :=
  match tr with
  | [] => True
  | (own, e) :: tr' => (own = false -> legal s e) /\ fresh (step s e) /\ env_ok (step s e) tr'
  end.

Lemma trace_lawful s tr : trace_ok s tr -> env_ok s tr -> lawful expiry err_text s (map snd tr).
Proof.
  revert s. induction tr as [|[own e] tr IH]; intros s; cbn; [done|].
  intros [Hown Ht] (Henv & Hf & He). split_and!; [destruct own; auto|done|by apply IH].
Qed.

Lemma stop_all_deletes s0 gids ws r :
  run_inv s0 ∅ ws r -> (stop_all gids ws r).1 = foldl (fun ws gid => delete gid ws) ws gids.
Proof.
  revert ws r. induction gids as [|gid gids IH]; intros ws r Hr; cbn; [done|].
  destruct (stopWorker_inv s0 ws r gid Hr) as [H1 H2].
  destruct (stopWorker gid ws r) as [ws' r']; cbn in *. subst ws'. by apply IH.
Qed.

(** (C6) The code of a node keeps the discipline.  However the node's run goes,
    from registration to shutdown, with any number of heartbeats and passes of
    the reconcile loop, any interleaving with the other nodes, the goroutines
    and the clock, and any failed or unacknowledged store calls: if no wait for
    a worker to stop times out, every call the node makes is legal, so that the
    whole trace is lawful whenever the others' part of it is; and when the run
    is over, the node has no worker in its map and none that is processing. *)
Theorem node_run_lawful ticks r ws r' :
  r_trace r = [] -> r_clean r = true -> node_inv ∅ ∅ (r_sys r) ->
  Forall (fun a => Forall foreign (an_env a)) (r_oracle r) ->
  Node_Run ticks r = Some (ws, r') -> r_clean r' = true ->
  r_sys r' = Cluster.run expiry err_text (r_sys r) (map snd (r_trace r')) /\
  (env_ok (r_sys r) (r_trace r') -> lawful expiry err_text (r_sys r) (map snd (r_trace r'))) /\
  ws = ∅ /\ Forall (fun w => w_nodeID w = name -> processing w = false) (sy_procs (r_sys r')).
Proof.
  intros Htr Hclean Hn Hf Hrun Hclean'. unfold Node_Run in Hrun.
  assert (run_inv (r_sys r) ∅ ∅ r) as Hr by (intros _; by rewrite Htr).
  case_bool_decide; [done|]. apply register_inv in Hr. destruct (register r) as [r1 []]; [|done]; cbn in Hr.
  apply (loops_inv _ (TReconcile :: ticks)) in Hr. destruct (loops _ _ _) as [ws2 r2]; cbn in Hr.
  injection Hrun as Hrun. pose proof (shutdown_inv _ _ _ Hr) as Hs. unfold shutdown in *.
  apply (updateNodeStatus_inv _ _ _ _ NodeStatusDraining) in Hr.
  pose proof (stop_all_deletes (r_sys r) (map fst (range ws2)) _ _ Hr) as Hdel.
  destruct (stop_all _ _ _) as [ws3 r3]. cbn in Hs, Hdel. injection Hrun as <- <-.
  destruct (Hs Hclean') as (Hni & Hok & Hsys & _).
  assert (ws3 = ∅) as ->.
  { apply map_empty. intros g. rewrite Hdel, foldl_delete_lookup. case_bool_decide as Hin; [done|].
    rewrite elem_of_range in Hin. by apply eq_None_not_Some. }
  split_and!; [done|by apply trace_lawful|done|]. apply Forall_lookup. intros i w Hi Hname.
  destruct (processing w) eqn:Hp; [|done]. pose proof (ni_covers _ _ _ Hni i w Hi Hp Hname) as H'. by rewrite lookup_empty in H'.
Qed.

(** ** Capacity *)

(** The group of a goroutine never changes. *)
Definition group_of (s : Sys) (id : nat) : option MarketGroup := w_group <$> sy_procs s !! id.

Lemma begin_group outs now db w : w_group (begin outs now db w).2 = w_group w.
Proof. unfold begin. by destruct (w_begun w). Qed.

Lemma renew_group out now db w : w_group (renew expiry err_text out now db w).2 = w_group w.
Proof. unfold renew. destruct (in_lease_loop w); [|done]. by destruct (RenewGroupLease _ _ _ _ _ _ _). Qed.

Lemma report_final_group outs now db w : w_group (report_final outs now db w).2 = w_group w.
Proof. unfold report_final. destruct (w_exit w) as [[[]]|]; [|done]. by destruct (_ && _). Qed.

Lemma on_proc_group f id s i :
  (forall w, w_group (f w) = w_group w) -> group_of (on_proc f id s) i = group_of s i.
Proof.
  intros Hf. unfold group_of. cbn. destruct (decide (i = id)) as [->|Hne].
  - rewrite list_lookup_alter_eq. destruct (sy_procs s !! id); cbn; [by rewrite Hf|done].
  - by rewrite list_lookup_alter_ne.
Qed.

Lemma on_proc_db_group f id s i :
  (forall w, w_group (f (sy_db s) w).2 = w_group w) -> group_of (on_proc_db f id s) i = group_of s i.
Proof.
  intros Hf. unfold group_of, on_proc_db. destruct (sy_procs s !! id) as [w|] eqn:E; [|done].
  specialize (Hf w). destruct (f (sy_db s) w) as [db' w']; cbn in *.
  destruct (decide (i = id)) as [->|Hne].
  - rewrite list_lookup_insert_eq by (by eapply lookup_lt_Some). rewrite E. cbn. by rewrite Hf.
  - by rewrite list_lookup_insert_ne.
Qed.

Lemma step_group s e i g : group_of s i = Some g -> group_of (step s e) i = Some g.
Proof.
  intros H. destruct e; cbn [Cluster.step]; try done.
  - by destruct (TryAcquireGroupLease _ _ _ _ _ _ _).
  - unfold group_of in *. cbn. apply fmap_Some in H as (w & Hw & ->). by rewrite (lookup_app_l_Some _ _ _ _ Hw).
  - rewrite on_proc_group; [done|]. intros w. by case_bool_decide.
  - by rewrite on_proc_group.
  - rewrite on_proc_db_group; [done|]. intros w. apply begin_group.
  - rewrite on_proc_db_group; [done|]. intros w. apply renew_group.
  - rewrite on_proc_group; [done|]. intros w. unfold leave. by destruct (_ && _).
  - rewrite on_proc_group; [done|]. intros w. unfold finish. destruct (w_exit w) as [[[]]|]; [|done]. by destruct (terminal _).
  - rewrite on_proc_db_group; [done|]. intros w. apply report_final_group.
Qed.

(** Every entry of the map names a goroutine of the run. *)
Definition ids_valid (ws : workers) (r : Run) : Prop := forall g id, ws !! g = Some id -> is_Some (group_of (r_sys r) id).

(** A run that goes on from another one. *)
Definition later (r r' : Run) : Prop :=
  forall i g, group_of (r_sys r) i = Some g -> group_of (r_sys r') i = Some g.

#[local] Instance later_preorder : PreOrder later.
Proof. split; [by intros r i g|]. intros r1 r2 r3 H1 H2 i g H. by apply H2, H1. Qed.

Lemma next_later r : later r (next r).2.
Proof.
  unfold next. destruct (r_oracle r) as [|a rest]; [done|]. cbn. intros i g. cbn. generalize (r_sys r).
  induction (an_env a) as [|e es IH]; intros s; cbn; [done|]. intros H. by apply IH, step_group.
Qed.

Lemma emit_later e r : later r (emit e r).
Proof. intros i g H. by apply step_group. Qed.

Lemma releaseLease_later gid r : later r (releaseLease gid r).
Proof.
  unfold releaseLease. pose proof (next_later r) as H. destruct (next r) as [out r1].
  etrans; [done|]. apply emit_later.
Qed.

Lemma pruneDeadWorkers_later ws r : later r (pruneDeadWorkers ws r).2.
Proof.
  unfold pruneDeadWorkers. cbn. generalize (map fst (List.filter (fun gw => proc_is (fun w => terminal (w_state w)) r gw.2) (range ws))).
  intros dead. revert r. induction dead as [|d dead IH]; intros r; cbn; [done|].
  etrans; [apply releaseLease_later|apply IH].
Qed.

Lemma stopWorker_later gid ws r : later r (stopWorker gid ws r).2 /\ (stopWorker gid ws r).1 = delete gid ws.
Proof.
  unfold stopWorker. destruct (ws !! gid) as [id|] eqn:E; [|split; [done|by rewrite delete_id]].
  pose proof (next_later (emit (EStop name id) r)) as H. destruct (next _) as [out r1]; cbn in H.
  destruct (proc_is _ _ _); cbn; split; try done.
  - etrans; [apply emit_later|]. etrans; [exact H|apply releaseLease_later].
  - etrans; [apply emit_later|]. exact H.
Qed.

Lemma stop_all_later gids ws r :
  later r (stop_all gids ws r).2 /\ (stop_all gids ws r).1 = foldl (fun ws gid => delete gid ws) ws gids.
Proof.
  revert ws r. induction gids as [|gid gids IH]; intros ws r; cbn; [done|].
  destruct (stopWorker_later gid ws r) as [H1 H2]. destruct (stopWorker gid ws r) as [ws' r']; cbn in *. subst ws'.
  destruct (IH (delete gid ws) r') as [H3 H4]. split; [by etrans|done].
Qed.

(** The weight of a set of workers, in a run. *)
Definition total_weight (ws : workers) (r : Run) : Z := map_fold (fun _ id acc => worker_weight r id + acc) 0 ws.

Lemma groupWeight_pos g : 1 <= groupWeight g.
Proof. unfold groupWeight. destruct (Z.leb_spec (mg_Weight g) 0); lia. Qed.

Lemma worker_weight_nonneg r id : 0 <= worker_weight r id.
Proof. unfold worker_weight. destruct (sy_procs (r_sys r) !! id) as [w|]; [pose proof (groupWeight_pos (w_group w)); lia|lia]. Qed.

Lemma worker_weight_later r r' id : later r r' -> is_Some (group_of (r_sys r) id) -> worker_weight r' id = worker_weight r id.
Proof.
  intros Hl [g Hg]. pose proof (Hl _ _ Hg) as Hg'. unfold worker_weight, group_of in *.
  destruct (sy_procs (r_sys r) !! id), (sy_procs (r_sys r') !! id); cbn in *; congruence.
Qed.

Lemma total_weight_insert ws r g id :
  ws !! g = None -> total_weight (<[g := id]> ws) r = worker_weight r id + total_weight ws r.
Proof. intros H. unfold total_weight. rewrite map_fold_insert_L; [done| |done]. intros. lia. Qed.

Lemma total_weight_nonneg ws r : 0 <= total_weight ws r.
Proof.
  induction ws as [|g id ws Hg IH] using map_ind; [done|]. rewrite total_weight_insert by done.
  pose proof (worker_weight_nonneg r id). lia.
Qed.

Lemma total_weight_delete ws r g : total_weight (delete g ws) r <= total_weight ws r.
Proof.
  destruct (ws !! g) as [id|] eqn:E; [|by rewrite delete_id].
  rewrite <- (insert_delete_id ws g id E) at 2. rewrite total_weight_insert by (by rewrite lookup_delete_eq).
  pose proof (worker_weight_nonneg r id). lia.
Qed.

Lemma total_weight_later ws r r' :
  later r r' -> ids_valid ws r -> total_weight ws r' = total_weight ws r.
Proof.
  intros Hl. induction ws as [|g id ws Hg IH] using map_ind; intros Hv; [done|].
  rewrite !total_weight_insert by done. rewrite IH.
  - rewrite (worker_weight_later r r') ; [done|done|]. apply (Hv g). by rewrite lookup_insert_eq.
  - intros g' id' H. apply (Hv g'). rewrite lookup_insert_ne; [done|]. intros ->. congruence.
Qed.

(** The weight the node computes is the weight, when it fits in an int. *)
Lemma capacity_weight ws r : total_weight ws r <= int64_max -> rc_CurrentWeight (capacity ws r) = total_weight ws r.
Proof.
  intros Hb. unfold capacity. cbn. set (f := fun (gw : string * nat) acc => worker_weight r gw.2 + acc).
  assert (foldr f 0 (range ws) = total_weight ws r) as Heq.
  { unfold total_weight. rewrite map_fold_foldr.
    rewrite (foldr_permutation_proper eq f 0 ltac:(unfold f; lia) _ _ (range_perm ws)).
    clear. induction (map_to_list ws) as [|[g id] l IH]; cbn; [done|]. by rewrite <- IH. }
  assert (forall l acc, 0 <= acc -> acc + foldr f 0 l <= int64_max ->
    foldl (fun acc gw => wrap64 (acc + worker_weight r gw.2)) acc l = acc + foldr f 0 l) as Hsum.
  { intros l. induction l as [|gw l IH]; intros acc Ha Hle; cbn; [lia|]. cbn in Hle. unfold f at 1 in Hle.
    assert (0 <= foldr f 0 l) as H0.
    { clear. induction l as [|gw l IH]; cbn; [lia|]. pose proof (worker_weight_nonneg r gw.2). unfold f at 1. lia. }
    pose proof (worker_weight_nonneg r gw.2). unfold int64_max in *.
    rewrite wrap64_small by (unfold int64, int64_min, int64_max; lia). rewrite IH by lia. unfold f at 2. lia. }
  rewrite Hsum by (rewrite ?Heq; lia). by rewrite Heq.
Qed.

(** The weight column of the schema is a 32-bit integer. *)
Definition weights_fit (db : MetaDB) : Prop := map_Forall (fun _ g => mg_Weight g <= 2 ^ 31 - 1) (md_groups db).

Definition keeps_weights (e : event) : Prop :=
  match e with
  | EMeta f => forall now db, weights_fit db -> weights_fit (f now db)
  | _ => True
  end.

Definition weights_inv (r : Run) : Prop :=
  weights_fit (sy_db (r_sys r)) /\ Forall (fun a => Forall keeps_weights (an_env a)) (r_oracle r).

Lemma reportAll_groups inputs outs now db w status e :
  md_groups (reportAll outs now db w inputs status e) = md_groups db.
Proof.
  revert outs db. induction inputs as [|i inputs IH]; intros outs db; cbn [reportAll]; [done|].
  rewrite IH. unfold ReportStreamRuntimeStatus. by destruct (md_inputs db !! _), (default Failed (head outs)).
Qed.

Lemma on_proc_db_groups f id s :
  (forall w, md_groups (f (sy_db s) w).1 = md_groups (sy_db s)) ->
  md_groups (sy_db (on_proc_db f id s)) = md_groups (sy_db s).
Proof.
  intros H. unfold on_proc_db. destruct (sy_procs s !! id) as [w|]; [|done].
  specialize (H w). by destruct (f (sy_db s) w).
Qed.

Lemma step_groups s e :
  match e with EMeta _ => True | _ => md_groups (sy_db (step s e)) = md_groups (sy_db s) end.
Proof.
  destruct e; cbn [Cluster.step]; try done.
  - unfold TryAcquireGroupLease. destruct (ttl <=? 0); [done|]. cbv zeta.
    destruct (md_leases (sy_db s) !! groupID) as [l|]; [destruct (may_acquire _ _ l)|destruct (md_groups (sy_db s) !! groupID)];
      by destruct out.
  - cbn. unfold ReleaseGroupLease. destruct (md_leases (sy_db s) !! groupID) as [l|]; [case_bool_decide|]; by destruct out.
  - apply on_proc_db_groups. intros w. unfold begin. destruct (w_begun w); cbn; [done|]. by rewrite !reportAll_groups.
  - apply on_proc_db_groups. intros w. unfold renew. destruct (in_lease_loop w); [|done]. unfold RenewGroupLease.
    destruct (w_ttl w <=? 0); [done|].
    destruct (md_leases (sy_db s) !! _) as [l|]; [destruct (_ && _)|]; by destruct out.
  - apply on_proc_db_groups. intros w. unfold report_final. destruct (w_exit w) as [[[]]|]; [|done].
    destruct (_ && _); cbn; [|done]. by rewrite reportAll_groups.
Qed.

Lemma step_weights s e : keeps_weights e -> weights_fit (sy_db s) -> weights_fit (sy_db (step s e)).
Proof.
  intros Hk Hw. pose proof (step_groups s e) as H. unfold weights_fit in *.
  destruct e; try by rewrite H. by apply Hk.
Qed.

Lemma next_weights r : weights_inv r -> weights_inv (next r).2.
Proof.
  intros [Hw Ho]. unfold next. destruct (r_oracle r) as [|a rest] eqn:E; [split; cbn; [done|by rewrite E]|].
  apply Forall_cons in Ho as [Ha Ho]. split; [|done]. cbn. generalize (r_sys r), Hw. clear E.
  induction Ha as [|e es He _ IH]; intros s Hs; cbn; [done|]. by apply IH, step_weights.
Qed.

Lemma emit_weights e r : keeps_weights e -> weights_inv r -> weights_inv (emit e r).
Proof. intros Hk [Hw Ho]. split; [by apply step_weights|done]. Qed.

Lemma pruneDeadWorkers_weights ws r : weights_inv r -> weights_inv (pruneDeadWorkers ws r).2.
Proof.
  unfold pruneDeadWorkers. cbn. generalize (map fst (List.filter (fun gw => proc_is (fun w => terminal (w_state w)) r gw.2) (range ws))).
  intros dead. revert r. induction dead as [|d dead IH]; intros r Hr; cbn; [done|].
  apply IH. unfold releaseLease. apply next_weights in Hr. destruct (next r) as [out r1]. by apply emit_weights.
Qed.

Lemma tryStartWorker_later g ws r :
  let '(ws', r', ok) := tryStartWorker g ws r in
  later r r' /\
  if ok then exists id, ws' = <[mg_GroupID g := id]> ws /\ group_of (r_sys r') id = Some g else ws' = ws.
Proof.
  unfold tryStartWorker. pose proof (next_later r) as H1. destruct (next r) as [out r1]; cbn in H1. cbv zeta.
  set (r2 := emit (EAcquire _ _ _ _) r1). assert (later r r2) as H2 by (etrans; [done|apply emit_later]).
  destruct (snd (TryAcquireGroupLease _ _ _ _ _ _ _)) as [[]|]; [|by split|by split].
  pose proof (next_later r2) as H3. destruct (next r2) as [out2 r3]; cbn in H3.
  destruct (ListGroupInputs _ _ _) as [inputs|]; split.
  - etrans; [done|]. etrans; [done|apply emit_later].
  - eexists. split; [done|]. unfold group_of. cbn. by rewrite lookup_app_r, Nat.sub_diag by done.
  - etrans; [done|]. etrans; [done|apply releaseLease_later].
  - done.
Qed.

(** A node within its limits. *)
Definition within_capacity (ws : workers) (r : Run) : Prop :=
  ids_valid ws r /\ Z.of_nat (size ws) <= nc_MaxGroups cfg /\ total_weight ws r <= nc_MaxWeight cfg.

Lemma ids_valid_later ws r r' : later r r' -> ids_valid ws r -> ids_valid ws r'.
Proof. intros Hl Hv g id H. destruct (Hv g id H) as [m Hm]. exists m. by apply Hl. Qed.

Lemma size_insert_le (ws : workers) g id : Z.of_nat (size (<[g := id]> ws)) <= Z.of_nat (size ws) + 1.
Proof.
  destruct (ws !! g) eqn:E; [rewrite map_size_insert_Some by (by rewrite E); lia|rewrite map_size_insert_None by done; lia].
Qed.

Lemma total_weight_insert_le ws r g id :
  total_weight (<[g := id]> ws) r <= worker_weight r id + total_weight ws r.
Proof.
  rewrite <- insert_delete_eq, total_weight_insert by (by rewrite lookup_delete_eq).
  pose proof (total_weight_delete ws r g). lia.
Qed.

Lemma start_loop_capacity byID slots toStart started weight ws r :
  0 < nc_MaxWeight cfg <= 2 ^ 62 -> map_Forall (fun _ g => mg_Weight g <= 2 ^ 31 - 1) byID ->
  ids_valid ws r -> started <= Z.max 0 slots -> Z.of_nat (size ws) + (Z.max 0 slots - started) <= nc_MaxGroups cfg ->
  total_weight ws r <= weight <= nc_MaxWeight cfg ->
  let wr := start_loop byID slots toStart started weight ws r in within_capacity wr.1 wr.2.
Proof.
  cbv zeta. intros Hmax Hby. revert started weight ws r.
  induction toStart as [|gid rest IH]; intros started weight ws r Hv Hst Hsize Hw; cbn [start_loop].
  { split_and!; [done|cbn; lia|cbn; lia]. }
  destruct (Z.leb_spec slots started); [split_and!; [done|cbn; lia|cbn; lia]|].
  set (g := default _ (byID !! gid)). cbv zeta.
  assert (mg_Weight g <= 2 ^ 31 - 1) as Hg.
  { unfold g. destruct (byID !! gid) as [g'|] eqn:E; cbn; [by apply (Hby gid)|lia]. }
  pose proof (groupWeight_pos g) as Hpos.
  assert (groupWeight g <= 2 ^ 31 - 1) as Hgw by (unfold groupWeight; destruct (Z.leb_spec (mg_Weight g) 0); lia).
  pose proof (total_weight_nonneg ws r).
  rewrite (wrap64_small (weight + groupWeight g)) by (unfold int64, int64_min, int64_max; lia).
  rewrite (proj2 (Z.ltb_lt 0 (nc_MaxWeight cfg))) by lia. cbn [andb].
  destruct (Z.ltb_spec (nc_MaxWeight cfg) (weight + groupWeight g)); [by apply IH|].
  pose proof (tryStartWorker_later g ws r) as Hts. destruct (tryStartWorker g ws r) as [[ws' r'] ok].
  destruct Hts as [Hl Hok]. pose proof (total_weight_later ws r r' Hl Hv) as Htw.
  destruct ok; [destruct Hok as (id & -> & Hid)|subst ws'].
  - assert (worker_weight r' id = groupWeight g) as Hww.
    { unfold worker_weight, group_of in *. destruct (sy_procs (r_sys r') !! id); cbn in *; congruence. }
    pose proof (size_insert_le ws (mg_GroupID g) id). pose proof (total_weight_insert_le ws r' (mg_GroupID g) id).
    apply IH; [|lia..]. intros g' id' [[<- <-]|[_ H']]%lookup_insert_Some; [by eexists|]. by eapply ids_valid_later.
  - apply IH; [by eapply ids_valid_later|lia..].
Qed.

Lemma size_delete_all (gids : list string) (ws : workers) :
  NoDup gids -> Forall (fun gid => is_Some (ws !! gid)) gids ->
  Z.of_nat (size (foldl (fun ws gid => delete gid ws) ws gids)) = Z.of_nat (size ws) - Z.of_nat (length gids).
Proof.
  intros Hnd. revert ws. induction Hnd as [|gid gids Hnot _ IH]; intros ws Hall; cbn; [lia|].
  apply Forall_cons in Hall as [[id Hid] Hall]. rewrite IH.
  - rewrite map_size_delete_Some by (by rewrite Hid). assert (size ws <> 0%nat); [|lia].
    rewrite map_size_ne_0_lookup. by exists gid, id.
  - rewrite Forall_forall in Hall. apply Forall_forall. intros g Hg. rewrite lookup_delete_ne; [by apply Hall|]. by intros ->.
Qed.

Lemma delete_all_weight (gids : list string) (ws : workers) r :
  total_weight (foldl (fun ws gid => delete gid ws) ws gids) r <= total_weight ws r.
Proof.
  revert ws. induction gids as [|gid gids IH]; intros ws; cbn; [lia|].
  pose proof (IH (delete gid ws)). pose proof (total_weight_delete ws r gid). lia.
Qed.

Lemma elem_of_select_by {A} (key : A -> string) f (m : gmap string A) x :
  x ∈ select_by key f m -> exists k, m !! k = Some x.
Proof.
  unfold select_by. rewrite merge_sort_Permutation. intros H.
  apply list_elem_of_In, filter_In in H as [H _]. apply in_map_iff in H as ([k y] & <- & H).
  apply list_elem_of_In, elem_of_map_to_list in H. by exists k.
Qed.

Lemma groupByID_weights groups :
  Forall (fun g => mg_Weight g <= 2 ^ 31 - 1) groups ->
  map_Forall (fun _ g => mg_Weight g <= 2 ^ 31 - 1)
    (foldl (fun m g => <[mg_GroupID g := g]> m) (∅ : gmap string MarketGroup) groups).
Proof.
  intros H. assert (forall m : gmap string MarketGroup, map_Forall (fun _ g => mg_Weight g <= 2 ^ 31 - 1) m ->
    map_Forall (fun _ g => mg_Weight g <= 2 ^ 31 - 1) (foldl (fun m g => <[mg_GroupID g := g]> m) m groups)) as Hm.
  { induction H as [|g groups Hg _ IH]; intros m Hm; cbn; [done|]. apply IH. by apply map_Forall_insert_2. }
  apply Hm, map_Forall_empty.
Qed.

Lemma NoDup_range ws : NoDup (map fst (range ws)).
Proof. rewrite range_perm. apply NoDup_fst_map_to_list. Qed.

Lemma prune_capacity ws r :
  within_capacity ws r -> within_capacity (pruneDeadWorkers ws r).1 r.
Proof.
  intros (Hv & Hs & Hw). unfold pruneDeadWorkers. cbn.
  generalize (map fst (List.filter (fun gw => proc_is (fun w => terminal (w_state w)) r gw.2) (range ws))).
  intros dead. induction dead as [|d dead (Hv' & Hs' & Hw')]; cbn; [by split_and!|]. split_and!.
  - intros g id [_ H]%lookup_delete_Some. by apply (Hv' g).
  - rewrite map_size_delete. destruct (foldr delete ws dead !! d); cbn; lia.
  - pose proof (total_weight_delete (foldr delete ws dead) r d). lia.
Qed.

(** (C29) A pass of the reconcile loop keeps the node within its limits: if the
    node owns at most max_groups groups of total weight at most max_weight, so it
    does after the pass, whatever the other nodes and the store do meanwhile.
    The arithmetic is that of machine integers; the schema's 32-bit weights are
    what keeps it from wrapping around. *)
Theorem reconcile_respects_capacity ws r :
  0 < nc_MaxGroups cfg -> 0 < nc_MaxWeight cfg <= 2 ^ 62 -> weights_inv r -> within_capacity ws r ->
  within_capacity (fst (reconcileOnce ws r)) (snd (reconcileOnce ws r)).
Proof.
  intros Hmg Hmw Hwi (Hv & Hsize & Hweight). unfold reconcileOnce.
  pose proof (pruneDeadWorkers_later ws r) as Hl1. apply (pruneDeadWorkers_weights ws) in Hwi.
  assert (ids_valid (pruneDeadWorkers ws r).1 r /\ Z.of_nat (size (pruneDeadWorkers ws r).1) <= nc_MaxGroups cfg /\
    total_weight (pruneDeadWorkers ws r).1 r <= nc_MaxWeight cfg) as (Hv1 & Hsize1 & Hweight1).
  { by apply prune_capacity. }
  destruct (pruneDeadWorkers ws r) as [ws1 r1]; cbn [fst snd] in *.
  pose proof (next_later r1) as Hl2. apply next_weights in Hwi. destruct (next r1) as [out r2]; cbn [fst snd] in *.
  assert (later r r2) as Hl by (by etrans). clear Hl1 Hl2.
  apply (ids_valid_later _ _ _ Hl) in Hv1 as Hv2. rewrite <- (total_weight_later _ _ _ Hl Hv1) in Hweight1.
  destruct (ListRunnableGroups _ _) as [groups|] eqn:Elist; [|exact (conj Hv2 (conj Hsize1 Hweight1))]. cbv zeta.
  set (plan := planReconcile (map mg_GroupID groups) (map fst (range ws1)) (nc_MaxGroups cfg)).
  pose proof (planReconcile_slots (map mg_GroupID groups) (map fst (range ws1)) (nc_MaxGroups cfg) (NoDup_range ws1)) as (Hs1 & Hs2 & _).
  pose proof (NoDup_toStop (map mg_GroupID groups) _ (nc_MaxGroups cfg) (NoDup_range ws1)) as Hnd.
  pose proof (elem_of_toStop (map mg_GroupID groups) (map fst (range ws1)) (nc_MaxGroups cfg)) as Hin.
  fold plan in Hs1, Hs2, Hnd, Hin. clearbody plan.
  destruct (stop_all_later (rp_toStop plan) ws1 r2) as [Hl3 Hws]. destruct (stop_all _ _ _) as [ws2 r3]; cbn [fst snd] in *.
  assert (length (map fst (range ws1)) = size ws1) as Hlen
    by (rewrite length_map, range_perm; by rewrite length_map_to_list).
  assert (Z.of_nat (size ws2) = Z.of_nat (size ws1) - Z.of_nat (length (rp_toStop plan))) as Hsz.
  { rewrite Hws. apply size_delete_all.
    - done.
    - apply Forall_forall. intros g Hg. apply Hin in Hg as [Hg _]. by apply elem_of_range. }
  assert (ids_valid ws2 r2) as Hv3.
  { intros g id Hid. apply (Hv2 g). rewrite Hws, foldl_delete_lookup in Hid. by case_bool_decide. }
  assert (total_weight ws2 r3 <= nc_MaxWeight cfg) as Hw2.
  { rewrite (total_weight_later _ _ _ Hl3 Hv3), Hws. pose proof (delete_all_weight (rp_toStop plan) ws1 r2). lia. }
  rewrite (capacity_weight ws2 r3) by (unfold int64_max; lia).
  apply start_loop_capacity; [done| |by eapply ids_valid_later|lia|lia|lia].
  apply groupByID_weights, Forall_forall. intros g Hg. unfold ListRunnableGroups, query in Elist.
  destruct out; try discriminate. injection Elist as <-. apply elem_of_select_by in Hg as [k Hk].
  by apply (proj1 Hwi k).
Qed.

End node.

(** ** Sample runs *)

#[export] Instance env_ok_dec expiry err_text tr : forall s, Decision (env_ok expiry err_text s tr).
Proof. induction tr as [|[own e] tr IH]; intros s; cbn; [apply _|]. destruct own; apply _. Defined.

#[export] Instance foreign_dec cfg e : Decision (foreign cfg e).
Proof. destruct e; cbn; apply _. Defined.

Lemma emptySys_node_inv cfg db now : node_inv cfg ∅ ∅ (emptySys db now).
Proof.
  split; cbn; [intros g id H; by rewrite lookup_empty in H|by intros []|set_solver|constructor].
Qed.

Definition sample_cfg : NodeConfig := withDefaults (mkNodeConfig "a" "" "" 0 0 30 10 0 0 0).

Definition sample_sys : Sys :=
  emptySys (set_groups {["g" := sample_group "g" 3]} emptyMeta) 0.

Definition idle_answer : answer := mkAnswer [] Done.

(** Registration, one pass that starts the group, a shutdown in which the worker stops in time. *)
Definition sample_run : Run :=
  mkRun sample_sys
    [idle_answer; idle_answer; idle_answer; idle_answer;
     mkAnswer [EBegin 0 []; ETime 5; ERenew 0 Done] Done;
     mkAnswer [ELeave 0; EFinish 0; EReport 0 []] Done; idle_answer; idle_answer] [] true.

Lemma node_run_lawful_witness :
  match Node_Run Z.add (fun _ => "") sample_cfg map_to_list [] sample_run with
  | Some (ws, r') => ws = ∅ /\ length (sy_procs (r_sys r')) = 1%nat /\
      lawful Z.add (fun _ => "") sample_sys (map snd (r_trace r'))
  | None => False
  end.
Proof.
  assert (match Node_Run Z.add (fun _ => "") sample_cfg map_to_list [] sample_run with
          | Some (_, r') => r_clean r' && Nat.eqb (length (sy_procs (r_sys r'))) 1 &&
              bool_decide (env_ok Z.add (fun _ => "") sample_sys (r_trace r'))
          | None => false
          end = true) as Hb by (vm_compute; reflexivity).
  assert (Forall (fun a => Forall (foreign sample_cfg) (an_env a)) (r_oracle sample_run)) as Hf
    by (apply (bool_decide_eq_true_1 _); vm_compute; reflexivity).
  destruct (Node_Run Z.add (fun _ => "") sample_cfg map_to_list [] sample_run) as [[ws r']|] eqn:E; [|discriminate Hb].
  apply andb_true_iff in Hb as [Hb He]. apply andb_true_iff in Hb as [Hc Hlen].
  destruct (node_run_lawful Z.add (fun _ => "") sample_cfg map_to_list (fun ws => Permutation_refl _)
              [] sample_run ws r' eq_refl eq_refl (emptySys_node_inv _ _ _) Hf E Hc) as (_ & Hl & Hws & _).
  split; [exact Hws|]. split; [by apply Nat.eqb_eq|]. apply Hl. exact (bool_decide_eq_true_1 _ He).
Defined.

Lemma reconcile_respects_capacity_witness :
  let r := mkRun sample_sys [idle_answer; idle_answer; idle_answer] [] true in
  let wr := reconcileOnce Z.add (fun _ => "") sample_cfg map_to_list ∅ r in
  size (fst wr) = 1%nat /\ within_capacity sample_cfg (fst wr) (snd wr).
Proof.
  intros r wr. split; [vm_compute; reflexivity|].
  apply (reconcile_respects_capacity Z.add (fun _ => "") sample_cfg map_to_list (fun ws => Permutation_refl _)).
  - vm_compute. reflexivity.
  - split; [vm_compute; reflexivity|vm_compute; discriminate].
  - split; [|repeat constructor]. apply (bool_decide_eq_true_1 _). vm_compute. reflexivity.
  - split; [|split; [vm_compute; discriminate|vm_compute; discriminate]].
    intros g id H. by rewrite lookup_empty in H.
Defined.

(** A wait for a worker that times out leaves the lease in the table, but under
    the node's own name: the group, runnable again, is leased to the same node
    at once, and two of its goroutines process it. *)
Lemma stop_timeout_doubles_worker :
  let pause now db := fst (UpdateGroupDesiredStatus Done now db "g" "paused") in
  let resume now db := fst (UpdateGroupDesiredStatus Done now db "g" DesiredStatusRunning) in
  let r := mkRun sample_sys
    [idle_answer; idle_answer; idle_answer;
     mkAnswer [EBegin 0 []; EMeta pause] Done; idle_answer;
     mkAnswer [EMeta resume] Done; idle_answer; idle_answer] [] true in
  let wr := loops Z.add (fun _ => "") sample_cfg map_to_list [TReconcile; TReconcile; TReconcile] ∅ r in
  map processing (sy_procs (r_sys (snd wr))) = [true; true] /\
  map w_key (sy_procs (r_sys (snd wr))) = [("a", "g"); ("a", "g")] /\ fst wr = {["g" := 1%nat]}.
Proof. vm_compute. auto. Qed.
