(* ===== verification/Kafka.v ===== *)
(** * Kafka: messages and the consumer

    internal/kafka/consumer.go.  The broker client (kafka-go) is an argument:
    [Fetch] and [Commit] translate between its records and the messages of the
    runtime, whose answers InputWorker and Snapshot take from the environment;
    [Close] only passes the call on. *)

From S2P Require Import Prelude GoStd.

Open Scope Z_scope.

Record Message := mkMessage {
  ms_Topic : string;
  ms_Partition : Z;
  ms_Offset : Z;
  ms_Key : string;
  ms_Value : string;
  ms_Time : time.Time;
  ms_HighWatermark : Z
}.

Record Config := mkConfig {
  cf_Brokers : list string;
  cf_Topic : string;
  cf_GroupID : string;
  cf_Partition : Z
}.

Inductive consumer_error := ErrNoBroker | ErrEmptyBroker | ErrNoTopic | ErrNoGroup.

(** The loop over the brokers: each is trimmed, none may be empty. *)
Definition trim_brokers (brokers : list string) : result consumer_error (list string) :=
  result_mapM (fun b => let t := strings.TrimSpace b in
                        if bool_decide (t = "") then Err ErrEmptyBroker else Ok t) brokers.

(** What the code reads and sets of kafka-go. *)
Module kafkago.

Record ReaderMessage := mkMessage {
  Topic : string;
  Partition : Z;
  Offset : Z;
  HighWaterMark : Z;
  Key : string;
  Value : string;
  Time : time.Time
}.

Inductive StartOffset := FirstOffset | LastOffset.

Record ReaderConfig := mkReaderConfig {
  Brokers : list string;
  ReaderTopic : string;
  GroupID : string;
  MinBytes : Z;
  MaxBytes : Z;
  MaxWait : time.Duration;
  CommitInterval : time.Duration;
  ReaderStart : StartOffset
}.

End kafkago.

(** The reader made for a topic and a group: it starts at the first record when
    the group has no offset, and commits only when told to. *)
Definition reader_config (brokers : list string) (topic group : string) : kafkago.ReaderConfig :=
  kafkago.mkReaderConfig brokers topic group 1 (Z.shiftl 10 20) time.Second 0 kafkago.FirstOffset.

(** [NewConsumer]: its checks, and the configuration handed to the reader, which
    reads the whole topic as a member of the group. *)
Definition NewConsumer (cfg : Config) : result consumer_error kafkago.ReaderConfig :=
  match cf_Brokers cfg with
  | [] => Err ErrNoBroker
  | _ =>
      brokers ← trim_brokers (cf_Brokers cfg);
      if bool_decide (strings.TrimSpace (cf_Topic cfg) = "") then Err ErrNoTopic
      else if bool_decide (strings.TrimSpace (cf_GroupID cfg) = "") then Err ErrNoGroup
      else Ok (reader_config brokers (cf_Topic cfg) (cf_GroupID cfg))
  end.

(** [fetched] is what FetchMessage returns. *)
Definition Fetch {E} (fetched : result E kafkago.ReaderMessage) : result E Message :=
  match fetched with
  | Err e => Err e
  | Ok msg =>
      Ok (mkMessage (kafkago.Topic msg) (kafkago.Partition msg) (kafkago.Offset msg) (kafkago.Key msg) (kafkago.Value msg)
            (kafkago.Time msg) (kafkago.HighWaterMark msg))
  end.

(** [CommitMessages] is the reader's; the high watermark is not sent back. *)
Definition Commit {E} (CommitMessages : kafkago.ReaderMessage -> result E ()) (msg : Message) : result E () :=
  CommitMessages
    (kafkago.mkMessage (ms_Topic msg) (ms_Partition msg) (ms_Offset msg) 0 (ms_Key msg) (ms_Value msg) (ms_Time msg)).

(** What is committed for a fetched record is that record, but for the high
    watermark: a commit advances the group past exactly what was fetched. *)
Lemma Commit_Fetch {E} (r : result E kafkago.ReaderMessage) CommitMessages m :
  Fetch r = Ok m -> exists k, r = Ok k /\ Commit (E := E) CommitMessages m = CommitMessages (
    kafkago.mkMessage (kafkago.Topic k) (kafkago.Partition k) (kafkago.Offset k) 0 (kafkago.Key k) (kafkago.Value k) (kafkago.Time k)).
Proof. destruct r as [k|]; [|done]. intros [= <-]. by exists k. Qed.

(** A reader, once made, has only named brokers and never commits by itself. *)
Lemma NewConsumer_Ok cfg rc :
  NewConsumer cfg = Ok rc ->
  kafkago.Brokers rc = map strings.TrimSpace (cf_Brokers cfg) /\ cf_Brokers cfg <> [] /\ ("" ∉ kafkago.Brokers rc) /\
  kafkago.CommitInterval rc = 0 /\ kafkago.ReaderTopic rc = cf_Topic cfg /\ kafkago.GroupID rc = cf_GroupID cfg.
Proof.
  unfold NewConsumer. destruct (cf_Brokers cfg) as [|b bs] eqn:EB; [done|]. rewrite <- EB.
  assert (forall l l', trim_brokers l = Ok l' -> l' = map strings.TrimSpace l /\ "" ∉ l') as HT.
  { unfold trim_brokers. induction l as [|x l IH]; intros l'; [by intros [= <-]; split; [|apply not_elem_of_nil]|]. cbn -[strings.TrimSpace].
    case_bool_decide as Hx; cbn -[strings.TrimSpace]; [done|]. destruct (result_mapM _ l) as [k|] eqn:Ek; [|done].
    intros [= <-]. destruct (IH k eq_refl) as [-> Hn]. split; [done|]. by apply not_elem_of_cons. }
  destruct (trim_brokers _) as [l|] eqn:Et; cbn [mbind result_bind]; [|done]. apply HT in Et as [-> Hn].
  case_bool_decide; [done|]. case_bool_decide; [done|]. intros [= <-]. cbn. split_and!; try done. by rewrite EB.
Qed.
