(* ===== verification/Decode.v ===== *)
(** * Decode: normalized messages to fact rows

    internal/runtime/decode.go, kline_decode.go, orderbook_decode.go and
    orderbook_snapshot_decode.go.  A decoded JSON payload is a record of this
    file; the four decoders of the payload bytes are the class [Decoders], which
    the worker takes as an argument, so what is proved here holds for any JSON
    layer; the one of the program is in Payload.v.  Validation and mapping are
    written out. *)

From S2P Require Import Prelude GoStd Model Numeric Kafka.

Open Scope Z_scope.

(** ** Payloads

    [flexString] is a string, [flexInt64] its value (0 when absent), [flexTime]
    the instant when one was set; a pointer field is an option around them. *)

Definition flexString := string.
Definition flexInt64 := Z.
Definition flexTime := option time.Time.

Record tradeMessage := mkTradeMessage {
  tm_EventTime : flexTime;
  tm_ExchangeTime : option flexTime;
  tm_LocalReceiveTime : option flexTime;
  tm_TradeID : flexString;
  tm_RawTradeID : flexString;
  tm_Price : flexString;
  tm_Quantity : flexString;
  tm_Side : string;
  tm_IsAggregated : bool
}.

Record klineMessage := mkKlineMessage {
  km_Source : string;
  km_Interval : string;
  km_OpenTime : flexTime;
  km_CloseTime : flexTime;
  km_Open : flexString;
  km_High : flexString;
  km_Low : flexString;
  km_Close : flexString;
  km_Volume : flexString;
  km_QuoteVolume : flexString;
  km_TradeCount : flexInt64;
  km_IsClosed : bool;
  km_Revision : flexInt64
}.

Record orderBookDeltaMessage := mkOrderBookDeltaMessage {
  dm_EventTime : flexTime;
  dm_ExchangeTime : option flexTime;
  dm_LocalReceiveTime : option flexTime;
  dm_RawEventID : flexString;
  dm_FirstUpdateID : option flexInt64;
  dm_LastUpdateID : option flexInt64;
  dm_PrevUpdateID : option flexInt64;
  dm_Sequence : option flexInt64;
  dm_Bids : list PriceLevel;
  dm_Asks : list PriceLevel
}.

Record orderBookSnapshotMessage := mkOrderBookSnapshotMessage {
  sm_EventTime : flexTime;
  sm_ExchangeTime : option flexTime;
  sm_LocalReceiveTime : option flexTime;
  sm_Sequence : option flexInt64;
  sm_Bids : list PriceLevel;
  sm_Asks : list PriceLevel
}.

Inductive decode_error :=
| ErrJSON (reason : string)
| ErrMissing (field : string)
| ErrInvalid (field value : string)
| ErrInputInterval (e : streamkey_error)
| ErrStreamKeyMismatch
| ErrIntervalMismatch
| ErrSource
| ErrCloseNotAfterOpen
| ErrNegative (field : string)
| ErrHighBelowLow
| ErrOutsideRange (field : string)
| ErrFirstAfterLast
| ErrBothEmpty
| ErrUnsupportedKind (kind : string)
| ErrNilCompare.

(** The JSON layer: strict decoding of one value of each kind. *)
Class Decoders := {
  decodeTrade : string -> result decode_error tradeMessage;
  decodeKline : string -> result decode_error klineMessage;
  decodeOrderBookDelta : string -> result decode_error orderBookDeltaMessage;
  decodeOrderBookSnapshot : string -> result decode_error orderBookSnapshotMessage
}.

(** ** Helpers *)

(** A pointer to a [flexTime], copied when it is set. *)
Definition optionalTime (t : option flexTime) : option time.Time :=
  match t with
  | Some (Some v) => Some v
  | _ => None
  end.

Definition int64Ptr (value : option flexInt64) : option Z :=
  match value with
  | None => None
  | Some v => Some v
  end.

Definition eventTime (t : flexTime) : time.Time :=
  match t with
  | Some v => v
  | None => time.zero
  end.

Definition is_set (t : flexTime) : bool :=
  match t with
  | Some _ => true
  | None => false
  end.

Definition normalizeSide (s : string) : result decode_error string :=
  let t := strings.ToLower (strings.TrimSpace s) in
  if bool_decide (t ∈ ["buy"; "b"; "bid"]) then Ok TradeSideBuy
  else if bool_decide (t ∈ ["sell"; "s"; "ask"]) then Ok TradeSideSell
  else Err (ErrInvalid "side" s).

(** [if cond { return err }] *)
Definition guard (bad : bool) (e : decode_error) : result decode_error () :=
  if bad then Err e else Ok ().

Definition is_blank (s : string) : bool := bool_decide (strings.TrimSpace s = "").

(** ** Trades *)

Definition tradeMessage_validate (tm : tradeMessage) : result decode_error string :=
  guard (negb (is_set (tm_EventTime tm))) (ErrMissing "event_time");;
  guard (is_blank (tm_Price tm)) (ErrMissing "price");;
  guard (negb (validPositiveNumeric (tm_Price tm))) (ErrInvalid "price" (tm_Price tm));;
  guard (is_blank (tm_Quantity tm)) (ErrMissing "quantity");;
  guard (negb (validPositiveNumeric (tm_Quantity tm))) (ErrInvalid "quantity" (tm_Quantity tm));;
  normalizeSide (tm_Side tm).

Definition toTrade (tm : tradeMessage) (gi : GroupInput) (msg : Message) (side : string) : Trade :=
  {| tr_ID := 0; tr_GroupID := gi_GroupID gi; tr_InputID := inputID gi;
     tr_EventTime := eventTime (tm_EventTime tm);
     tr_ExchangeTime := optionalTime (tm_ExchangeTime tm);
     tr_LocalReceiveTime := optionalTime (tm_LocalReceiveTime tm);
     tr_TradeID := strings.TrimSpace (tm_TradeID tm);
     tr_RawTradeID := strings.TrimSpace (tm_RawTradeID tm);
     tr_Price := strings.TrimSpace (tm_Price tm);
     tr_Quantity := strings.TrimSpace (tm_Quantity tm);
     tr_Side := side; tr_IsAggregated := tm_IsAggregated tm;
     tr_KafkaTopic := ms_Topic msg; tr_KafkaPartition := ms_Partition msg;
     tr_KafkaOffset := ms_Offset msg;
     tr_SchemaVersion := schemaVersionOrDefault (gi_SchemaVersion gi);
     tr_IngestedAt := time.zero |}.

Definition buildTrade `{Decoders} (gi : GroupInput) (msg : Message) : result decode_error Trade :=
  tm ← decodeTrade (ms_Value msg);
  side ← tradeMessage_validate tm;
  Ok (toTrade tm gi msg side).

(** ** Klines *)

(** A comparison of two prices; [ErrNilCompare] is the nil-pointer panic. *)
Definition compared (a b : string) : result decode_error comparison :=
  match compareNumeric a b with
  | Some c => Ok c
  | None => Err ErrNilCompare
  end.

Definition is_lt (c : comparison) : bool := match c with Lt => true | _ => false end.
Definition is_gt (c : comparison) : bool := match c with Gt => true | _ => false end.

(** Loop body over open and close: within low and high. *)
Definition check_range (km : klineMessage) (field value : string) : result decode_error () :=
  c ← compared value (km_Low km);
  if is_lt c then Err (ErrOutsideRange field)
  else d ← compared value (km_High km); guard (is_gt d) (ErrOutsideRange field).

Definition klineMessage_validate (km : klineMessage) (gi : GroupInput) : result decode_error string :=
  match StreamKeyFor StreamKindKline (gi_Interval gi) with
  | Err e => Err (ErrInputInterval e)
  | Ok expectedKey =>
      guard (negb (bool_decide (gi_StreamKind gi = StreamKindKline))
             || negb (bool_decide (gi_StreamKey gi = expectedKey))) ErrStreamKeyMismatch;;
      guard (negb (bool_decide (strings.TrimSpace (km_Interval km) = gi_Interval gi))) ErrIntervalMismatch;;
      let source0 := strings.ToLower (strings.TrimSpace (km_Source km)) in
      let source := if bool_decide (source0 = "") then KlineSourceExchange else source0 in
      guard (negb (bool_decide (source = KlineSourceExchange))) ErrSource;;
      guard (negb (is_set (km_OpenTime km))) (ErrMissing "open_time");;
      guard (negb (is_set (km_CloseTime km))) (ErrMissing "close_time");;
      guard (negb (time.After (eventTime (km_CloseTime km)) (eventTime (km_OpenTime km)))) ErrCloseNotAfterOpen;;
      guard (negb (validPositiveNumeric (km_Open km))) (ErrInvalid "open" (km_Open km));;
      guard (negb (validPositiveNumeric (km_High km))) (ErrInvalid "high" (km_High km));;
      guard (negb (validPositiveNumeric (km_Low km))) (ErrInvalid "low" (km_Low km));;
      guard (negb (validPositiveNumeric (km_Close km))) (ErrInvalid "close" (km_Close km));;
      guard (negb (validNonNegativeNumeric (km_Volume km))) (ErrInvalid "volume" (km_Volume km));;
      guard (negb (is_blank (km_QuoteVolume km)) && negb (validNonNegativeNumeric (km_QuoteVolume km)))
            (ErrInvalid "quote_volume" (km_QuoteVolume km));;
      guard (km_TradeCount km <? 0) (ErrNegative "trade_count");;
      guard (km_Revision km <? 0) (ErrNegative "revision");;
      c ← compared (km_High km) (km_Low km);
      guard (is_lt c) ErrHighBelowLow;;
      check_range km "open" (km_Open km);;
      check_range km "close" (km_Close km);;
      Ok source
  end.

Definition toKline (km : klineMessage) (gi : GroupInput) (msg : Message) (source : string) : Kline :=
  {| kl_GroupID := gi_GroupID gi; kl_InputID := inputID gi; kl_Source := source;
     kl_Interval := gi_Interval gi;
     kl_OpenTime := eventTime (km_OpenTime km); kl_CloseTime := eventTime (km_CloseTime km);
     kl_Open := strings.TrimSpace (km_Open km); kl_High := strings.TrimSpace (km_High km);
     kl_Low := strings.TrimSpace (km_Low km); kl_Close := strings.TrimSpace (km_Close km);
     kl_Volume := strings.TrimSpace (km_Volume km);
     kl_QuoteVolume := strings.TrimSpace (km_QuoteVolume km);
     kl_TradeCount := km_TradeCount km; kl_IsClosed := km_IsClosed km; kl_Revision := km_Revision km;
     kl_KafkaTopic := ms_Topic msg; kl_KafkaPartition := ms_Partition msg;
     kl_KafkaOffset := ms_Offset msg; kl_UpdatedAt := time.zero |}.

Definition buildKline `{Decoders} (gi : GroupInput) (msg : Message) : result decode_error Kline :=
  km ← decodeKline (ms_Value msg);
  source ← klineMessage_validate km gi;
  Ok (toKline km gi msg source).

(** ** Order-book deltas and snapshots *)

Fixpoint validatePriceLevels (side : string) (levels : list PriceLevel) : result decode_error () :=
  match levels with
  | [] => Ok ()
  | l :: levels' =>
      guard (negb (validPositiveNumeric (pl_Price l))) (ErrInvalid side (pl_Price l));;
      guard (negb (validNonNegativeNumeric (pl_Quantity l))) (ErrInvalid side (pl_Quantity l));;
      validatePriceLevels side levels'
  end.

(** Loop body over the four ids. *)
Definition check_id (field : string) (value : option flexInt64) : result decode_error () :=
  match value with
  | Some v => guard (v <? 0) (ErrNegative field)
  | None => Ok ()
  end.

Definition orderBookDeltaMessage_validate (dm : orderBookDeltaMessage) : result decode_error () :=
  guard (negb (is_set (dm_EventTime dm))) (ErrMissing "event_time");;
  check_id "first_update_id" (dm_FirstUpdateID dm);;
  check_id "last_update_id" (dm_LastUpdateID dm);;
  check_id "prev_update_id" (dm_PrevUpdateID dm);;
  check_id "sequence" (dm_Sequence dm);;
  guard (match dm_FirstUpdateID dm, dm_LastUpdateID dm with
         | Some f, Some l => l <? f
         | _, _ => false
         end) ErrFirstAfterLast;;
  guard ((Z.of_nat (length (dm_Bids dm)) =? 0) && (Z.of_nat (length (dm_Asks dm)) =? 0)) ErrBothEmpty;;
  validatePriceLevels "bids" (dm_Bids dm);;
  validatePriceLevels "asks" (dm_Asks dm).

Definition toOrderBookDelta (dm : orderBookDeltaMessage) (gi : GroupInput) (msg : Message)
    : OrderBookDelta :=
  {| od_GroupID := gi_GroupID gi; od_InputID := inputID gi;
     od_EventTime := eventTime (dm_EventTime dm);
     od_ExchangeTime := optionalTime (dm_ExchangeTime dm);
     od_LocalReceiveTime := optionalTime (dm_LocalReceiveTime dm);
     od_RawEventID := strings.TrimSpace (dm_RawEventID dm);
     od_FirstUpdateID := int64Ptr (dm_FirstUpdateID dm); od_LastUpdateID := int64Ptr (dm_LastUpdateID dm);
     od_PrevUpdateID := int64Ptr (dm_PrevUpdateID dm); od_Sequence := int64Ptr (dm_Sequence dm);
     od_Bids := dm_Bids dm; od_Asks := dm_Asks dm; od_RawPayload := "";
     od_KafkaTopic := ms_Topic msg; od_KafkaPartition := ms_Partition msg;
     od_KafkaOffset := ms_Offset msg; od_IngestedAt := time.zero |}.

Definition buildOrderBookDelta `{Decoders} (gi : GroupInput) (msg : Message)
    : result decode_error OrderBookDelta :=
  dm ← decodeOrderBookDelta (ms_Value msg);
  orderBookDeltaMessage_validate dm;;
  Ok (toOrderBookDelta dm gi msg).

Definition orderBookSnapshotMessage_validate (sm : orderBookSnapshotMessage) : result decode_error () :=
  guard (negb (is_set (sm_EventTime sm))) (ErrMissing "event_time");;
  check_id "sequence" (sm_Sequence sm);;
  guard ((Z.of_nat (length (sm_Bids sm)) =? 0) && (Z.of_nat (length (sm_Asks sm)) =? 0)) ErrBothEmpty;;
  validatePriceLevels "bids" (sm_Bids sm);;
  validatePriceLevels "asks" (sm_Asks sm).

Definition toOrderBookSnapshot (sm : orderBookSnapshotMessage) (gi : GroupInput) (msg : Message)
    : OrderBookSnapshot :=
  {| os_SnapshotID := 0; os_GroupID := gi_GroupID gi; os_InputID := inputID gi;
     os_SnapshotTime := eventTime (sm_EventTime sm); os_Sequence := int64Ptr (sm_Sequence sm);
     os_Bids := sm_Bids sm; os_Asks := sm_Asks sm; os_CreatedAt := time.zero |}.

Definition buildOrderBookSnapshot `{Decoders} (gi : GroupInput) (msg : Message)
    : result decode_error OrderBookSnapshot :=
  sm ← decodeOrderBookSnapshot (ms_Value msg);
  orderBookSnapshotMessage_validate sm;;
  Ok (toOrderBookSnapshot sm gi msg).

(** ** What a decoded row satisfies *)

Lemma guard_Ok b e u : guard b e = Ok u -> b = false.
Proof. by destruct b. Qed.

(** Take a chain of guards apart. *)
Ltac decode_inv H :=
  repeat match type of H with
  | mbind _ (guard _ _) = Ok _ => let G := fresh "G" in
      apply bind_Ok in H as (? & G & H); apply guard_Ok in G
  | mbind _ _ = Ok _ => let G := fresh "G" in apply bind_Ok in H as (? & G & H)
  end; bool_to_prop.

Lemma normalizeSide_Ok s side : normalizeSide s = Ok side -> side ∈ [TradeSideBuy; TradeSideSell].
Proof.
  unfold normalizeSide. repeat case_bool_decide; intros [= <-]; [by left|by right; left].
Qed.

Lemma schemaVersionOrDefault_pos v : 1 <= schemaVersionOrDefault v.
Proof. unfold schemaVersionOrDefault. destruct (Z.leb_spec v 0); lia. Qed.

(** A trade that passes decoding carries the coordinates of its Kafka
    record and the identity of its input, a positive price and quantity, a
    canonical side and a schema version of at least 1. *)
Theorem decoded_trade_wellformed `{Decoders} gi msg t :
  buildTrade gi msg = Ok t ->
  (tr_InputID t, tr_KafkaPartition t, tr_KafkaOffset t) = (inputID gi, ms_Partition msg, ms_Offset msg) /\
  tr_GroupID t = gi_GroupID gi /\ tr_KafkaTopic t = ms_Topic msg /\
  validPositiveNumeric (tr_Price t) = true /\ validPositiveNumeric (tr_Quantity t) = true /\
  tr_Side t ∈ [TradeSideBuy; TradeSideSell] /\ 1 <= tr_SchemaVersion t.
Proof.
  unfold buildTrade, tradeMessage_validate. intros H0. decode_inv H0. injection H0 as <-.
  decode_inv G0. simpl. rewrite !validPositiveNumeric_TrimSpace.
  split_and!; eauto using normalizeSide_Ok, schemaVersionOrDefault_pos.
Qed.

Lemma is_blank_false s : is_blank s = false -> strings.TrimSpace s <> "".
Proof. intros H. by apply bool_decide_eq_false in H. Qed.

(** [a] is numerically at most [b]. *)
Definition num_le (a b : string) : Prop :=
  exists x y, price_key a = Some x /\ price_key b = Some y /\ bf_le x y.

Lemma compared_Ok a b c : compared a b = Ok c -> compareNumeric a b = Some c.
Proof. unfold compared. by destruct (compareNumeric a b) as [?|]; intros [= ->]. Qed.

Lemma compareNumeric_inv a b c :
  compareNumeric a b = Some c -> exists x y, price_key a = Some x /\ price_key b = Some y /\ c = Cmp x y.
Proof.
  unfold compareNumeric. destruct (price_key a) as [x|], (price_key b) as [y|]; try done.
  intros [= <-]. by exists x, y.
Qed.

Lemma not_gt_le a b c : compareNumeric a b = Some c -> is_gt c = false -> num_le a b.
Proof.
  intros (x & y & Hx & Hy & ->)%compareNumeric_inv H. exists x, y. split_and!; [done..|].
  unfold bf_le. by destruct (Cmp x y).
Qed.

Lemma not_lt_ge a b c : compareNumeric a b = Some c -> is_lt c = false -> num_le b a.
Proof.
  intros (x & y & Hx & Hy & ->)%compareNumeric_inv H. exists y, x. split_and!; [done..|].
  unfold bf_le. rewrite (Cmp_antisym x y). by destruct (Cmp x y).
Qed.

Lemma num_le_TrimSpace a b : num_le (strings.TrimSpace a) (strings.TrimSpace b) <-> num_le a b.
Proof. unfold num_le. by rewrite !price_key_TrimSpace. Qed.

Lemma check_range_Ok km f v u : check_range km f v = Ok u -> num_le (km_Low km) v /\ num_le v (km_High km).
Proof.
  unfold check_range. intros H. apply bind_Ok in H as (c & Hc & H). apply compared_Ok in Hc.
  destruct (is_lt c) eqn:E; [done|]. apply bind_Ok in H as (d & Hd & H).
  apply compared_Ok in Hd. apply guard_Ok in H. eauto using not_gt_le, not_lt_ge.
Qed.

(** A candle that passes decoding is a candle of its input: it has the
    input's interval, the exchange source and the coordinates of its record,
    closes after it opens, has positive prices with open and close between low
    and high, a non-negative volume, trade count and revision. *)
Theorem decoded_kline_wellformed `{Decoders} gi msg k :
  buildKline gi msg = Ok k ->
  (kl_InputID k, kl_KafkaPartition k, kl_KafkaOffset k) = (inputID gi, ms_Partition msg, ms_Offset msg) /\
  kl_Interval k = gi_Interval gi /\ kl_Source k = KlineSourceExchange /\
  kl_OpenTime k < kl_CloseTime k /\
  Forall (fun p => validPositiveNumeric p = true) [kl_Open k; kl_High k; kl_Low k; kl_Close k] /\
  num_le (kl_Low k) (kl_Open k) /\ num_le (kl_Open k) (kl_High k) /\
  num_le (kl_Low k) (kl_Close k) /\ num_le (kl_Close k) (kl_High k) /\
  validNonNegativeNumeric (kl_Volume k) = true /\ 0 <= kl_TradeCount k /\ 0 <= kl_Revision k.
Proof.
  unfold buildKline, klineMessage_validate. intros H0. decode_inv H0. injection H0 as <-.
  destruct (StreamKeyFor _ _); [|done]. decode_inv G0. injection G0 as <-.
  repeat match goal with G : check_range _ _ _ = Ok _ |- _ => apply check_range_Ok in G as [? ?] end.
  cbn [toKline kl_InputID kl_KafkaPartition kl_KafkaOffset kl_Interval kl_Source kl_OpenTime kl_CloseTime
    kl_Open kl_High kl_Low kl_Close kl_Volume kl_TradeCount kl_Revision].
  rewrite !num_le_TrimSpace, validNonNegativeNumeric_TrimSpace.
  split_and!; try done.
  - by apply Z.ltb_lt.
  - repeat constructor; by rewrite validPositiveNumeric_TrimSpace.
Qed.

Lemma positive_compared a b :
  validPositiveNumeric a = true -> validPositiveNumeric b = true -> compared a b <> Err ErrNilCompare.
Proof.
  intros (x & Hx & _)%validPositiveNumeric_key (y & Hy & _)%validPositiveNumeric_key.
  unfold compared. by rewrite (compareNumeric_defined a b x y).
Qed.

Lemma bind_Err_guard {B} b e e' (f : () -> result decode_error B) :
  e <> e' -> (b = false -> f () <> Err e') -> (guard b e ≫= f) <> Err e'.
Proof. intros Hne Hf. destruct b; simpl; [congruence|auto]. Qed.

Lemma bind_not_Err {A B} (m : result decode_error A) e (f : A -> result decode_error B) :
  m <> Err e -> (forall a, f a <> Err e) -> (m ≫= f) <> Err e.
Proof. intros Hm Hf. destruct m; simpl; [apply Hf|congruence]. Qed.

Lemma check_range_no_panic km f v :
  validPositiveNumeric v = true -> validPositiveNumeric (km_Low km) = true ->
  validPositiveNumeric (km_High km) = true -> check_range km f v <> Err ErrNilCompare.
Proof.
  intros Hv Hl Hh. unfold check_range. apply bind_not_Err; [by apply positive_compared|].
  intros c. destruct (is_lt c); [done|]. apply bind_not_Err; [by apply positive_compared|].
  intros d. by destruct (is_gt d).
Qed.

(** Validation of a candle never dereferences an unparsed price: every
    comparison it makes is between literals it has already accepted. *)
Theorem kline_validation_never_panics km gi : klineMessage_validate km gi <> Err ErrNilCompare.
Proof.
  unfold klineMessage_validate. destruct (StreamKeyFor _ _); [|done].
  repeat (apply bind_Err_guard; [done|intros ?]). bool_to_prop.
  apply bind_not_Err; [by apply positive_compared|]. intros c.
  apply bind_Err_guard; [done|intros _].
  repeat (apply bind_not_Err; [by apply check_range_no_panic|intros ?]). done.
Qed.

(** Both numbers of a level were accepted. *)
Definition level_wellformed (l : PriceLevel) : Prop :=
  validPositiveNumeric (pl_Price l) = true /\ validNonNegativeNumeric (pl_Quantity l) = true.

Lemma validatePriceLevels_Ok side ls u : validatePriceLevels side ls = Ok u -> Forall level_wellformed ls.
Proof.
  induction ls as [|l ls IH]; simpl; [constructor|]. intros H. decode_inv H.
  constructor; [done|]. by apply IH.
Qed.

Lemma check_id_Ok f v u : check_id f v = Ok u -> forall x, v = Some x -> 0 <= x.
Proof. destruct v as [y|]; simpl; [|done]. intros G%guard_Ok x [= <-]. by bool_to_prop. Qed.

(** (C40) A delta that passes decoding carries its record's coordinates, at
    least one level, only well-formed levels; whichever of the four ids it has (first,
    last and previous update id, sequence) is not negative, and the first update id is
    at most the last. *)
Theorem decoded_delta_wellformed `{Decoders} gi msg d :
  buildOrderBookDelta gi msg = Ok d ->
  (od_InputID d, od_KafkaPartition d, od_KafkaOffset d) = (inputID gi, ms_Partition msg, ms_Offset msg) /\
  Forall level_wellformed (od_Bids d) /\ Forall level_wellformed (od_Asks d) /\
  (od_Bids d <> [] \/ od_Asks d <> []) /\
  (forall v, od_FirstUpdateID d = Some v \/ od_LastUpdateID d = Some v \/ od_PrevUpdateID d = Some v \/ od_Sequence d = Some v ->
    0 <= v) /\
  (forall f l, od_FirstUpdateID d = Some f -> od_LastUpdateID d = Some l -> f <= l).
Proof.
  unfold buildOrderBookDelta, orderBookDeltaMessage_validate.
  intros H0. decode_inv H0. injection H0 as <-. decode_inv G0.
  match goal with Hb : validatePriceLevels "bids" _ = _ |- _ => apply validatePriceLevels_Ok in Hb end.
  apply validatePriceLevels_Ok in G0.
  repeat match goal with Hi : check_id _ _ = Ok _ |- _ => pose proof (check_id_Ok _ _ _ Hi); clear Hi end.
  cbn [toOrderBookDelta od_InputID od_KafkaPartition od_KafkaOffset od_Bids od_Asks
    od_FirstUpdateID od_LastUpdateID od_PrevUpdateID od_Sequence].
  assert (forall v, int64Ptr v = v) as Hp by (by intros [|]). rewrite !Hp.
  split_and!; auto.
  - destruct (dm_Bids x), (dm_Asks x); auto. bool_to_prop. by destruct_or!.
  - naive_solver.
  - intros f l Hf Hl. match goal with G : match dm_FirstUpdateID x with _ => _ end = false |- _ =>
      rewrite Hf, Hl in G end. by bool_to_prop.
Qed.

(** ** A sample JSON layer

    It answers one fixed payload per kind, and an error on an empty value. *)

Definition sample_trade : tradeMessage :=
  mkTradeMessage (Some 5) None (Some None) "" " 77 " "1.50" "2" " Buy" false.

Definition sample_candle : klineMessage :=
  mkKlineMessage "" " 1m" (Some 60) (Some 120) "1" "2.0" "0.5" "1e0" "0" "" 3 true 4.

Definition sample_book_delta : orderBookDeltaMessage :=
  mkOrderBookDeltaMessage (Some 5) None None "" (Some 6) (Some 7) None (Some 7)
    [mkPriceLevel "100" "0"] [].

Definition on_value {A} (x : A) (v : string) : result decode_error A :=
  if bool_decide (v = "") then Err (ErrJSON "EOF") else Ok x.

Definition sample_decoders : Decoders := {|
  decodeTrade := on_value sample_trade;
  decodeKline := on_value sample_candle;
  decodeOrderBookDelta := on_value sample_book_delta;
  decodeOrderBookSnapshot :=
    on_value (mkOrderBookSnapshotMessage (Some 5) None None (Some 6) [mkPriceLevel "100" "1"] [])
|}.

Definition sample_input (kind key interval : string) : GroupInput :=
  mkGroupInput "" "g" key kind interval true "" "t" "" "running" 0 0 0.

Definition sample_msg (offset : Z) (value : string) : Message :=
  mkMessage "t" 0 offset "" value 0 (offset + 1).

Lemma decoded_trade_wellformed_witness :
  match @buildTrade sample_decoders (sample_input "trade" "trade" "") (sample_msg 8 "x") with
  | Ok t => tr_KafkaOffset t = 8 /\ tr_Side t ∈ [TradeSideBuy; TradeSideSell]
  | Err _ => False
  end.
Proof.
  destruct (@buildTrade sample_decoders (sample_input "trade" "trade" "") (sample_msg 8 "x"))
    as [t|e] eqn:E; [|vm_compute in E; discriminate].
  destruct (@decoded_trade_wellformed sample_decoders _ _ t E) as (H1 & _ & _ & _ & _ & H2 & _).
  split; [by injection H1|exact H2].
Defined.

Lemma decoded_kline_wellformed_witness :
  match @buildKline sample_decoders (sample_input "kline" "kline_1m" "1m") (sample_msg 8 "x") with
  | Ok k => kl_Interval k = "1m" /\ num_le (kl_Low k) (kl_Close k)
  | Err _ => False
  end.
Proof.
  destruct (@buildKline sample_decoders (sample_input "kline" "kline_1m" "1m") (sample_msg 8 "x"))
    as [k|e] eqn:E; [|vm_compute in E; discriminate].
  destruct (@decoded_kline_wellformed sample_decoders _ _ k E) as (_ & H1 & _ & _ & _ & _ & _ & H2 & _).
  split; [exact H1|exact H2].
Defined.

Lemma decoded_delta_wellformed_witness :
  match @buildOrderBookDelta sample_decoders (sample_input "orderbook_delta" "orderbook_delta" "")
          (sample_msg 8 "x") with
  | Ok d => Forall level_wellformed (od_Bids d)
  | Err _ => False
  end.
Proof.
  destruct (@buildOrderBookDelta sample_decoders (sample_input "orderbook_delta" "orderbook_delta" "")
    (sample_msg 8 "x")) as [d|e] eqn:E; [|vm_compute in E; discriminate].
  destruct (@decoded_delta_wellformed sample_decoders _ _ d E) as (_ & H & _). exact H.
Defined.
