(* ===== verification/Payload.v ===== *)
(** * Payload: the JSON layer of the decoders

    What decode.go, kline_decode.go, orderbook_decode.go and
    orderbook_snapshot_decode.go do between the bytes of a Kafka record and the
    messages of Decode.v: the lenient types [flexString], [flexInt64], [flexTime]
    and [priceLevels], and the strict decoding of one object, over the documents
    of Json.v.  [json_decoders] is the JSON layer Decode.v takes as an argument. *)

From Stdlib Require Import Ascii SpecFloat.
From S2P Require Import Prelude GoStd Rfc3339 Duration Model Numeric Json Kafka Decode.

Open Scope Z_scope.

(** ** strconv.ParseFloat of a JSON number *)

(** The exponent as [readFloat] accumulates it: beyond 10000 digits are dropped. *)
Fixpoint read_exp (e : Z) (s : string) : Z :=
  match s with
  | String c s' => match strconv.digit_val c with
                   | Some d => read_exp (if e <? 10000 then e * 10 + d else e) s'
                   | None => e
                   end
  | EmptyString => e
  end.

Fixpoint strip_zeros (s : string) : string :=
  match s with
  | String c s' => if Ascii.eqb c "0"%char then strip_zeros s' else s
  | EmptyString => s
  end.

(** The float nearest to [m * 10 ^ e], [m] of [nd] digits; out of the range of
    exponents it is 0 or infinite whatever the digits are. *)
Definition decimal_float (neg : bool) (nd m e : Z) : float64 :=
  match m with
  | Z.pos p =>
      if 310 <? nd + e then S754_infinity neg
      else if nd + e <? -330 then S754_zero neg
      else if 0 <=? e then binary_normalize 53 1024 (if neg then - (m * 10 ^ e) else m * 10 ^ e) 0 neg
      else SFdiv 53 1024 (S754_finite neg p 0) (S754_finite false (Z.to_pos (10 ^ (- e))) 0)
  | _ => S754_zero neg
  end.

(** [None] stands for the syntax error and for the range error. *)
Definition ParseFloat64 (s : string) : option float64 :=
  match scan_literal s with
  | None => None
  | Some l =>
      let ds := strip_zeros (lit_int l +:+ lit_frac l) in
      let exp := match lit_exp l with
                 | Some (_, eneg, x) => if eneg then - read_exp 0 x else read_exp 0 x
                 | None => 0
                 end in
      let m := default 0 (strconv.parse_digits 0 ds) in
      match decimal_float (lit_neg l) (Z.of_nat (String.length ds)) m (exp - Z.of_nat (String.length (lit_frac l))) with
      | S754_infinity _ | S754_nan => None
      | x => Some x
      end
  end.

(** ** The lenient types *)

Section unmarshalers.

(** [int64(x)] of a float out of range: Go leaves it to the machine. *)
Variable int64_overflow : float64 -> Z.

Definition int64_of_float (x : float64) : Z :=
  let z := match x with
           | S754_finite true _ _ => - Z_of_float x
           | _ => Z_of_float x
           end in
  if bool_decide (int64 z) then z else int64_overflow x.

(** [time.UnixMilli] *)
Definition UnixMilli (ms : Z) : time.Time := ms * time.Millisecond.

(** An [UnmarshalJSON] takes the value it finds and what is there already. *)
Definition set_flexString (j : json) (_ : flexString) : result decode_error flexString :=
  match j with
  | JNull => Ok ""
  | JString s => Ok s
  | JNumber t => Ok t
  | _ => Err (ErrJSON "expected string or number")
  end.

Definition read_int (s : string) : result decode_error Z :=
  match strconv.ParseInt 64 s with
  | Some v => Ok v
  | None => Err (ErrJSON "expected integer")
  end.

Definition set_flexInt64 (j : json) (old : flexInt64) : result decode_error flexInt64 :=
  match j with
  | JNull => Ok old
  | JString s => read_int (strings.TrimSpace s)
  | JNumber t => read_int t
  | _ => Err (ErrJSON "expected integer")
  end.

Definition set_flexTime (j : json) (old : flexTime) : result decode_error flexTime :=
  match j with
  | JNull => Ok old
  | JString s =>
      if is_blank s then Ok old
      else match Rfc3339.Parse s with
           | Ok t => Ok (Some t)
           | Err _ => match strconv.ParseInt 64 s with
                      | Some ms => Ok (Some (UnixMilli ms))
                      | None => Err (ErrJSON "invalid time")
                      end
           end
  | JNumber t =>
      match strconv.ParseInt 64 t with
      | Some ms => Ok (Some (UnixMilli ms))
      | None => match ParseFloat64 t with
                | Some x => Ok (Some (UnixMilli (int64_of_float x)))
                | None => Err (ErrJSON "invalid epoch time")
                end
      end
  | _ => Err (ErrJSON "invalid epoch time")
  end.

(** ** What encoding/json does with the other fields *)

(** A plain string or bool field: null leaves it. *)
Definition set_string (j : json) (old : string) : result decode_error string :=
  match j with
  | JNull => Ok old
  | JString s => Ok s
  | _ => Err (ErrJSON "type")
  end.

Definition set_bool (j : json) (old : bool) : result decode_error bool :=
  match j with
  | JNull => Ok old
  | JBool b => Ok b
  | _ => Err (ErrJSON "type")
  end.

(** A pointer: null clears it, anything else goes into what it points at. *)
Definition set_pointer {A} (set : json -> A -> result decode_error A) (zero : A) (j : json) (old : option A)
    : result decode_error (option A) :=
  match j with
  | JNull => Ok None
  | _ => v ← set j (default zero old); Ok (Some v)
  end.

(** A struct is a list of its tagged fields. *)
Record struct_field (M : Type) := mkField { fd_name : string; fd_set : json -> M -> result decode_error M }.
Arguments fd_name {M}.
Arguments fd_set {M}.

Definition field {M A} (name : string) (get : M -> A) (put : A -> M -> M)
    (set : json -> A -> result decode_error A) : struct_field M :=
  mkField M name (fun j m => v ← set j (get m); Ok (put v m)).

(** [foldName], for comparison with ASCII names: of the other runes, U+017F folds
    to S and U+212A to K. *)
Fixpoint fold_name (s : string) : string :=
  match s with
  | String a s1 =>
      let up := if byte_in a 97 122 then ascii_of_nat (nat_of_ascii a - 32) else a in
      match s1 with
      | String b s2 =>
          if is_byte 197 a && is_byte 191 b then String "S" (fold_name s2)
          else match s2 with
               | String c s3 => if is_byte 226 a && is_byte 132 b && is_byte 170 c then String "K" (fold_name s3)
                                else String up (fold_name s1)
               | EmptyString => String up (fold_name s1)
               end
      | EmptyString => String up (fold_name s1)
      end
  | EmptyString => ""
  end.

(** The field of a key: its exact name, else its name up to case. *)
Definition find_field {M} (fields : list (struct_field M)) (k : string) : option (struct_field M) :=
  match List.find (fun f => String.eqb (fd_name f) k) fields with
  | Some f => Some f
  | None => List.find (fun f => String.eqb (fold_name (fd_name f)) (fold_name k)) fields
  end.

(** Member after member; [DisallowUnknownFields].  Go reads on after an unknown
    field and reports it at the end. *)
Fixpoint set_members {M} (fields : list (struct_field M)) (l : list (string * json)) (m : M) : result decode_error M :=
  match l with
  | [] => Ok m
  | (k, v) :: l' =>
      match find_field fields k with
      | None => Err (ErrJSON "unknown field")
      | Some f => m' ← fd_set f v m; set_members fields l' m'
      end
  end.

Definition set_struct {M} (fields : list (struct_field M)) (j : json) (m : M) : result decode_error M :=
  match j with
  | JNull => Ok m
  | JObject l => set_members fields l m
  | _ => Err (ErrJSON "type")
  end.

(** ** Price levels *)

Definition level_fields : list (struct_field PriceLevel) :=
  [field "price" pl_Price (fun x m => mkPriceLevel x (pl_Quantity m)) set_flexString;
   field "quantity" pl_Quantity (fun x m => mkPriceLevel (pl_Price m) x) set_flexString].

Definition trim_level (l : PriceLevel) : PriceLevel :=
  mkPriceLevel (strings.TrimSpace (pl_Price l)) (strings.TrimSpace (pl_Quantity l)).

(** The compact form and the object form; null is an object without members. *)
Definition decodePriceLevel (j : json) : result decode_error PriceLevel :=
  match j with
  | JArray l =>
      vs ← result_mapM (fun x => set_flexString x "") l;
      match vs with
      | [p; q] => Ok (trim_level (mkPriceLevel p q))
      | _ => Err (ErrJSON "compact level must have price and quantity")
      end
  | _ => l ← set_struct level_fields j (mkPriceLevel "" ""); Ok (trim_level l)
  end.

Definition set_priceLevels (j : json) (_ : list PriceLevel) : result decode_error (list PriceLevel) :=
  match j with
  | JNull => Ok []
  | JArray l => result_mapM decodePriceLevel l
  | _ => Err (ErrJSON "price levels must be an array")
  end.

(** ** The four payloads *)

Definition trade_fields : list (struct_field tradeMessage) :=
  [field "event_time" tm_EventTime (fun x m => mkTradeMessage x (tm_ExchangeTime m) (tm_LocalReceiveTime m) (tm_TradeID m) (tm_RawTradeID m) (tm_Price m) (tm_Quantity m) (tm_Side m) (tm_IsAggregated m)) set_flexTime;
   field "exchange_time" tm_ExchangeTime (fun x m => mkTradeMessage (tm_EventTime m) x (tm_LocalReceiveTime m) (tm_TradeID m) (tm_RawTradeID m) (tm_Price m) (tm_Quantity m) (tm_Side m) (tm_IsAggregated m)) (set_pointer set_flexTime None);
   field "local_receive_time" tm_LocalReceiveTime (fun x m => mkTradeMessage (tm_EventTime m) (tm_ExchangeTime m) x (tm_TradeID m) (tm_RawTradeID m) (tm_Price m) (tm_Quantity m) (tm_Side m) (tm_IsAggregated m)) (set_pointer set_flexTime None);
   field "trade_id" tm_TradeID (fun x m => mkTradeMessage (tm_EventTime m) (tm_ExchangeTime m) (tm_LocalReceiveTime m) x (tm_RawTradeID m) (tm_Price m) (tm_Quantity m) (tm_Side m) (tm_IsAggregated m)) set_flexString;
   field "raw_trade_id" tm_RawTradeID (fun x m => mkTradeMessage (tm_EventTime m) (tm_ExchangeTime m) (tm_LocalReceiveTime m) (tm_TradeID m) x (tm_Price m) (tm_Quantity m) (tm_Side m) (tm_IsAggregated m)) set_flexString;
   field "price" tm_Price (fun x m => mkTradeMessage (tm_EventTime m) (tm_ExchangeTime m) (tm_LocalReceiveTime m) (tm_TradeID m) (tm_RawTradeID m) x (tm_Quantity m) (tm_Side m) (tm_IsAggregated m)) set_flexString;
   field "quantity" tm_Quantity (fun x m => mkTradeMessage (tm_EventTime m) (tm_ExchangeTime m) (tm_LocalReceiveTime m) (tm_TradeID m) (tm_RawTradeID m) (tm_Price m) x (tm_Side m) (tm_IsAggregated m)) set_flexString;
   field "side" tm_Side (fun x m => mkTradeMessage (tm_EventTime m) (tm_ExchangeTime m) (tm_LocalReceiveTime m) (tm_TradeID m) (tm_RawTradeID m) (tm_Price m) (tm_Quantity m) x (tm_IsAggregated m)) set_string;
   field "is_aggregated" tm_IsAggregated (fun x m => mkTradeMessage (tm_EventTime m) (tm_ExchangeTime m) (tm_LocalReceiveTime m) (tm_TradeID m) (tm_RawTradeID m) (tm_Price m) (tm_Quantity m) (tm_Side m) x) set_bool].

Definition kline_fields : list (struct_field klineMessage) :=
  [field "source" km_Source (fun x m => mkKlineMessage x (km_Interval m) (km_OpenTime m) (km_CloseTime m) (km_Open m) (km_High m) (km_Low m) (km_Close m) (km_Volume m) (km_QuoteVolume m) (km_TradeCount m) (km_IsClosed m) (km_Revision m)) set_string;
   field "interval" km_Interval (fun x m => mkKlineMessage (km_Source m) x (km_OpenTime m) (km_CloseTime m) (km_Open m) (km_High m) (km_Low m) (km_Close m) (km_Volume m) (km_QuoteVolume m) (km_TradeCount m) (km_IsClosed m) (km_Revision m)) set_string;
   field "open_time" km_OpenTime (fun x m => mkKlineMessage (km_Source m) (km_Interval m) x (km_CloseTime m) (km_Open m) (km_High m) (km_Low m) (km_Close m) (km_Volume m) (km_QuoteVolume m) (km_TradeCount m) (km_IsClosed m) (km_Revision m)) set_flexTime;
   field "close_time" km_CloseTime (fun x m => mkKlineMessage (km_Source m) (km_Interval m) (km_OpenTime m) x (km_Open m) (km_High m) (km_Low m) (km_Close m) (km_Volume m) (km_QuoteVolume m) (km_TradeCount m) (km_IsClosed m) (km_Revision m)) set_flexTime;
   field "open" km_Open (fun x m => mkKlineMessage (km_Source m) (km_Interval m) (km_OpenTime m) (km_CloseTime m) x (km_High m) (km_Low m) (km_Close m) (km_Volume m) (km_QuoteVolume m) (km_TradeCount m) (km_IsClosed m) (km_Revision m)) set_flexString;
   field "high" km_High (fun x m => mkKlineMessage (km_Source m) (km_Interval m) (km_OpenTime m) (km_CloseTime m) (km_Open m) x (km_Low m) (km_Close m) (km_Volume m) (km_QuoteVolume m) (km_TradeCount m) (km_IsClosed m) (km_Revision m)) set_flexString;
   field "low" km_Low (fun x m => mkKlineMessage (km_Source m) (km_Interval m) (km_OpenTime m) (km_CloseTime m) (km_Open m) (km_High m) x (km_Close m) (km_Volume m) (km_QuoteVolume m) (km_TradeCount m) (km_IsClosed m) (km_Revision m)) set_flexString;
   field "close" km_Close (fun x m => mkKlineMessage (km_Source m) (km_Interval m) (km_OpenTime m) (km_CloseTime m) (km_Open m) (km_High m) (km_Low m) x (km_Volume m) (km_QuoteVolume m) (km_TradeCount m) (km_IsClosed m) (km_Revision m)) set_flexString;
   field "volume" km_Volume (fun x m => mkKlineMessage (km_Source m) (km_Interval m) (km_OpenTime m) (km_CloseTime m) (km_Open m) (km_High m) (km_Low m) (km_Close m) x (km_QuoteVolume m) (km_TradeCount m) (km_IsClosed m) (km_Revision m)) set_flexString;
   field "quote_volume" km_QuoteVolume (fun x m => mkKlineMessage (km_Source m) (km_Interval m) (km_OpenTime m) (km_CloseTime m) (km_Open m) (km_High m) (km_Low m) (km_Close m) (km_Volume m) x (km_TradeCount m) (km_IsClosed m) (km_Revision m)) set_flexString;
   field "trade_count" km_TradeCount (fun x m => mkKlineMessage (km_Source m) (km_Interval m) (km_OpenTime m) (km_CloseTime m) (km_Open m) (km_High m) (km_Low m) (km_Close m) (km_Volume m) (km_QuoteVolume m) x (km_IsClosed m) (km_Revision m)) set_flexInt64;
   field "is_closed" km_IsClosed (fun x m => mkKlineMessage (km_Source m) (km_Interval m) (km_OpenTime m) (km_CloseTime m) (km_Open m) (km_High m) (km_Low m) (km_Close m) (km_Volume m) (km_QuoteVolume m) (km_TradeCount m) x (km_Revision m)) set_bool;
   field "revision" km_Revision (fun x m => mkKlineMessage (km_Source m) (km_Interval m) (km_OpenTime m) (km_CloseTime m) (km_Open m) (km_High m) (km_Low m) (km_Close m) (km_Volume m) (km_QuoteVolume m) (km_TradeCount m) (km_IsClosed m) x) set_flexInt64].

Definition delta_fields : list (struct_field orderBookDeltaMessage) :=
  [field "event_time" dm_EventTime (fun x m => mkOrderBookDeltaMessage x (dm_ExchangeTime m) (dm_LocalReceiveTime m) (dm_RawEventID m) (dm_FirstUpdateID m) (dm_LastUpdateID m) (dm_PrevUpdateID m) (dm_Sequence m) (dm_Bids m) (dm_Asks m)) set_flexTime;
   field "exchange_time" dm_ExchangeTime (fun x m => mkOrderBookDeltaMessage (dm_EventTime m) x (dm_LocalReceiveTime m) (dm_RawEventID m) (dm_FirstUpdateID m) (dm_LastUpdateID m) (dm_PrevUpdateID m) (dm_Sequence m) (dm_Bids m) (dm_Asks m)) (set_pointer set_flexTime None);
   field "local_receive_time" dm_LocalReceiveTime (fun x m => mkOrderBookDeltaMessage (dm_EventTime m) (dm_ExchangeTime m) x (dm_RawEventID m) (dm_FirstUpdateID m) (dm_LastUpdateID m) (dm_PrevUpdateID m) (dm_Sequence m) (dm_Bids m) (dm_Asks m)) (set_pointer set_flexTime None);
   field "raw_event_id" dm_RawEventID (fun x m => mkOrderBookDeltaMessage (dm_EventTime m) (dm_ExchangeTime m) (dm_LocalReceiveTime m) x (dm_FirstUpdateID m) (dm_LastUpdateID m) (dm_PrevUpdateID m) (dm_Sequence m) (dm_Bids m) (dm_Asks m)) set_flexString;
   field "first_update_id" dm_FirstUpdateID (fun x m => mkOrderBookDeltaMessage (dm_EventTime m) (dm_ExchangeTime m) (dm_LocalReceiveTime m) (dm_RawEventID m) x (dm_LastUpdateID m) (dm_PrevUpdateID m) (dm_Sequence m) (dm_Bids m) (dm_Asks m)) (set_pointer set_flexInt64 0);
   field "last_update_id" dm_LastUpdateID (fun x m => mkOrderBookDeltaMessage (dm_EventTime m) (dm_ExchangeTime m) (dm_LocalReceiveTime m) (dm_RawEventID m) (dm_FirstUpdateID m) x (dm_PrevUpdateID m) (dm_Sequence m) (dm_Bids m) (dm_Asks m)) (set_pointer set_flexInt64 0);
   field "prev_update_id" dm_PrevUpdateID (fun x m => mkOrderBookDeltaMessage (dm_EventTime m) (dm_ExchangeTime m) (dm_LocalReceiveTime m) (dm_RawEventID m) (dm_FirstUpdateID m) (dm_LastUpdateID m) x (dm_Sequence m) (dm_Bids m) (dm_Asks m)) (set_pointer set_flexInt64 0);
   field "sequence" dm_Sequence (fun x m => mkOrderBookDeltaMessage (dm_EventTime m) (dm_ExchangeTime m) (dm_LocalReceiveTime m) (dm_RawEventID m) (dm_FirstUpdateID m) (dm_LastUpdateID m) (dm_PrevUpdateID m) x (dm_Bids m) (dm_Asks m)) (set_pointer set_flexInt64 0);
   field "bids" dm_Bids (fun x m => mkOrderBookDeltaMessage (dm_EventTime m) (dm_ExchangeTime m) (dm_LocalReceiveTime m) (dm_RawEventID m) (dm_FirstUpdateID m) (dm_LastUpdateID m) (dm_PrevUpdateID m) (dm_Sequence m) x (dm_Asks m)) set_priceLevels;
   field "asks" dm_Asks (fun x m => mkOrderBookDeltaMessage (dm_EventTime m) (dm_ExchangeTime m) (dm_LocalReceiveTime m) (dm_RawEventID m) (dm_FirstUpdateID m) (dm_LastUpdateID m) (dm_PrevUpdateID m) (dm_Sequence m) (dm_Bids m) x) set_priceLevels].

Definition snapshot_fields : list (struct_field orderBookSnapshotMessage) :=
  [field "event_time" sm_EventTime (fun x m => mkOrderBookSnapshotMessage x (sm_ExchangeTime m) (sm_LocalReceiveTime m) (sm_Sequence m) (sm_Bids m) (sm_Asks m)) set_flexTime;
   field "exchange_time" sm_ExchangeTime (fun x m => mkOrderBookSnapshotMessage (sm_EventTime m) x (sm_LocalReceiveTime m) (sm_Sequence m) (sm_Bids m) (sm_Asks m)) (set_pointer set_flexTime None);
   field "local_receive_time" sm_LocalReceiveTime (fun x m => mkOrderBookSnapshotMessage (sm_EventTime m) (sm_ExchangeTime m) x (sm_Sequence m) (sm_Bids m) (sm_Asks m)) (set_pointer set_flexTime None);
   field "sequence" sm_Sequence (fun x m => mkOrderBookSnapshotMessage (sm_EventTime m) (sm_ExchangeTime m) (sm_LocalReceiveTime m) x (sm_Bids m) (sm_Asks m)) (set_pointer set_flexInt64 0);
   field "bids" sm_Bids (fun x m => mkOrderBookSnapshotMessage (sm_EventTime m) (sm_ExchangeTime m) (sm_LocalReceiveTime m) (sm_Sequence m) x (sm_Asks m)) set_priceLevels;
   field "asks" sm_Asks (fun x m => mkOrderBookSnapshotMessage (sm_EventTime m) (sm_ExchangeTime m) (sm_LocalReceiveTime m) (sm_Sequence m) (sm_Bids m) x) set_priceLevels].

(** One document and nothing after it: the second Decode must find the end. *)
Definition decode_strict {M} (fields : list (struct_field M)) (zero : M) (data : string) : result decode_error M :=
  match parse data with
  | Ok j => set_struct fields j zero
  | Err _ => Err (ErrJSON "syntax")
  end.

Definition zero_trade : tradeMessage := mkTradeMessage None None None "" "" "" "" "" false.
Definition zero_kline : klineMessage := mkKlineMessage "" "" None None "" "" "" "" "" "" 0 false 0.
Definition zero_delta : orderBookDeltaMessage := mkOrderBookDeltaMessage None None None "" None None None None [] [].
Definition zero_snapshot : orderBookSnapshotMessage := mkOrderBookSnapshotMessage None None None None [] [].

Definition decode_trade : string -> result decode_error tradeMessage := decode_strict trade_fields zero_trade.
Definition decode_kline : string -> result decode_error klineMessage := decode_strict kline_fields zero_kline.
Definition decode_delta : string -> result decode_error orderBookDeltaMessage := decode_strict delta_fields zero_delta.
Definition decode_snapshot : string -> result decode_error orderBookSnapshotMessage := decode_strict snapshot_fields zero_snapshot.

Definition json_decoders : Decoders := {|
  decodeTrade := decode_trade;
  decodeKline := decode_kline;
  decodeOrderBookDelta := decode_delta;
  decodeOrderBookSnapshot := decode_snapshot
|}.
End unmarshalers.

Arguments fd_name {M}.
Arguments fd_set {M}.

(** ** Levels in a jsonb column *)

(** [json.Marshal] of a slice of levels; a nil slice is the empty one. *)
Definition level_json (l : PriceLevel) : json := JObject [("price", JString (pl_Price l)); ("quantity", JString (pl_Quantity l))].
Definition marshalLevels (levels : list PriceLevel) : string := print (JArray (map level_json levels)).

(** A column of levels read by [json.Unmarshal]: plain fields, other keys ignored. *)
Definition plain_fields : list (struct_field PriceLevel) :=
  [field "price" pl_Price (fun x m => mkPriceLevel x (pl_Quantity m)) set_string;
   field "quantity" pl_Quantity (fun x m => mkPriceLevel (pl_Price m) x) set_string].

Definition known_members {M} (fields : list (struct_field M)) (l : list (string * json)) : list (string * json) :=
  List.filter (fun kv => match find_field fields kv.1 with Some _ => true | None => false end) l.

Definition read_level (j : json) : result decode_error PriceLevel :=
  match j with
  | JObject l => set_members plain_fields (known_members plain_fields l) (mkPriceLevel "" "")
  | _ => set_struct plain_fields j (mkPriceLevel "" "")
  end.

Definition unmarshalLevels (data : string) : result decode_error (list PriceLevel) :=
  match parse data with
  | Ok JNull => Ok []
  | Ok (JArray l) => result_mapM read_level l
  | _ => Err (ErrJSON "levels")
  end.

(** ** What producers write *)

Section wire.

Variable int64_overflow : float64 -> Z.
#[local] Existing Instance json_decoders.

Definition int_json (v : Z) : json := JNumber (strconv.FormatInt v).

(** An instant in milliseconds; an unset one is blank. *)
Definition time_json (t : flexTime) : json :=
  match t with
  | Some ns => int_json (ns / time.Millisecond)
  | None => JString ""
  end.

Definition pointer_json {A} (enc : A -> json) (o : option A) : json :=
  match o with
  | Some x => enc x
  | None => JNull
  end.

Definition levels_json (l : list PriceLevel) : json := JArray (map level_json l).

Definition trade_members (m : tradeMessage) : list (string * json) :=
  [("event_time", time_json (tm_EventTime m)); ("exchange_time", pointer_json time_json (tm_ExchangeTime m));
   ("local_receive_time", pointer_json time_json (tm_LocalReceiveTime m)); ("trade_id", JString (tm_TradeID m));
   ("raw_trade_id", JString (tm_RawTradeID m)); ("price", JString (tm_Price m)); ("quantity", JString (tm_Quantity m));
   ("side", JString (tm_Side m)); ("is_aggregated", JBool (tm_IsAggregated m))].

Definition kline_members (m : klineMessage) : list (string * json) :=
  [("source", JString (km_Source m)); ("interval", JString (km_Interval m)); ("open_time", time_json (km_OpenTime m));
   ("close_time", time_json (km_CloseTime m)); ("open", JString (km_Open m)); ("high", JString (km_High m));
   ("low", JString (km_Low m)); ("close", JString (km_Close m)); ("volume", JString (km_Volume m));
   ("quote_volume", JString (km_QuoteVolume m)); ("trade_count", int_json (km_TradeCount m));
   ("is_closed", JBool (km_IsClosed m)); ("revision", int_json (km_Revision m))].

Definition delta_members (m : orderBookDeltaMessage) : list (string * json) :=
  [("event_time", time_json (dm_EventTime m)); ("exchange_time", pointer_json time_json (dm_ExchangeTime m));
   ("local_receive_time", pointer_json time_json (dm_LocalReceiveTime m)); ("raw_event_id", JString (dm_RawEventID m));
   ("first_update_id", pointer_json int_json (dm_FirstUpdateID m)); ("last_update_id", pointer_json int_json (dm_LastUpdateID m));
   ("prev_update_id", pointer_json int_json (dm_PrevUpdateID m)); ("sequence", pointer_json int_json (dm_Sequence m));
   ("bids", levels_json (dm_Bids m)); ("asks", levels_json (dm_Asks m))].

Definition snapshot_members (m : orderBookSnapshotMessage) : list (string * json) :=
  [("event_time", time_json (sm_EventTime m)); ("exchange_time", pointer_json time_json (sm_ExchangeTime m));
   ("local_receive_time", pointer_json time_json (sm_LocalReceiveTime m)); ("sequence", pointer_json int_json (sm_Sequence m));
   ("bids", levels_json (sm_Bids m)); ("asks", levels_json (sm_Asks m))].

(** What can be said in JSON: text is UTF-8, instants are whole milliseconds,
    integers fit, levels carry no blanks around their numbers. *)
Definition text_ok (s : string) : Prop := valid_utf8 s = true.
Definition time_ok (t : flexTime) : Prop :=
  match t with
  | Some ns => ns mod time.Millisecond = 0 /\ int64 (ns / time.Millisecond)
  | None => True
  end.
Definition opt_ok {A} (ok : A -> Prop) (o : option A) : Prop := match o with Some x => ok x | None => True end.
Definition level_ok (l : PriceLevel) : Prop := text_ok (pl_Price l) /\ text_ok (pl_Quantity l) /\ trim_level l = l.

Definition trade_ok (m : tradeMessage) : Prop :=
  time_ok (tm_EventTime m) /\ opt_ok time_ok (tm_ExchangeTime m) /\ opt_ok time_ok (tm_LocalReceiveTime m) /\
  Forall text_ok [tm_TradeID m; tm_RawTradeID m; tm_Price m; tm_Quantity m; tm_Side m].

Definition kline_ok (m : klineMessage) : Prop :=
  time_ok (km_OpenTime m) /\ time_ok (km_CloseTime m) /\ int64 (km_TradeCount m) /\ int64 (km_Revision m) /\
  Forall text_ok [km_Source m; km_Interval m; km_Open m; km_High m; km_Low m; km_Close m; km_Volume m; km_QuoteVolume m].

Definition delta_ok (m : orderBookDeltaMessage) : Prop :=
  time_ok (dm_EventTime m) /\ opt_ok time_ok (dm_ExchangeTime m) /\ opt_ok time_ok (dm_LocalReceiveTime m) /\
  text_ok (dm_RawEventID m) /\ Forall (opt_ok int64) [dm_FirstUpdateID m; dm_LastUpdateID m; dm_PrevUpdateID m; dm_Sequence m] /\
  Forall level_ok (dm_Bids m) /\ Forall level_ok (dm_Asks m).

Definition snapshot_ok (m : orderBookSnapshotMessage) : Prop :=
  time_ok (sm_EventTime m) /\ opt_ok time_ok (sm_ExchangeTime m) /\ opt_ok time_ok (sm_LocalReceiveTime m) /\
  opt_ok int64 (sm_Sequence m) /\ Forall level_ok (sm_Bids m) /\ Forall level_ok (sm_Asks m).

(** *** One field *)

Lemma read_int_json v : int64 v -> read_int (strconv.FormatInt v) = Ok v.
Proof. intros H. unfold read_int. by rewrite strconv_facts.ParseInt_FormatInt. Qed.

Lemma set_time_json t : time_ok t -> set_flexTime int64_overflow (time_json t) None = Ok t.
Proof.
  destruct t as [ns|]; [|done]. intros [Hm Hi]. cbn. rewrite strconv_facts.ParseInt_FormatInt by done. f_equal. f_equal.
  unfold UnixMilli. change time.Millisecond with 1000000 in *. pose proof (Z.div_mod ns 1000000). lia.
Qed.

Lemma set_pointer_json {A} (set : json -> A -> result decode_error A) zero enc (ok : A -> Prop) o :
  (forall x, ok x -> enc x <> JNull /\ set (enc x) zero = Ok x) -> opt_ok ok o ->
  set_pointer set zero (pointer_json enc o) None = Ok o.
Proof.
  intros H Ho. destruct o as [x|]; [|done]. destruct (H x Ho) as [Hn Hx]. unfold set_pointer. cbn.
  destruct (enc x); [done|by rewrite Hx..].
Qed.

Lemma set_time_pointer o : opt_ok time_ok o -> set_pointer (set_flexTime int64_overflow) None (pointer_json time_json o) None = Ok o.
Proof. apply set_pointer_json. intros t Ht. split; [by destruct t|by apply set_time_json]. Qed.

Lemma set_int_pointer o : opt_ok int64 o -> set_pointer set_flexInt64 0 (pointer_json int_json o) None = Ok o.
Proof. apply set_pointer_json. intros v Hv. split; [done|by apply read_int_json]. Qed.

Lemma set_levels_json l old : Forall level_ok l -> set_priceLevels (levels_json l) old = Ok l.
Proof.
  intros Hl. cbn. apply result_mapM_Forall2, Forall2_fmap_l, Forall_Forall2_diag. eapply Forall_impl; [exact Hl|].
  intros [p q] (_ & _ & Ht). cbn. by rewrite Ht.
Qed.

#[local] Arguments set_flexTime : simpl never.
#[local] Arguments set_pointer : simpl never.
#[local] Arguments set_flexInt64 : simpl never.
#[local] Arguments set_priceLevels : simpl never.
#[local] Arguments time_json : simpl never.
#[local] Arguments pointer_json : simpl never.
#[local] Arguments int_json : simpl never.
#[local] Arguments levels_json : simpl never.

Lemma set_int_json v old : int64 v -> set_flexInt64 (int_json v) old = Ok v.
Proof. apply read_int_json. Qed.

(** The members one after the other. *)
Ltac members :=
  cbn; repeat (first [rewrite set_time_json by assumption | rewrite set_time_pointer by assumption | rewrite set_int_pointer by assumption
                     | rewrite set_int_json by assumption | rewrite set_levels_json by assumption]; cbn).

Ltac ok_inv :=
  repeat match goal with
         | H : _ /\ _ |- _ => destruct H
         | H : Forall _ (_ :: _) |- _ => apply Forall_cons in H
         end.

Lemma set_trade m : trade_ok m -> set_members (trade_fields int64_overflow) (trade_members m) zero_trade = Ok m.
Proof. intros H. unfold trade_ok in H. ok_inv. unfold trade_members. members. by destruct m. Qed.

Lemma set_kline m : kline_ok m -> set_members (kline_fields int64_overflow) (kline_members m) zero_kline = Ok m.
Proof. intros H. unfold kline_ok in H. ok_inv. unfold kline_members. members. by destruct m. Qed.

Lemma set_delta m : delta_ok m -> set_members (delta_fields int64_overflow) (delta_members m) zero_delta = Ok m.
Proof. intros H. unfold delta_ok in H. ok_inv. unfold delta_members. members. by destruct m. Qed.

Lemma set_snapshot m : snapshot_ok m -> set_members (snapshot_fields int64_overflow) (snapshot_members m) zero_snapshot = Ok m.
Proof. intros H. unfold snapshot_ok in H. ok_inv. unfold snapshot_members. members. by destruct m. Qed.

(** *** The text *)

Lemma time_printable t : time_ok t -> printable (time_json t) = true /\ nesting (time_json t) = 0.
Proof. destruct t as [ns|]; [|done]. intros [_ H]. split; [|done]. by apply bool_decide_eq_true, scan_number_format. Qed.

Lemma int_printable v : int64 v -> printable (int_json v) = true /\ nesting (int_json v) = 0.
Proof. intros H. split; [|done]. by apply bool_decide_eq_true, scan_number_format. Qed.

Lemma pointer_printable {A} (enc : A -> json) (ok : A -> Prop) o :
  (forall x, ok x -> printable (enc x) = true /\ nesting (enc x) = 0) -> opt_ok ok o ->
  printable (pointer_json enc o) = true /\ nesting (pointer_json enc o) = 0.
Proof. intros H Ho. destruct o as [x|]; [by apply H|done]. Qed.

Lemma levels_printable l : Forall level_ok l -> printable (levels_json l) = true /\ nesting (levels_json l) <= 2.
Proof.
  induction 1 as [|[p q] l (Hp & Hq & _) _ [IH1 IH2]]; [done|]. unfold levels_json in *.
  cbn [map printable forallb level_json fst snd pl_Price pl_Quantity nesting foldr] in *. split; [|lia].
  change (valid_utf8 "price") with true. change (valid_utf8 "quantity") with true. by rewrite Hp, Hq, IH1.
Qed.

(** An object of members that can be printed. *)
Definition member_ok (kv : string * json) : Prop := valid_utf8 kv.1 = true /\ printable kv.2 = true /\ nesting kv.2 <= 2.

Lemma object_printable l : Forall member_ok l -> printable (JObject l) = true /\ nesting (JObject l) <= maxNestingDepth.
Proof.
  intros H. cut (forallb (fun kv => valid_utf8 kv.1 && printable kv.2) l = true /\ foldr (fun kv n => Z.max (nesting kv.2) n) 0 l <= 2).
  { intros [H1 H2]. split; [done|]. cbn [nesting]. unfold maxNestingDepth. lia. }
  induction H as [|kv l (H1 & H2 & H3) _ [IH1 IH2]]; [done|]. cbn [forallb foldr]. rewrite H1, H2. split; [done|lia].
Qed.

Lemma member_time k t : valid_utf8 k = true -> time_ok t -> member_ok (k, time_json t).
Proof. intros Hk [H1 H2]%time_printable. split_and!; [done|done|cbn; lia]. Qed.

Lemma member_times k o : valid_utf8 k = true -> opt_ok time_ok o -> member_ok (k, pointer_json time_json o).
Proof. intros Hk H. destruct (pointer_printable time_json time_ok o time_printable H) as [H1 H2]. split_and!; [done|done|cbn; lia]. Qed.

Lemma member_int k v : valid_utf8 k = true -> int64 v -> member_ok (k, int_json v).
Proof. intros Hk [H1 H2]%int_printable. split_and!; [done|done|cbn; lia]. Qed.

Lemma member_ints k o : valid_utf8 k = true -> opt_ok int64 o -> member_ok (k, pointer_json int_json o).
Proof. intros Hk H. destruct (pointer_printable int_json int64 o int_printable H) as [H1 H2]. split_and!; [done|done|cbn; lia]. Qed.

Lemma member_text k s : valid_utf8 k = true -> text_ok s -> member_ok (k, JString s).
Proof. intros Hk H. by split_and!. Qed.

Lemma member_bool k b : valid_utf8 k = true -> member_ok (k, JBool b).
Proof. intros Hk. by split_and!. Qed.

Lemma member_levels k l : valid_utf8 k = true -> Forall level_ok l -> member_ok (k, levels_json l).
Proof. intros Hk [H1 H2]%levels_printable. by split_and!. Qed.

Ltac members_ok :=
  repeat (apply Forall_cons_2;
    [first [apply member_time | apply member_times | apply member_ints | apply member_int | apply member_levels
           | apply member_text | apply member_bool]; (reflexivity || assumption)|]);
  apply Forall_nil_2.

Lemma trade_members_ok m : trade_ok m -> Forall member_ok (trade_members m).
Proof. intros H. unfold trade_ok in H. ok_inv. unfold trade_members. members_ok. Qed.
Lemma kline_members_ok m : kline_ok m -> Forall member_ok (kline_members m).
Proof. intros H. unfold kline_ok in H. ok_inv. unfold kline_members. members_ok. Qed.

Lemma delta_members_ok m : delta_ok m -> Forall member_ok (delta_members m).
Proof. intros H. unfold delta_ok in H. ok_inv. unfold delta_members. members_ok. Qed.

Lemma snapshot_members_ok m : snapshot_ok m -> Forall member_ok (snapshot_members m).
Proof. intros H. unfold snapshot_ok in H. ok_inv. unfold snapshot_members. members_ok. Qed.

(** ** The decoders *)

Lemma decode_members {M} (fields : list (struct_field M)) zero l m :
  Forall member_ok l -> set_members fields l zero = Ok m -> decode_strict fields zero (print (JObject l)) = Ok m.
Proof.
  intros [Hp Hd]%object_printable Hm. unfold decode_strict. by rewrite parse_print.
Qed.

(** A key that names a field, up to case. *)
Definition known_key {M} (fields : list (struct_field M)) (k : string) : Prop :=
  Exists (fun f => fold_name (fd_name f) = fold_name k) fields.

Lemma find_field_known {M} (fields : list (struct_field M)) k f : find_field fields k = Some f -> known_key fields k.
Proof.
  unfold find_field, known_key. rewrite Exists_exists. destruct (List.find _ fields) as [g|] eqn:E.
  - intros [= ->]. apply find_some in E as [Hin Hk]. apply String.eqb_eq in Hk. exists f. by rewrite list_elem_of_In, Hk.
  - intros Hf. apply find_some in Hf as [Hin Hk]. apply String.eqb_eq in Hk. exists f. by rewrite list_elem_of_In.
Qed.

Lemma set_members_known {M} (fields : list (struct_field M)) l m m' :
  set_members fields l m = Ok m' -> Forall (fun kv => known_key fields kv.1) l.
Proof.
  revert m. induction l as [|[k v] l IH]; intros m H; [done|]. cbn in H. destruct (find_field fields k) as [f|] eqn:E; [|done].
  apply bind_Ok in H as (m1 & _ & H). constructor; [by eapply find_field_known|by eapply IH].
Qed.

(** What an accepted payload is. *)
Definition strict {M} (fields : list (struct_field M)) (zero : M) (decode : string -> result decode_error M) : Prop :=
  (forall data m, decode data = Ok m ->
    (parse data = Ok JNull /\ m = zero) \/
    exists l, parse data = Ok (JObject l) /\ Forall (fun kv => known_key fields kv.1) l) /\
  (forall l rest m, Forall member_ok l -> decode (print (JObject l) +:+ rest) = Ok m -> skip_ws rest = "").

Lemma decode_strict_strict {M} (fields : list (struct_field M)) zero : strict fields zero (decode_strict fields zero).
Proof.
  unfold decode_strict. split.
  - intros data m. destruct (parse data) as [[]|]; cbn; try done; [intros [= <-]; by left|].
    intros H%set_members_known. right. by eexists.
  - intros l rest m [Hp Hd]%object_printable. destruct (parse _) as [j|] eqn:E; [|done].
    intros _. by apply parse_object_then in E as [_ ?].
Qed.

End wire.

(** ** Theorems *)

Lemma trade_wire ov m : trade_ok m -> @decodeTrade (json_decoders ov) (print (JObject (trade_members m))) = Ok m.
Proof. intros Hm. apply decode_members; [by apply trade_members_ok|by apply set_trade]. Qed.

Lemma kline_wire ov m : kline_ok m -> @decodeKline (json_decoders ov) (print (JObject (kline_members m))) = Ok m.
Proof. intros Hm. apply decode_members; [by apply kline_members_ok|by apply set_kline]. Qed.

Lemma delta_wire ov m : delta_ok m -> @decodeOrderBookDelta (json_decoders ov) (print (JObject (delta_members m))) = Ok m.
Proof. intros Hm. apply decode_members; [by apply delta_members_ok|by apply set_delta]. Qed.

(** (C38) Round trip of the four payloads.  A message printed as the documented JSON
    object (instants in milliseconds, integers as numbers, decimals and ids as
    strings, levels as objects) is decoded to the same message: whatever its text
    fields hold, quotes, control characters and any UTF-8 included. *)
Theorem payload_roundtrip ov :
  (forall m, trade_ok m -> @decodeTrade (json_decoders ov) (print (JObject (trade_members m))) = Ok m) /\
  (forall m, kline_ok m -> @decodeKline (json_decoders ov) (print (JObject (kline_members m))) = Ok m) /\
  (forall m, delta_ok m -> @decodeOrderBookDelta (json_decoders ov) (print (JObject (delta_members m))) = Ok m) /\
  (forall m, snapshot_ok m -> @decodeOrderBookSnapshot (json_decoders ov) (print (JObject (snapshot_members m))) = Ok m).
Proof.
  split_and!; [apply trade_wire|apply kline_wire|apply delta_wire|intros m Hm].
  apply decode_members; [by apply snapshot_members_ok|by apply set_snapshot].
Qed.

(** (C39) Strictness.  Whatever the bytes of a record are, a decoder accepts them only
    if they are one JSON document that is null or an object all of whose keys name
    fields of the message, up to case; and an object followed by anything but
    blanks is refused. *)
Theorem decoding_is_strict ov :
  strict (trade_fields ov) zero_trade (@decodeTrade (json_decoders ov)) /\
  strict (kline_fields ov) zero_kline (@decodeKline (json_decoders ov)) /\
  strict (delta_fields ov) zero_delta (@decodeOrderBookDelta (json_decoders ov)) /\
  strict (snapshot_fields ov) zero_snapshot (@decodeOrderBookSnapshot (json_decoders ov)).
Proof. split_and!; apply decode_strict_strict. Qed.

(** The same member with a decimal or an id as a number instead of a string. *)
Definition respelled (keys : list string) (kv kv' : string * json) : Prop :=
  kv = kv' \/ exists k t, k ∈ keys /\ kv = (k, JNumber t) /\ kv' = (k, JString t).

(** A field that does not tell a number from a string. *)
Definition lenient {M} (fields : list (struct_field M)) (k : string) : Prop :=
  forall t l m, set_members fields ((k, JNumber t) :: l) m = set_members fields ((k, JString t) :: l) m.

Lemma respelled_members {M} (fields : list (struct_field M)) keys l l' m :
  Forall (lenient fields) keys -> Forall2 (respelled keys) l l' -> set_members fields l m = set_members fields l' m.
Proof.
  intros Hk Hl. revert m. induction Hl as [|kv kv' l l' Hr _ IH]; intros m; [done|].
  assert (forall kv m, set_members fields (kv :: l) m = set_members fields (kv :: l') m) as Hc.
  { intros [k v] m0. cbn. destruct (find_field fields k) as [f|]; [|done]. destruct (fd_set f v m0); cbn; [apply IH|done]. }
  destruct Hr as [->|(k & t & Hin & -> & ->)]; [apply Hc|]. rewrite Forall_forall in Hk. rewrite (Hk k Hin). apply Hc.
Qed.

Definition trade_decimals : list string := ["price"; "quantity"; "trade_id"; "raw_trade_id"].
Definition kline_decimals : list string := ["open"; "high"; "low"; "close"; "volume"; "quote_volume"].
Definition level_decimals : list string := ["price"; "quantity"].

Lemma decode_respelled {M} (fields : list (struct_field M)) zero keys l l' :
  Forall (lenient fields) keys -> Forall member_ok l -> Forall member_ok l' -> Forall2 (respelled keys) l l' ->
  decode_strict fields zero (print (JObject l)) = decode_strict fields zero (print (JObject l')).
Proof.
  intros Hk [Hp Hd]%object_printable [Hp' Hd']%object_printable Hl. unfold decode_strict. rewrite !parse_print by done.
  by apply (respelled_members _ keys).
Qed.

(** Spelling does not matter.  Decimals and ids of trades and candles may be
    JSON numbers or strings of the same text, members in any of the two spellings,
    without changing what is decoded; and so may the numbers of a price level,
    which may as well be a pair instead of an object. *)
Theorem spelling_does_not_matter ov :
  (forall l l', Forall member_ok l -> Forall member_ok l' -> Forall2 (respelled trade_decimals) l l' ->
    @decodeTrade (json_decoders ov) (print (JObject l)) = @decodeTrade (json_decoders ov) (print (JObject l'))) /\
  (forall l l', Forall member_ok l -> Forall member_ok l' -> Forall2 (respelled kline_decimals) l l' ->
    @decodeKline (json_decoders ov) (print (JObject l)) = @decodeKline (json_decoders ov) (print (JObject l'))) /\
  (forall l l', Forall2 (respelled level_decimals) l l' -> decodePriceLevel (JObject l) = decodePriceLevel (JObject l')) /\
  (forall p q p' q', p' = JString p \/ p' = JNumber p -> q' = JString q \/ q' = JNumber q ->
    decodePriceLevel (JArray [p'; q']) = decodePriceLevel (level_json (mkPriceLevel p q))).
Proof.
  split_and!.
  - intros l l' Hl Hl' Hr. apply (decode_respelled _ _ trade_decimals); [|done..]. by repeat (apply Forall_cons_2; [intros t l0 m; reflexivity|]).
  - intros l l' Hl Hl' Hr. apply (decode_respelled _ _ kline_decimals); [|done..]. by repeat (apply Forall_cons_2; [intros t l0 m; reflexivity|]).
  - intros l l' Hr. cbn [decodePriceLevel set_struct]. rewrite (respelled_members level_fields level_decimals l l'); [done| |done].
    by repeat (apply Forall_cons_2; [intros t l0 m; reflexivity|]).
  - by intros p q p' q' [-> | ->] [-> | ->].
Qed.

(** Levels come back from a column, whatever text with the same content the
    database makes of it. *)
Lemma levels_survive_storage l column :
  Forall (fun x => text_ok (pl_Price x) /\ text_ok (pl_Quantity x)) l -> parse column = parse (marshalLevels l) ->
  unmarshalLevels column = Ok l.
Proof.
  intros Hl E. unfold unmarshalLevels, marshalLevels in *. rewrite E, parse_print.
  - clear E. induction Hl as [|[p q] l _ _ IH]; [done|]. cbn [map result_mapM]. cbn in IH |- *. by rewrite IH.
  - clear E. cbn [printable]. induction Hl as [|[p q] l [Hp Hq] _ IH]; [done|]. unfold text_ok in *. cbn [pl_Price pl_Quantity] in *.
    cbn [map forallb level_json printable fst snd pl_Price pl_Quantity]. change (valid_utf8 "price") with true. change (valid_utf8 "quantity") with true.
    by rewrite Hp, Hq, IH.
  - clear E. cbn [nesting]. cut (foldr (fun x n => Z.max (nesting x) n) 0 (map level_json l) <= 1); [unfold maxNestingDepth; lia|].
    induction Hl as [|x l _ _ IH]; [done|]. cbn [map foldr]. cbn [nesting level_json foldr snd]. lia.
Qed.

(** ** Witnesses *)

Definition no_overflow (_ : float64) : Z := int64_min.

Definition sample_trade : tradeMessage :=
  mkTradeMessage (Some 1700000000123000000) None (Some None) "t-1" (String quote_byte (bytes [10; 226; 130; 172]%N)) "100.50" "2" "buy" true.
Definition sample_kline : klineMessage :=
  mkKlineMessage "" "1m" (Some 1700000000000000000) (Some 1700000060000000000) "1" "3" "0.5" "2" "10" "" 7 true (-1).
Definition sample_levels : list PriceLevel := [mkPriceLevel "100" "2"; mkPriceLevel "99.5" "0"].
Definition sample_delta : orderBookDeltaMessage :=
  mkOrderBookDeltaMessage (Some 1700000000123000000) None None "e1" (Some 5) (Some 9) None None sample_levels [].
Definition sample_snapshot : orderBookSnapshotMessage :=
  mkOrderBookSnapshotMessage (Some 1700000000123000000) None None (Some 41) [] sample_levels.

Ltac sample_ok :=
  repeat match goal with
         | |- _ /\ _ => split
         | |- Forall _ (_ :: _) => apply Forall_cons_2
         | |- Forall _ [] => apply Forall_nil_2
         | |- int64 ?z => refine (bool_decide_unpack (int64 z) _); vm_compute; exact I
         | |- text_ok _ => reflexivity
         | |- opt_ok _ _ => cbn [opt_ok]
         | |- member_ok _ => split; [reflexivity|split; [reflexivity|vm_compute; discriminate]]
         | |- _ = _ => vm_compute; reflexivity
         | |- True => exact I
         | |- _ => progress hnf
         end.

Lemma sample_trade_ok : trade_ok sample_trade.
Proof. unfold trade_ok, sample_trade. cbn [tm_EventTime tm_ExchangeTime tm_LocalReceiveTime tm_TradeID tm_RawTradeID tm_Price tm_Quantity tm_Side]. sample_ok. Qed.

Lemma sample_kline_ok : kline_ok sample_kline.
Proof. unfold kline_ok, sample_kline. cbn [km_OpenTime km_CloseTime km_TradeCount km_Revision km_Source km_Interval km_Open km_High km_Low km_Close km_Volume km_QuoteVolume]. sample_ok. Qed.

Lemma sample_delta_ok : delta_ok sample_delta.
Proof. unfold delta_ok, sample_delta, sample_levels. cbn [dm_EventTime dm_ExchangeTime dm_LocalReceiveTime dm_RawEventID dm_FirstUpdateID dm_LastUpdateID dm_PrevUpdateID dm_Sequence dm_Bids dm_Asks]. sample_ok. Qed.

Lemma sample_snapshot_ok : snapshot_ok sample_snapshot.
Proof. unfold snapshot_ok, sample_snapshot, sample_levels. cbn [sm_EventTime sm_ExchangeTime sm_LocalReceiveTime sm_Sequence sm_Bids sm_Asks]. sample_ok. Qed.

Lemma payload_roundtrip_witness :
  @decodeTrade (json_decoders no_overflow) (print (JObject (trade_members sample_trade))) = Ok sample_trade /\
  @decodeKline (json_decoders no_overflow) (print (JObject (kline_members sample_kline))) = Ok sample_kline /\
  @decodeOrderBookDelta (json_decoders no_overflow) (print (JObject (delta_members sample_delta))) = Ok sample_delta /\
  @decodeOrderBookSnapshot (json_decoders no_overflow) (print (JObject (snapshot_members sample_snapshot))) = Ok sample_snapshot.
Proof.
  destruct (payload_roundtrip no_overflow) as (H1 & H2 & H3 & H4).
  exact (conj (H1 _ sample_trade_ok) (conj (H2 _ sample_kline_ok) (conj (H3 _ sample_delta_ok) (H4 _ sample_snapshot_ok)))).
Defined.

(** The decoder does accept documents, and refuses what the theorem excludes. *)
Lemma decoding_is_strict_witness :
  @decodeTrade (json_decoders no_overflow) (print (JObject (trade_members sample_trade))) = Ok sample_trade /\
  (exists l, parse (print (JObject (trade_members sample_trade))) = Ok (JObject l) /\
     Forall (fun kv => known_key (trade_fields no_overflow) kv.1) l) /\
  @decodeTrade (json_decoders no_overflow) (print (JObject (trade_members sample_trade)) +:+ "{}") = Err (ErrJSON "syntax").
Proof.
  assert (@decodeTrade (json_decoders no_overflow) (print (JObject (trade_members sample_trade))) = Ok sample_trade) as H by (vm_compute; reflexivity).
  split; [exact H|]. split; [|vm_compute; reflexivity].
  destruct (decoding_is_strict no_overflow) as ([Hs _] & _). destruct (Hs _ _ H) as [[E _]|El]; [|exact El].
  vm_compute in E. discriminate E.
Defined.

Lemma spelling_does_not_matter_witness :
  @decodeTrade (json_decoders no_overflow) (print (JObject [("event_time", int_json 5); ("price", JNumber "1.50")])) =
  @decodeTrade (json_decoders no_overflow) (print (JObject [("event_time", int_json 5); ("price", JString "1.50")])) /\
  is_ok (@decodeTrade (json_decoders no_overflow) (print (JObject [("event_time", int_json 5); ("price", JNumber "1.50")]))) = true.
Proof.
  split; [|vm_compute; reflexivity]. apply (spelling_does_not_matter no_overflow); [sample_ok..|].
  constructor; [by left|constructor; [|constructor]]. right. exists "price", "1.50". split; [by left|done].
Defined.
