(* ===== verification/OrderBook.v ===== *)
(** * OrderBook: the in-memory book of one group

    internal/runtime/orderbook_state.go, one definition per method, plus
    [Worker.onDeltaApplied] (worker.go), the only caller of [applyDelta].  The
    Go methods mutate the receiver under its mutex; here each returns the state
    it leaves behind next to its result, error paths included. *)

From S2P Require Import Prelude GoStd Model Numeric.

Open Scope Z_scope.

(** ** State *)

Record orderBookState := mkOrderBookState {
  ob_ready : bool;
  ob_groupID : string;
  ob_inputID : string;
  ob_snapInput : string;
  ob_bids : gmap string string;
  ob_asks : gmap string string;
  ob_lastUpdateID : option Z;
  ob_sequence : option Z;
  ob_pending : list OrderBookDelta;
  ob_maxPending : Z
}.

Definition defaultMaxPending : Z := 10000.

Definition newOrderBookState (groupID snapInput : string) : orderBookState :=
  {| ob_ready := false; ob_groupID := groupID; ob_inputID := ""; ob_snapInput := snapInput;
     ob_bids := ∅; ob_asks := ∅; ob_lastUpdateID := None; ob_sequence := None;
     ob_pending := []; ob_maxPending := defaultMaxPending |}.

Definition set_pending (p : list OrderBookDelta) (s : orderBookState) : orderBookState :=
  {| ob_ready := ob_ready s; ob_groupID := ob_groupID s; ob_inputID := ob_inputID s;
     ob_snapInput := ob_snapInput s; ob_bids := ob_bids s; ob_asks := ob_asks s;
     ob_lastUpdateID := ob_lastUpdateID s; ob_sequence := ob_sequence s;
     ob_pending := p; ob_maxPending := ob_maxPending s |}.

Inductive ob_error :=
| ErrBidsOrder (i : nat)
| ErrAsksOrder (i : nat)
| ErrNilPrice
| ErrExpectedSequence (expected got : Z)
| ErrExpectedFirstUpdateID (expected got : Z)
| ErrPrevUpdateIDMismatch (expected got : Z)
| ErrPendingFull (maxPending : Z).

(** ** Sequence helpers *)

Definition copyInt64Ptr (p : option Z) : option Z :=
  match p with
  | None => None
  | Some v => Some v
  end.

(** [None] is the nil error. *)
Definition checkSequenceMatch (currentLastUpdate currentSeq : option Z) (delta : OrderBookDelta)
    : option ob_error :=
  match od_Sequence delta, currentSeq with
  | Some got, Some cur =>
      let expected := wrap64 (cur + 1) in
      if (got =? expected) then None else Some (ErrExpectedSequence expected got)
  | Some _, None => None
  | None, _ =>
      match od_FirstUpdateID delta, currentLastUpdate with
      | Some got, Some cur =>
          let expected := wrap64 (cur + 1) in
          if (got =? expected) then None else Some (ErrExpectedFirstUpdateID expected got)
      | Some _, None => None
      | None, _ =>
          match currentLastUpdate, od_PrevUpdateID delta with
          | Some cur, Some prev =>
              if (prev =? cur) then None else Some (ErrPrevUpdateIDMismatch cur prev)
          | _, _ => None
          end
      end
  end.

(** The two loops of [validateBidAskOrder]: the first adjacent pair out of
    order, or the panic on an unparsable price. *)
Fixpoint check_order (bad : comparison) (err : nat -> ob_error) (i : nat)
    (levels : list PriceLevel) : option ob_error :=
  match levels with
  | l1 :: ((l2 :: _) as rest) =>
      match compareNumeric (pl_Price l1) (pl_Price l2) with
      | None => Some ErrNilPrice
      | Some c => if bool_decide (c = bad) then Some (err (S i))
                  else check_order bad err (S i) rest
      end
  | _ => None
  end.

Definition validateBidAskOrder (bids asks : list PriceLevel) : option ob_error :=
  match check_order Lt ErrBidsOrder 0 bids with
  | Some e => Some e
  | None => check_order Gt ErrAsksOrder 0 asks
  end.

(** ** Applying levels *)

Definition zero_qty (q : string) : bool := bool_decide (q = "0") || bool_decide (q = "0.0").

(** One loop body of [applyOne]: quantity 0 removes the level. *)
Definition apply_level (m : gmap string string) (l : PriceLevel) : gmap string string :=
  if zero_qty (pl_Quantity l) then delete (pl_Price l) m
  else <[pl_Price l := pl_Quantity l]> m.

Definition apply_levels (m : gmap string string) (ls : list PriceLevel) : gmap string string :=
  fold_left apply_level ls m.

(** One loop body of [applySnapshot]: quantity 0 is skipped. *)
Definition load_level (m : gmap string string) (l : PriceLevel) : gmap string string :=
  if zero_qty (pl_Quantity l) then m else <[pl_Price l := pl_Quantity l]> m.

Definition load_levels (ls : list PriceLevel) : gmap string string := fold_left load_level ls ∅.

(** What a successful [applyOne] does to the book and its cursors. *)
Definition advance (s : orderBookState) (delta : OrderBookDelta) : orderBookState :=
  {| ob_ready := ob_ready s; ob_groupID := ob_groupID s; ob_inputID := ob_inputID s;
     ob_snapInput := ob_snapInput s;
     ob_bids := apply_levels (ob_bids s) (od_Bids delta);
     ob_asks := apply_levels (ob_asks s) (od_Asks delta);
     ob_lastUpdateID := copyInt64Ptr (od_LastUpdateID delta);
     ob_sequence := match od_Sequence delta with
                    | Some _ => copyInt64Ptr (od_Sequence delta)
                    | None => ob_sequence s
                    end;
     ob_pending := ob_pending s; ob_maxPending := ob_maxPending s |}.

(** [applyOne]: the new state and [Ok true], or the state untouched and the gap. *)
Definition applyOne (s : orderBookState) (delta : OrderBookDelta)
    : orderBookState * result ob_error bool :=
  match checkSequenceMatch (ob_lastUpdateID s) (ob_sequence s) delta with
  | Some e => (s, Err e)
  | None => (advance s delta, Ok true)
  end.

(** The skip test of [drainPending]: the delta is not ahead of the snapshot. *)
Definition not_ahead (s : orderBookState) (d : OrderBookDelta) : bool :=
  match ob_lastUpdateID s, od_LastUpdateID d with
  | Some cur, Some x => (x <=? cur)
  | _, _ => false
  end
  || match ob_sequence s, od_Sequence d with
     | Some cur, Some x => (x <=? cur)
     | _, _ => false
     end.

(** The second loop of [drainPending]: every remaining delta must apply. *)
Fixpoint apply_rest (s : orderBookState) (ds : list OrderBookDelta)
    : orderBookState * option ob_error :=
  match ds with
  | [] => (s, None)
  | d :: ds' => match applyOne s d with
                | (s', Err e) => (s', Some e)
                | (s', Ok _) => apply_rest s' ds'
                end
  end.

(** The first loop: skip, then apply the first delta that is ahead. *)
Fixpoint drain_loop (s : orderBookState) (buf : list OrderBookDelta)
    : orderBookState * option ob_error :=
  match buf with
  | [] => (s, None)
  | d :: buf' =>
      if not_ahead s d then drain_loop s buf'
      else match applyOne s d with
           | (s', Err e) => (s', Some e)
           | (s', Ok true) => apply_rest s' buf'
           | (s', Ok false) => drain_loop s' buf'
           end
  end.

Definition drainPending (s : orderBookState) : orderBookState * option ob_error :=
  drain_loop (set_pending [] s) (ob_pending s).

(** ** The public surface *)

(** What [applySnapshot] installs before draining the buffered deltas. *)
Definition install_snapshot (s : orderBookState) (snap : OrderBookSnapshot) : orderBookState :=
  {| ob_ready := true; ob_groupID := ob_groupID s; ob_inputID := os_InputID snap;
     ob_snapInput := ob_snapInput s;
     ob_bids := load_levels (os_Bids snap); ob_asks := load_levels (os_Asks snap);
     ob_lastUpdateID := None; ob_sequence := os_Sequence snap;
     ob_pending := ob_pending s; ob_maxPending := ob_maxPending s |}.

Definition applySnapshot (s : orderBookState) (snap : OrderBookSnapshot)
    : orderBookState * option ob_error :=
  match validateBidAskOrder (os_Bids snap) (os_Asks snap) with
  | Some e => (s, Some e)
  | None =>
      let s1 := install_snapshot s snap in
      if (0 <? Z.of_nat (length (ob_pending s1))) then
        match drainPending s1 with
        | (s2, Some e) => (set_pending [] s2, Some e)
        | (s2, None) => (s2, None)
        end
      else (s1, None)
  end.

Definition applyDelta (s : orderBookState) (delta : OrderBookDelta)
    : orderBookState * result ob_error bool :=
  if negb (ob_ready s) then
    if (ob_maxPending s <=? Z.of_nat (length (ob_pending s))) then
      (s, Err (ErrPendingFull (ob_maxPending s)))
    else (set_pending (ob_pending s ++ [delta]) s, Ok false)
  else if (0 <? Z.of_nat (length (ob_pending s))) then
    match drainPending s with
    | (s1, Some e) => (s1, Err e)
    | (s1, None) => applyOne s1 delta
    end
  else applyOne s delta.

Definition isReady (s : orderBookState) : bool := ob_ready s.

Definition reset (s : orderBookState) : orderBookState :=
  {| ob_ready := false; ob_groupID := ob_groupID s; ob_inputID := ob_inputID s;
     ob_snapInput := ob_snapInput s; ob_bids := ∅; ob_asks := ∅;
     ob_lastUpdateID := None; ob_sequence := None; ob_pending := [];
     ob_maxPending := ob_maxPending s |}.

Definition getSequenceAndLastUpdateID (s : orderBookState) : option Z * option Z :=
  (copyInt64Ptr (ob_sequence s), copyInt64Ptr (ob_lastUpdateID s)).

(** [Worker.onDeltaApplied]: an error of [applyDelta] resets the book. *)
Definition onDeltaApplied (orderBook : option orderBookState) (delta : OrderBookDelta)
    : option orderBookState :=
  match orderBook with
  | None => None
  | Some ob => match applyDelta ob delta with
               | (ob', Err _) => Some (reset ob')
               | (ob', Ok _) => Some ob'
               end
  end.

(** The same on a book that exists, as the worker always has it. *)
Definition on_delta (ob : orderBookState) (delta : OrderBookDelta) : orderBookState :=
  match applyDelta ob delta with
  | (ob', Err _) => reset ob'
  | (ob', Ok _) => ob'
  end.

(** ** Export *)

Inductive sortDir := sortDesc | sortAsc.

(** The comparator of [sort.Slice], as an order on parsed prices. *)
Definition level_le (dir : sortDir) (a b : PriceLevel * bigfloat) : Prop :=
  match dir with
  | sortDesc => bf_le (snd b) (snd a)
  | sortAsc => bf_le (snd a) (snd b)
  end.

#[export] Instance level_le_dec dir : RelDecision (level_le dir).
Proof. intros a b. unfold level_le. destruct dir; apply _. Defined.

(** The first loop of [exportLevels], over the map in some iteration order. *)
Definition export_levels (it : list (string * string)) : list (PriceLevel * option bigfloat) :=
  map (fun pq => (mkPriceLevel pq.1 pq.2, price_key pq.1))
      (List.filter (fun pq => negb (zero_qty pq.2)) it).

(** Every price parsed, or not. *)
Definition parsed_levels (ls : list (PriceLevel * option bigfloat))
    : option (list (PriceLevel * bigfloat)) :=
  mapM (fun lk => k ← lk.2; Some (lk.1, k)) ls.

(** [exportLevels]: [it] is the order in which the runtime iterates over the
    map.  [None] is the nil-pointer panic of the comparator, which runs as soon
    as there are two levels. *)
Definition exportLevels (it : list (string * string)) (dir : sortDir) : option (list PriceLevel) :=
  let ls := export_levels it in
  if (Z.of_nat (length ls) <=? 1) then Some (map fst ls)
  else ps ← parsed_levels ls; Some (map fst (merge_sort (level_le dir) ps)).

(** [generateSnapshot], given the iteration orders of the two maps. *)
Definition generateSnapshot (iter : gmap string string -> list (string * string))
    (s : orderBookState) (at_ : time.Time) : option OrderBookSnapshot :=
  if negb (ob_ready s) then
    Some (mkOrderBookSnapshot 0 (ob_groupID s) (ob_inputID s) at_ None [] [] time.zero)
  else
    bids ← exportLevels (iter (ob_bids s)) sortDesc;
    asks ← exportLevels (iter (ob_asks s)) sortAsc;
    Some (mkOrderBookSnapshot 0 (ob_groupID s) (ob_inputID s) at_
            (copyInt64Ptr (ob_sequence s)) bids asks time.zero).

(** ** Levels: the last mention of a price decides *)

(** Quantity a price is last given in a list of updates. *)
Fixpoint last_update (p : string) (us : list PriceLevel) : option string :=
  match us with
  | [] => None
  | l :: us' => match last_update p us' with
                | Some q => Some q
                | None => if bool_decide (pl_Price l = p) then Some (pl_Quantity l) else None
                end
  end.

Lemma apply_level_lookup m l p :
  apply_level m l !! p =
    if bool_decide (pl_Price l = p) then
      (if zero_qty (pl_Quantity l) then None else Some (pl_Quantity l))
    else m !! p.
Proof.
  unfold apply_level. case_bool_decide as Hp; destruct (zero_qty _); subst.
  - apply lookup_delete_eq.
  - apply lookup_insert_eq.
  - by apply lookup_delete_ne.
  - by apply lookup_insert_ne.
Qed.

Lemma apply_levels_lookup us m p :
  apply_levels m us !! p =
    match last_update p us with
    | Some q => if zero_qty q then None else Some q
    | None => m !! p
    end.
Proof.
  unfold apply_levels. revert m. induction us as [|l us IH]; intros m; [done|].
  simpl. rewrite IH. destruct (last_update p us); [done|].
  rewrite apply_level_lookup. by case_bool_decide.
Qed.

Lemma apply_levels_app m us vs : apply_levels m (us ++ vs) = apply_levels (apply_levels m us) vs.
Proof. apply fold_left_app. Qed.

(** Loading a snapshot is applying its non-zero levels to an empty book. *)
Lemma load_levels_apply ls :
  load_levels ls = apply_levels ∅ (List.filter (fun l => negb (zero_qty (pl_Quantity l))) ls).
Proof.
  unfold load_levels, apply_levels. generalize (∅ : gmap string string).
  induction ls as [|l ls IH]; intros m; [done|]. simpl. rewrite IH.
  unfold load_level. destruct (zero_qty (pl_Quantity l)) eqn:E; simpl; [done|].
  f_equal. unfold apply_level. by rewrite E.
Qed.

(** No stored level has one of the two quantities the code reads as zero. *)
Definition zero_free (m : gmap string string) : Prop := map_Forall (fun _ q => zero_qty q = false) m.

Lemma zero_free_empty : zero_free ∅.
Proof. apply map_Forall_empty. Qed.

Lemma apply_levels_zero_free m us : zero_free m -> zero_free (apply_levels m us).
Proof.
  intros Hm p q. rewrite apply_levels_lookup.
  destruct (last_update p us) as [r|]; [|apply Hm].
  destruct (zero_qty r) eqn:E; [done|]. by intros [= <-].
Qed.

Lemma load_levels_zero_free ls : zero_free (load_levels ls).
Proof. rewrite load_levels_apply. apply apply_levels_zero_free, zero_free_empty. Qed.

#[export] Hint Resolve zero_free_empty apply_levels_zero_free load_levels_zero_free : mdb.

(** ** The state invariant *)

Record ob_wf (s : orderBookState) : Prop := {
  wf_bids : zero_free (ob_bids s);
  wf_asks : zero_free (ob_asks s);
  wf_not_ready : ob_ready s = false ->
    ob_bids s = ∅ /\ ob_asks s = ∅ /\ ob_lastUpdateID s = None /\ ob_sequence s = None;
  wf_ready : ob_ready s = true -> ob_pending s = [];
  wf_pending : Z.of_nat (length (ob_pending s)) <= ob_maxPending s
}.

(** One call of the public surface; [onDeltaApplied] is how deltas arrive. *)
Inductive ob_step : orderBookState -> orderBookState -> Prop :=
| step_snapshot s snap : ob_step s (fst (applySnapshot s snap))
| step_delta s delta : ob_step s (on_delta s delta)
| step_applyDelta s delta : ob_step s (fst (applyDelta s delta))
| step_reset s : ob_step s (reset s).

Definition ob_reachable (g i : string) (s : orderBookState) : Prop :=
  rtc ob_step (newOrderBookState g i) s.

(** What the drain leaves alone: readiness, and the buffer it was given. *)
Record same_mode (s s' : orderBookState) : Prop := {
  sm_ready : ob_ready s' = ob_ready s;
  sm_pending : ob_pending s' = ob_pending s;
  sm_max : ob_maxPending s' = ob_maxPending s;
  sm_bids : zero_free (ob_bids s) -> zero_free (ob_bids s');
  sm_asks : zero_free (ob_asks s) -> zero_free (ob_asks s')
}.

#[export] Instance same_mode_refl : Reflexive same_mode.
Proof. by constructor. Qed.

#[export] Instance same_mode_trans : Transitive same_mode.
Proof. intros s t u [] []. constructor; try congruence; auto. Qed.

Lemma advance_mode s d : same_mode s (advance s d).
Proof. constructor; simpl; auto with mdb. Qed.

Lemma applyOne_mode s d : same_mode s (fst (applyOne s d)).
Proof. unfold applyOne. destruct (checkSequenceMatch _ _ _); [done|apply advance_mode]. Qed.

Lemma apply_rest_mode s ds : same_mode s (fst (apply_rest s ds)).
Proof.
  revert s. induction ds as [|d ds IH]; intros s; [done|]. simpl.
  pose proof (applyOne_mode s d) as H. destruct (applyOne s d) as [s' [b|e]]; [|done].
  by etrans.
Qed.

Lemma drain_loop_mode s buf : same_mode s (fst (drain_loop s buf)).
Proof.
  revert s. induction buf as [|d buf IH]; intros s; [done|]. simpl.
  destruct (not_ahead s d); [apply IH|].
  pose proof (applyOne_mode s d) as H. destruct (applyOne s d) as [s' [[]|e]]; [|by etrans|done].
  etrans; [exact H|]. apply apply_rest_mode.
Qed.

Lemma wf_new g i : ob_wf (newOrderBookState g i).
Proof. constructor; simpl; auto with mdb. by intros; unfold defaultMaxPending. Qed.

Lemma wf_reset s : 0 <= ob_maxPending s -> ob_wf (reset s).
Proof. constructor; simpl; auto with mdb. Qed.

Lemma wf_max_nonneg s : ob_wf s -> 0 <= ob_maxPending s.
Proof. intros [? ? ? ? H]. lia. Qed.

(** A ready state with an empty buffer and zero-free maps is well formed. *)
Lemma wf_ready_intro s s' :
  same_mode s s' -> zero_free (ob_bids s) -> zero_free (ob_asks s) ->
  ob_ready s = true -> ob_pending s = [] -> 0 <= ob_maxPending s -> ob_wf s'.
Proof.
  intros [H1 H2 H3 H4 H5] Hb Ha Hr Hp Hm. constructor; auto.
  - congruence.
  - congruence.
  - rewrite H2, H3, Hp. simpl. lia.
Qed.

Lemma applySnapshot_wf s snap : ob_wf s -> ob_wf (fst (applySnapshot s snap)).
Proof.
  intros Hwf. unfold applySnapshot. destruct (validateBidAskOrder _ _); [done|].
  pose proof (wf_max_nonneg s Hwf) as Hmax.
  destruct (Z.ltb_spec 0 (Z.of_nat (length (ob_pending (install_snapshot s snap))))) as [Hl|Hl].
  - unfold drainPending. set (s1 := set_pending [] (install_snapshot s snap)).
    pose proof (drain_loop_mode s1 (ob_pending (install_snapshot s snap))) as Hm.
    destruct (drain_loop s1 _) as [s2 [e|]]; simpl in Hm;
      (eapply (wf_ready_intro s1); [|simpl; auto with mdb..]).
    + etrans; [exact Hm|]. destruct Hm as [? Hp ? ? ?]. constructor; simpl in *; auto.
    + done.
  - simpl in Hl. eapply (wf_ready_intro (install_snapshot s snap)); simpl; auto with mdb; [done|].
    destruct (ob_pending s); [done|simpl in Hl; lia].
Qed.

Lemma applyDelta_wf s d : ob_wf s -> ob_wf (fst (applyDelta s d)).
Proof.
  intros Hwf. pose proof Hwf as [Hb Ha Hn Hr Hp]. unfold applyDelta.
  destruct (ob_ready s) eqn:Er; cbn [negb].
  - rewrite (Hr eq_refl). simpl.
    eapply (wf_ready_intro s); auto; [apply applyOne_mode|by apply wf_max_nonneg].
  - destruct (Z.leb_spec (ob_maxPending s) (Z.of_nat (length (ob_pending s)))); [done|].
    constructor; simpl; auto; [congruence|]. rewrite length_app. simpl. lia.
Qed.

Lemma applyDelta_max s d : ob_wf s -> 0 <= ob_maxPending (fst (applyDelta s d)).
Proof. intros H. by apply wf_max_nonneg, applyDelta_wf. Qed.

Lemma on_delta_wf s d : ob_wf s -> ob_wf (on_delta s d).
Proof.
  intros Hwf. unfold on_delta. pose proof (applyDelta_wf s d Hwf).
  pose proof (applyDelta_max s d Hwf).
  destruct (applyDelta s d) as [s' [b|e]]; [done|by apply wf_reset].
Qed.

Lemma ob_step_wf s s' : ob_step s s' -> ob_wf s -> ob_wf s'.
Proof.
  intros [] H; auto using applySnapshot_wf, on_delta_wf, applyDelta_wf, wf_reset, wf_max_nonneg.
Qed.

#[export] Hint Resolve ob_step_wf wf_new : mdb.

(** Every state the book reaches is well formed: a book that is not ready
    is empty and has no cursor, a ready book has no buffered delta, the buffer
    never exceeds its cap, and no level is stored with quantity "0" or "0.0". *)
Theorem reachable_book_wf g i s : ob_reachable g i s -> ob_wf s.
Proof.
  unfold ob_reachable. generalize (wf_new g i). generalize (newOrderBookState g i).
  intros s0 H0 Hr. induction Hr; eauto with mdb.
Qed.

Definition lvl (p q : string) : PriceLevel := mkPriceLevel p q.

Definition sample_snapshot (seq : option Z) (bids asks : list PriceLevel) : OrderBookSnapshot :=
  mkOrderBookSnapshot 0 "g" "i" 0 seq bids asks 0.

Definition seq_delta (seq : Z) (bids asks : list PriceLevel) : OrderBookDelta :=
  mkOrderBookDelta "g" "i" 0 None None "" None None None (Some seq) bids asks "" "t" 0 seq 0.

Lemma reachable_book_wf_witness :
  ob_wf (on_delta (newOrderBookState "g" "i") (seq_delta 1 [lvl "100" "2"] [])).
Proof.
  apply (reachable_book_wf "g" "i"). apply rtc_once. constructor.
Defined.

(** ** Synchronisation with the delta stream *)

(** The deltas carry the sequence numbers [k], [k + 1], ... *)
Fixpoint contiguous (k : Z) (ds : list OrderBookDelta) : Prop :=
  match ds with
  | [] => True
  | d :: ds' => od_Sequence d = Some k /\ contiguous (k + 1) ds'
  end.

(** The reference behaviour of a synchronised book: every delta is applied. *)
Definition replay (s : orderBookState) (ds : list OrderBookDelta) : orderBookState :=
  fold_left advance ds s.

(** Readiness, a known sequence and an empty buffer. *)
Definition synced (k : Z) (s : orderBookState) : Prop :=
  ob_ready s = true /\ ob_sequence s = Some k /\ ob_pending s = [].

Definition has_sequence (d : OrderBookDelta) : Prop := is_Some (od_Sequence d).

Lemma advance_bids_app s ds :
  ob_bids (replay s ds) = apply_levels (ob_bids s) (concat (map od_Bids ds)) /\
  ob_asks (replay s ds) = apply_levels (ob_asks s) (concat (map od_Asks ds)).
Proof.
  unfold replay. revert s. induction ds as [|d ds IH]; intros s; [done|].
  simpl. rewrite !apply_levels_app. apply (IH (advance s d)).
Qed.

Lemma contiguous_app k ds es :
  contiguous k (ds ++ es) <-> contiguous k ds /\ contiguous (k + Z.of_nat (length ds)) es.
Proof.
  revert k. induction ds as [|d ds IH]; intros k; cbn [contiguous app length].
  - replace (k + Z.of_nat 0) with k by lia. tauto.
  - rewrite IH. replace (k + 1 + Z.of_nat (length ds)) with (k + Z.of_nat (S (length ds))) by lia.
    tauto.
Qed.

Lemma checkSequenceMatch_next lu k d :
  od_Sequence d = Some (k + 1) -> int64 k -> k <> int64_max ->
  checkSequenceMatch lu (Some k) d = None.
Proof.
  intros Hd Hk Hne. unfold checkSequenceMatch. rewrite Hd, wrap64_succ, Z.eqb_refl; done.
Qed.

(** A check against a known sequence passes only on the next number. *)
Lemma checkSequenceMatch_inv lu k d x :
  od_Sequence d = Some x -> checkSequenceMatch lu (Some k) d = None -> x = wrap64 (k + 1).
Proof.
  intros Hd. unfold checkSequenceMatch. rewrite Hd.
  destruct (Z.eqb_spec x (wrap64 (k + 1))); done.
Qed.

Lemma applyOne_next k s d :
  ob_sequence s = Some k -> od_Sequence d = Some (k + 1) -> int64 k -> k <> int64_max ->
  applyOne s d = (advance s d, Ok true).
Proof.
  intros Hs Hd Hk Hne. unfold applyOne. rewrite Hs.
  by rewrite (checkSequenceMatch_next _ k d).
Qed.

Lemma advance_synced k s d :
  synced k s -> od_Sequence d = Some (k + 1) -> synced (k + 1) (advance s d).
Proof. intros (H1 & H2 & H3) Hd. split; [done|]. simpl. by rewrite Hd. Qed.

Lemma apply_rest_contiguous k s ds :
  ob_sequence s = Some k -> contiguous (k + 1) ds ->
  int64_min <= k -> k + Z.of_nat (length ds) <= int64_max ->
  apply_rest s ds = (replay s ds, None) /\
  ob_sequence (replay s ds) = Some (k + Z.of_nat (length ds)).
Proof.
  revert k s. induction ds as [|d ds IH]; intros k s Hs Hc Hmin Hmax.
  { simpl. split; [done|]. rewrite Hs. f_equal. lia. }
  destruct Hc as [Hd Hc]. cbn [length] in *.
  assert (applyOne s d = (advance s d, Ok true)) as Ha.
  { apply (applyOne_next k); [done..| |]; unfold int64, int64_min in *; lia. }
  destruct (IH (k + 1) (advance s d)) as [E1 E2]; [simpl; by rewrite Hd|done|lia|lia|].
  simpl. rewrite Ha. change (replay s (d :: ds)) with (replay (advance s d) ds).
  rewrite E1, E2. split; [done|]. f_equal. lia.
Qed.

Lemma applyDelta_synced k s d :
  synced k s -> applyDelta s d = applyOne s d.
Proof. intros (Hr & _ & Hp). unfold applyDelta. by rewrite Hr, Hp. Qed.

Lemma on_delta_next k s d :
  synced k s -> od_Sequence d = Some (k + 1) -> int64 k -> k <> int64_max ->
  on_delta s d = advance s d.
Proof.
  intros Hs Hd Hk Hne. unfold on_delta. rewrite (applyDelta_synced k) by done.
  by rewrite (applyOne_next k) by (try apply Hs; done).
Qed.

Lemma on_delta_not_ready s d : ob_ready s = false -> ob_ready (on_delta s d) = false.
Proof.
  intros H. unfold on_delta, applyDelta. rewrite H. simpl.
  by destruct (ob_maxPending s <=? _).
Qed.

Lemma on_deltas_not_ready s ds : ob_ready s = false -> ob_ready (fold_left on_delta ds s) = false.
Proof.
  revert s. induction ds as [|d ds IH]; intros s H; [done|]. simpl.
  by apply IH, on_delta_not_ready.
Qed.

Lemma on_delta_gap k s d x :
  synced k s -> od_Sequence d = Some x -> x <> wrap64 (k + 1) -> on_delta s d = reset s.
Proof.
  intros Hs Hd Hne. unfold on_delta. rewrite (applyDelta_synced k) by done.
  unfold applyOne, checkSequenceMatch. destruct Hs as (_ & -> & _). rewrite Hd.
  by destruct (Z.eqb_spec x (wrap64 (k + 1))).
Qed.

Lemma synced_fold k s ds :
  synced k s -> contiguous (k + 1) ds ->
  int64_min <= k -> k + Z.of_nat (length ds) <= int64_max ->
  fold_left on_delta ds s = replay s ds.
Proof.
  revert k s. induction ds as [|d ds IH]; intros k s Hs Hc Hmin Hmax; [done|].
  destruct Hc as [Hd Hc]. cbn [length] in *. simpl.
  rewrite (on_delta_next k) by (first [done | unfold int64; lia]).
  apply (IH (k + 1)); [by apply advance_synced|done|lia|lia].
Qed.

Lemma replay_synced k s ds :
  synced k s -> contiguous (k + 1) ds -> synced (k + Z.of_nat (length ds)) (replay s ds).
Proof.
  revert k s. induction ds as [|d ds IH]; intros k s Hs Hc.
  { by rewrite Z.add_0_r. }
  destruct Hc as [Hd Hc]. cbn [length].
  replace (k + Z.of_nat (S (length ds))) with (k + 1 + Z.of_nat (length ds)) by lia.
  apply (IH (k + 1) (advance s d)); [by apply advance_synced|done].
Qed.

(** (C22) A synchronised book follows a contiguous delta stream exactly: it stays
    ready, its sequence is the number of the last delta, and each price holds
    what the stream last said about it (absent when that is zero, and the old
    quantity when the stream never mentions it). *)
Theorem synced_book_follows_stream k s ds :
  synced k s -> contiguous (k + 1) ds ->
  int64_min <= k -> k + Z.of_nat (length ds) <= int64_max ->
  let s' := fold_left on_delta ds s in
  synced (k + Z.of_nat (length ds)) s' /\
  (forall p, ob_bids s' !! p = match last_update p (concat (map od_Bids ds)) with
                               | Some q => if zero_qty q then None else Some q
                               | None => ob_bids s !! p
                               end) /\
  (forall p, ob_asks s' !! p = match last_update p (concat (map od_Asks ds)) with
                               | Some q => if zero_qty q then None else Some q
                               | None => ob_asks s !! p
                               end).
Proof.
  intros Hs Hc Hmin Hmax s'. subst s'. rewrite (synced_fold k) by done.
  split; [by apply replay_synced|]. destruct (advance_bids_app s ds) as [-> ->].
  split; intros p; apply apply_levels_lookup.
Qed.

(** (C25) Gap detection is sound: when every delta carries a sequence number, a
    book that is still ready after a run of deltas has seen them without a gap,
    a repetition or a reordering. *)
Theorem still_ready_means_contiguous k s ds :
  synced k s -> Forall has_sequence ds ->
  int64_min <= k -> k + Z.of_nat (length ds) <= int64_max ->
  ob_ready (fold_left on_delta ds s) = true -> contiguous (k + 1) ds.
Proof.
  intros Hs Hds. revert k s Hs. induction Hds as [|d ds [x Hx] _ IH]; intros k s Hs Hmin Hmax Hr.
  { done. }
  cbn [length] in *. simpl in Hr.
  assert (wrap64 (k + 1) = k + 1) as Hw.
  { apply wrap64_succ; unfold int64, int64_min in *; lia. }
  destruct (decide (x = k + 1)) as [->|Hne].
  - split; [done|]. apply (IH (k + 1) (advance s d)); [by apply advance_synced|lia|lia|].
    assert (on_delta s d = advance s d) as <-; [|done].
    apply (on_delta_next k); [done..| |]; unfold int64, int64_min in *; lia.
  - exfalso. assert (on_delta s d = reset s) as E.
    { apply (on_delta_gap k s d x); [done|done|congruence]. }
    rewrite E in Hr. by rewrite (on_deltas_not_ready (reset s)) in Hr.
Qed.

Lemma synced_book_follows_stream_witness :
  let s := fst (applySnapshot (newOrderBookState "g" "i") (sample_snapshot (Some 5) [lvl "100" "2"] [])) in
  let ds := [seq_delta 6 [lvl "100" "0"; lvl "99" "1"] []; seq_delta 7 [] [lvl "101" "3"]] in
  synced 7 (fold_left on_delta ds s) /\
  ob_bids (fold_left on_delta ds s) !! "100" = None /\
  ob_asks (fold_left on_delta ds s) !! "101" = Some "3".
Proof.
  intros s ds.
  destruct (synced_book_follows_stream 5 s ds) as (H1 & H2 & H3);
    [by repeat split|by repeat split|vm_compute; discriminate..|].
  split; [exact H1|]. split; [apply H2|apply H3].
Defined.

Lemma still_ready_means_contiguous_witness :
  let s := fst (applySnapshot (newOrderBookState "g" "i") (sample_snapshot (Some 5) [] [])) in
  contiguous 6 [seq_delta 6 [] []; seq_delta 7 [] []].
Proof.
  intros s. apply (still_ready_means_contiguous 5 s); [by repeat split|repeat constructor; by eexists|vm_compute; discriminate..|done].
Defined.

(** ** Joining the stream through a reference snapshot *)

(** Draining skips what the snapshot covers and applies the rest. *)
Lemma drain_loop_contiguous k q s ds :
  ob_sequence s = Some q -> ob_lastUpdateID s = None -> contiguous k ds ->
  k <= q + 1 -> int64_min <= q -> k + Z.of_nat (length ds) <= int64_max + 1 ->
  drain_loop s ds = (replay s (drop (Z.to_nat (q + 1 - k)) ds), None).
Proof.
  intros Hs Hl. revert k. induction ds as [|d ds IH]; intros k Hc Hk Hmin Hmax.
  { by rewrite drop_nil. }
  destruct Hc as [Hd Hc]. cbn [length] in *. simpl drain_loop.
  unfold not_ahead. rewrite Hl, Hs, Hd. simpl.
  destruct (Z.leb_spec k q).
  - replace (Z.to_nat (q + 1 - k)) with (S (Z.to_nat (q + 1 - (k + 1)))) by lia.
    apply (IH (k + 1)); auto; lia.
  - assert (k = q + 1) as -> by lia. rewrite Z.sub_diag.
    rewrite (applyOne_next q) by (first [done | unfold int64; lia]).
    change (apply_rest (advance s d) ds = (replay (advance s d) ds, None)).
    apply (apply_rest_contiguous (q + 1)); [simpl; by rewrite Hd|done|lia|lia].
Qed.

Lemma contiguous_drop k n ds : contiguous k ds -> contiguous (k + Z.of_nat n) (drop n ds).
Proof.
  revert k ds. induction n as [|n IH]; intros k ds Hc.
  { by rewrite drop_0, Z.add_0_r. }
  destruct ds as [|d ds]; [done|]. destruct Hc as [_ Hc].
  replace (k + Z.of_nat (S n)) with (k + 1 + Z.of_nat n) by lia. by apply IH.
Qed.

(** Before the reference snapshot deltas only pile up. *)
Lemma buffered ds s :
  ob_ready s = false -> Z.of_nat (length (ob_pending s) + length ds) <= ob_maxPending s ->
  fold_left on_delta ds s = set_pending (ob_pending s ++ ds) s.
Proof.
  revert s. induction ds as [|d ds IH]; intros s Hr Hlen.
  { rewrite app_nil_r. by destruct s. }
  cbn [length] in Hlen. simpl.
  assert (on_delta s d = set_pending (ob_pending s ++ [d]) s) as E.
  { unfold on_delta, applyDelta. rewrite Hr. simpl.
    by destruct (Z.leb_spec (ob_maxPending s) (Z.of_nat (length (ob_pending s)))); [lia|]. }
  rewrite E, IH; [|done|].
  - simpl. by rewrite <- app_assoc.
  - simpl. rewrite length_app. simpl. lia.
Qed.

(** A valid snapshot on a state with a non-empty or empty buffer. *)
Lemma applySnapshot_valid s snap :
  validateBidAskOrder (os_Bids snap) (os_Asks snap) = None ->
  applySnapshot s snap =
    let r := drain_loop (set_pending [] (install_snapshot s snap)) (ob_pending s) in
    (match snd r with Some _ => set_pending [] (fst r) | None => fst r end, snd r).
Proof.
  intros Hv. unfold applySnapshot. rewrite Hv. unfold drainPending. simpl ob_pending.
  destruct (ob_pending s) as [|d ds] eqn:Ep.
  - simpl. unfold set_pending, install_snapshot. simpl. by rewrite Ep.
  - simpl length. replace (0 <? Z.of_nat (S (length ds))) with true by (symmetry; apply Z.ltb_lt; lia).
    by destruct (drain_loop _ _) as [s2 [e|]].
Qed.

(** What a buffer contiguous from at most [q + 1] becomes under a snapshot at [q]. *)
Lemma applySnapshot_joins k q s snap :
  contiguous k (ob_pending s) -> os_Sequence snap = Some q ->
  validateBidAskOrder (os_Bids snap) (os_Asks snap) = None ->
  k <= q + 1 -> int64_min <= q -> k + Z.of_nat (length (ob_pending s)) <= int64_max + 1 ->
  applySnapshot s snap =
    (replay (set_pending [] (install_snapshot s snap))
            (drop (Z.to_nat (q + 1 - k)) (ob_pending s)), None).
Proof.
  intros Hc Hq Hv Hk Hmin Hmax. rewrite (applySnapshot_valid s snap Hv).
  by rewrite (drain_loop_contiguous k q).
Qed.

(** (C23) Snapshot and stream join without loss: a worker that buffers a
    contiguous stream, receives a reference snapshot at sequence [q] inside the
    buffered range and goes on with the stream ends synchronised, and its book
    is the snapshot's levels updated by exactly the deltas numbered above [q]. *)
Theorem snapshot_joins_stream g i k q ds es snap :
  contiguous k (ds ++ es) -> k <= q + 1 <= k + Z.of_nat (length ds) ->
  Z.of_nat (length ds) <= defaultMaxPending ->
  int64_min <= q -> k + Z.of_nat (length (ds ++ es)) <= int64_max + 1 ->
  validateBidAskOrder (os_Bids snap) (os_Asks snap) = None -> os_Sequence snap = Some q ->
  let r := applySnapshot (fold_left on_delta ds (newOrderBookState g i)) snap in
  let s' := fold_left on_delta es (fst r) in
  let newer := drop (Z.to_nat (q + 1 - k)) (ds ++ es) in
  snd r = None /\ synced (k + Z.of_nat (length (ds ++ es)) - 1) s' /\
  (forall p, ob_bids s' !! p = match last_update p (concat (map od_Bids newer)) with
                               | Some x => if zero_qty x then None else Some x
                               | None => load_levels (os_Bids snap) !! p
                               end) /\
  (forall p, ob_asks s' !! p = match last_update p (concat (map od_Asks newer)) with
                               | Some x => if zero_qty x then None else Some x
                               | None => load_levels (os_Asks snap) !! p
                               end).
Proof.
  intros Hc Hk Hlen Hmin Hmax Hv Hq r s' newer. subst s' r newer.
  set (s1 := fold_left on_delta ds (newOrderBookState g i)).
  assert (s1 = set_pending ds (newOrderBookState g i)) as E1 by (by apply buffered).
  assert (ob_pending s1 = ds) as Ep by (by rewrite E1).
  set (n := Z.to_nat (q + 1 - k)).
  assert (n <= length ds)%nat as Hn by lia.
  pose proof Hc as [Hcd Hce]%contiguous_app. rewrite length_app in *.
  assert (applySnapshot s1 snap =
          (replay (set_pending [] (install_snapshot s1 snap)) (drop n ds), None)) as Ea.
  { rewrite (applySnapshot_joins k q); rewrite ?Ep; auto; lia. }
  assert (synced q (set_pending [] (install_snapshot s1 snap))) as H0 by done.
  assert (contiguous (q + 1) (drop n (ds ++ es))) as Hn'.
  { replace (q + 1) with (k + Z.of_nat n) by lia. by apply contiguous_drop. }
  rewrite Ea. cbn [fst snd]. split; [done|].
  rewrite drop_app_le in Hn' |- * by done. pose proof Hn' as [Hn1 _]%contiguous_app.
  rewrite (synced_fold (k + Z.of_nat (length ds) - 1)); cycle 1.
  { pose proof (replay_synced q _ _ H0 Hn1) as H. rewrite length_drop in H.
    by replace (k + Z.of_nat (length ds) - 1) with (q + Z.of_nat (length ds - n)) by lia. }
  { by replace (k + Z.of_nat (length ds) - 1 + 1) with (k + Z.of_nat (length ds)) by lia. }
  { lia. }
  { lia. }
  unfold replay. rewrite <- fold_left_app. fold (replay (set_pending [] (install_snapshot s1 snap)) (drop n ds ++ es)).
  split.
  { pose proof (replay_synced q _ _ H0 Hn') as H. rewrite length_app, length_drop in H.
    by replace (k + Z.of_nat (length ds + length es) - 1)
      with (q + Z.of_nat (length ds - n + length es)) by lia. }
  destruct (advance_bids_app (set_pending [] (install_snapshot s1 snap)) (drop n ds ++ es)) as [-> ->].
  split; intros p; apply apply_levels_lookup.
Qed.

Lemma snapshot_joins_stream_witness :
  let snap := sample_snapshot (Some 6) [lvl "100" "2"] [] in
  let ds := [seq_delta 6 [lvl "99" "1"] []; seq_delta 7 [lvl "100" "0"] []] in
  let s' := fold_left on_delta [seq_delta 8 [] [lvl "101" "3"]]
              (fst (applySnapshot (fold_left on_delta ds (newOrderBookState "g" "i")) snap)) in
  synced 8 s' /\ ob_bids s' !! "99" = None.
Proof.
  intros snap ds s'.
  destruct (snapshot_joins_stream "g" "i" 6 6 ds [seq_delta 8 [] [lvl "101" "3"]] snap)
    as (_ & H1 & H2 & _); [by repeat split|vm_compute; split; discriminate|vm_compute; discriminate..
                          |done|done|].
  split; [exact H1|]. exact (H2 "99").
Defined.

(** ** Sorted exports *)

(** [a] may stand before [b] in an export of direction [dir]. *)
Definition in_order (dir : sortDir) (a b : PriceLevel) : Prop :=
  match compareNumeric (pl_Price a) (pl_Price b) with
  | Some c => c <> (match dir with sortDesc => Lt | sortAsc => Gt end)
  | None => False
  end.

Definition price_parses (p : string) : Prop := is_Some (price_key p).

(** Every stored price parses; what [toOrderBookDelta] and [validPriceLevels]
    guarantee of the prices they let through. *)
Definition prices_ok (m : gmap string string) : Prop := map_Forall (fun p _ => price_parses p) m.

Definition levels_ok (ls : list PriceLevel) : Prop := Forall (fun l => price_parses (pl_Price l)) ls.

Definition delta_ok (d : OrderBookDelta) : Prop := levels_ok (od_Bids d) /\ levels_ok (od_Asks d).

Definition to_level (pq : string * string) : PriceLevel := mkPriceLevel pq.1 pq.2.

Lemma validPositive_parses p : validPositiveNumeric p = true -> price_parses p.
Proof. intros (v & Hv & _)%validPositiveNumeric_key. by exists v. Qed.

Lemma level_le_in_order dir a b ka kb :
  price_key (pl_Price a) = Some ka -> price_key (pl_Price b) = Some kb ->
  level_le dir (a, ka) (b, kb) <-> in_order dir a b.
Proof.
  intros Ha Hb. unfold in_order. rewrite (compareNumeric_defined _ _ _ _ Ha Hb).
  unfold level_le, bf_le. destruct dir; simpl; [|done].
  rewrite (Cmp_antisym ka kb). by destruct (Cmp ka kb).
Qed.

#[export] Instance level_le_trans dir : Transitive (level_le dir).
Proof. intros a b c. destruct dir; simpl; [intros H1 H2; exact (bf_le_trans _ _ _ H2 H1)|apply bf_le_trans]. Qed.

#[export] Instance level_le_total dir : Total (level_le dir).
Proof. intros a b. destruct dir; simpl; [apply (bf_le_total b.2)|apply bf_le_total]. Qed.

(** The levels of a parsed list carry their own keys. *)
Definition keyed (lk : PriceLevel * bigfloat) : Prop := price_key (pl_Price lk.1) = Some lk.2.

Lemma parsed_levels_spec it :
  Forall (fun pq => price_parses pq.1) it ->
  (forall pq, pq ∈ it -> zero_qty pq.2 = false) ->
  exists ps, parsed_levels (export_levels it) = Some ps /\ Forall keyed ps /\
             map fst ps = map to_level it.
Proof.
  unfold parsed_levels, export_levels. induction it as [|[p q] it IH]; intros Hp Hz.
  { exists []. split_and!; [done|constructor|done]. }
  apply Forall_cons in Hp as [[k Hk] Hp].
  pose proof (Hz (p, q) ltac:(by left)) as Hq. cbn [snd] in Hq.
  destruct IH as (ps & E & Hf & Hm); [done|intros pq H; apply Hz; by right|].
  exists ((mkPriceLevel p q, k) :: ps). simpl. rewrite Hq. simpl in *. rewrite Hk. simpl.
  rewrite E. split_and!; [done|by constructor|by rewrite Hm].
Qed.

Lemma sorted_keyed dir ps :
  StronglySorted (level_le dir) ps -> Forall keyed ps -> StronglySorted (in_order dir) (map fst ps).
Proof.
  induction 1 as [|[a k] ps Hs IH Hall]; [constructor|].
  rewrite Forall_cons. intros [Hk Hps]. simpl. constructor; [by apply IH|].
  rewrite Forall_map, Forall_forall. rewrite Forall_forall in Hall, Hps.
  intros [b kb] Hb. simpl. apply (level_le_in_order dir a b k kb); [done|by apply (Hps (b, kb))|].
  by apply Hall.
Qed.

(** Export of a map whose prices parse and whose levels are all non-zero. *)
Lemma exportLevels_spec it dir :
  Forall (fun pq => price_parses pq.1) it -> (forall pq, pq ∈ it -> zero_qty pq.2 = false) ->
  exists out, exportLevels it dir = Some out /\ out ≡ₚ map to_level it /\
              StronglySorted (in_order dir) out.
Proof.
  intros Hp Hz. destruct (parsed_levels_spec it Hp Hz) as (ps & E & Hf & Hm).
  unfold exportLevels. rewrite E.
  assert (map fst (export_levels it) = map to_level it) as Hx.
  { clear -Hz. unfold export_levels. induction it as [|[p q] it IH]; [done|].
    pose proof (Hz (p, q) ltac:(by left)) as Hq. simpl in *. rewrite Hq. simpl. f_equal. apply IH. intros pq H. apply Hz. by right. }
  destruct (Z.leb_spec (Z.of_nat (length (export_levels it))) 1) as [Hl|_].
  - exists (map to_level it). split_and!; [by f_equal|done|].
    rewrite <- Hx. destruct (export_levels it) as [|? [|]]; [repeat constructor..|simpl in Hl; lia].
  - exists (map fst (merge_sort (level_le dir) ps)). split_and!; [done| |].
    + rewrite <- Hm. by rewrite merge_sort_Permutation.
    + apply sorted_keyed; [apply StronglySorted_merge_sort; apply _|].
      by rewrite merge_sort_Permutation.
Qed.

(** ** Prices stay parsable *)

Lemma apply_levels_prices m us : prices_ok m -> levels_ok us -> prices_ok (apply_levels m us).
Proof.
  unfold apply_levels. intros Hm Hus. revert m Hm.
  induction Hus as [|l us Hl _ IH]; intros m Hm; [done|]. simpl. apply IH.
  unfold apply_level. destruct (zero_qty _).
  - by apply map_Forall_delete.
  - by apply map_Forall_insert_2.
Qed.

Lemma load_levels_prices ls : levels_ok ls -> prices_ok (load_levels ls).
Proof.
  intros H. rewrite load_levels_apply. apply apply_levels_prices; [apply map_Forall_empty|].
  unfold levels_ok in *. rewrite Forall_forall in *. intros l Hl. apply H.
  apply list_elem_of_In, filter_In in Hl as [Hl _]. by apply list_elem_of_In.
Qed.

Record book_ok (s : orderBookState) : Prop := {
  bk_bids : prices_ok (ob_bids s);
  bk_asks : prices_ok (ob_asks s);
  bk_pending : Forall delta_ok (ob_pending s)
}.

Lemma advance_ok s d : book_ok s -> delta_ok d -> book_ok (advance s d).
Proof. intros [] []. constructor; simpl; auto using apply_levels_prices. Qed.

Lemma applyOne_ok s d : book_ok s -> delta_ok d -> book_ok (fst (applyOne s d)).
Proof. intros. unfold applyOne. destruct (checkSequenceMatch _ _ _); [done|by apply advance_ok]. Qed.

Lemma apply_rest_ok s ds : book_ok s -> Forall delta_ok ds -> book_ok (fst (apply_rest s ds)).
Proof.
  intros Hs Hds. revert s Hs. induction Hds as [|d ds Hd _ IH]; intros s Hs; [done|]. simpl.
  pose proof (applyOne_ok s d Hs Hd). destruct (applyOne s d) as [s' [b|e]]; [by apply IH|done].
Qed.

Lemma drain_loop_ok s ds : book_ok s -> Forall delta_ok ds -> book_ok (fst (drain_loop s ds)).
Proof.
  intros Hs Hds. revert s Hs. induction Hds as [|d ds Hd Hds IH]; intros s Hs; [done|]. simpl.
  destruct (not_ahead s d); [by apply IH|].
  pose proof (applyOne_ok s d Hs Hd).
  destruct (applyOne s d) as [s' [[]|e]]; [by apply apply_rest_ok|by apply IH|done].
Qed.

Lemma set_pending_ok s : book_ok s -> book_ok (set_pending [] s).
Proof. intros []. by constructor. Qed.

Lemma applySnapshot_ok s snap :
  book_ok s -> levels_ok (os_Bids snap) -> levels_ok (os_Asks snap) ->
  book_ok (fst (applySnapshot s snap)).
Proof.
  intros Hs Hb Ha. destruct (validateBidAskOrder (os_Bids snap) (os_Asks snap)) eqn:E.
  { unfold applySnapshot. by rewrite E. }
  rewrite applySnapshot_valid by done. simpl.
  assert (book_ok (fst (drain_loop (set_pending [] (install_snapshot s snap)) (ob_pending s)))) as H.
  { apply drain_loop_ok; [|apply Hs]. constructor; simpl; auto using load_levels_prices. }
  destruct (snd _); [by apply set_pending_ok|done].
Qed.

Lemma reset_ok s : book_ok (reset s).
Proof. constructor; simpl; [apply map_Forall_empty..|constructor]. Qed.

Lemma on_delta_ok s d : book_ok s -> delta_ok d -> book_ok (on_delta s d).
Proof.
  intros Hs Hd. unfold on_delta.
  assert (book_ok (fst (applyDelta s d))) as H.
  { unfold applyDelta. destruct (ob_ready s); simpl.
    - destruct (0 <? _); [|by apply applyOne_ok].
      assert (book_ok (fst (drainPending s))) as H.
      { apply drain_loop_ok; [by apply set_pending_ok|apply Hs]. }
      destruct (drainPending s) as [s1 [e|]]; [done|by apply applyOne_ok].
    - destruct (ob_maxPending s <=? _); [done|]. destruct Hs. constructor; simpl; auto.
      apply Forall_app; auto. }
  destruct (applyDelta s d) as [s' [b|e]]; [done|apply reset_ok].
Qed.

(** States fed with decoded data only. *)
Inductive ob_fed (g i : string) : orderBookState -> Prop :=
| fed_new : ob_fed g i (newOrderBookState g i)
| fed_delta s d : ob_fed g i s -> delta_ok d -> ob_fed g i (on_delta s d)
| fed_snapshot s snap : ob_fed g i s -> levels_ok (os_Bids snap) -> levels_ok (os_Asks snap) ->
    ob_fed g i (fst (applySnapshot s snap))
| fed_reset s : ob_fed g i s -> ob_fed g i (reset s).

Lemma ob_fed_inv g i s : ob_fed g i s -> ob_wf s /\ book_ok s.
Proof.
  induction 1 as [|s d _ [] ?|s snap _ [] ? ?|s _ []].
  - split; [apply wf_new|exact (reset_ok (newOrderBookState g i))].
  - auto using on_delta_wf, on_delta_ok.
  - auto using applySnapshot_wf, applySnapshot_ok.
  - auto using wf_reset, wf_max_nonneg, reset_ok.
Qed.

(** ** Snapshots accepted, exported and reloaded *)

Lemma check_order_spec dir err i ls :
  check_order (match dir with sortDesc => Lt | sortAsc => Gt end) err i ls = None <->
  Sorted (in_order dir) ls.
Proof.
  revert i. induction ls as [|a [|b ls] IH]; intros i.
  - split; [constructor|done].
  - split; [repeat constructor|done].
  - change (check_order ?x err i (a :: b :: ls)) with
      (match compareNumeric (pl_Price a) (pl_Price b) with
       | None => Some ErrNilPrice
       | Some c => if bool_decide (c = x) then Some (err (S i)) else check_order x err (S i) (b :: ls)
       end).
    split.
    + intros H. destruct (compareNumeric _ _) as [c|] eqn:E; [|done].
      case_bool_decide as Hc; [done|]. constructor; [by apply (IH (S i))|].
      constructor. unfold in_order. by rewrite E.
    + intros [Hs Hab]%Sorted_inv. apply HdRel_inv in Hab. unfold in_order in Hab.
      destruct (compareNumeric _ _) as [c|]; [|done].
      rewrite bool_decide_false by done. by apply IH.
Qed.

Lemma validateBidAskOrder_spec bids asks :
  validateBidAskOrder bids asks = None <->
  Sorted (in_order sortDesc) bids /\ Sorted (in_order sortAsc) asks.
Proof.
  unfold validateBidAskOrder.
  rewrite <- (check_order_spec sortDesc ErrBidsOrder 0), <- (check_order_spec sortAsc ErrAsksOrder 0).
  destruct (check_order Lt ErrBidsOrder 0 bids); [|tauto]. split; [done|]. by intros [].
Qed.

(** With no price twice, the last mention of a price is its only one. *)
Lemma last_update_elem p q ls :
  NoDup (map pl_Price ls) -> last_update p ls = Some q <-> mkPriceLevel p q ∈ ls.
Proof.
  induction ls as [|[p' q'] ls IH]; simpl.
  { intros _. split; [done|]. by intros ?%elem_of_nil. }
  rewrite NoDup_cons, elem_of_cons. intros [Hn Hd]. specialize (IH Hd).
  destruct (last_update p ls) as [r|] eqn:E.
  - split; [intros [= ->]; right; by apply IH|].
    intros [[= -> ->]|H]; [|by apply IH in H].
    destruct Hn. apply list_elem_of_In, in_map_iff. exists (mkPriceLevel p' r).
    split; [done|]. apply list_elem_of_In.
    clear -E. induction ls as [|[x y] ls IH]; [done|]. simpl in E.
    destruct (last_update p' ls) as [z|] eqn:El; [simplify_eq; right; by apply IH|].
    case_bool_decide; [|done]. simplify_eq. by left.
  - case_bool_decide as Hp; subst.
    + split; [intros [= ->]; by left|]. intros [[= ->]|H]; [done|]. by apply IH in H.
    + split; [done|]. intros [[= -> ->]|H]; [done|by apply IH].
Qed.

(** A permutation of a zero-free map's levels loads back into that map. *)
Lemma load_levels_export m ls :
  zero_free m -> ls ≡ₚ map to_level (map_to_list m) -> load_levels ls = m.
Proof.
  intros Hz Hp.
  assert (NoDup (map pl_Price ls)) as Hnd.
  { rewrite Hp, map_map. apply NoDup_fst_map_to_list. }
  assert (forall p q, mkPriceLevel p q ∈ ls <-> m !! p = Some q) as Hin.
  { intros p q. rewrite Hp, <- elem_of_map_to_list, list_elem_of_In, in_map_iff.
    split; [intros ([p' q'] & [= -> ->] & H); by apply list_elem_of_In|].
    intros H. exists (p, q). by rewrite <- list_elem_of_In. }
  assert (List.filter (fun l => negb (zero_qty (pl_Quantity l))) ls = ls) as Hf.
  { assert (forall l, l ∈ ls -> zero_qty (pl_Quantity l) = false) as Hq.
    { intros [p q] H. apply Hin in H. by apply (Hz p). }
    clear -Hq. induction ls as [|l ls IH]; [done|]. simpl.
    rewrite (Hq l) by by left. simpl. f_equal. apply IH. intros l' H. apply Hq. by right. }
  rewrite load_levels_apply, Hf. apply map_eq. intros p. rewrite apply_levels_lookup.
  destruct (last_update p ls) as [q|] eqn:E.
  - apply last_update_elem in E; [|done]. apply Hin in E. rewrite E. by rewrite (Hz p q E).
  - rewrite lookup_empty. destruct (m !! p) as [q|] eqn:Em; [|done].
    apply Hin in Em. apply last_update_elem in Em; [congruence|done].
Qed.

(** The runtime may visit a map in any order, but visits each entry once. *)
Definition iterates (iter : gmap string string -> list (string * string)) : Prop :=
  forall m, iter m ≡ₚ map_to_list m.

Lemma export_book iter m dir :
  iterates iter -> prices_ok m -> zero_free m ->
  exists out, exportLevels (iter m) dir = Some out /\ out ≡ₚ map to_level (map_to_list m) /\
              StronglySorted (in_order dir) out.
Proof.
  intros Hi Hp Hz. destruct (exportLevels_spec (iter m) dir) as (out & E & Hperm & Hs).
  - rewrite (Hi m). apply map_Forall_to_list in Hp. eapply Forall_impl; [exact Hp|]. by intros [].
  - intros [p q]. rewrite (Hi m), elem_of_map_to_list. apply Hz.
  - exists out. split_and!; [done| |done]. by rewrite Hperm, (Hi m).
Qed.

Lemma generateSnapshot_ready iter g i s at_ :
  iterates iter -> ob_fed g i s -> ob_ready s = true ->
  exists bids asks, generateSnapshot iter s at_ =
      Some (mkOrderBookSnapshot 0 (ob_groupID s) (ob_inputID s) at_ (ob_sequence s) bids asks time.zero) /\
    bids ≡ₚ map to_level (map_to_list (ob_bids s)) /\ StronglySorted (in_order sortDesc) bids /\
    asks ≡ₚ map to_level (map_to_list (ob_asks s)) /\ StronglySorted (in_order sortAsc) asks.
Proof.
  intros Hi Hf Hr. apply ob_fed_inv in Hf as [[Hb Ha _ _ _] [Pb Pa _]].
  destruct (export_book iter _ sortDesc Hi Pb Hb) as (bids & Eb & ? & ?).
  destruct (export_book iter _ sortAsc Hi Pa Ha) as (asks & Ea & ? & ?).
  exists bids, asks. unfold generateSnapshot. rewrite Hr. simpl. rewrite Eb. simpl. rewrite Ea. simpl.
  split_and!; [|done..]. unfold copyInt64Ptr. by destruct (ob_sequence s).
Qed.

(** The levels of a fed book, each side in its order, as the code exports and
    stores them. *)
Definition holds_book (s : orderBookState) (snap : OrderBookSnapshot) : Prop :=
  os_Bids snap ≡ₚ map to_level (map_to_list (ob_bids s)) /\ StronglySorted (in_order sortDesc) (os_Bids snap) /\
  os_Asks snap ≡ₚ map to_level (map_to_list (ob_asks s)) /\ StronglySorted (in_order sortAsc) (os_Asks snap) /\
  os_Sequence snap = ob_sequence s.

Lemma holds_book_loads g i s snap t :
  ob_fed g i s -> holds_book s snap -> ob_pending t = [] ->
  exists t', applySnapshot t snap = (t', None) /\ ob_ready t' = true /\
    ob_bids t' = ob_bids s /\ ob_asks t' = ob_asks s /\ ob_sequence t' = ob_sequence s.
Proof.
  intros Hf (Pb & Sb & Pa & Sa & Hs) Ht. pose proof (ob_fed_inv g i s Hf) as [[Zb Za _ _ _] _].
  eexists. split; [|split; [|split_and!]].
  { rewrite applySnapshot_valid, Ht; [reflexivity|].
    apply validateBidAskOrder_spec. split; by apply StronglySorted_Sorted. }
  all: simpl; auto using load_levels_export.
Qed.

(** Export and reload: a book fed with decoded data always produces its
    snapshot, whatever the map iteration order; the bids come out in descending
    and the asks in ascending price order, and loading the snapshot into any
    book without buffered deltas is accepted and restores the same levels and
    the same sequence. *)
Theorem generated_snapshot_reloads iter g i s at_ t :
  iterates iter -> ob_fed g i s -> ob_ready s = true -> ob_pending t = [] ->
  exists snap, generateSnapshot iter s at_ = Some snap /\
    StronglySorted (in_order sortDesc) (os_Bids snap) /\
    StronglySorted (in_order sortAsc) (os_Asks snap) /\
    exists t', applySnapshot t snap = (t', None) /\ ob_ready t' = true /\
      ob_bids t' = ob_bids s /\ ob_asks t' = ob_asks s /\ ob_sequence t' = ob_sequence s.
Proof.
  intros Hi Hf Hr Ht. destruct (generateSnapshot_ready iter g i s at_ Hi Hf Hr) as (bids & asks & E & Pb & Sb & Pa & Sa).
  eexists. split_and!; [exact E|done..|]. by apply (holds_book_loads g i).
Qed.

Lemma generated_snapshot_reloads_witness :
  let s := on_delta (fst (applySnapshot (newOrderBookState "g" "i") (sample_snapshot (Some 5) [] [])))
             (seq_delta 6 [lvl "9.5" "1"; lvl "10" "2"] [lvl "11" "3"]) in
  exists snap, generateSnapshot map_to_list s 0 = Some snap /\
    StronglySorted (in_order sortDesc) (os_Bids snap).
Proof.
  intros s.
  destruct (generated_snapshot_reloads map_to_list "g" "i" s 0 (newOrderBookState "g" "i"))
    as (snap & H1 & H2 & _); [by intros m| |vm_compute; reflexivity..|exists snap; split; [exact H1|exact H2]].
  apply fed_delta; [apply fed_snapshot; [apply fed_new|constructor..]|].
  split; repeat constructor; apply validPositive_parses; vm_compute; reflexivity.
Defined.

(** When no two stored prices are numerically equal, the exported
    snapshot does not depend on the order in which the runtime iterates over
    the maps. *)
Theorem export_order_independent it1 it2 dir out1 out2 :
  it1 ≡ₚ it2 -> (forall pq, pq ∈ it1 -> zero_qty pq.2 = false /\ price_parses pq.1) ->
  (forall pq pq', pq ∈ it1 -> pq' ∈ it1 -> compareNumeric pq.1 pq'.1 = Some Eq -> pq = pq') ->
  exportLevels it1 dir = Some out1 -> exportLevels it2 dir = Some out2 -> out1 = out2.
Proof.
  intros Hp Hok Hd E1 E2.
  destruct (exportLevels_spec it1 dir) as (o1 & F1 & P1 & S1);
    [by apply Forall_forall; intros; apply Hok|by intros; apply Hok|].
  destruct (exportLevels_spec it2 dir) as (o2 & F2 & P2 & S2);
    [by apply Forall_forall; intros ?; rewrite <- Hp; intros; apply Hok
    |by intros ?; rewrite <- Hp; intros; apply Hok|].
  simplify_eq. apply (StronglySorted_unique_strong (in_order dir)); [|done..|by rewrite P1, P2, Hp].
  intros a b. rewrite P1, P2, <- Hp, !list_elem_of_In, !in_map_iff.
  intros (x & <- & Hx) (y & <- & Hy). rewrite <- list_elem_of_In in Hx, Hy. unfold in_order. simpl.
  destruct (Hok x Hx) as [_ [kx Kx]], (Hok y Hy) as [_ [ky Ky]].
  rewrite (compareNumeric_defined _ _ _ _ Kx Ky), (compareNumeric_defined _ _ _ _ Ky Kx).
  intros H1 H2. f_equal. apply Hd; [done..|]. rewrite (compareNumeric_defined _ _ _ _ Kx Ky).
  rewrite (Cmp_antisym kx ky) in H2. destruct dir, (Cmp kx ky); done.
Qed.

Lemma export_order_independent_witness :
  exportLevels [("1", "a"); ("2", "b")] sortDesc = exportLevels [("2", "b"); ("1", "a")] sortDesc.
Proof.
  destruct (exportLevels [("1", "a"); ("2", "b")] sortDesc) eqn:E1; [|vm_compute in E1; discriminate].
  destruct (exportLevels [("2", "b"); ("1", "a")] sortDesc) eqn:E2; [|vm_compute in E2; discriminate].
  f_equal. eapply (export_order_independent _ _ sortDesc); [| | |exact E1|exact E2].
  - constructor.
  - intros pq H. elem_cases H;
      (split; [vm_compute; reflexivity|apply validPositive_parses; vm_compute; reflexivity]).
  - intros x y Hx Hy. elem_cases Hx; elem_cases Hy; vm_compute; congruence.
Defined.

(** The ordering guard: an unsorted snapshot is refused and leaves the
    book as it was; a sorted one replaces the levels and makes the book ready. *)
Theorem snapshot_order_guard s snap :
  (~ (Sorted (in_order sortDesc) (os_Bids snap) /\ Sorted (in_order sortAsc) (os_Asks snap)) ->
   exists e, applySnapshot s snap = (s, Some e)) /\
  (Sorted (in_order sortDesc) (os_Bids snap) /\ Sorted (in_order sortAsc) (os_Asks snap) ->
   ob_pending s = [] -> exists s', applySnapshot s snap = (s', None) /\ ob_ready s' = true /\
     forall p, ob_bids s' !! p = load_levels (os_Bids snap) !! p /\
               ob_asks s' !! p = load_levels (os_Asks snap) !! p).
Proof.
  rewrite <- validateBidAskOrder_spec. split.
  - intros H. unfold applySnapshot. destruct (validateBidAskOrder _ _) as [e|]; [by exists e|done].
  - intros H Hp. rewrite applySnapshot_valid, Hp by done. eexists. split_and!; [done..|]. done.
Qed.

Lemma snapshot_order_guard_witness :
  let s := newOrderBookState "g" "i" in
  exists e, applySnapshot s (sample_snapshot None [lvl "1" "1"; lvl "2" "1"] []) = (s, Some e).
Proof.
  intros s. apply snapshot_order_guard. intros H. apply validateBidAskOrder_spec in H.
  vm_compute in H. discriminate.
Defined.

(** A snapshot that is ahead of the delta stream is lost: the first later
    delta the snapshot already covers is taken for a gap, so the book goes back
    to waiting for a reference snapshot with nothing in it. *)
Theorem covered_delta_discards_snapshot s snap q x d :
  ob_pending s = [] -> validateBidAskOrder (os_Bids snap) (os_Asks snap) = None ->
  os_Sequence snap = Some q -> od_Sequence d = Some x -> int64 q -> q <> int64_max -> x <= q ->
  let s' := on_delta (fst (applySnapshot s snap)) d in
  ob_ready s' = false /\ ob_bids s' = ∅ /\ ob_asks s' = ∅ /\ ob_pending s' = [].
Proof.
  intros Hp Hv Hq Hx Hr Hne Hle s'. subst s'. rewrite applySnapshot_valid, Hp by done.
  rewrite (on_delta_gap q _ d x); [done|by repeat split|done|]. rewrite wrap64_succ by done. lia.
Qed.

Lemma covered_delta_discards_snapshot_witness :
  ob_ready (on_delta (fst (applySnapshot (newOrderBookState "g" "i")
     (sample_snapshot (Some 9) [lvl "1" "1"] []))) (seq_delta 9 [] [])) = false.
Proof.
  eapply (covered_delta_discards_snapshot _ _ 9 9);
    [done|vm_compute; reflexivity|done|done|by unfold int64, int64_min, int64_max; lia|by unfold int64_max; lia|lia].
Defined.

(** Zero is recognised by its spelling only: "0.00" is a quantity the
    decoder accepts, it is not positive, and yet an update with it leaves a
    level in the book, which the snapshot exports. *)
Theorem padded_zero_level_survives q :
  q ∈ ["0.00"; "0.00000000"; "-0"; "0e0"] ->
  validNonNegativeNumeric q = true /\ validPositiveNumeric q = false /\
  forall s at_, ob_sequence s = Some 5 -> ob_ready s = true -> ob_pending s = [] ->
    let s' := on_delta s (seq_delta 6 [lvl "100" q] []) in
    ob_bids s' !! "100" = Some q /\
    (ob_bids s = ∅ -> ob_asks s = ∅ -> exists snap,
       generateSnapshot map_to_list s' at_ = Some snap /\ os_Bids snap = [lvl "100" q]).
Proof.
  intros Hq. assert (zero_qty q = false) as Hz.
  { elem_cases Hq; done. }
  split_and!.
  { elem_cases Hq; vm_compute; done. }
  { elem_cases Hq; vm_compute; done. }
  intros s at_ Hs Hr Hp s'.
  assert (s' = advance s (seq_delta 6 [lvl "100" q] [])) as ->.
  { apply (on_delta_next 5); [by repeat split|done|vm_compute; split; discriminate|done]. }
  set (t := advance s (seq_delta 6 [lvl "100" q] [])).
  assert (ob_bids t = <["100" := q]> (ob_bids s)) as E.
  { simpl. unfold apply_level. simpl. by rewrite Hz. }
  assert (ob_ready t = true) as Et by done.
  assert (ob_asks t = ob_asks s) as Ea' by done.
  rewrite E, lookup_insert_eq. split; [done|]. intros Eb Ea.
  unfold generateSnapshot. rewrite Et, E, Ea', Eb, Ea. simpl.
  rewrite insert_empty, map_to_list_singleton, map_to_list_empty.
  unfold exportLevels, export_levels. simpl. rewrite Hz. simpl. by eexists.
Qed.

Lemma padded_zero_level_survives_witness :
  ob_bids (on_delta (fst (applySnapshot (newOrderBookState "g" "i") (sample_snapshot (Some 5) [] [])))
             (seq_delta 6 [lvl "100" "0.00"] [])) !! "100" = Some "0.00".
Proof.
  destruct (padded_zero_level_survives "0.00") as (_ & _ & H); [by left|].
  refine (proj1 (H _ 0 _ _ _)); vm_compute; reflexivity.
Defined.
