(* ===== verification/Snapshot.v ===== *)
(** * Reference snapshots: from Kafka to the order book

    internal/runtime/snapshot_input_worker.go and the receive loop of worker.go.
    The input worker decodes a record, sends it to the group worker over a
    channel of capacity 8 and commits its offset only when the group worker has
    closed the record's done channel, which it does after applying the snapshot.
    The two goroutines, the delta stream and the cancellation interleave freely:
    a state and one function per atomic action. *)

From S2P Require Import Prelude GoStd Model Kafka Decode OrderBook.

Open Scope Z_scope.

(** The [err] field of the Go struct is never set nor read. *)
Record snapshotResult := mkSnapshotResult {
  sr_snapshot : OrderBookSnapshot;
  sr_offset : Z;
  sr_done : nat          (* the done channel, by number *)
}.

Inductive sw_error := SwNoError | SwFetchError | SwDecodeError | SwCommitError.

(** Where the loop of [run] stands. *)
Inductive sw_phase :=
| SwFetching
| SwSending (msg : Message) (snap : OrderBookSnapshot)
| SwWaiting (msg : Message) (done : nat)
| SwCommitting (msg : Message)
| SwDone.

Record snapshotInputWorker := mkSnapshotInputWorker {
  sw_status : string;
  sw_lastErr : sw_error;
  sw_committed : option Z;
  sw_lastEvent : option time.Time;
  sw_at : sw_phase
}.

Definition newSnapshotInputWorker : snapshotInputWorker :=
  mkSnapshotInputWorker ActualStatusRunning SwNoError None None SwFetching.

(** What happened, oldest first; [SSkip] is a record that did not decode. *)
Inductive sn_action :=
| SFetch (msg : Message)
| SSkip (msg : Message)
| SSent (done : nat) (msg : Message) (snap : OrderBookSnapshot)
| SApplied (done : nat)
| SRefused (done : nat)
| SCommit (msg : Message).

Record snState := mkSnState {
  sn_book : orderBookState;
  sn_worker : snapshotInputWorker;
  sn_chan : list snapshotResult;
  sn_closed : gset nat;      (* done channels that are closed *)
  sn_next : nat;             (* the next done channel *)
  sn_trace : list sn_action
}.

Definition newSnState (group snapInput : string) : snState :=
  mkSnState (newOrderBookState group snapInput) newSnapshotInputWorker [] ∅ 0 [].

Definition snapshotChanCap : nat := 8.

Definition at_phase (p : sw_phase) (w : snapshotInputWorker) : snapshotInputWorker :=
  mkSnapshotInputWorker (sw_status w) (sw_lastErr w) (sw_committed w) (sw_lastEvent w) p.

(** [setStatus] *)
Definition sw_setStatus (status : string) (e : sw_error) (w : snapshotInputWorker) : snapshotInputWorker :=
  mkSnapshotInputWorker status e (sw_committed w) (sw_lastEvent w) (sw_at w).

(** [snapshot]: the reported status; the error text is left to the caller. *)
Definition sw_snapshot (group : MarketGroup) (input : GroupInput) (nodeID lastErr : string) (now : time.Time)
    (w : snapshotInputWorker) : StreamRuntimeStatus :=
  {| rs_InputID := inputID input; rs_GroupID := mg_GroupID group; rs_StreamKey := gi_StreamKey input;
     rs_NodeID := nodeID; rs_ActualStatus := sw_status w; rs_KafkaPartition := None; rs_KafkaLag := None;
     rs_CommittedOffset := sw_committed w; rs_HighWatermarkOffset := None;
     rs_LastEventTime := sw_lastEvent w; rs_LastProcessedTime := Some now;
     rs_LastError := lastErr; rs_UpdatedAt := time.zero |}.

Definition set_worker (w : snapshotInputWorker) (acts : list sn_action) (s : snState) : snState :=
  mkSnState (sn_book s) w (sn_chan s) (sn_closed s) (sn_next s) (sn_trace s ++ acts).

Section snapshot.

Context `{Decoders} (input : GroupInput).

(** [Fetch] returns a message; a record that does not decode is skipped. *)
Definition sw_fetch (msg : Message) (s : snState) : snState :=
  let w := sn_worker s in
  match sw_at w with
  | SwFetching =>
      match buildOrderBookSnapshot input msg with
      | Err _ => set_worker (sw_setStatus ActualStatusError SwDecodeError w) [SFetch msg; SSkip msg] s
      | Ok snap =>
          set_worker (mkSnapshotInputWorker (sw_status w) (sw_lastErr w) (sw_committed w)
                        (Some (os_SnapshotTime snap)) (SwSending msg snap)) [SFetch msg] s
      end
  | _ => s
  end.

(** [Fetch] fails for another reason than the context. *)
Definition sw_fetch_error (s : snState) : snState :=
  let w := sn_worker s in
  match sw_at w with
  | SwFetching => set_worker (sw_setStatus ActualStatusError SwFetchError w) [] s
  | _ => s
  end.

(** The send on the channel, when there is room. *)
Definition sw_send (s : snState) : snState :=
  match sw_at (sn_worker s) with
  | SwSending msg snap =>
      if Nat.ltb (length (sn_chan s)) snapshotChanCap then
        mkSnState (sn_book s) (at_phase (SwWaiting msg (sn_next s)) (sn_worker s))
          (sn_chan s ++ [mkSnapshotResult snap (ms_Offset msg) (sn_next s)]) (sn_closed s) (S (sn_next s))
          (sn_trace s ++ [SSent (sn_next s) msg snap])
      else s
  | _ => s
  end.

(** The done channel is closed. *)
Definition sw_ack (s : snState) : snState :=
  match sw_at (sn_worker s) with
  | SwWaiting msg id => if bool_decide (id ∈ sn_closed s) then set_worker (at_phase (SwCommitting msg) (sn_worker s)) [] s else s
  | _ => s
  end.

(** The call of [Commit]: its effect and its answer.  A failed commit is not
    retried; the loop goes on to the next record. *)
Definition sw_commit (effect success : bool) (s : snState) : snState :=
  let w := sn_worker s in
  match sw_at w with
  | SwCommitting msg =>
      let acts := if effect || success then [SCommit msg] else [] in
      if success then
        set_worker (mkSnapshotInputWorker (sw_status w) (sw_lastErr w) (Some (ms_Offset msg)) (sw_lastEvent w) SwFetching) acts s
      else set_worker (at_phase SwFetching (sw_setStatus ActualStatusError SwCommitError w)) acts s
  | _ => s
  end.

(** The context ends, wherever the loop stands; a commit underway may have
    taken effect. *)
Definition sw_cancel (effect : bool) (s : snState) : snState :=
  let acts := match sw_at (sn_worker s) with
              | SwCommitting msg => if effect then [SCommit msg] else []
              | _ => []
              end in
  set_worker (at_phase SwDone (sn_worker s)) acts s.

(** The input manager starts a new worker over the same channel. *)
Definition sw_restart (s : snState) : snState :=
  match sw_at (sn_worker s) with
  | SwDone => set_worker newSnapshotInputWorker [] s
  | _ => s
  end.

(** One round of [snapshotReceiveLoop]: a refused snapshot is dropped with its
    done channel left open. *)
Definition receive (s : snState) : snState :=
  match sn_chan s with
  | [] => s
  | r :: rest =>
      match applySnapshot (sn_book s) (sr_snapshot r) with
      | (book, Some _) =>
          mkSnState book (sn_worker s) rest (sn_closed s) (sn_next s) (sn_trace s ++ [SRefused (sr_done r)])
      | (book, None) =>
          mkSnState book (sn_worker s) rest ({[sr_done r]} ∪ sn_closed s) (sn_next s) (sn_trace s ++ [SApplied (sr_done r)])
      end
  end.

(** A delta of the group reaches the book. *)
Definition sn_delta (d : OrderBookDelta) (s : snState) : snState :=
  mkSnState (on_delta (sn_book s) d) (sn_worker s) (sn_chan s) (sn_closed s) (sn_next s) (sn_trace s).

Inductive sn_event :=
| EvFetch (msg : Message)
| EvFetchError
| EvSend
| EvAck
| EvCommit (effect success : bool)
| EvCancel (effect : bool)
| EvRestart
| EvReceive
| EvDelta (d : OrderBookDelta).

Definition sn_step (s : snState) (e : sn_event) : snState :=
  match e with
  | EvFetch msg => sw_fetch msg s
  | EvFetchError => sw_fetch_error s
  | EvSend => sw_send s
  | EvAck => sw_ack s
  | EvCommit effect success => sw_commit effect success s
  | EvCancel effect => sw_cancel effect s
  | EvRestart => sw_restart s
  | EvReceive => receive s
  | EvDelta d => sn_delta d s
  end.

Definition sn_run (s : snState) (es : list sn_event) : snState := foldl sn_step s es.

(** ** Commits follow applications *)

(** Every commit of a trace is preceded by the record's own snapshot being sent
    and applied. *)
Definition commit_after_apply (tr : list sn_action) : Prop :=
  forall l1 msg l2, tr = l1 ++ SCommit msg :: l2 ->
  exists id snap, buildOrderBookSnapshot input msg = Ok snap /\ SSent id msg snap ∈ l1 /\ SApplied id ∈ l1.

(** The record has been sent with this done channel. *)
Definition sent (tr : list sn_action) (id : nat) (msg : Message) : Prop :=
  exists snap, buildOrderBookSnapshot input msg = Ok snap /\ SSent id msg snap ∈ tr.

Record sn_inv (s : snState) : Prop := {
  si_commits : commit_after_apply (sn_trace s);
  si_closed : forall id, id ∈ sn_closed s -> SApplied id ∈ sn_trace s;
  si_phase : match sw_at (sn_worker s) with
             | SwSending msg snap => buildOrderBookSnapshot input msg = Ok snap
             | SwWaiting msg id => sent (sn_trace s) id msg
             | SwCommitting msg => exists id, sent (sn_trace s) id msg /\ SApplied id ∈ sn_trace s
             | _ => True
             end
}.

Lemma commit_after_apply_app tr acts :
  commit_after_apply tr ->
  (forall msg, SCommit msg ∈ acts -> exists id snap,
     buildOrderBookSnapshot input msg = Ok snap /\ SSent id msg snap ∈ tr /\ SApplied id ∈ tr) ->
  commit_after_apply (tr ++ acts).
Proof.
  intros Htr Hacts l1 msg l2 Heq. apply app_eq_app in Heq as (l & [[-> Hl]|[-> Hl]]).
  - destruct l as [|a l]; cbn in Hl.
    + subst acts. rewrite app_nil_r in Hacts. apply Hacts. by left.
    + injection Hl as <- ->. by apply (Htr l1 msg l).
  - destruct (Hacts msg) as (id & snap & H1 & H2 & H3); [rewrite Hl; apply elem_of_app; right; by left|].
    exists id, snap. split_and!; [done|apply elem_of_app; by left|apply elem_of_app; by left].
Qed.

Lemma sent_app tr acts id msg : sent tr id msg -> sent (tr ++ acts) id msg.
Proof. intros (snap & H1 & H2). exists snap. split; [done|]. apply elem_of_app. by left. Qed.

(** A step of the worker whose actions commit only what was applied. *)
Lemma set_worker_inv s w acts :
  sn_inv s ->
  (forall msg, SCommit msg ∈ acts -> exists id snap,
     buildOrderBookSnapshot input msg = Ok snap /\ SSent id msg snap ∈ sn_trace s /\ SApplied id ∈ sn_trace s) ->
  match sw_at w with
  | SwSending msg snap => buildOrderBookSnapshot input msg = Ok snap
  | SwWaiting msg id => sent (sn_trace s) id msg
  | SwCommitting msg => exists id, sent (sn_trace s) id msg /\ SApplied id ∈ sn_trace s
  | _ => True
  end -> sn_inv (set_worker w acts s).
Proof.
  intros [Hc Hcl Hp] Hacts Hw. split; cbn.
  - by apply commit_after_apply_app.
  - intros id Hid. apply elem_of_app. left. by apply Hcl.
  - destruct (sw_at w); try done; [by apply sent_app|].
    destruct Hw as (id & H1 & H2). exists id. split; [by apply sent_app|apply elem_of_app; by left].
Qed.

(** No action of a literal list is a commit. *)
Local Ltac no_commit := let m := fresh in let Hm := fresh in intros m Hm; repeat rewrite elem_of_cons in Hm; rewrite elem_of_nil in Hm; naive_solver.

Lemma sn_step_inv s e : sn_inv s -> sn_inv (sn_step s e).
Proof.
  intros Hs. pose proof Hs as [Hc Hcl Hp]. destruct e; cbn [sn_step].
  - unfold sw_fetch. destruct (sw_at (sn_worker s)) eqn:Ep; try done.
    destruct (buildOrderBookSnapshot input msg) eqn:Eb; apply set_worker_inv; try done; cbn; try by rewrite Ep.
    all: no_commit.
  - unfold sw_fetch_error. destruct (sw_at (sn_worker s)) eqn:Ep; try done.
    apply set_worker_inv; [done|no_commit|]. cbn. by rewrite Ep.
  - unfold sw_send. destruct (sw_at (sn_worker s)) eqn:Ep; try done. destruct (Nat.ltb _ _); [|done].
    split; cbn.
    + apply commit_after_apply_app; [done|no_commit].
    + intros id Hid. apply elem_of_app. left. by apply Hcl.
    + exists snap. split; [done|]. apply elem_of_app. right. by left.
  - unfold sw_ack. destruct (sw_at (sn_worker s)) eqn:Ep; try done. case_bool_decide as Hin; [|done].
    apply set_worker_inv; [done|no_commit|]. cbn. eexists. by split; [|apply Hcl].
  - unfold sw_commit. destruct (sw_at (sn_worker s)) eqn:Ep; try done. destruct Hp as (id & (snap & H1 & H2) & H3).
    assert (forall m, SCommit m ∈ (if effect || success then [SCommit msg] else []) -> exists id snap,
      buildOrderBookSnapshot input m = Ok snap /\ SSent id m snap ∈ sn_trace s /\ SApplied id ∈ sn_trace s) as Hm.
    { intros m Hm. destruct (effect || success); [|by apply elem_of_nil in Hm].
      apply list_elem_of_singleton in Hm. injection Hm as ->. by exists id, snap. }
    destruct success; by apply set_worker_inv.
  - apply set_worker_inv; [done| |done]. intros m Hm.
    destruct (sw_at (sn_worker s)), effect; try (by apply elem_of_nil in Hm).
    destruct Hp as (id & (snap & H1 & H2) & H3). apply list_elem_of_singleton in Hm. injection Hm as ->. by exists id, snap.
  - unfold sw_restart. destruct (sw_at (sn_worker s)); try done.
    apply set_worker_inv; [done|no_commit|done].
  - unfold receive. destruct (sn_chan s) as [|r rest]; [done|].
    destruct (applySnapshot (sn_book s) (sr_snapshot r)) as [book [e|]]; split; cbn.
    all: try (apply commit_after_apply_app; [done|no_commit]).
    + intros id Hid. apply elem_of_app. left. by apply Hcl.
    + destruct (sw_at (sn_worker s)); try done; [by apply sent_app|].
      destruct Hp as (id & H1 & H2). exists id. split; [by apply sent_app|apply elem_of_app; by left].
    + intros id [Hid|Hid]%elem_of_union; apply elem_of_app; [right|left; by apply Hcl].
      apply elem_of_singleton in Hid as ->. by left.
    + destruct (sw_at (sn_worker s)); try done; [by apply sent_app|].
      destruct Hp as (id & H1 & H2). exists id. split; [by apply sent_app|apply elem_of_app; by left].
  - by split.
Qed.

Lemma newSnState_inv group snapInput : sn_inv (newSnState group snapInput).
Proof. split; cbn; [intros [] ? ? ?; discriminate|set_solver|done]. Qed.

Lemma sn_run_inv es s : sn_inv s -> sn_inv (sn_run s es).
Proof. revert s. induction es as [|e es IH]; intros s Hs; cbn; [done|]. by apply IH, sn_step_inv. Qed.

(** (C24) A reference snapshot is committed only after it is in the book.  However
    fetches, sends, receptions, deltas, commits, stops and restarts interleave,
    and whichever commits fail or go unacknowledged, before every commit of a
    record the snapshot decoded from that record was sent to the group worker and
    applied to the order book. *)
Theorem snapshot_commit_after_apply group snapInput es :
  commit_after_apply (sn_trace (sn_run (newSnState group snapInput) es)).
Proof. apply si_commits, sn_run_inv, newSnState_inv. Qed.

(** ** Refused snapshots *)

(** Done channels are fresh: each is in the channel at most once, and not once it
    is closed. *)
Record chan_inv (s : snState) : Prop := {
  ci_nodup : NoDup (map sr_done (sn_chan s));
  ci_chan : forall id, id ∈ map sr_done (sn_chan s) -> (id < sn_next s)%nat /\ (id ∉ sn_closed s);
  ci_closed : forall id, id ∈ sn_closed s -> (id < sn_next s)%nat
}.

Lemma chan_inv_same s s' :
  sn_chan s' = sn_chan s -> sn_closed s' = sn_closed s -> sn_next s' = sn_next s -> chan_inv s -> chan_inv s'.
Proof. intros H1 H2 H3 [Ha Hb Hc]. split; by rewrite ?H1, ?H2, ?H3. Qed.

Lemma chan_inv_send s book w snap off tr :
  chan_inv s ->
  chan_inv (mkSnState book w (sn_chan s ++ [mkSnapshotResult snap off (sn_next s)]) (sn_closed s) (S (sn_next s)) tr).
Proof.
  intros [Ha Hb Hc]. split; cbn; rewrite ?map_app; cbn.
  - apply NoDup_app. split_and!; [done| |apply NoDup_singleton].
    intros id Hid ->%list_elem_of_singleton. destruct (Hb _ Hid). lia.
  - intros id [Hid| ->%list_elem_of_singleton]%elem_of_app.
    + destruct (Hb _ Hid). split; [lia|done].
    + split; [lia|]. intros Hid. specialize (Hc _ Hid). lia.
  - intros id Hid. specialize (Hc _ Hid). lia.
Qed.

Lemma receive_chan_inv s : chan_inv s -> chan_inv (receive s).
Proof.
  intros Hs. unfold receive. destruct (sn_chan s) as [|r rest] eqn:Ec; [done|]. destruct Hs as [Ha Hb Hc].
  rewrite Ec in Ha, Hb. cbn in Ha, Hb. apply NoDup_cons in Ha as [Hr Ha].
  assert (forall id, id ∈ map sr_done rest -> (id < sn_next s)%nat /\ (id ∉ sn_closed s)) as Hb'
    by (intros id Hid; apply Hb; by right).
  destruct (applySnapshot _ _) as [book [e|]]; split; cbn; try done.
  - intros id Hid. destruct (Hb' _ Hid). set_solver.
  - intros id [->%elem_of_singleton|Hid]%elem_of_union; [apply Hb; by left|by apply Hc].
Qed.

Lemma sn_step_chan_inv s e : chan_inv s -> chan_inv (sn_step s e).
Proof.
  intros Hs. destruct e; cbn [sn_step]; try (by apply receive_chan_inv); try (by apply (chan_inv_same s));
    unfold sw_fetch, sw_fetch_error, sw_send, sw_ack, sw_commit, sw_restart;
    destruct (sw_at (sn_worker s)); try done; try (by apply (chan_inv_same s)).
  - by destruct (buildOrderBookSnapshot _ _); apply (chan_inv_same s).
  - destruct (Nat.ltb _ _); [|done]. by apply chan_inv_send.
  - case_bool_decide; [|done]. by apply (chan_inv_same s).
  - destruct success; by apply (chan_inv_same s).
Qed.

Lemma sn_run_chan_inv es s : chan_inv s -> chan_inv (sn_run s es).
Proof. revert s. induction es as [|e es IH]; intros s Hs; cbn; [done|]. by apply IH, sn_step_chan_inv. Qed.

(** The worker waits for a done channel that is neither closed nor underway. *)
Definition orphaned (msg : Message) (id : nat) (s : snState) : Prop :=
  sw_at (sn_worker s) = SwWaiting msg id /\ (id ∉ sn_closed s) /\ (id ∉ map sr_done (sn_chan s)).

Definition is_cancel (e : sn_event) : bool := match e with EvCancel _ => true | _ => false end.

Lemma orphaned_step msg id s e :
  is_cancel e = false -> orphaned msg id s ->
  orphaned msg id (sn_step s e) /\
  (forall m, SCommit m ∈ sn_trace (sn_step s e) -> SCommit m ∈ sn_trace s).
Proof.
  intros Hne (Hp & Hcl & Hch). destruct e; cbn [sn_step]; try done.
  - unfold sw_fetch. by rewrite Hp.
  - unfold sw_fetch_error. by rewrite Hp.
  - unfold sw_send. by rewrite Hp.
  - unfold sw_ack. rewrite Hp. by rewrite bool_decide_false.
  - unfold sw_commit. by rewrite Hp.
  - unfold sw_restart. by rewrite Hp.
  - unfold receive. destruct (sn_chan s) as [|r rest] eqn:Ec;
      [split; [unfold orphaned; by rewrite Ec|done]|]. cbn in Hch. apply not_elem_of_cons in Hch as [Hr Hch].
    destruct (applySnapshot _ _) as [book [e|]]; split; try (unfold orphaned; cbn; set_solver); cbn;
      intros m [Hm|Hm]%elem_of_app; try done; apply list_elem_of_singleton in Hm; discriminate.
Qed.

Lemma orphaned_run msg id es s :
  orphaned msg id s -> existsb is_cancel es = false ->
  sw_at (sn_worker (sn_run s es)) = SwWaiting msg id /\
  (forall m, SCommit m ∈ sn_trace (sn_run s es) -> SCommit m ∈ sn_trace s).
Proof.
  revert s. induction es as [|e es IH]; intros s Hs Hes; cbn; [by split; [apply Hs|]|].
  cbn in Hes. apply orb_false_iff in Hes as [Hne Hes].
  destruct (orphaned_step msg id s e Hne Hs) as [Hs' Hm]. destruct (IH _ Hs' Hes) as [H1 H2].
  split; [done|]. intros m Hin. by apply Hm, H2.
Qed.

(** A refused snapshot blocks its input.  When the order book refuses the
    snapshot a worker is waiting for, its done channel is never closed: the worker
    stays at that wait through any events but its own cancellation, later deltas
    and receptions included, and commits nothing. *)
Theorem refused_snapshot_blocks group snapInput es1 msg r rest book e es2 :
  let s := sn_run (newSnState group snapInput) es1 in
  sn_chan s = r :: rest -> sw_at (sn_worker s) = SwWaiting msg (sr_done r) ->
  applySnapshot (sn_book s) (sr_snapshot r) = (book, Some e) -> existsb is_cancel es2 = false ->
  let s' := sn_run s (EvReceive :: es2) in
  sw_at (sn_worker s') = SwWaiting msg (sr_done r) /\
  (forall m, SCommit m ∈ sn_trace s' -> SCommit m ∈ sn_trace s).
Proof.
  intros s Hch Hat Happ Hes s'.
  assert (chan_inv s) as [Hnd Hci _] by (apply sn_run_chan_inv; split; cbn; [constructor|set_solver|set_solver]).
  assert (orphaned msg (sr_done r) (receive s)) as Ho.
  { rewrite Hch in Hnd, Hci. cbn in Hnd, Hci. apply NoDup_cons in Hnd as [Hr _].
    unfold receive, orphaned. rewrite Hch, Happ. cbn. split_and!; try done. apply Hci. by left. }
  destruct (orphaned_run _ _ _ _ Ho Hes) as [H1 H2]. split; [exact H1|].
  intros m Hm. apply H2 in Hm. revert Hm. unfold receive. rewrite Hch, Happ. cbn.
  intros [Hm|Hm]%elem_of_app; [done|]. apply list_elem_of_singleton in Hm. discriminate.
Qed.

End snapshot.

(** ** At concrete events *)

Definition sample_events : list sn_event :=
  [EvFetch (sample_msg 3 "snapshot"); EvSend; EvReceive; EvAck; EvCommit true true].

Definition sample_snap_input : GroupInput := sample_input "orderbook_snapshot" "orderbook_snapshot" "".

Example sample_run_commits :
  let s := @sn_run sample_decoders sample_snap_input (newSnState "g" "i") sample_events in
  map (fun a => match a with SFetch _ => 0 | SSent _ _ _ => 1 | SApplied _ => 2 | SCommit _ => 3 | _ => 4 end)
    (sn_trace s) = [0; 1; 2; 3] /\ sw_committed (sn_worker s) = Some 3 /\ ob_ready (sn_book s) = true.
Proof. vm_compute. done. Qed.

(** A snapshot whose bids ascend. *)
Definition crossed_decoders : Decoders := {|
  decodeTrade := on_value sample_trade;
  decodeKline := on_value sample_candle;
  decodeOrderBookDelta := on_value sample_book_delta;
  decodeOrderBookSnapshot :=
    on_value (mkOrderBookSnapshotMessage (Some 5) None None (Some 6) [mkPriceLevel "100" "1"; mkPriceLevel "101" "1"] [])
|}.

Lemma refused_snapshot_blocks_witness :
  let s := @sn_run crossed_decoders sample_snap_input (newSnState "g" "i") [EvFetch (sample_msg 3 "snapshot"); EvSend] in
  let s' := @sn_run crossed_decoders sample_snap_input s [EvReceive; EvAck; EvCommit true true; EvAck] in
  sw_at (sn_worker s') = SwWaiting (sample_msg 3 "snapshot") 0.
Proof.
  intros s s'.
  destruct (sn_chan s) as [|r rest] eqn:Ec; [vm_compute in Ec; discriminate|].
  destruct (applySnapshot (sn_book s) (sr_snapshot r)) as [book [e|]] eqn:Ea;
    [|vm_compute in Ec; injection Ec as <- <-; vm_compute in Ea; discriminate].
  assert (sw_at (sn_worker s) = SwWaiting (sample_msg 3 "snapshot") (sr_done r)) as Hat
    by (vm_compute in Ec; injection Ec as <- <-; vm_compute; reflexivity).
  destruct (@refused_snapshot_blocks crossed_decoders sample_snap_input "g" "i" _ _ r rest book e
              [EvAck; EvCommit true true; EvAck] Ec Hat Ea eq_refl) as [H _].
  vm_compute in Ec. injection Ec as <- <-. exact H.
Defined.

Lemma snapshot_commit_after_apply_witness :
  let s := @sn_run sample_decoders sample_snap_input (newSnState "g" "i") sample_events in
  exists id, SApplied id ∈ sn_trace s.
Proof.
  intros s.
  destruct (@snapshot_commit_after_apply sample_decoders sample_snap_input "g" "i" sample_events
              (take 3 (sn_trace s)) (sample_msg 3 "snapshot") [] eq_refl) as (id & snap & _ & _ & H).
  exists id. rewrite <- (take_drop 3 (sn_trace s)). apply elem_of_app. by left.
Defined.
