(* ===== verification/StorageInterface.v ===== *)
(** * StorageInterface: what the runtime asks of the fact store

    internal/storage/storage.go: the fact batch, the conditions under which a
    store accepts one, and the part of [MarketDataStorage] the input workers
    use, with the promises they rely on.  Storage proves that the PostgreSQL
    store keeps the promises; InputWorker uses nothing else of it. *)

From S2P Require Import Prelude GoStd Model.

Open Scope Z_scope.

Record FactBatch := mkFactBatch {
  fb_Trades : list Trade;
  fb_Klines : list Kline;
  fb_OrderBookDeltas : list OrderBookDelta;
  fb_Progress : StreamWriteProgress
}.

(** ** Coordinates *)

Definition trade_coord (t : Trade) : string * Z * Z :=
  (tr_InputID t, tr_KafkaPartition t, tr_KafkaOffset t).
Definition delta_coord (d : OrderBookDelta) : string * Z * Z :=
  (od_InputID d, od_KafkaPartition d, od_KafkaOffset d).
Definition kline_coord (k : Kline) : string * Z * Z :=
  (kl_InputID k, kl_KafkaPartition k, kl_KafkaOffset k).
Definition poison_coord (p : PoisonRecord) : string * Z * Z :=
  (po_InputID p, po_Partition p, po_Offset p).

Definition progress_key (p : StreamWriteProgress) : string * Z := (wp_InputID p, wp_KafkaPartition p).

(** ** Acceptable batches *)

(** The row belongs to the batch's input partition and offset prefix. *)
Definition in_prefix (p : StreamWriteProgress) (c : string * Z * Z) : Prop :=
  c.1 = progress_key p /\ 0 <= c.2 <= wp_DurableOffset p.

Definition rows_valid (p : StreamWriteProgress) (rows : list (string * Z * Z)) : Prop :=
  Forall (in_prefix p) rows /\ StronglySorted Z.lt (map snd rows).

(** At most one of the three kinds of facts is present. *)
Definition one_kind (b : FactBatch) : Prop :=
  (fb_Klines b = [] /\ fb_OrderBookDeltas b = []) \/
  (fb_Trades b = [] /\ fb_OrderBookDeltas b = []) \/
  (fb_Trades b = [] /\ fb_Klines b = []).

Definition batch_valid (b : FactBatch) : Prop :=
  let p := fb_Progress b in
  wp_InputID p <> "" /\ 0 <= wp_KafkaPartition p /\ 0 <= wp_DurableOffset p /\ one_kind b /\
  rows_valid p (map trade_coord (fb_Trades b)) /\ rows_valid p (map kline_coord (fb_Klines b)) /\
  rows_valid p (map delta_coord (fb_OrderBookDeltas b)).

(** ** The interface *)

(** One store: its state, the faults of a call, and the three calls of an input
    worker.  [st_durable] is the durable offset of an input partition (-1 when
    there is none) and [st_poisoned] the set of recorded poison coordinates. *)
Class MarketDataStorage := {
  st_DB : Type;
  st_fault : Type;
  st_error : Type;
  st_write : st_fault -> time.Time -> st_DB -> FactBatch -> st_DB * option st_error;
  st_load : st_fault -> st_DB -> string -> Z -> result st_error (option StreamWriteProgress);
  st_poison : st_fault -> time.Time -> st_DB -> PoisonRecord -> st_DB * option st_error;
  st_durable : st_DB -> string * Z -> Z;
  st_poisoned : st_DB -> string * Z * Z -> Prop;
  st_calm : st_fault
}.

(** What a client may rely on: success means durable, nothing durable is ever
    taken back, an acceptable batch is refused only by a fault. *)
Class MarketDataStorageLaws (S : MarketDataStorage) := {
  law_write_durable f now db b :
    snd (st_write f now db b) = None ->
    wp_DurableOffset (fb_Progress b) <= st_durable (fst (st_write f now db b)) (progress_key (fb_Progress b));
  law_write_monotone f now db b k : st_durable db k <= st_durable (fst (st_write f now db b)) k;
  law_write_poisoned f now db b c : st_poisoned db c -> st_poisoned (fst (st_write f now db b)) c;
  law_write_accepts now db b : batch_valid b -> snd (st_write st_calm now db b) = None;
  law_write_refuses f now db b : ~ batch_valid b ->
    fst (st_write f now db b) = db /\ snd (st_write f now db b) <> None;
  law_load_exact f db i p r : st_load f db i p = Ok r ->
    st_durable db (i, p) = match r with Some row => wp_DurableOffset row | None => -1 end;
  law_load_calm db i p : is_ok (st_load st_calm db i p) = true;
  law_poison_recorded f now db r :
    snd (st_poison f now db r) = None -> st_poisoned (fst (st_poison f now db r)) (poison_coord r);
  law_poison_calm now db r : snd (st_poison st_calm now db r) = None;
  law_poison_durable f now db r k : st_durable (fst (st_poison f now db r)) k = st_durable db k;
  law_poison_monotone f now db r c : st_poisoned db c -> st_poisoned (fst (st_poison f now db r)) c
}.
