(* ===== verification/Storage.v ===== *)
(** * Storage: the PostgreSQL fact store

    internal/storage/postgres.go and storage.go, over the tables of migrations/.
    A method is a function of the database, of the faults of the connection and
    of the server clock.  Each SQL statement is written out as the change it
    makes to the tables; a transaction works on a copy of the database that
    only [Commit] publishes.  A constraint, encoding or connection error is a
    fault of the statement that meets it.  Writers of one progress row are
    serialised by its row lock, so a call is one atomic step here.  Identity
    columns count the rows inserted, without the gaps of skipped inserts. *)

From S2P Require Import Prelude GoStd Model StorageInterface.

Open Scope Z_scope.

(** ** Tables *)

(** The unique key of klines: group, source, interval, open time. *)
Definition kline_key : Type := string * string * string * Z.

Record DB := mkDB {
  db_trades : list Trade;
  db_klines : gmap kline_key Kline;
  db_deltas : list OrderBookDelta;
  db_snapshots : list OrderBookSnapshot;
  db_poison : list PoisonRecord;
  db_progress : gmap (string * Z) StreamWriteProgress;
  db_nextTrade : Z;
  db_nextSnapshot : Z
}.

Definition emptyDB : DB := mkDB [] ∅ [] [] [] ∅ 1 1.

(** ** Errors and faults *)

Inductive batch_problem :=
| ErrInputIDRequired
| ErrPartitionNegative
| ErrDurableOffsetNegative
| ErrMixedKinds
| ErrCoordinates
| ErrOffsetOutside
| ErrNotIncreasing.

(** The statements of [WriteFactBatch], in order. *)
Inductive stage :=
| StBegin | StInitProgress | StLockProgress | StReplayCommit | StTrades | StKlines
| StDatabaseNow | StCopyDeltas | StUpdateProgress | StCommit.

Inductive storage_error :=
| ErrInvalidBatch (p : batch_problem)
| ErrStage (s : stage)
| ErrExec
| ErrNotImplemented.

(** What each statement does. *)
Definition faults : Type := stage -> outcome.

Definition no_fault : faults := fun _ => Done.

(** ** Small helpers of postgres.go *)

Definition nullIfEmpty (s : string) : option string :=
  if bool_decide (s = "") then None else Some s.

Definition sourceOrDefault (s : string) : string :=
  if bool_decide (s = "") then KlineSourceExchange else s.

(** The repository's second [schemaVersionOrDefault], of package storage. *)
Definition storageSchemaVersionOrDefault (v : Z) : Z := if (v <=? 0) then 1 else v.

(** ** Single-row statements *)

Definition set_trades (t : list Trade) (n : Z) (db : DB) : DB :=
  mkDB t (db_klines db) (db_deltas db) (db_snapshots db) (db_poison db) (db_progress db)
    n (db_nextSnapshot db).
Definition set_klines (k : gmap kline_key Kline) (db : DB) : DB :=
  mkDB (db_trades db) k (db_deltas db) (db_snapshots db) (db_poison db) (db_progress db)
    (db_nextTrade db) (db_nextSnapshot db).
Definition set_deltas (d : list OrderBookDelta) (db : DB) : DB :=
  mkDB (db_trades db) (db_klines db) d (db_snapshots db) (db_poison db) (db_progress db)
    (db_nextTrade db) (db_nextSnapshot db).
Definition set_snapshots (s : list OrderBookSnapshot) (n : Z) (db : DB) : DB :=
  mkDB (db_trades db) (db_klines db) (db_deltas db) s (db_poison db) (db_progress db)
    (db_nextTrade db) n.
Definition set_poison (p : list PoisonRecord) (db : DB) : DB :=
  mkDB (db_trades db) (db_klines db) (db_deltas db) (db_snapshots db) p (db_progress db)
    (db_nextTrade db) (db_nextSnapshot db).
Definition set_progress (p : gmap (string * Z) StreamWriteProgress) (db : DB) : DB :=
  mkDB (db_trades db) (db_klines db) (db_deltas db) (db_snapshots db) (db_poison db) p
    (db_nextTrade db) (db_nextSnapshot db).

(** Either unique index of trades refuses [r] next to [x]. *)
Definition trade_clash (r x : Trade) : bool :=
  bool_decide (trade_coord r = trade_coord x)
  || match nullIfEmpty (tr_RawTradeID r) with
     | Some raw => bool_decide (tr_InputID r = tr_InputID x) && bool_decide (raw = tr_RawTradeID x)
     | None => false
     end.

(** The row the INSERT of a trade stores. *)
Definition trade_row (now : time.Time) (id : Z) (r : Trade) : Trade :=
  mkTrade id (tr_GroupID r) (tr_InputID r) (tr_EventTime r) (tr_ExchangeTime r)
    (tr_LocalReceiveTime r) (tr_TradeID r) (tr_RawTradeID r) (tr_Price r) (tr_Quantity r)
    (tr_Side r) (tr_IsAggregated r) (tr_KafkaTopic r) (tr_KafkaPartition r) (tr_KafkaOffset r)
    (storageSchemaVersionOrDefault (tr_SchemaVersion r)) now.

(** INSERT INTO trades ... ON CONFLICT DO NOTHING *)
Definition insert_trade (now : time.Time) (db : DB) (r : Trade) : DB :=
  if existsb (trade_clash r) (db_trades db) then db
  else set_trades (db_trades db ++ [trade_row now (db_nextTrade db) r]) (db_nextTrade db + 1) db.

Definition key_of_kline (r : Kline) : kline_key :=
  (kl_GroupID r, sourceOrDefault (kl_Source r), kl_Interval r, kl_OpenTime r).

(** The row the INSERT or the UPDATE of a kline stores. *)
Definition kline_row (now : time.Time) (r : Kline) : Kline :=
  mkKline (kl_GroupID r) (kl_InputID r) (sourceOrDefault (kl_Source r)) (kl_Interval r)
    (kl_OpenTime r) (kl_CloseTime r) (kl_Open r) (kl_High r) (kl_Low r) (kl_Close r) (kl_Volume r)
    (kl_QuoteVolume r) (kl_TradeCount r) (kl_IsClosed r) (kl_Revision r) (kl_KafkaTopic r)
    (kl_KafkaPartition r) (kl_KafkaOffset r) now.

(** The WHERE of the ON CONFLICT DO UPDATE: may [r] replace [old]? *)
Definition kline_guard (old r : Kline) : bool :=
  (negb (kl_IsClosed old) && (kl_Revision old <=? kl_Revision r))
  || (kl_IsClosed old && (kl_Revision old <? kl_Revision r) && kl_IsClosed r).

Definition upsert_kline (now : time.Time) (db : DB) (r : Kline) : DB :=
  let k := key_of_kline r in
  match db_klines db !! k with
  | Some old => if kline_guard old r then set_klines (<[k := kline_row now r]> (db_klines db)) db
                else db
  | None => set_klines (<[k := kline_row now r]> (db_klines db)) db
  end.

(** A copied delta row: a zero [IngestedAt] becomes the server clock. *)
Definition delta_row (dbNow : time.Time) (r : OrderBookDelta) : OrderBookDelta :=
  mkOrderBookDelta (od_GroupID r) (od_InputID r) (od_EventTime r) (od_ExchangeTime r)
    (od_LocalReceiveTime r) (od_RawEventID r) (od_FirstUpdateID r) (od_LastUpdateID r)
    (od_PrevUpdateID r) (od_Sequence r) (od_Bids r) (od_Asks r) (od_RawPayload r) (od_KafkaTopic r)
    (od_KafkaPartition r) (od_KafkaOffset r)
    (if time.IsZero (od_IngestedAt r) then dbNow else od_IngestedAt r).

(** INSERT ... WHERE NOT EXISTS of the direct-write path. *)
Definition delta_exists (r x : OrderBookDelta) : bool :=
  bool_decide (od_InputID x = od_InputID r)
  && ((bool_decide (od_KafkaPartition x = od_KafkaPartition r)
       && bool_decide (od_KafkaOffset x = od_KafkaOffset r))
      || match nullIfEmpty (od_RawEventID r) with
         | Some raw => bool_decide (od_RawEventID x = raw)
         | None => false
         end).

Definition insert_delta (now : time.Time) (db : DB) (r : OrderBookDelta) : DB :=
  if existsb (delta_exists r) (db_deltas db) then db
  else set_deltas (db_deltas db ++ [delta_row now r]) db.

Definition snapshot_key (s : OrderBookSnapshot) : string * Z := (os_InputID s, os_SnapshotTime s).

Definition snapshot_row (now : time.Time) (id : Z) (r : OrderBookSnapshot) : OrderBookSnapshot :=
  mkOrderBookSnapshot id (os_GroupID r) (os_InputID r) (os_SnapshotTime r) (os_Sequence r)
    (os_Bids r) (os_Asks r) now.

(** INSERT INTO orderbook_snapshots ... ON CONFLICT (input_id, snapshot_time) DO NOTHING *)
Definition insert_snapshot (now : time.Time) (db : DB) (r : OrderBookSnapshot) : DB :=
  if existsb (fun x => bool_decide (snapshot_key x = snapshot_key r)) (db_snapshots db) then db
  else set_snapshots (db_snapshots db ++ [snapshot_row now (db_nextSnapshot db) r])
         (db_nextSnapshot db + 1) db.

(** INSERT INTO stream_poison_records ... ON CONFLICT DO NOTHING.  The topic
    has no column. *)
Definition insert_poison (now : time.Time) (db : DB) (r : PoisonRecord) : DB :=
  if existsb (fun x => bool_decide (poison_coord x = poison_coord r)) (db_poison db) then db
  else set_poison (db_poison db ++
         [mkPoisonRecord (po_InputID r) (po_GroupID r) (po_StreamKind r) "" (po_Partition r)
            (po_Offset r) (po_ErrorMessage r) (po_RawPayload r) now]) db.

(** ** [WriteFactBatch] *)

(** The closure [validate] of [validateFactBatch]. *)
Definition validate_row (p : StreamWriteProgress) (c : string * Z * Z) : option batch_problem :=
  let '(inputID, partition, offset) := c in
  if negb (bool_decide (inputID = wp_InputID p)) || negb (partition =? wp_KafkaPartition p)
  then Some ErrCoordinates
  else if (offset <? 0) || (wp_DurableOffset p <? offset) then Some ErrOffsetOutside
  else None.

(** One of the three row loops. *)
Fixpoint validate_rows (p : StreamWriteProgress) (previous : Z) (rows : list (string * Z * Z))
    : option batch_problem :=
  match rows with
  | [] => None
  | c :: rows' =>
      match validate_row p c with
      | Some e => Some e
      | None => if (c.2 <=? previous) then Some ErrNotIncreasing
                else validate_rows p c.2 rows'
      end
  end.

Definition count_kind {A} (rows : list A) : Z := if (0 <? Z.of_nat (length rows)) then 1 else 0.

Definition validateFactBatch (batch : FactBatch) : option batch_problem :=
  let p := fb_Progress batch in
  if bool_decide (wp_InputID p = "") then Some ErrInputIDRequired
  else if (wp_KafkaPartition p <? 0) then Some ErrPartitionNegative
  else if (wp_DurableOffset p <? 0) then Some ErrDurableOffsetNegative
  else if (1 <? count_kind (fb_Trades batch) + count_kind (fb_Klines batch)
             + count_kind (fb_OrderBookDeltas batch)) then Some ErrMixedKinds
  else match validate_rows p (-1) (map trade_coord (fb_Trades batch)) with
       | Some e => Some e
       | None =>
           match validate_rows p (-1) (map kline_coord (fb_Klines batch)) with
           | Some e => Some e
           | None => validate_rows p (-1) (map delta_coord (fb_OrderBookDeltas batch))
           end
       end.

(** The filter of [tradesAfterOffset] and its two siblings. *)
Definition after_offset (p : StreamWriteProgress) (durable : Z) (c : string * Z * Z) : bool :=
  let '(inputID, partition, offset) := c in
  bool_decide (inputID = wp_InputID p) && (partition =? wp_KafkaPartition p)
  && (durable <? offset) && (offset <=? wp_DurableOffset p).

Definition tradesAfterOffset (rows : list Trade) (p : StreamWriteProgress) (durable : Z) : list Trade :=
  List.filter (fun r => after_offset p durable (trade_coord r)) rows.

Definition klinesAfterOffset (rows : list Kline) (p : StreamWriteProgress) (durable : Z) : list Kline :=
  List.filter (fun r => after_offset p durable (kline_coord r)) rows.

Definition deltasAfterOffset (rows : list OrderBookDelta) (p : StreamWriteProgress) (durable : Z)
    : list OrderBookDelta :=
  List.filter (fun r => after_offset p durable (delta_coord r)) rows.

(** A statement of the transaction on the working copy. *)
Definition stmt (env : faults) (st : stage) (f : DB -> DB) (work : DB) : result storage_error DB :=
  match env st with
  | Done => Ok (f work)
  | _ => Err (ErrStage st)
  end.

Definition writeTradesTx (env : faults) (now : time.Time) (rows : list Trade) (work : DB)
    : result storage_error DB :=
  match rows with
  | [] => Ok work
  | _ => stmt env StTrades (fun w => fold_left (insert_trade now) rows w) work
  end.

Definition writeKlinesTx (env : faults) (now : time.Time) (rows : list Kline) (work : DB)
    : result storage_error DB :=
  match rows with
  | [] => Ok work
  | _ => stmt env StKlines (fun w => fold_left (upsert_kline now) rows w) work
  end.

(** COPY appends without looking for duplicates. *)
Definition writeOrderBookDeltasCopy (env : faults) (dbNow : time.Time) (rows : list OrderBookDelta)
    (work : DB) : result storage_error DB :=
  match rows with
  | [] => Ok work
  | _ => stmt env StCopyDeltas (fun w => set_deltas (db_deltas w ++ map (delta_row dbNow) rows) w) work
  end.

(** INSERT INTO stream_write_progress ... durable_offset -1 ... DO NOTHING *)
Definition init_progress (now : time.Time) (p : StreamWriteProgress) (db : DB) : DB :=
  match db_progress db !! progress_key p with
  | Some _ => db
  | None => set_progress (<[progress_key p :=
      mkStreamWriteProgress (wp_InputID p) (wp_KafkaPartition p) (-1) "" None None now]>
      (db_progress db)) db
  end.

(** UPDATE stream_write_progress SET durable_offset = ... *)
Definition update_progress (now : time.Time) (p : StreamWriteProgress) (db : DB) : DB :=
  match db_progress db !! progress_key p with
  | None => db
  | Some _ => set_progress (<[progress_key p :=
      mkStreamWriteProgress (wp_InputID p) (wp_KafkaPartition p) (wp_DurableOffset p)
        (wp_LastRawEventID p) (wp_LastUpdateID p) (wp_LastSequence p) now]> (db_progress db)) db
  end.

(** The facts of a batch above the durable offset, and the new cursor. *)
Definition write_facts (env : faults) (now : time.Time) (batch : FactBatch) (durable : Z) (work : DB)
    : result storage_error DB :=
  let p := fb_Progress batch in
  w1 ← writeTradesTx env now (tradesAfterOffset (fb_Trades batch) p durable) work;
  w2 ← writeKlinesTx env now (klinesAfterOffset (fb_Klines batch) p durable) w1;
  let deltas := deltasAfterOffset (fb_OrderBookDeltas batch) p durable in
  w3 ← (if (0 <? Z.of_nat (length deltas)) then
          w ← stmt env StDatabaseNow id w2; writeOrderBookDeltasCopy env now deltas w
        else Ok w2);
  stmt env StUpdateProgress (update_progress now p) w3.

(** The statements before the commit: which commit is next, and the copy. *)
Definition fact_batch_tx (env : faults) (now : time.Time) (db : DB) (batch : FactBatch)
    : result storage_error (stage * DB) :=
  let p := fb_Progress batch in
  w0 ← stmt env StBegin id db;
  w1 ← stmt env StInitProgress (init_progress now p) w0;
  row ← (match env StLockProgress, db_progress w1 !! progress_key p with
         | Done, Some row => Ok row
         | _, _ => Err (ErrStage StLockProgress)
         end);
  if (wp_DurableOffset p <=? wp_DurableOffset row) then Ok (StReplayCommit, w1)
  else w2 ← write_facts env now batch (wp_DurableOffset row) w1; Ok (StCommit, w2).

(** [tx.Commit], with the deferred rollback. *)
Definition commit (env : faults) (db : DB) (r : result storage_error (stage * DB))
    : DB * option storage_error :=
  match r with
  | Err e => (db, Some e)
  | Ok (st, work) => match env st with
                     | Done => (work, None)
                     | Failed => (db, Some (ErrStage st))
                     | Lost => (work, Some (ErrStage st))
                     end
  end.

Definition WriteFactBatch (env : faults) (now : time.Time) (db : DB) (batch : FactBatch)
    : DB * option storage_error :=
  match validateFactBatch batch with
  | Some e => (db, Some (ErrInvalidBatch e))
  | None => commit env db (fact_batch_tx env now db batch)
  end.

(** ** The other methods *)

(** A pool call outside a transaction. *)
Definition exec (out : outcome) (f : DB -> DB) (db : DB) : DB * option storage_error :=
  match out with
  | Done => (f db, None)
  | Failed => (db, Some ErrExec)
  | Lost => (f db, Some ErrExec)
  end.

(** [Ok None] is the [false] of a missing row. *)
Definition LoadStreamWriteProgress (out : outcome) (db : DB) (inputID : string) (partition : Z)
    : result storage_error (option StreamWriteProgress) :=
  match out with
  | Done => Ok (db_progress db !! (inputID, partition))
  | _ => Err ErrExec
  end.

Definition WriteTrades (out : outcome) (now : time.Time) (db : DB) (rows : list Trade)
    : DB * option storage_error :=
  match rows with
  | [] => (db, None)
  | _ => exec out (fun w => fold_left (insert_trade now) rows w) db
  end.

Definition WriteKlines (out : outcome) (now : time.Time) (db : DB) (rows : list Kline)
    : DB * option storage_error :=
  match rows with
  | [] => (db, None)
  | _ => exec out (fun w => fold_left (upsert_kline now) rows w) db
  end.

(** [clock] is the fault of the clock query, made when some row needs it. *)
Definition WriteOrderBookDeltas (clock out : outcome) (now : time.Time) (db : DB)
    (rows : list OrderBookDelta) : DB * option storage_error :=
  match rows with
  | [] => (db, None)
  | _ =>
      match existsb (fun r => time.IsZero (od_IngestedAt r)) rows, clock with
      | true, (Failed | Lost) => (db, Some ErrExec)
      | _, _ => exec out (fun w => fold_left (insert_delta now) rows w) db
      end
  end.

Definition WriteOrderBookSnapshots (out : outcome) (now : time.Time) (db : DB)
    (rows : list OrderBookSnapshot) : DB * option storage_error :=
  match rows with
  | [] => (db, None)
  | _ => exec out (fun w => fold_left (insert_snapshot now) rows w) db
  end.

Definition WritePoisonRecord (out : outcome) (now : time.Time) (db : DB) (record : PoisonRecord)
    : DB * option storage_error :=
  exec out (fun w => insert_poison now w record) db.

Definition WriteTradeMetrics (db : DB) : DB * option storage_error := (db, Some ErrNotImplemented).
Definition WriteBookMetrics (db : DB) : DB * option storage_error := (db, Some ErrNotImplemented).
Definition WriteCrossMetrics (db : DB) : DB * option storage_error := (db, Some ErrNotImplemented).

(** ** Specification of a fact batch *)

(** The durable offset of an input partition, -1 before the first batch. *)
Definition durable (db : DB) (k : string * Z) : Z :=
  match db_progress db !! k with
  | Some row => wp_DurableOffset row
  | None => -1
  end.

Definition progress_row (now : time.Time) (p : StreamWriteProgress) : StreamWriteProgress :=
  mkStreamWriteProgress (wp_InputID p) (wp_KafkaPartition p) (wp_DurableOffset p)
    (wp_LastRawEventID p) (wp_LastUpdateID p) (wp_LastSequence p) now.

(** The facts of the batch above the durable offset, then its cursor. *)
Definition publish (now : time.Time) (db : DB) (batch : FactBatch) : DB :=
  let p := fb_Progress batch in
  let d := durable db (progress_key p) in
  let w1 := fold_left (insert_trade now) (tradesAfterOffset (fb_Trades batch) p d) db in
  let w2 := fold_left (upsert_kline now) (klinesAfterOffset (fb_Klines batch) p d) w1 in
  let w3 := set_deltas (db_deltas w2 ++ map (delta_row now) (deltasAfterOffset (fb_OrderBookDeltas batch) p d)) w2 in
  set_progress (<[progress_key p := progress_row now p]> (db_progress db)) w3.

Lemma fold_commute {A B} (f : A -> B -> A) (g : A -> A) l a :
  (forall a b, f (g a) b = g (f a b)) -> fold_left f l (g a) = g (fold_left f l a).
Proof. intros H. revert a. induction l as [|x l IH]; intros a; [done|]. simpl. by rewrite H, IH. Qed.

Lemma insert_trade_set_progress now q w r :
  insert_trade now (set_progress q w) r = set_progress q (insert_trade now w r).
Proof. unfold insert_trade. simpl. by destruct (existsb _ _). Qed.

Lemma upsert_kline_set_progress now q w r :
  upsert_kline now (set_progress q w) r = set_progress q (upsert_kline now w r).
Proof. unfold upsert_kline. simpl. destruct (_ !! _); [|done]. by destruct (kline_guard _ _). Qed.

Lemma fold_trades_progress now rows w :
  db_progress (fold_left (insert_trade now) rows w) = db_progress w.
Proof.
  revert w. induction rows as [|r rows IH]; intros w; [done|]. simpl. rewrite IH.
  unfold insert_trade. by destruct (existsb _ _).
Qed.

Lemma upsert_progress now w r : db_progress (upsert_kline now w r) = db_progress w.
Proof. unfold upsert_kline. destruct (_ !! _); [|done]. by destruct (kline_guard _ _). Qed.

Lemma fold_klines_progress now rows w :
  db_progress (fold_left (upsert_kline now) rows w) = db_progress w.
Proof.
  revert w. induction rows as [|r rows IH]; intros w; [done|]. simpl. by rewrite IH, upsert_progress.
Qed.

Lemma set_deltas_nil w : set_deltas (db_deltas w ++ []) w = w.
Proof. rewrite app_nil_r. by destruct w. Qed.

Lemma set_progress_twice q q' w : set_progress q (set_progress q' w) = set_progress q w.
Proof. done. Qed.

(** The initial progress row only adds an offset of -1. *)
Lemma init_progress_eq now p db :
  exists q, init_progress now p db = set_progress q db /\
    (forall row, <[progress_key p := row]> q = <[progress_key p := row]> (db_progress db)) /\
    exists row, q !! progress_key p = Some row /\ wp_DurableOffset row = durable db (progress_key p).
Proof.
  unfold init_progress, durable. destruct (db_progress db !! progress_key p) as [row|] eqn:E.
  - exists (db_progress db). split; [by destruct db|]. split; [done|]. by exists row.
  - eexists. split; [done|]. split; [intros row; by rewrite insert_insert_eq|].
    eexists. by rewrite lookup_insert_eq.
Qed.

Lemma stmt_Ok env st f w w' : stmt env st f w = Ok w' -> w' = f w.
Proof. unfold stmt. destruct (env st); by intros [= <-]. Qed.

Lemma writeTradesTx_Ok env now rows w w' :
  writeTradesTx env now rows w = Ok w' -> w' = fold_left (insert_trade now) rows w.
Proof. destruct rows; [by intros [= <-]|]. apply stmt_Ok. Qed.

Lemma writeKlinesTx_Ok env now rows w w' :
  writeKlinesTx env now rows w = Ok w' -> w' = fold_left (upsert_kline now) rows w.
Proof. destruct rows; [by intros [= <-]|]. apply stmt_Ok. Qed.

Lemma writeOrderBookDeltasCopy_Ok env now rows w w' :
  writeOrderBookDeltasCopy env now rows w = Ok w' ->
  w' = set_deltas (db_deltas w ++ map (delta_row now) rows) w.
Proof.
  destruct rows; intros H; [|by apply stmt_Ok in H].
  injection H as <-. symmetry. apply set_deltas_nil.
Qed.

Lemma write_facts_Ok env now batch d w w' :
  write_facts env now batch d w = Ok w' ->
  let p := fb_Progress batch in
  let w2 := fold_left (upsert_kline now) (klinesAfterOffset (fb_Klines batch) p d)
              (fold_left (insert_trade now) (tradesAfterOffset (fb_Trades batch) p d) w) in
  w' = update_progress now p (set_deltas (db_deltas w2 ++
         map (delta_row now) (deltasAfterOffset (fb_OrderBookDeltas batch) p d)) w2).
Proof.
  intros H p w2. unfold write_facts in H. fold p in H.
  apply bind_Ok in H as (w1 & H1 & H). apply bind_Ok in H as (w2' & H2 & H).
  apply bind_Ok in H as (w3 & H3 & H).
  apply writeTradesTx_Ok in H1. apply writeKlinesTx_Ok in H2. subst w1. fold w2 in H2. subst w2'.
  apply stmt_Ok in H. subst w'. f_equal.
  destruct (0 <? _) eqn:E.
  - apply bind_Ok in H3 as (w0 & Hc & H3). apply stmt_Ok in Hc. simpl in Hc. subst w0.
    by apply writeOrderBookDeltasCopy_Ok in H3.
  - injection H3 as <-. destruct (deltasAfterOffset _ _ _); [symmetry; apply set_deltas_nil|].
    apply Z.ltb_ge in E. simpl in E. lia.
Qed.

(** What the transaction asks the server to commit. *)
Lemma fact_batch_tx_Ok env now db batch st w :
  validateFactBatch batch = None -> fact_batch_tx env now db batch = Ok (st, w) ->
  let p := fb_Progress batch in
  (st = StReplayCommit /\ wp_DurableOffset p <= durable db (progress_key p) /\ w = db) \/
  (st = StCommit /\ durable db (progress_key p) < wp_DurableOffset p /\ w = publish now db batch).
Proof.
  intros Hv H p.
  assert (0 <= wp_DurableOffset p) as Hp.
  { unfold validateFactBatch in Hv. fold p in Hv. do 3 (case_match; [done|]). by bool_to_prop. }
  unfold fact_batch_tx in H. fold p in H.
  apply bind_Ok in H as (w0 & H0 & H). apply stmt_Ok in H0. simpl in H0. subst w0.
  apply bind_Ok in H as (w1 & H1 & H). apply stmt_Ok in H1.
  apply bind_Ok in H as (row & Hrow & H).
  destruct (init_progress_eq now p db) as (q & Hq & Hins & row' & Hl & Hd).
  rewrite Hq in H1. subst w1. simpl in Hrow. rewrite Hl in Hrow.
  assert (row' = row) as -> by (destruct (env StLockProgress); by simplify_eq).
  rewrite Hd in H. destruct (Z.leb_spec (wp_DurableOffset p) (durable db (progress_key p))) as [Hle|Hlt].
  - left. injection H as <- <-. split; [done|]. split; [done|].
    unfold init_progress in Hq. unfold durable in Hle.
    destruct (db_progress db !! progress_key p); [by rewrite <- Hq|lia].
  - right. apply bind_Ok in H as (w2 & H2 & H). injection H as <- <-.
    split; [done|]. split; [done|]. apply write_facts_Ok in H2. fold p in H2.
    rewrite (fold_commute _ (set_progress q)) in H2 by apply insert_trade_set_progress.
    rewrite (fold_commute _ (set_progress q)) in H2 by apply upsert_kline_set_progress.
    subst w2. unfold update_progress. simpl. rewrite Hl. unfold publish. fold p.
    by rewrite Hins.
Qed.

(** The three ways a call can end. *)
Lemma WriteFactBatch_cases env now db batch :
  let p := fb_Progress batch in
  let r := WriteFactBatch env now db batch in
  (fst r = db /\ snd r <> None) \/
  (validateFactBatch batch = None /\ wp_DurableOffset p <= durable db (progress_key p) /\ fst r = db) \/
  (validateFactBatch batch = None /\ durable db (progress_key p) < wp_DurableOffset p /\
   fst r = publish now db batch).
Proof.
  intros p r. subst r. unfold WriteFactBatch. destruct (validateFactBatch batch) eqn:Hv; [by left|].
  unfold commit. destruct (fact_batch_tx env now db batch) as [[st w]|e] eqn:E; [|by left].
  destruct (fact_batch_tx_Ok env now db batch st w Hv E) as [(-> & H1 & ->)|(-> & H1 & ->)];
    destruct (env _); simpl; auto.
Qed.

(** ** What the validation accepts *)

Lemma validate_row_spec p c : validate_row p c = None <-> in_prefix p c.
Proof.
  destruct c as [[i n] o]. unfold validate_row, in_prefix, progress_key. simpl.
  case_bool_decide as Hi; simpl.
  - destruct (Z.eqb_spec n (wp_KafkaPartition p)) as [Hn|Hn]; simpl.
    + destruct (Z.ltb_spec o 0); simpl; [split; [done|intros [_ ?]; lia]|].
      destruct (Z.ltb_spec (wp_DurableOffset p) o); [split; [done|intros [_ ?]; lia]|].
      split; [intros _; split; [congruence|lia]|done].
    + split; [done|]. intros [[= ] _]. congruence.
  - split; [done|]. intros [[= ] _]. congruence.
Qed.

Lemma validate_rows_spec p prev rows :
  validate_rows p prev rows = None <->
  rows_valid p rows /\ Forall (fun c : string * Z * Z => prev < c.2) rows.
Proof.
  unfold rows_valid. revert prev. induction rows as [|c rows IH]; intros prev; simpl.
  { split; [intros _; split; [split; constructor|constructor]|done]. }
  rewrite !Forall_cons. destruct (validate_row p c) eqn:E.
  { split; [done|]. intros [[[H _] _] _]. apply validate_row_spec in H. congruence. }
  apply validate_row_spec in E. destruct (Z.leb_spec c.2 prev).
  { split; [done|]. intros [_ [? _]]. lia. }
  rewrite IH. split.
  - intros [[H1 H2] H3]. split_and!; [done|done| |done|].
    + constructor; [done|]. rewrite Forall_map. exact H3.
    + eapply Forall_impl; [exact H3|]. simpl. lia.
  - intros [[[_ H1] H2] [_ H3]]. inversion H2 as [|? ? H4 H5]; subst.
    split; [done|]. by rewrite Forall_map in H5.
Qed.

Lemma rows_valid_above p rows : rows_valid p rows -> Forall (fun c : string * Z * Z => -1 < c.2) rows.
Proof. intros [H _]. eapply Forall_impl; [exact H|]. intros c [_ ?]. lia. Qed.

Lemma count_kind_nil {A} (rows : list A) : count_kind rows = match rows with [] => 0 | _ => 1 end.
Proof. by destruct rows. Qed.

Lemma validateFactBatch_valid b : validateFactBatch b = None <-> batch_valid b.
Proof.
  unfold validateFactBatch, batch_valid. set (p := fb_Progress b).
  case_bool_decide; [naive_solver|].
  destruct (Z.ltb_spec (wp_KafkaPartition p) 0); [split; [done|naive_solver lia]|].
  destruct (Z.ltb_spec (wp_DurableOffset p) 0); [split; [done|naive_solver lia]|].
  assert ((1 <? count_kind (fb_Trades b) + count_kind (fb_Klines b)
             + count_kind (fb_OrderBookDeltas b)) = false <-> one_kind b) as Hk.
  { unfold one_kind. rewrite !count_kind_nil.
    destruct (fb_Trades b), (fb_Klines b), (fb_OrderBookDeltas b); simpl;
      naive_solver. }
  destruct (1 <? _); [split; [done|intros (_ & _ & _ & Hone & _); by apply Hk in Hone]|].
  assert (forall rows, validate_rows p (-1) rows = None <-> rows_valid p rows) as Hv.
  { intros rows. rewrite validate_rows_spec. split; [tauto|].
    intros Hr. split; [done|by eapply rows_valid_above]. }
  rewrite <- !Hv, <- Hk.
  destruct (validate_rows p (-1) (map trade_coord _)); [naive_solver|].
  destruct (validate_rows p (-1) (map kline_coord _)); naive_solver.
Qed.

(** ** Invariant of the fact tables *)

Definition trade_raw_unique (ts : list Trade) : Prop :=
  forall x y, x ∈ ts -> y ∈ ts -> tr_RawTradeID x <> "" -> tr_InputID x = tr_InputID y ->
    tr_RawTradeID x = tr_RawTradeID y -> trade_coord x = trade_coord y.

Record db_wf (db : DB) : Prop := {
  wf_trade_coords : NoDup (map trade_coord (db_trades db));
  wf_trade_raw : trade_raw_unique (db_trades db);
  wf_trade_ids : StronglySorted Z.lt (map tr_ID (db_trades db));
  wf_trade_next : Forall (fun t => tr_ID t < db_nextTrade db) (db_trades db);
  wf_kline_keys : map_Forall (fun k r => key_of_kline r = k) (db_klines db);
  wf_delta_coords : NoDup (map delta_coord (db_deltas db));
  wf_delta_durable : Forall (fun d => od_KafkaOffset d <= durable db (od_InputID d, od_KafkaPartition d))
                            (db_deltas db);
  wf_snapshot_keys : NoDup (map snapshot_key (db_snapshots db));
  wf_snapshot_ids : StronglySorted Z.lt (map os_SnapshotID (db_snapshots db));
  wf_snapshot_next : Forall (fun s => os_SnapshotID s < db_nextSnapshot db) (db_snapshots db);
  wf_poison_coords : NoDup (map poison_coord (db_poison db))
}.

(** What of it concerns the tables other than the deltas. *)
Record fact_keys (db : DB) : Prop := {
  fk_trade_coords : NoDup (map trade_coord (db_trades db));
  fk_trade_raw : trade_raw_unique (db_trades db);
  fk_trade_ids : StronglySorted Z.lt (map tr_ID (db_trades db));
  fk_trade_next : Forall (fun t => tr_ID t < db_nextTrade db) (db_trades db);
  fk_kline_keys : map_Forall (fun k r => key_of_kline r = k) (db_klines db);
  fk_snapshot_keys : NoDup (map snapshot_key (db_snapshots db));
  fk_snapshot_ids : StronglySorted Z.lt (map os_SnapshotID (db_snapshots db));
  fk_snapshot_next : Forall (fun s => os_SnapshotID s < db_nextSnapshot db) (db_snapshots db);
  fk_poison_coords : NoDup (map poison_coord (db_poison db))
}.

(** What one call of the writes that the program makes does, whatever goes wrong. *)
Inductive db_step : DB -> DB -> Prop :=
| dbs_batch env now db b : db_step db (fst (WriteFactBatch env now db b))
| dbs_trades out now db rows : db_step db (fst (WriteTrades out now db rows))
| dbs_klines out now db rows : db_step db (fst (WriteKlines out now db rows))
| dbs_snapshots out now db rows : db_step db (fst (WriteOrderBookSnapshots out now db rows))
| dbs_poison out now db r : db_step db (fst (WritePoisonRecord out now db r)).

(** And one call of any write of the storage interface: the direct write of deltas
    is kept for its callers before the batches, the program does not make it. *)
Inductive db_call (db : DB) : DB -> Prop :=
| dbc_step db' : db_step db db' -> db_call db db'
| dbc_deltas clock out now rows : db_call db (fst (WriteOrderBookDeltas clock out now db rows)).

Lemma existsb_false {A} (f : A -> bool) l x : existsb f l = false -> x ∈ l -> f x = false.
Proof.
  intros H Hx. destruct (f x) eqn:E; [|done].
  assert (existsb f l = true) by (apply existsb_exists; exists x; split; [by apply list_elem_of_In|done]).
  congruence.
Qed.

Lemma NoDup_map_snoc {A B} (f : A -> B) l x :
  NoDup (map f l) -> (forall y, y ∈ l -> f y <> f x) -> NoDup (map f (l ++ [x])).
Proof.
  intros H Hn. rewrite map_app. apply NoDup_app. split_and!; [done| |apply NoDup_singleton].
  intros z Hz. rewrite list_elem_of_In, in_map_iff in Hz. destruct Hz as (y & <- & Hy).
  rewrite <- list_elem_of_In in Hy. simpl. rewrite list_elem_of_singleton. by apply Hn.
Qed.

Lemma sorted_snoc {A} (f : A -> Z) (n : Z) l x :
  StronglySorted Z.lt (map f l) -> Forall (fun y => f y < n) l -> f x = n ->
  StronglySorted Z.lt (map f (l ++ [x])).
Proof.
  intros Hs Hn Hx. rewrite map_app. simpl. induction l as [|y l IH]; simpl.
  - repeat constructor.
  - apply StronglySorted_inv in Hs as [Hs Hy]. apply Forall_cons in Hn as [Hyn Hn].
    constructor; [by apply IH|]. apply Forall_app. split; [done|]. repeat constructor. lia.
Qed.

Lemma Forall_snoc_le {A} (f : A -> Z) (n : Z) l x :
  Forall (fun y => f y < n) l -> f x = n -> Forall (fun y => f y < n + 1) (l ++ [x]).
Proof.
  intros H Hx. apply Forall_app. split; [|repeat constructor; lia].
  eapply Forall_impl; [exact H|]. simpl. lia.
Qed.

(** ** Every step keeps the invariant *)

Lemma bool_decide_or_false (P : Prop) `{Decision P} b :
  (bool_decide P || b)%bool = false -> ~ P /\ b = false.
Proof. intros H'. by bool_to_prop. Qed.

Lemma trade_clash_false r x :
  trade_clash r x = false ->
  trade_coord r <> trade_coord x /\
  (tr_RawTradeID r <> "" -> tr_InputID r = tr_InputID x -> tr_RawTradeID r <> tr_RawTradeID x).
Proof.
  unfold trade_clash, nullIfEmpty. intros [H1 H2]%bool_decide_or_false. split; [done|].
  intros Hne Hi Hr. rewrite bool_decide_false in H2 by done.
  rewrite Hi, Hr, !bool_decide_true in H2 by done. done.
Qed.

Lemma insert_trade_wf now db r : db_wf db -> db_wf (insert_trade now db r).
Proof.
  intros H. unfold insert_trade. destruct (existsb _ _) eqn:E; [done|].
  assert (forall x, x ∈ db_trades db -> trade_clash r x = false) as Hc
    by (intros x; by apply existsb_false).
  destruct H as [Hco Hraw Hids Hnext Hk Hd Hdd Hs Hsi Hsn Hp].
  constructor; cbn; try assumption.
  - apply NoDup_map_snoc; [done|]. intros y Hy.
    destruct (trade_clash_false r y (Hc y Hy)) as [Hne _]. intros Heq. by apply Hne.
  - intros x y [Hx|Hx%list_elem_of_singleton]%elem_of_app [Hy|Hy%list_elem_of_singleton]%elem_of_app;
      subst; cbn; intros H1 H2 H3.
    + by apply Hraw.
    + destruct (trade_clash_false r x (Hc x Hx)) as [_ Hn].
      exfalso. apply Hn; congruence.
    + destruct (trade_clash_false r y (Hc y Hy)) as [_ Hn]. exfalso. by apply Hn.
    + done.
  - by apply sorted_snoc with (n := db_nextTrade db).
  - by apply Forall_snoc_le with (f := tr_ID).
Qed.

Lemma key_of_kline_row now r : key_of_kline (kline_row now r) = key_of_kline r.
Proof.
  unfold key_of_kline, kline_row. cbn. f_equal. f_equal. f_equal.
  unfold sourceOrDefault. by repeat case_bool_decide.
Qed.

Lemma upsert_kline_wf now db r : db_wf db -> db_wf (upsert_kline now db r).
Proof.
  intros H. unfold upsert_kline.
  assert (db_wf (set_klines (<[key_of_kline r := kline_row now r]> (db_klines db)) db)) as Hi.
  { destruct H. constructor; cbn; try assumption.
    apply map_Forall_insert_2; [apply key_of_kline_row|done]. }
  destruct (_ !! _); [by destruct (kline_guard _ _)|done].
Qed.

Lemma insert_snapshot_wf now db r : db_wf db -> db_wf (insert_snapshot now db r).
Proof.
  intros H. unfold insert_snapshot. destruct (existsb _ _) eqn:E; [done|].
  destruct H as [Hco Hraw Hids Hnext Hk Hd Hdd Hs Hsi Hsn Hp].
  constructor; cbn; try assumption.
  - apply NoDup_map_snoc; [done|]. intros y Hy.
    pose proof (existsb_false _ _ y E Hy) as Hf. by apply bool_decide_eq_false in Hf.
  - by apply sorted_snoc with (n := db_nextSnapshot db).
  - by apply Forall_snoc_le with (f := os_SnapshotID).
Qed.

Lemma insert_poison_wf now db r : db_wf db -> db_wf (insert_poison now db r).
Proof.
  intros H. unfold insert_poison. destruct (existsb _ _) eqn:E; [done|].
  destruct H as [Hco Hraw Hids Hnext Hk Hd Hdd Hs Hsi Hsn Hp].
  constructor; cbn; try assumption.
  apply NoDup_map_snoc; [done|]. intros y Hy.
  pose proof (existsb_false _ _ y E Hy) as Hf. by apply bool_decide_eq_false in Hf.
Qed.

Lemma fold_wf {A} (f : DB -> A -> DB) l db :
  (forall db x, db_wf db -> db_wf (f db x)) -> db_wf db -> db_wf (fold_left f l db).
Proof. intros Hf. revert db. induction l as [|x l IH]; intros db H; [done|]. simpl. auto. Qed.

#[export] Hint Resolve insert_trade_wf upsert_kline_wf insert_snapshot_wf insert_poison_wf fold_wf : mdb.

(** The rows a batch copies: one input partition, increasing offsets. *)
Lemma deltasAfterOffset_rows b d :
  batch_valid b ->
  let ds := deltasAfterOffset (fb_OrderBookDeltas b) (fb_Progress b) d in
  NoDup (map delta_coord ds) /\
  Forall (fun x => (od_InputID x, od_KafkaPartition x) = progress_key (fb_Progress b) /\
                   d < od_KafkaOffset x <= wp_DurableOffset (fb_Progress b)) ds.
Proof.
  intros (_ & _ & _ & _ & _ & _ & [_ Hs]) ds. subst ds. unfold deltasAfterOffset.
  set (p := fb_Progress b) in *. induction (fb_OrderBookDeltas b) as [|x l IH]; cbn [List.filter].
  { split; constructor. }
  simpl in Hs. apply StronglySorted_inv in Hs as [Hs Hx]. destruct (IH Hs) as [IH1 IH2].
  destruct (after_offset p d (delta_coord x)) eqn:E; [|by split]. simpl. split.
  - constructor; [|done]. rewrite list_elem_of_In, in_map_iff.
    intros (y & Hy & Hin%filter_In). destruct Hin as [Hin _].
    rewrite Forall_forall in Hx. specialize (Hx (od_KafkaOffset y)).
    assert (od_KafkaOffset y = od_KafkaOffset x) as He by (unfold delta_coord in Hy; congruence).
    assert (od_KafkaOffset x < od_KafkaOffset y); [|lia].
    apply Hx. rewrite map_map. apply list_elem_of_In, in_map_iff. by exists y.
  - constructor; [|done]. unfold after_offset, delta_coord, progress_key in *.
    bool_to_prop. split; [congruence|lia].
Qed.

Lemma durable_publish now db b k :
  durable (publish now db b) k =
    if bool_decide (k = progress_key (fb_Progress b)) then wp_DurableOffset (fb_Progress b)
    else durable db k.
Proof.
  unfold durable, publish. simpl. case_bool_decide as Hk.
  - subst. by rewrite lookup_insert_eq.
  - by rewrite lookup_insert_ne.
Qed.

Lemma fold_trades_deltas now rows w : db_deltas (fold_left (insert_trade now) rows w) = db_deltas w.
Proof.
  revert w. induction rows as [|r rows IH]; intros w; [done|]. simpl. rewrite IH.
  unfold insert_trade. by destruct (existsb _ _).
Qed.

Lemma fold_klines_deltas now rows w : db_deltas (fold_left (upsert_kline now) rows w) = db_deltas w.
Proof.
  revert w. induction rows as [|r rows IH]; intros w; [done|]. simpl. rewrite IH.
  unfold upsert_kline. destruct (_ !! _); [|done]. by destruct (kline_guard _ _).
Qed.

Lemma publish_deltas now db b :
  db_deltas (publish now db b) = db_deltas db ++ map (delta_row now)
    (deltasAfterOffset (fb_OrderBookDeltas b) (fb_Progress b) (durable db (progress_key (fb_Progress b)))).
Proof. unfold publish. simpl. by rewrite fold_klines_deltas, fold_trades_deltas. Qed.

Lemma map_delta_row_coord now ds : map delta_coord (map (delta_row now) ds) = map delta_coord ds.
Proof. rewrite map_map. by apply map_ext. Qed.

Lemma publish_wf now db b :
  batch_valid b -> durable db (progress_key (fb_Progress b)) < wp_DurableOffset (fb_Progress b) ->
  db_wf db -> db_wf (publish now db b).
Proof.
  intros Hv Hlt Hwf. set (p := fb_Progress b) in *.
  destruct (deltasAfterOffset_rows b (durable db (progress_key p)) Hv) as [Hnd Hrows]. fold p in Hnd, Hrows.
  pose proof (wf_delta_coords _ Hwf) as Hd. pose proof (wf_delta_durable _ Hwf) as Hdd.
  assert (db_wf (fold_left (upsert_kline now) (klinesAfterOffset (fb_Klines b) p (durable db (progress_key p)))
    (fold_left (insert_trade now) (tradesAfterOffset (fb_Trades b) p (durable db (progress_key p))) db))) as H
    by auto with mdb.
  destruct H. constructor; try assumption.
  - rewrite publish_deltas. fold p. rewrite map_app, map_delta_row_coord.
    apply NoDup_app. split_and!; [done| |done].
    intros c Hc Hc'. rewrite list_elem_of_In, in_map_iff in Hc, Hc'.
    destruct Hc as (x & <- & Hx), Hc' as (y & Hxy & Hy).
    rewrite <- list_elem_of_In in Hx, Hy. rewrite Forall_forall in Hrows, Hdd.
    specialize (Hdd x Hx). destruct (Hrows y Hy) as [Hk Ho].
    unfold delta_coord in Hxy. injection Hxy as E1 E2 E3. rewrite <- E1, <- E2, Hk in Hdd. lia.
  - rewrite publish_deltas. fold p. apply Forall_app. split.
    + eapply Forall_impl; [exact Hdd|]. intros x Hx. cbv beta in Hx |- *. rewrite durable_publish. fold p.
      case_bool_decide as Hk; [rewrite Hk in Hx; lia|done].
    + rewrite Forall_map. eapply Forall_impl; [exact Hrows|]. intros x [Hk Ho]. simpl.
      rewrite durable_publish. fold p. rewrite bool_decide_true by done. lia.
Qed.

Lemma db_step_wf db db' : db_step db db' -> db_wf db -> db_wf db'.
Proof.
  intros [env now w b|out now w rows|out now w rows|out now w rows|out now w r] H.
  - destruct (WriteFactBatch_cases env now w b) as [[-> _]|[(_ & _ & ->)|(Hv & Hlt & ->)]]; [done..|].
    apply publish_wf; [by apply validateFactBatch_valid|done|done].
  - unfold WriteTrades. destruct rows; [done|]. destruct out; simpl; eauto with mdb.
  - unfold WriteKlines. destruct rows; [done|]. destruct out; simpl; eauto with mdb.
  - unfold WriteOrderBookSnapshots. destruct rows; [done|]. destruct out; simpl; eauto with mdb.
  - unfold WritePoisonRecord. destruct out; simpl; eauto with mdb.
Qed.

Lemma db_wf_empty : db_wf emptyDB.
Proof.
  constructor; simpl; try constructor; try apply map_Forall_empty.
  intros x y Hx. by apply elem_of_nil in Hx.
Qed.

Lemma db_steps_wf db : rtc db_step emptyDB db -> db_wf db.
Proof.
  generalize db_wf_empty. generalize emptyDB. intros db0 H0 Hr.
  induction Hr; [done|]. eauto using db_step_wf.
Qed.

(** *** The tables beside the deltas *)

Lemma fact_keys_wf db : db_wf db -> fact_keys db.
Proof. by intros []. Qed.

Lemma fact_keys_empty_deltas db : fact_keys db -> db_wf (set_deltas [] db).
Proof. intros []. by constructor; cbn; try constructor. Qed.

Lemma fact_keys_deltas l db : fact_keys (set_deltas l db) <-> fact_keys db.
Proof. split; intros []; by constructor. Qed.

Lemma fold_set_deltas {A} (f : DB -> A -> DB) l rows db :
  (forall db x, f (set_deltas l db) x = set_deltas l (f db x)) ->
  fold_left f rows (set_deltas l db) = set_deltas l (fold_left f rows db).
Proof. intros Hf. revert db. induction rows as [|r rows IH]; intros db; cbn; [done|]. by rewrite Hf, IH. Qed.

Lemma insert_trade_set_deltas now l db r : insert_trade now (set_deltas l db) r = set_deltas l (insert_trade now db r).
Proof. unfold insert_trade. cbn. by destruct (existsb _ _). Qed.

Lemma upsert_kline_set_deltas now l db r : upsert_kline now (set_deltas l db) r = set_deltas l (upsert_kline now db r).
Proof. unfold upsert_kline. cbn. destruct (_ !! _); [|done]. by destruct (kline_guard _ _). Qed.

Lemma publish_keys now db b :
  batch_valid b -> durable db (progress_key (fb_Progress b)) < wp_DurableOffset (fb_Progress b) ->
  fact_keys db -> fact_keys (publish now db b).
Proof.
  intros Hv Hlt H%fact_keys_empty_deltas. pose proof (publish_wf now (set_deltas [] db) b Hv Hlt H) as Hp%fact_keys_wf.
  revert Hp. unfold publish. cbn.
  rewrite (fold_set_deltas (insert_trade now)) by apply insert_trade_set_deltas.
  rewrite (fold_set_deltas (upsert_kline now)) by apply upsert_kline_set_deltas.
  unfold durable. cbn. intros []. by constructor.
Qed.

Lemma insert_delta_keys now db rows : fact_keys db -> fact_keys (fold_left (insert_delta now) rows db).
Proof.
  revert db. induction rows as [|r rows IH]; intros db H; cbn; [done|]. apply IH. unfold insert_delta.
  destruct (existsb _ _); [done|]. by apply fact_keys_deltas.
Qed.

Lemma db_call_keys db db' : db_call db db' -> fact_keys db -> fact_keys db'.
Proof.
  intros [db1 Hst|clock out now rows] H.
  - destruct Hst as [env now w b|out now w rows|out now w rows|out now w rows|out now w r].
    { destruct (WriteFactBatch_cases env now w b) as [[-> _]|[(_ & _ & ->)|(Hv & Hlt & ->)]]; [done..|].
      apply publish_keys; [by apply validateFactBatch_valid|done|done]. }
    all: assert (forall f : DB -> DB, (forall l d, f (set_deltas l d) = set_deltas l (f d)) -> (forall d, db_wf d -> db_wf (f d)) -> fact_keys (f w)) as Hf
      by (intros f Hl Hw; apply (fact_keys_deltas []); rewrite <- Hl; by apply fact_keys_wf, Hw, fact_keys_empty_deltas).
    + unfold WriteTrades. destruct rows; [done|]. destruct out; [|done|]; cbn [exec fst]; apply Hf; eauto using fold_set_deltas, insert_trade_set_deltas with mdb.
    + unfold WriteKlines. destruct rows; [done|]. destruct out; [|done|]; cbn [exec fst]; apply Hf; eauto using fold_set_deltas, upsert_kline_set_deltas with mdb.
    + unfold WriteOrderBookSnapshots. destruct rows; [done|]. destruct out; [|done|]; cbn [exec fst]; apply Hf; eauto with mdb.
      all: intros l d; apply fold_set_deltas; intros d' x; unfold insert_snapshot; cbn; by destruct (existsb _ _).
    + unfold WritePoisonRecord. destruct out; [|done|]; cbn [exec fst]; apply (Hf (fun d => insert_poison now d r)); eauto with mdb.
      all: intros l d; unfold insert_poison; cbn; by destruct (existsb _ _).
  - unfold WriteOrderBookDeltas. destruct rows as [|r rows]; [done|].
    destruct (existsb _ (r :: rows)), clock; try done; destruct out; cbn [exec fst]; try done; by apply insert_delta_keys.
Qed.

(** (C26) The fact tables keep their keys whatever fails.  From an empty database,
    any sequence of calls of all write methods of the storage (each successful,
    failed, or committed without acknowledgement) keeps one trade per Kafka
    coordinate and per raw trade id, one candle per candle key, one snapshot per
    (input, time), one poison record per coordinate, and strictly increasing row
    ids.  The deltas have no unique index: after any sequence of the writes the
    program makes, that is all of them but the direct WriteOrderBookDeltas, there
    is moreover one delta per coordinate, with its offset inside the durable
    prefix. *)
Theorem reachable_db_wf db :
  (rtc db_call emptyDB db -> fact_keys db) /\ (rtc db_step emptyDB db -> db_wf db).
Proof.
  split; [|apply db_steps_wf].
  generalize (fact_keys_wf _ db_wf_empty). generalize emptyDB. intros db0 H0 Hr.
  induction Hr; [done|]. eauto using db_call_keys.
Qed.

Definition sample_progress (offset : Z) : StreamWriteProgress :=
  mkStreamWriteProgress "i" 0 offset "" None None 0.

Definition sample_row (offset : Z) : OrderBookDelta :=
  mkOrderBookDelta "g" "i" 0 None None "" None None None None [] [] "" "t" 0 offset time.zero.

Definition sample_batch (o1 o2 : Z) : FactBatch :=
  mkFactBatch [] [] [sample_row o1; sample_row o2] (sample_progress o2).

Definition sample_db : DB := fst (WriteFactBatch no_fault 7 emptyDB (sample_batch 3 4)).

Lemma reachable_db_wf_witness :
  (db_wf sample_db /\ length (db_deltas sample_db) = 2%nat) /\
  fact_keys (fst (WriteOrderBookDeltas Done Done 8 sample_db [sample_row 5])).
Proof.
  split.
  - split; [|reflexivity]. apply (reachable_db_wf sample_db). apply rtc_once. constructor.
  - apply (reachable_db_wf (fst (WriteOrderBookDeltas Done Done 8 sample_db [sample_row 5]))).
    apply (rtc_l _ _ sample_db); [apply dbc_step; constructor|]. apply rtc_once. apply dbc_deltas.
Defined.

(** A delta written directly is not in the durable prefix: a batch that holds its
    record copies it once more. *)
Example direct_delta_copied_again :
  let db := fst (WriteOrderBookDeltas Done Done 6 emptyDB [sample_row 3]) in
  map delta_coord (db_deltas (fst (WriteFactBatch no_fault 7 db (sample_batch 3 4)))) =
    [("i", 0, 3); ("i", 0, 3); ("i", 0, 4)].
Proof. vm_compute. reflexivity. Qed.

(** (C9) A fact batch is atomic: a call either leaves the database as it was
    or publishes all of the batch at once, namely the facts above the durable
    offset in order, with the durable offset moved to the batch's; and when it
    reports success the durable offset is at least the batch's. *)
Theorem fact_batch_atomic env now db batch :
  let p := fb_Progress batch in
  let k := progress_key p in
  let '(db', err) := WriteFactBatch env now db batch in
  (db' = db \/
   (db' = publish now db batch /\ durable db k < wp_DurableOffset p /\
    durable db' k = wp_DurableOffset p /\
    (forall k', k' <> k -> durable db' k' = durable db k') /\
    db_deltas db' = db_deltas db ++
      map (delta_row now) (deltasAfterOffset (fb_OrderBookDeltas batch) p (durable db k)))) /\
  (err = None -> wp_DurableOffset p <= durable db' k).
Proof.
  intros p k. pose proof (WriteFactBatch_cases env now db batch) as H.
  destruct (WriteFactBatch env now db batch) as [db' err]. cbn [fst snd] in H. fold p k in H.
  assert (durable (publish now db batch) k = wp_DurableOffset p) as Hk
    by (by rewrite durable_publish, bool_decide_true).
  destruct H as [[-> He]|[(_ & Hle & ->)|(_ & Hlt & ->)]].
  - split; [by left|done].
  - split; [by left|done].
  - split; [right|by rewrite Hk]. split_and!; [done|done|done| |apply publish_deltas].
    intros k' Hk'. by rewrite durable_publish, bool_decide_false.
Qed.

(** The state after the attempts of a retry loop. *)
Definition after_attempts (attempts : list (faults * time.Time)) (db : DB) (batch : FactBatch) : DB :=
  fold_left (fun d a => fst (WriteFactBatch a.1 a.2 d batch)) attempts db.

Lemma replay_unchanged env now db batch :
  wp_DurableOffset (fb_Progress batch) <= durable db (progress_key (fb_Progress batch)) ->
  fst (WriteFactBatch env now db batch) = db.
Proof.
  intros H. destruct (WriteFactBatch_cases env now db batch) as [[-> _]|[(_ & _ & ->)|(_ & Hlt & _)]];
    [done..|lia].
Qed.

Lemma attempts_cases attempts db batch :
  durable db (progress_key (fb_Progress batch)) < wp_DurableOffset (fb_Progress batch) ->
  after_attempts attempts db batch = db \/
  exists t, t ∈ map snd attempts /\ after_attempts attempts db batch = publish t db batch.
Proof.
  intros Hlt. unfold after_attempts. induction attempts as [|a l IH] using rev_ind; [by left|].
  rewrite fold_left_app, map_app. simpl.
  destruct IH as [->|(t & Ht & ->)].
  - destruct (WriteFactBatch_cases a.1 a.2 db batch) as [[-> _]|[(_ & _ & ->)|(_ & _ & ->)]]; [by left..|].
    right. exists a.2. split; [|done]. apply elem_of_app. right. by apply list_elem_of_singleton.
  - right. exists t. split; [apply elem_of_app; by left|]. apply replay_unchanged.
    by rewrite durable_publish, bool_decide_true.
Qed.

Lemma WriteFactBatch_no_fault now db batch :
  validateFactBatch batch = None -> snd (WriteFactBatch no_fault now db batch) = None.
Proof.
  intros Hv. unfold WriteFactBatch, fact_batch_tx. rewrite Hv. simpl.
  destruct (init_progress_eq now (fb_Progress batch) db) as (q & -> & _ & row & Hl & _).
  simpl. rewrite Hl. simpl. destruct (_ <=? _); [done|].
  unfold write_facts, writeTradesTx, writeKlinesTx, writeOrderBookDeltasCopy.
  destruct (tradesAfterOffset _ _ _), (klinesAfterOffset _ _ _), (deltasAfterOffset _ _ _); done.
Qed.

(** (C7) Retrying is exactly-once: after any number of attempts that failed in
    any way, including commits whose acknowledgement was lost, one undisturbed
    attempt succeeds, and the database is then the one a single publication of
    the batch gives. *)
Theorem fact_batch_exactly_once attempts now db batch :
  validateFactBatch batch = None ->
  durable db (progress_key (fb_Progress batch)) < wp_DurableOffset (fb_Progress batch) ->
  exists t, t ∈ map snd attempts ++ [now] /\
    WriteFactBatch no_fault now (after_attempts attempts db batch) batch = (publish t db batch, None).
Proof.
  intros Hv Hlt.
  assert (forall d, WriteFactBatch no_fault now d batch = (fst (WriteFactBatch no_fault now d batch), None)) as E.
  { intros d. rewrite <- (WriteFactBatch_no_fault now d batch Hv). by destruct (WriteFactBatch _ _ _ _). }
  rewrite E. destruct (attempts_cases attempts db batch Hlt) as [->|(t & Ht & ->)].
  - exists now. split; [apply elem_of_app; right; by apply list_elem_of_singleton|]. f_equal.
    pose proof (WriteFactBatch_no_fault now db batch Hv) as Hs.
    destruct (WriteFactBatch_cases no_fault now db batch) as [[_ He]|[(_ & Hle & _)|(_ & _ & H)]];
      [done|lia|done].
  - exists t. split; [apply elem_of_app; by left|]. f_equal. apply replay_unchanged.
    by rewrite durable_publish, bool_decide_true.
Qed.

Lemma fact_batch_exactly_once_witness :
  let lost := fun st => match st with StCommit => Lost | _ => Done end in
  exists t, WriteFactBatch no_fault 9
      (after_attempts [(fun _ => Failed, 1); (lost, 2)] emptyDB (sample_batch 3 4)) (sample_batch 3 4)
    = (publish t emptyDB (sample_batch 3 4), None).
Proof.
  intros lost.
  destruct (fact_batch_exactly_once [(fun _ => Failed, 1); (lost, 2)] 9 emptyDB (sample_batch 3 4))
    as (t & _ & H); [reflexivity|reflexivity|]. by exists t.
Defined.

(** The contract of a fact batch, in full: [validateFactBatch] accepts
    exactly the batches with an input, non-negative coordinates, facts of one
    kind only, every fact on the batch's input partition with an offset between
    0 and the durable offset, and strictly increasing offsets. *)
Theorem validateFactBatch_spec b : validateFactBatch b = None <-> batch_valid b.
Proof. apply validateFactBatch_valid. Qed.

(** ** Candles only move forward *)

(** What one upsert does to the row of its key. *)
Definition kline_merge (now : time.Time) (old : option Kline) (r : Kline) : Kline :=
  match old with
  | Some o => if kline_guard o r then kline_row now r else o
  | None => kline_row now r
  end.

Lemma upsert_kline_lookup now db r k :
  db_klines (upsert_kline now db r) !! k =
    if bool_decide (key_of_kline r = k) then Some (kline_merge now (db_klines db !! k) r)
    else db_klines db !! k.
Proof.
  unfold upsert_kline, kline_merge. case_bool_decide as Hk; [subst|].
  - destruct (db_klines db !! key_of_kline r) as [o|] eqn:E; [destruct (kline_guard o r)|];
      simpl; rewrite ?lookup_insert_eq, ?E; done.
  - destruct (db_klines db !! key_of_kline r) as [o|]; [destruct (kline_guard o r)|];
      simpl; rewrite ?lookup_insert_ne; done.
Qed.

(** [new] is [old] or a later state of the same candle. *)
Definition kline_forward (old new : Kline) : Prop :=
  kl_Revision old <= kl_Revision new /\
  (kl_IsClosed old = true -> kl_IsClosed new = true /\ (new = old \/ kl_Revision old < kl_Revision new)).

#[export] Instance kline_forward_refl : Reflexive kline_forward.
Proof. intros k. split; [lia|auto]. Qed.

#[export] Instance kline_forward_trans : Transitive kline_forward.
Proof.
  intros a b c [H1 H2] [H3 H4]. split; [lia|]. intros Ha. destruct (H2 Ha) as [Hb Hab].
  destruct (H4 Hb) as [Hc Hbc]. split; [done|].
  destruct Hab as [->|Hab]; [done|]. destruct Hbc as [->|Hbc]; [by right|right; lia].
Qed.

Lemma kline_merge_forward now o r : kline_forward o (kline_merge now (Some o) r).
Proof.
  unfold kline_merge. destruct (kline_guard o r) eqn:E; [|done].
  unfold kline_guard in E. bool_to_prop. unfold kline_forward. simpl.
  destruct E as [E|E]; bool_to_prop.
  - split; [done|]. congruence.
  - split; [lia|]. intros _. split; [done|]. by right.
Qed.

(** Every candle of [db] is still there in [db'], unchanged or later. *)
Definition klines_forward (db db' : DB) : Prop :=
  forall k old, db_klines db !! k = Some old ->
    exists new, db_klines db' !! k = Some new /\ kline_forward old new.

#[export] Instance klines_forward_refl : Reflexive klines_forward.
Proof. intros db k old H. by exists old. Qed.

#[export] Instance klines_forward_trans : Transitive klines_forward.
Proof.
  intros a b c Hab Hbc k old H. destruct (Hab k old H) as (x & Hx & ?).
  destruct (Hbc k x Hx) as (y & Hy & ?). exists y. split; [done|by etrans].
Qed.

Lemma klines_forward_eq db db' : db_klines db' = db_klines db -> klines_forward db db'.
Proof. intros E k old H. exists old. by rewrite E. Qed.

Lemma upsert_forward now db r : klines_forward db (upsert_kline now db r).
Proof.
  intros k old H. rewrite upsert_kline_lookup, H. case_bool_decide.
  - eexists. split; [done|apply kline_merge_forward].
  - by exists old.
Qed.

Lemma fold_upsert_forward now rows db : klines_forward db (fold_left (upsert_kline now) rows db).
Proof.
  revert db. induction rows as [|r rows IH]; intros db; [done|]. simpl.
  etrans; [apply upsert_forward|apply IH].
Qed.

Lemma fold_keep_klines {A} (f : DB -> A -> DB) rows db :
  (forall db x, db_klines (f db x) = db_klines db) -> db_klines (fold_left f rows db) = db_klines db.
Proof.
  intros Hf. revert db. induction rows as [|r rows IH]; intros db; [done|]. simpl. by rewrite IH, Hf.
Qed.

Lemma insert_trade_klines now db r : db_klines (insert_trade now db r) = db_klines db.
Proof. unfold insert_trade. by destruct (existsb _ _). Qed.

Lemma insert_snapshot_klines now db r : db_klines (insert_snapshot now db r) = db_klines db.
Proof. unfold insert_snapshot. by destruct (existsb _ _). Qed.

Lemma insert_poison_klines now db r : db_klines (insert_poison now db r) = db_klines db.
Proof. unfold insert_poison. by destruct (existsb _ _). Qed.

Lemma publish_forward now db b : klines_forward db (publish now db b).
Proof.
  intros k old H. unfold publish. cbn [db_klines set_progress set_deltas].
  apply fold_upsert_forward. by rewrite (fold_keep_klines _ _ _ (insert_trade_klines now)).
Qed.

Lemma db_step_forward db db' : db_step db db' -> klines_forward db db'.
Proof.
  intros [env now w b|out now w rows|out now w rows|out now w rows|out now w r].
  - destruct (WriteFactBatch_cases env now w b) as [[-> _]|[(_ & _ & ->)|(_ & _ & ->)]]; [done..|].
    apply publish_forward.
  - apply klines_forward_eq. unfold WriteTrades. destruct rows; [done|].
    destruct out; simpl; rewrite ?(fold_keep_klines _ _ _ (insert_trade_klines now)); auto using insert_trade_klines.
  - unfold WriteKlines. destruct rows; [done|]. destruct out; [|done|]; apply (fold_upsert_forward now (_ :: _)).
  - apply klines_forward_eq. unfold WriteOrderBookSnapshots. destruct rows; [done|].
    destruct out; simpl; rewrite ?(fold_keep_klines _ _ _ (insert_snapshot_klines now)); auto using insert_snapshot_klines.
  - apply klines_forward_eq. unfold WritePoisonRecord. destruct out; simpl; auto using insert_poison_klines.
Qed.

(** A stored candle never goes backwards: across any sequence of writes it
    is never removed, its revision never decreases, and once closed it stays
    closed and is only ever replaced by a strictly newer revision. *)
Theorem candles_never_go_backwards db db' : rtc db_step db db' -> klines_forward db db'.
Proof.
  induction 1 as [|db1 db2 db3 H _ IH]; [done|]. etrans; [by apply db_step_forward|done].
Qed.

Definition sample_kline (revision : Z) (closed : bool) (close : string) : Kline :=
  mkKline "g" "i" "" "1m" 60 120 "1" "2" "1" close "5" "" 3 closed revision "t" 0 0 0.

Lemma candles_never_go_backwards_witness :
  let db := upsert_kline 0 emptyDB (sample_kline 4 true "1.5") in
  let db' := fst (WriteKlines Done 1 db [sample_kline 5 false "9"; sample_kline 4 true "8"]) in
  exists new, db_klines db' !! ("g", "exchange", "1m", 60) = Some new /\
    kline_forward (kline_row 0 (sample_kline 4 true "1.5")) new.
Proof.
  intros db db'. apply (candles_never_go_backwards db db'); [|reflexivity].
  apply rtc_once. constructor.
Defined.

(** Candidate state of a key while its final message is still to come. *)
Lemma merge_below now c o r :
  kl_IsClosed c = true -> kl_Revision r <= kl_Revision c ->
  (kl_IsClosed r = true -> kl_Revision r = kl_Revision c -> r = c) ->
  (forall x, o = Some x -> kl_Revision x <= kl_Revision c /\
     (kl_IsClosed x = true -> kl_Revision x = kl_Revision c -> x = kline_row now c)) ->
  kl_Revision (kline_merge now o r) <= kl_Revision c /\
  (kl_IsClosed (kline_merge now o r) = true ->
   kl_Revision (kline_merge now o r) = kl_Revision c -> kline_merge now o r = kline_row now c).
Proof.
  intros Hc Hr He Ho. unfold kline_merge.
  destruct o as [x|]; [destruct (kline_guard x r); [|by apply Ho]|];
    (split; [done|]; simpl; intros; by rewrite (He H H0)).
Qed.

Lemma merge_final now c o :
  kl_IsClosed c = true ->
  (forall x, o = Some x -> kl_Revision x <= kl_Revision c /\
     (kl_IsClosed x = true -> kl_Revision x = kl_Revision c -> x = kline_row now c)) ->
  kline_merge now o c = kline_row now c.
Proof.
  intros Hc Ho. unfold kline_merge. destruct o as [x|]; [|done]. destruct (Ho x eq_refl) as [H1 H2].
  destruct (kline_guard x c) eqn:E; [done|]. unfold kline_guard in E. rewrite Hc in E.
  rewrite andb_true_r in E. destruct (kl_IsClosed x); simpl in E; bool_to_prop; [|lia].
  apply H2; [done|lia].
Qed.

Lemma merge_after now c r :
  kl_IsClosed c = true -> kl_Revision r <= kl_Revision c -> kline_merge now (Some (kline_row now c)) r = kline_row now c.
Proof.
  intros Hc Hr. unfold kline_merge, kline_guard. simpl. rewrite Hc. simpl.
  destruct (Z.ltb_spec (kl_Revision c) (kl_Revision r)); [lia|done].
Qed.

(** Candles converge: whatever the order in which the messages of a
    candle arrive, and however often each is repeated, once a closed message of
    the highest revision is among them the stored candle is that message. *)
Theorem closed_candle_wins now db rows c :
  c ∈ rows -> kl_IsClosed c = true -> db_klines db !! key_of_kline c = None ->
  (forall r, r ∈ rows -> key_of_kline r = key_of_kline c ->
     kl_Revision r <= kl_Revision c /\
     (kl_IsClosed r = true -> kl_Revision r = kl_Revision c -> r = c)) ->
  db_klines (fold_left (upsert_kline now) rows db) !! key_of_kline c = Some (kline_row now c).
Proof.
  intros Hin Hc H0 Hrows. set (k := key_of_kline c) in *.
  apply list_elem_of_split in Hin as (l1 & l2 & ->). rewrite fold_left_app. simpl.
  set (db1 := fold_left (upsert_kline now) l1 db).
  assert (forall x, db_klines db1 !! k = Some x -> kl_Revision x <= kl_Revision c /\
     (kl_IsClosed x = true -> kl_Revision x = kl_Revision c -> x = kline_row now c)) as H1.
  { subst db1. assert (forall x, db_klines db !! k = Some x -> kl_Revision x <= kl_Revision c /\
     (kl_IsClosed x = true -> kl_Revision x = kl_Revision c -> x = kline_row now c)) as Hb
      by (intros x; by rewrite H0). clear H0.
    assert (forall r, r ∈ l1 -> key_of_kline r = k -> kl_Revision r <= kl_Revision c /\
     (kl_IsClosed r = true -> kl_Revision r = kl_Revision c -> r = c)) as Hl
      by (intros r Hr; apply Hrows, elem_of_app; by left).
    clear Hrows. revert db Hb. induction l1 as [|r l1 IH]; intros db Hb; [done|]. simpl.
    apply IH; [intros r' Hr'; apply Hl; by right|].
    intros x. rewrite upsert_kline_lookup. case_bool_decide as Hk; [|apply Hb].
    intros [= <-]. destruct (Hl r) as [Hr He]; [by left|done|]. by apply merge_below. }
  assert (db_klines (upsert_kline now db1 c) !! k = Some (kline_row now c)) as H2.
  { rewrite upsert_kline_lookup, bool_decide_true by done. f_equal. by apply merge_final. }
  assert (forall r, r ∈ l2 -> key_of_kline r = k -> kl_Revision r <= kl_Revision c) as Hl2.
  { intros r Hr Hk. apply (Hrows r); [|done]. apply elem_of_app. right. by right. }
  revert H2 Hl2. generalize (upsert_kline now db1 c). clear -Hc.
  induction l2 as [|r l2 IH]; intros db H2 Hl2; [done|]. simpl.
  apply IH; [|intros r' Hr'; apply Hl2; by right].
  rewrite upsert_kline_lookup, H2. case_bool_decide as Hk; [|done]. f_equal.
  apply merge_after; [done|]. apply Hl2; [by left|done].
Qed.

Lemma closed_candle_wins_witness :
  db_klines (fold_left (upsert_kline 0)
     [sample_kline 2 false "3"; sample_kline 7 true "5"; sample_kline 1 false "9"; sample_kline 6 true "8"]
     emptyDB) !! ("g", "exchange", "1m", 60) = Some (kline_row 0 (sample_kline 7 true "5")).
Proof.
  apply (closed_candle_wins 0 emptyDB _ (sample_kline 7 true "5"));
    [by right; left|reflexivity|reflexivity|].
  intros r Hr _. elem_cases Hr; cbn; (split; [lia|intros; first [done|lia]]).
Defined.

(** ** The PostgreSQL store keeps the promises of the interface *)

(** The faults of one call: of each transaction statement, or of a pool call. *)
Record pg_fault := mkPgFault { pf_stages : faults; pf_call : outcome }.

#[export] Instance PostgresStorage : MarketDataStorage := {|
  st_DB := DB;
  st_fault := pg_fault;
  st_error := storage_error;
  st_write f now db b := WriteFactBatch (pf_stages f) now db b;
  st_load f db i p := LoadStreamWriteProgress (pf_call f) db i p;
  st_poison f now db r := WritePoisonRecord (pf_call f) now db r;
  st_durable := durable;
  st_poisoned db c := c ∈ map poison_coord (db_poison db);
  st_calm := mkPgFault no_fault Done
|}.

Lemma publish_poison now db b : db_poison (publish now db b) = db_poison db.
Proof.
  assert (forall A (f : DB -> A -> DB) l d, (forall d x, db_poison (f d x) = db_poison d) ->
    db_poison (fold_left f l d) = db_poison d) as Hf.
  { intros A f l. induction l as [|x l IH]; intros d H; [done|]. simpl. by rewrite IH, H. }
  unfold publish. simpl. rewrite !Hf; [done|..].
  - intros d x. unfold insert_trade. by destruct (existsb _ _).
  - intros d x. unfold upsert_kline. destruct (db_klines d !! _); [|done]. by destruct (kline_guard _ _).
Qed.

Lemma insert_poison_coords now db r :
  poison_coord r ∈ map poison_coord (db_poison (insert_poison now db r)) /\
  forall c, c ∈ map poison_coord (db_poison db) -> c ∈ map poison_coord (db_poison (insert_poison now db r)).
Proof.
  unfold insert_poison. destruct (existsb _ _) eqn:E.
  - split; [|done]. apply existsb_exists in E as (x & Hx & Hc). bool_to_prop. rewrite <- Hc.
    by apply list_elem_of_In, in_map.
  - simpl. rewrite map_app. split; [|intros c Hc]; apply elem_of_app; [right|by left].
    by apply list_elem_of_singleton.
Qed.

#[export] Instance PostgresStorage_laws : MarketDataStorageLaws PostgresStorage.
Proof.
  constructor; cbn [st_write st_load st_poison st_durable st_poisoned st_calm st_DB st_fault st_error PostgresStorage].
  - intros f now db b He. destruct (WriteFactBatch_cases (pf_stages f) now db b)
      as [[_ Hn]|[(_ & Hle & ->)|(_ & _ & ->)]]; [done..|].
    by rewrite durable_publish, bool_decide_true.
  - intros f now db b k. destruct (WriteFactBatch_cases (pf_stages f) now db b)
      as [[-> _]|[(_ & _ & ->)|(_ & Hlt & ->)]]; [done..|].
    rewrite durable_publish. case_bool_decide; [subst; lia|done].
  - intros f now db b c Hc. destruct (WriteFactBatch_cases (pf_stages f) now db b)
      as [[-> _]|[(_ & _ & ->)|(_ & _ & ->)]]; [done..|]. by rewrite publish_poison.
  - intros now db b Hb. by apply WriteFactBatch_no_fault, validateFactBatch_valid.
  - intros f now db b Hb. unfold WriteFactBatch.
    destruct (validateFactBatch b) eqn:E; [done|]. by apply validateFactBatch_valid in E.
  - intros f db i p r. unfold LoadStreamWriteProgress, durable.
    destruct (pf_call f); try done. intros [= <-]. done.
  - done.
  - intros f now db r. unfold WritePoisonRecord. destruct (pf_call f); simpl; try done.
    intros _. exact (proj1 (insert_poison_coords now db r)).
  - done.
  - intros f now db r k. unfold WritePoisonRecord, durable.
    assert (db_progress (insert_poison now db r) = db_progress db) as E
      by (unfold insert_poison; by destruct (existsb _ _)).
    destruct (pf_call f); simpl; by rewrite ?E.
  - intros f now db r c Hc. unfold WritePoisonRecord.
    destruct (pf_call f); simpl; [|exact Hc|]; exact (proj2 (insert_poison_coords now db r) c Hc).
Qed.
