(* ===== verification/Facts.v ===== *)
(** * Facts: what it means that a fact is in the tables

    Trades, candles and deltas as rows of Storage: when one counts as stored, and
    that no write takes a stored one away.  Shared by the theorems of EndToEnd. *)

From S2P Require Import Prelude GoStd Model StorageInterface Storage.

Open Scope Z_scope.

(** ** What it means for a fact to be in the tables *)

(** The row of the trade, or one with its raw trade id, which the unique index
    takes for the same trade. *)
Definition trade_stored (db : DB) (t : Trade) : Prop :=
  exists x, x ∈ db_trades db /\
    ((exists now id, x = trade_row now id t) \/
     (tr_RawTradeID t <> "" /\ tr_InputID x = tr_InputID t /\ tr_RawTradeID x = tr_RawTradeID t)).

(** The row of the candle's key is at its revision or a later one, or the candle
    is closed there and this was an update of an open one. *)
Definition kline_stored (db : DB) (k : Kline) : Prop :=
  exists x, db_klines db !! key_of_kline k = Some x /\
    (kl_Revision k <= kl_Revision x \/ (kl_IsClosed x = true /\ kl_IsClosed k = false)).

(** The row of the delta. *)
Definition delta_stored (db : DB) (d : OrderBookDelta) : Prop := exists now, delta_row now d ∈ db_deltas db.

(** Rows are never deleted, candles only move forward. *)
Record facts_kept (db db' : DB) : Prop := {
  fk_trades : db_trades db `prefix_of` db_trades db';
  fk_klines : klines_forward db db';
  fk_deltas : db_deltas db `prefix_of` db_deltas db'
}.

#[export] Instance facts_kept_refl : Reflexive facts_kept.
Proof. intros db. by constructor. Qed.

#[export] Instance facts_kept_trans : Transitive facts_kept.
Proof. intros a b c [] []. constructor; by etrans. Qed.

#[export] Instance facts_kept_preorder : PreOrder facts_kept.
Proof. constructor; apply _. Qed.

Lemma trade_stored_kept db db' t : facts_kept db db' -> trade_stored db t -> trade_stored db' t.
Proof. intros [[l E] _ _] (x & Hx & Ht). exists x. rewrite E. split; [by apply elem_of_app; left|done]. Qed.

Lemma kline_stored_kept db db' k : facts_kept db db' -> kline_stored db k -> kline_stored db' k.
Proof.
  intros [_ Hf _] (x & Hx & Hk). destruct (Hf _ _ Hx) as (y & Hy & Hr & Hc). exists y. split; [done|].
  destruct Hk as [Hk|[Hk ?]]; [left; lia|right; split; [by apply Hc|done]].
Qed.

Lemma delta_stored_kept db db' d : facts_kept db db' -> delta_stored db d -> delta_stored db' d.
Proof. intros [_ _ [l E]] [now Hd]. exists now. rewrite E. apply elem_of_app. by left. Qed.

Lemma insert_trade_kept now db t : facts_kept db (insert_trade now db t).
Proof.
  constructor; [|by apply klines_forward_eq, insert_trade_klines|by pose proof (fold_trades_deltas now [t] db) as E; simpl in E; rewrite E].
  unfold insert_trade. destruct (existsb _ _); [done|]. by eexists.
Qed.

Lemma upsert_kline_trades now db k : db_trades (upsert_kline now db k) = db_trades db.
Proof. unfold upsert_kline. destruct (_ !! _); [|done]. by destruct (kline_guard _ _). Qed.

Lemma publish_trades now db b :
  db_trades (publish now db b) = db_trades (fold_left (insert_trade now)
    (tradesAfterOffset (fb_Trades b) (fb_Progress b) (durable db (progress_key (fb_Progress b)))) db).
Proof.
  assert (forall ks w, db_trades (fold_left (upsert_kline now) ks w) = db_trades w) as H; [|exact (H _ _)].
  induction ks as [|k ks IH]; intros w; [done|]. simpl. by rewrite IH, upsert_kline_trades.
Qed.

Lemma upsert_kline_kept now db k : facts_kept db (upsert_kline now db k).
Proof. constructor; [by rewrite upsert_kline_trades|apply upsert_forward|by pose proof (fold_klines_deltas now [k] db) as E; simpl in E; rewrite E]. Qed.

Lemma fold_kept {A} (f : DB -> A -> DB) l db : (forall db x, facts_kept db (f db x)) -> facts_kept db (fold_left f l db).
Proof. intros Hf. revert db. induction l as [|x l IH]; intros db; [done|]. simpl. etrans; [apply Hf|apply IH]. Qed.

Lemma publish_kept now db b : facts_kept db (publish now db b).
Proof.
  constructor; [|apply publish_forward|rewrite publish_deltas; by eexists].
  rewrite publish_trades. apply fold_kept. intros. apply insert_trade_kept.
Qed.

Lemma write_kept f now db b : facts_kept db (fst (WriteFactBatch f now db b)).
Proof.
  destruct (WriteFactBatch_cases f now db b) as [[-> _]|[(_ & _ & ->)|(_ & _ & ->)]]; [done..|]. apply publish_kept.
Qed.

Lemma poison_kept out now db r : facts_kept db (fst (WritePoisonRecord out now db r)).
Proof.
  assert (facts_kept db (insert_poison now db r)) as Hi
    by (constructor; [|by apply klines_forward_eq, insert_poison_klines|]; unfold insert_poison; by destruct (existsb _ _)).
  unfold WritePoisonRecord. by destruct out.
Qed.

Lemma poison_progress out now db r : db_progress (fst (WritePoisonRecord out now db r)) = db_progress db.
Proof. unfold WritePoisonRecord, insert_poison. destruct out; simpl; [|done|]; by destruct (existsb _ _). Qed.

Lemma poison_trades out now db r : db_trades (fst (WritePoisonRecord out now db r)) = db_trades db.
Proof. unfold WritePoisonRecord, insert_poison. destruct out; simpl; [|done|]; by destruct (existsb _ _). Qed.

(** A row of the list ends up stored. *)
Lemma fold_stores {A} (f : DB -> A -> DB) (stored : DB -> A -> Prop) l db x :
  (forall db x, facts_kept db (f db x)) -> (forall db db' x, facts_kept db db' -> stored db x -> stored db' x) ->
  (forall db, stored (f db x) x) -> x ∈ l -> stored (fold_left f l db) x.
Proof.
  intros Hf Hs Hx. revert db. induction l as [|y l IH]; intros db Hin; [by apply elem_of_nil in Hin|]. simpl.
  apply elem_of_cons in Hin as [<-|Hin]; [|by apply IH]. eapply Hs; [by apply fold_kept|apply Hx].
Qed.

Lemma upsert_kline_stored now db k : kline_stored (upsert_kline now db k) k.
Proof.
  unfold kline_stored. rewrite upsert_kline_lookup, bool_decide_true by done. eexists. split; [done|].
  unfold kline_merge. destruct (db_klines db !! _) as [o|]; [|left; simpl; lia].
  destruct (kline_guard o k) eqn:E; [left; simpl; lia|]. unfold kline_guard in E.
  destruct (kl_IsClosed o), (kl_IsClosed k), (Z.leb_spec (kl_Revision o) (kl_Revision k)),
    (Z.ltb_spec (kl_Revision o) (kl_Revision k)); try done; auto; left; lia.
Qed.
