(* ===== verification/Partitions.v ===== *)
(** * Delta partitions: precreation, retention, interrupted detaches

    internal/storage/partitions.go over the partitioned table of
    migrations/000004.  The server side keeps the partitions (with the ingestion
    times of their rows) and the catalogue table; the maintenance is a small
    state and error monad over it.  Each statement takes one answer of the
    server; when the answers run out every further statement runs, so that the
    empty list is a pass without faults. *)

From Stdlib Require Import Ascii.
From S2P Require Import Prelude GoStd Rfc3339.

Open Scope Z_scope.

(** ** The server *)

(** ALTER TABLE ... DETACH PARTITION ... CONCURRENTLY works in two transactions;
    between them the partition is pending. *)
Inductive part_state := Attached | PendingDetach | Detached.

#[export] Instance part_state_eq_dec : EqDecision part_state.
Proof. solve_decision. Defined.

Record partition := mkPartition {
  pt_start : time.Time;
  pt_end : time.Time;
  pt_state : part_state;
  pt_rows : list time.Time      (* ingested_at of its rows *)
}.

Record PartDB := mkPartDB {
  pd_tables : gmap string partition;
  pd_catalog : gmap string (time.Time * time.Time)
}.

Definition emptyParts : PartDB := mkPartDB ∅ ∅.

Inductive part_error := ErrStatement | ErrFuel.

(** A statement runs, fails, is interrupted half way (only a detach has a half
    way), or runs without its acknowledgement arriving. *)
Inductive answer := Runs | Fails | Interrupted | Unacked.

#[export] Instance answer_eq_dec : EqDecision answer.
Proof. solve_decision. Defined.

Definition set_tables (t : gmap string partition) (db : PartDB) : PartDB := mkPartDB t (pd_catalog db).

Definition with_state (st : part_state) (p : partition) : partition :=
  mkPartition (pt_start p) (pt_end p) st (pt_rows p).

Definition any_table (f : string -> partition -> bool) (db : PartDB) : bool :=
  existsb (fun kv => f kv.1 kv.2) (map_to_list (pd_tables db)).

(** Is the table a partition of orderbook_deltas (a row of pg_inherits)? *)
Definition inherits (p : partition) : bool := negb (bool_decide (pt_state p = Detached)).

(** CREATE TABLE IF NOT EXISTS name PARTITION OF orderbook_deltas FOR VALUES FROM lo TO hi *)
Definition create_table (name lo hi : string) (db : PartDB) : result part_error PartDB :=
  match pd_tables db !! name with
  | Some _ => Ok db
  | None =>
      match Parse lo, Parse hi with
      | Ok a, Ok b =>
          if (a <? b) && negb (any_table (fun _ p => inherits p && (a <? pt_end p) && (pt_start p <? b)) db)
          then Ok (set_tables (<[name := mkPartition a b Attached []]> (pd_tables db)) db)
          else Err ErrStatement
      | _, _ => Err ErrStatement
      end
  end.

(** INSERT INTO orderbook_delta_partitions ... ON CONFLICT (partition_name) DO
    UPDATE, under CHECK (range_end > range_start) and UNIQUE (range_start, range_end). *)
Definition record_partition (name : string) (a b : time.Time) (db : PartDB) : result part_error PartDB :=
  if (b <=? a) || existsb (fun kv => negb (bool_decide (kv.1 = name)) && bool_decide (kv.2 = (a, b))) (map_to_list (pd_catalog db))
  then Err ErrStatement
  else Ok (mkPartDB (pd_tables db) (<[name := (a, b)]> (pd_catalog db))).

Definition drop_table (name : string) (db : PartDB) : result part_error PartDB :=
  Ok (set_tables (delete name (pd_tables db)) db).

Definition forget_partition (name : string) (db : PartDB) : result part_error PartDB :=
  Ok (mkPartDB (pd_tables db) (delete name (pd_catalog db))).

Definition end_le (x y : string * (time.Time * time.Time)) : Prop := x.2.2 <= y.2.2.

#[export] Instance end_le_dec : RelDecision end_le.
Proof. intros x y. unfold end_le. apply _. Defined.

(** SELECT partition_name ... WHERE range_end <= cutoff ORDER BY range_end *)
Definition expired_names (cutoff : time.Time) (db : PartDB) : list string :=
  map fst (merge_sort end_le (List.filter (fun kv => kv.2.2 <=? cutoff) (map_to_list (pd_catalog db)))).

(** An INSERT of a delta row goes to the attached partition of its ingestion time. *)
Definition holds_time (t : time.Time) (p : partition) : bool :=
  bool_decide (pt_state p = Attached) && (pt_start p <=? t) && (t <? pt_end p).

Definition insert_row (t : time.Time) (db : PartDB) : result part_error PartDB :=
  match List.filter (fun kv => holds_time t kv.2) (map_to_list (pd_tables db)) with
  | (name, p) :: _ =>
      Ok (set_tables (<[name := mkPartition (pt_start p) (pt_end p) (pt_state p) (t :: pt_rows p)]> (pd_tables db)) db)
  | [] => Err ErrStatement
  end.

(** ** Statements as a state and error monad *)

Definition pstate : Type := PartDB * list answer.
Definition pm (A : Type) : Type := pstate -> result part_error A * pstate.

#[export] Instance pm_ret : MRet pm := fun A a s => (Ok a, s).

#[export] Instance pm_bind : MBind pm := fun A B f m s =>
  match m s with
  | (Ok a, s') => f a s'
  | (Err e, s') => (Err e, s')
  end.

Definition next_answer (env : list answer) : answer * list answer :=
  match env with
  | [] => (Runs, [])
  | a :: env' => (a, env')
  end.

Definition exec_stmt (f : PartDB -> result part_error PartDB) : pm () := fun s =>
  let '(a, env') := next_answer s.2 in
  match a, f s.1 with
  | Runs, Ok db' => (Ok (), (db', env'))
  | Unacked, Ok db' => (Err ErrStatement, (db', env'))
  | _, _ => (Err ErrStatement, (s.1, env'))
  end.

Definition query_stmt {A} (f : PartDB -> A) : pm A := fun s =>
  let '(a, env') := next_answer s.2 in
  match a with
  | Runs => (Ok (f s.1), (s.1, env'))
  | _ => (Err ErrStatement, (s.1, env'))
  end.

(** The detach is refused while any partition of the table is pending. *)
Definition detach_stmt (name : string) : pm () := fun s =>
  let '(a, env') := next_answer s.2 in
  let db := s.1 in
  let put st := set_tables (alter (with_state st) name (pd_tables db)) db in
  if any_table (fun _ p => bool_decide (pt_state p = PendingDetach)) db then (Err ErrStatement, (db, env'))
  else match a with
       | Runs => (Ok (), (put Detached, env'))
       | Fails => (Err ErrStatement, (db, env'))
       | Interrupted => (Err ErrStatement, (put PendingDetach, env'))
       | Unacked => (Err ErrStatement, (put Detached, env'))
       end.

(** ** The partition manager *)

Record DeltaPartitionConfig := mkDeltaPartitionConfig {
  dp_Retention : time.Duration;
  dp_MaintenanceInterval : time.Duration;
  dp_PrecreateHorizon : time.Duration
}.

Inductive manager_error := ErrPool | ErrRetention | ErrMaintenanceInterval | ErrPrecreateHorizon.

Definition NewOrderBookDeltaPartitionManager (pool : bool) (cfg : DeltaPartitionConfig)
    : result manager_error DeltaPartitionConfig :=
  if negb pool then Err ErrPool
  else if (dp_Retention cfg <=? 0) then Err ErrRetention
  else if (dp_MaintenanceInterval cfg <=? 0) then Err ErrMaintenanceInterval
  else if (dp_PrecreateHorizon cfg <? 0) then Err ErrPrecreateHorizon
  else Ok cfg.

(** [t.Truncate(d)]: multiples of d are counted from the zero time. *)
Definition Truncate (t : time.Time) (d : time.Duration) : time.Time := t - (t - time.zero) mod d.

(** ["orderbook_deltas_" + start.Format("20060102_15")], for the years 0 to 9999. *)
Definition part_name (start : time.Time) : string :=
  let '(y, m, d) := civil_from_days (start / day_ns) in
  "orderbook_deltas_" +:+ pad 4 y (pad 2 m (pad 2 d ("_" +:+ pad 2 (start mod day_ns / time.Hour) ""))).

#[global] Arguments part_name : simpl never.
#[global] Arguments Truncate : simpl never.

(** The bounds are printed with [time.RFC3339]; at a whole second that is what
    [Format] prints. *)
Definition createDeltaPartition (start : time.Time) : pm () :=
  let start := Truncate start time.Hour in
  let end_ := start + time.Hour in
  let name := part_name start in
  _ ← exec_stmt (create_table name (Format 0 start) (Format 0 end_));
  exec_stmt (record_partition name start end_).

Definition dropDeltaPartition (name : string) : pm () :=
  attached ← query_stmt (fun db => match pd_tables db !! name with Some p => inherits p | None => false end);
  _ ← (if (attached : bool) then detach_stmt name else mret ());
  _ ← exec_stmt (drop_table name);
  exec_stmt (forget_partition name).

(** The loop over the hours. *)
Fixpoint precreate (fuel : nat) (current horizon start : time.Time) : pm () :=
  if time.Before start horizon || (start =? current) then
    match fuel with
    | O => fun s => (Err ErrFuel, s)
    | S fuel' => _ ← createDeltaPartition start; precreate fuel' current horizon (start + time.Hour)
    end
  else mret ().

Fixpoint drop_all (names : list string) : pm () :=
  match names with
  | [] => mret ()
  | name :: names' => _ ← dropDeltaPartition name; drop_all names'
  end.

Definition precreate_fuel (current horizon : time.Time) : nat := Z.to_nat ((horizon - current) / time.Hour + 2).

Definition maintainAt (cfg : DeltaPartitionConfig) (now : time.Time) : pm () :=
  _ ← query_stmt (fun _ => ());
  let current := Truncate now time.Hour in
  let horizon := now + dp_PrecreateHorizon cfg in
  _ ← precreate (precreate_fuel current horizon) current horizon current;
  let cutoff := now - dp_Retention cfg in
  expired ← query_stmt (expired_names cutoff);
  drop_all expired.

(** [Maintain]: acquire a connection, try the advisory lock ([free] says whether
    nobody else holds it), read the server's clock, maintain.  The lock makes a
    pass exclusive; its release changes nothing here. *)
Definition Maintain (cfg : DeltaPartitionConfig) (free : bool) (now : time.Time) : pm () :=
  _ ← query_stmt (fun _ => ());
  locked ← query_stmt (fun _ => free);
  if (locked : bool) then
    _ ← query_stmt (fun _ => ());
    maintainAt cfg now
  else mret ().

(** ** Histories: passes of any process, and inserts of rows *)

Inductive part_event :=
| EvMaintain (free : bool) (now : time.Time) (env : list answer)
| EvInsert (t : time.Time).

Definition part_step (cfg : DeltaPartitionConfig) (db : PartDB) (e : part_event) : PartDB :=
  match e with
  | EvMaintain free now env => (Maintain cfg free now (db, env)).2.1
  | EvInsert t => match insert_row t db with Ok db' => db' | Err _ => db end
  end.

Definition part_run (cfg : DeltaPartitionConfig) (db : PartDB) (es : list part_event) : PartDB :=
  foldl (part_step cfg) db es.

(** ** Hours and their names *)

(** An hour of the years 0 to 9999. *)
Definition hour_ok (a : time.Time) : Prop :=
  a mod time.Hour = 0 /\ -719528 <= a / day_ns /\ (a + time.Hour) / day_ns <= 2932896.

Lemma Truncate_hour t : Truncate t time.Hour = t - t mod time.Hour.
Proof.
  unfold Truncate. replace (t - time.zero) with (t + 17259888 * time.Hour) by (vm_compute (time.zero); vm_compute (17259888 * time.Hour); lia).
  by rewrite Z_mod_plus_full.
Qed.

Lemma Truncate_mod t : Truncate t time.Hour mod time.Hour = 0.
Proof.
  rewrite Truncate_hour. pose proof (Z.div_mod t time.Hour ltac:(discriminate)).
  replace (t - t mod time.Hour) with (0 + t / time.Hour * time.Hour) by lia. by rewrite Z_mod_plus_full.
Qed.

Lemma Truncate_bounds t : Truncate t time.Hour <= t < Truncate t time.Hour + time.Hour.
Proof. rewrite Truncate_hour. pose proof (Z.mod_pos_bound t time.Hour ltac:(reflexivity)). lia. Qed.

Lemma Truncate_id a : a mod time.Hour = 0 -> Truncate a time.Hour = a.
Proof. intros H. rewrite Truncate_hour, H. lia. Qed.

Lemma hour_succ a : a mod time.Hour = 0 -> (a + time.Hour) mod time.Hour = 0.
Proof. intros H. rewrite <- H. replace (a + time.Hour) with (a + 1 * time.Hour) by lia. apply Z_mod_plus_full. Qed.

(** Two hours that overlap are the same. *)
Lemma hours_overlap a b :
  a mod time.Hour = 0 -> b mod time.Hour = 0 -> a < b + time.Hour -> b < a + time.Hour -> a = b.
Proof.
  intros Ha Hb H1 H2. pose proof (Z.div_mod a time.Hour ltac:(discriminate)). pose proof (Z.div_mod b time.Hour ltac:(discriminate)).
  assert (time.Hour = 3600000000000) as Eh by reflexivity. nia.
Qed.

Lemma pad_inj k n1 n2 acc1 acc2 :
  0 <= n1 < 10 ^ Z.of_nat k -> 0 <= n2 < 10 ^ Z.of_nat k -> pad k n1 acc1 = pad k n2 acc2 -> n1 = n2 /\ acc1 = acc2.
Proof.
  intros H1 H2 E. pose proof (take_pad k n1 acc1 H1) as T1. rewrite E, take_pad in T1 by done.
  by injection T1 as -> ->.
Qed.

Lemma clock_hour a : a mod time.Hour = 0 -> a = a / day_ns * day_ns + a mod day_ns / time.Hour * time.Hour /\ 0 <= a mod day_ns / time.Hour < 24.
Proof.
  unfold day_ns. assert (time.Hour = 3600000000000) as -> by reflexivity. intros H. Z.div_mod_to_equations. lia.
Qed.

Lemma part_name_inj a b : hour_ok a -> hour_ok b -> part_name a = part_name b -> a = b.
Proof.
  intros (Ha & Ha1 & Ha2) (Hb & Hb1 & Hb2). unfold part_name.
  destruct (civil_from_days (a / day_ns)) as [[y m] d] eqn:Ea, (civil_from_days (b / day_ns)) as [[y' m'] d'] eqn:Eb.
  destruct (civil_roundtrip _ _ _ _ Ea) as (Da & Hm & Hd & Hy), (civil_roundtrip _ _ _ _ Eb) as (Db & Hm' & Hd' & Hy').
  assert (a / day_ns <= (a + time.Hour) / day_ns /\ b / day_ns <= (b + time.Hour) / day_ns) as [Hle Hle']
    by (split; apply Z.div_le_mono; [reflexivity|vm_compute (time.Hour); lia|reflexivity|vm_compute (time.Hour); lia]).
  specialize (Hy ltac:(lia)). specialize (Hy' ltac:(lia)). pose proof (days_in_le m y). pose proof (days_in_le m' y').
  destruct (clock_hour a Ha) as [Ca Ha3], (clock_hour b Hb) as [Cb Hb3].
  intros E%(inj _). apply pad_inj in E as [-> E]; [|cbn; lia..]. apply pad_inj in E as [-> E]; [|cbn; lia..].
  apply pad_inj in E as [-> E]; [|cbn; lia..]. rewrite !lit_app in E.
  apply (f_equal (strings.drop 1)) in E. cbv beta iota delta [strings.drop] in E.
  apply pad_inj in E as [E _]; [|cbn; lia..]. rewrite Ca, Cb. congruence.
Qed.

(** The server reads the printed bounds as the instants they stand for. *)
Lemma bounds_read_back a : hour_ok a -> Parse (Format 0 a) = Ok a /\ Parse (Format 0 (a + time.Hour)) = Ok (a + time.Hour).
Proof.
  intros (H0 & H1 & H2). assert (a / day_ns <= (a + time.Hour) / day_ns) as Hle
    by (apply Z.div_le_mono; [reflexivity|vm_compute (time.Hour); lia]).
  split; apply Parse_Format; rewrite ?Z.mul_0_l, ?Z.add_0_r; lia.
Qed.

(** ** The invariant of the partition tables *)

(** Every table and catalogue row is an hour under its own name; rows lie in
    their hour; what is not attached ended before [c]. *)
Record part_wf (c : time.Time) (db : PartDB) : Prop := {
  pw_table : forall name p, pd_tables db !! name = Some p ->
    hour_ok (pt_start p) /\ name = part_name (pt_start p) /\ pt_end p = pt_start p + time.Hour /\
    Forall (fun t => pt_start p <= t < pt_end p) (pt_rows p) /\ (pt_state p <> Attached -> pt_end p <= c);
  pw_catalog : forall name a b, pd_catalog db !! name = Some (a, b) ->
    hour_ok a /\ name = part_name a /\ b = a + time.Hour
}.

(** The name of an hour that ended by [c]. *)
Definition over (c : time.Time) (name : string) : Prop :=
  exists a, hour_ok a /\ name = part_name a /\ a + time.Hour <= c.

(** An invariant that a computation keeps, with what it says of the answer. *)
Definition keeps (I : PartDB -> Prop) {A} (m : pm A) (Q : A -> Prop) : Prop :=
  forall s, I s.1 -> I (m s).2.1 /\ forall a, (m s).1 = Ok a -> Q a.

Section keeps.
Context (I : PartDB -> Prop).

Lemma keeps_ret {A} (a : A) (Q : A -> Prop) : Q a -> keeps I (mret a) Q.
Proof. intros Ha s Hs. split; [done|]. by intros ? [= <-]. Qed.

Lemma keeps_bind {A B} (m : pm A) (f : A -> pm B) Q Q' :
  keeps I m Q -> (forall a, Q a -> keeps I (f a) Q') -> keeps I (m ≫= f) Q'.
Proof.
  intros Hm Hf s Hs. unfold mbind, pm_bind. destruct (Hm s Hs) as [H1 H2]. destruct (m s) as [[a|e] s'] eqn:E; cbn in *.
  - by apply Hf; [apply H2|].
  - by split.
Qed.

Lemma keeps_query {A} (f : PartDB -> A) (Q : A -> Prop) : (forall db, I db -> Q (f db)) -> keeps I (query_stmt f) Q.
Proof.
  intros Hf [db env] Hs. unfold query_stmt. cbn in *. destruct (next_answer env) as [[] env']; cbn; (split; [done|]); intros a [= <-]; by apply Hf.
Qed.

Lemma keeps_exec f : (forall db db', I db -> f db = Ok db' -> I db') -> keeps I (exec_stmt f) (fun _ => True).
Proof.
  intros Hf [db env] Hs. unfold exec_stmt. cbn in *. split; [|done].
  destruct (next_answer env) as [[] env'], (f db) as [db'|e] eqn:E; cbn; try done; by apply (Hf db).
Qed.

Lemma keeps_detach name :
  (forall db st, I db -> I (set_tables (alter (with_state st) name (pd_tables db)) db)) -> keeps I (detach_stmt name) (fun _ => True).
Proof.
  intros Hf [db env] Hs. unfold detach_stmt. cbn in *. split; [|done].
  destruct (next_answer env) as [[] env']; destruct (any_table _ db); cbn; try done; by apply Hf.
Qed.

End keeps.

#[export] Hint Resolve keeps_ret keeps_query : mdb.

(** What the statements of a maintenance pass must keep, hour by hour. *)
Record pass_inv (now cutoff : time.Time) (I : PartDB -> Prop) : Prop := {
  pi_create : forall a db db', hour_ok a -> now < a + time.Hour -> I db ->
    create_table (part_name a) (Format 0 a) (Format 0 (a + time.Hour)) db = Ok db' -> I db';
  pi_record : forall a db db', hour_ok a -> now < a + time.Hour -> I db ->
    record_partition (part_name a) a (a + time.Hour) db = Ok db' -> I db';
  pi_expired : forall db, I db -> Forall (over cutoff) (expired_names cutoff db);
  pi_state : forall name db st, over cutoff name -> I db -> I (set_tables (alter (with_state st) name (pd_tables db)) db);
  pi_drop : forall name db, over cutoff name -> I db -> I (set_tables (delete name (pd_tables db)) db);
  pi_forget : forall name db, over cutoff name -> I db -> I (mkPartDB (pd_tables db) (delete name (pd_catalog db)))
}.

Section pass.
Context (now cutoff : time.Time) (I : PartDB -> Prop) (HI : pass_inv now cutoff I).

Lemma keeps_create a : hour_ok a -> now < a + time.Hour -> keeps I (createDeltaPartition a) (fun _ => True).
Proof.
  intros Ha Hn. unfold createDeltaPartition. rewrite Truncate_id by apply Ha. cbv zeta.
  eapply keeps_bind; [|intros ? _]; apply keeps_exec; intros db db' Hdb; [by apply (pi_create now cutoff)|by apply (pi_record now cutoff)].
Qed.

Lemma keeps_drop name : over cutoff name -> keeps I (dropDeltaPartition name) (fun _ => True).
Proof.
  intros Ho. unfold dropDeltaPartition. apply (keeps_bind I _ _ (fun _ => True)); [by apply keeps_query|]. intros attached _.
  apply (keeps_bind I _ _ (fun _ => True)).
  { destruct attached; [|by apply keeps_ret]. apply keeps_detach. intros db st. by apply (pi_state now cutoff). }
  intros _ _. eapply keeps_bind; [|intros ? _]; apply keeps_exec; intros db db' Hdb [= <-];
    [by apply (pi_drop now cutoff)|by apply (pi_forget now cutoff)].
Qed.

Lemma keeps_drop_all names : Forall (over cutoff) names -> keeps I (drop_all names) (fun _ => True).
Proof.
  induction 1 as [|name names Ho _ IH]; cbn; [by apply keeps_ret|].
  eapply keeps_bind; [by apply keeps_drop|done].
Qed.

Lemma keeps_precreate fuel current horizon start :
  start mod time.Hour = 0 -> now < start + time.Hour -> -719528 <= start / day_ns ->
  (Z.max horizon current + time.Hour) / day_ns <= 2932896 ->
  keeps I (precreate fuel current horizon start) (fun _ => True).
Proof.
  assert (time.Hour = 3600000000000) as Eh by reflexivity. assert (day_ns = 86400000000000) as Ed by reflexivity.
  revert start. induction fuel as [|fuel IH]; intros start Hm Hn Hlo Hhi; cbn [precreate];
    (destruct (time.Before start horizon || (start =? current)) eqn:Eg; [|by apply keeps_ret]).
  { intros s Hs. by split. }
  assert (start <= Z.max horizon current) as Hle
    by (apply orb_true_iff in Eg as [Eg|Eg]; unfold time.Before in Eg; bool_to_prop; lia).
  eapply keeps_bind; [apply keeps_create; [|done]|intros _ _].
  - split_and!; [done|done|]. rewrite Ed, Eh in *. Z.div_mod_to_equations. lia.
  - apply IH; [by apply hour_succ|lia| |done]. rewrite Ed, Eh in *. Z.div_mod_to_equations. lia.
Qed.

End pass.

(** The years a pass at [now] touches. *)
Definition in_calendar (cfg : DeltaPartitionConfig) (now : time.Time) : Prop :=
  -719528 <= Truncate now time.Hour / day_ns /\
  (Z.max (now + dp_PrecreateHorizon cfg) (Truncate now time.Hour) + time.Hour) / day_ns <= 2932896.

Lemma keeps_Maintain_parts cfg free now I (Q : list string -> Prop) :
  (let current := Truncate now time.Hour in let horizon := now + dp_PrecreateHorizon cfg in
   keeps I (precreate (precreate_fuel current horizon) current horizon current) (fun _ => True)) ->
  (forall db, I db -> Q (expired_names (now - dp_Retention cfg) db)) ->
  (forall names, Q names -> keeps I (drop_all names) (fun _ => True)) ->
  keeps I (Maintain cfg free now) (fun _ => True).
Proof.
  intros Hpre Hq Hdrop. unfold Maintain.
  apply (keeps_bind I _ _ (fun _ => True)); [by apply keeps_query|]. intros _ _.
  apply (keeps_bind I _ _ (fun _ => True)); [by apply keeps_query|]. intros [|] _; [|by apply keeps_ret].
  apply (keeps_bind I _ _ (fun _ => True)); [by apply keeps_query|]. intros _ _. unfold maintainAt.
  apply (keeps_bind I _ _ (fun _ => True)); [by apply keeps_query|]. intros _ _. cbv zeta.
  eapply keeps_bind; [apply Hpre|intros _ _]. eapply keeps_bind; [by apply keeps_query, Hq|done].
Qed.

Lemma keeps_Maintain cfg free now I :
  in_calendar cfg now -> pass_inv now (now - dp_Retention cfg) I -> keeps I (Maintain cfg free now) (fun _ => True).
Proof.
  intros [Hc1 Hc2] HI. apply (keeps_Maintain_parts _ _ _ _ (Forall (over (now - dp_Retention cfg)))).
  - apply (keeps_precreate now _ I HI); [apply Truncate_mod|apply Truncate_bounds|done|done].
  - apply (pi_expired now _ I HI).
  - apply (keeps_drop_all now _ I HI).
Qed.

(** ** Passes keep the invariant *)

Lemma elem_of_expired cutoff db name :
  name ∈ expired_names cutoff db -> exists a b, pd_catalog db !! name = Some (a, b) /\ b <= cutoff.
Proof.
  unfold expired_names. intros ((k, (a, b)) & -> & Hin)%list_elem_of_fmap.
  rewrite merge_sort_Permutation in Hin. apply list_elem_of_In, filter_In in Hin as [Hin Hb]. cbn in Hb.
  apply list_elem_of_In, elem_of_map_to_list in Hin. exists a, b. split; [done|]. by apply Z.leb_le.
Qed.

Lemma expired_over c cutoff db : part_wf c db -> Forall (over cutoff) (expired_names cutoff db).
Proof.
  intros Hdb. apply Forall_forall. intros name (a & b & Hc & Hb)%elem_of_expired.
  destruct (pw_catalog _ _ Hdb _ _ _ Hc) as (H1 & H2 & ->). by exists a.
Qed.

(** What CREATE TABLE did when it ran. *)
Lemma create_table_Ok a db db' :
  hour_ok a -> create_table (part_name a) (Format 0 a) (Format 0 (a + time.Hour)) db = Ok db' ->
  (is_Some (pd_tables db !! part_name a) /\ db' = db) \/
  (pd_tables db !! part_name a = None /\
   db' = set_tables (<[part_name a := mkPartition a (a + time.Hour) Attached []]> (pd_tables db)) db).
Proof.
  intros Ha. unfold create_table. destruct (pd_tables db !! part_name a) as [p|] eqn:E; [intros [= <-]; left; by split|].
  destruct (bounds_read_back a Ha) as [-> ->]. destruct (_ && _); intros [= <-]. right. by split.
Qed.

Lemma part_wf_create c a db db' :
  part_wf c db -> hour_ok a -> create_table (part_name a) (Format 0 a) (Format 0 (a + time.Hour)) db = Ok db' -> part_wf c db'.
Proof.
  intros [Ht Hc] Ha [[_ ->]|[_ ->]]%create_table_Ok; [by split| |done]. split; [|done]. cbn.
  intros name p [[<- <-]|[_ Hp]]%lookup_insert_Some; [|by apply Ht]. cbn. by split_and!.
Qed.

Lemma part_wf_record c a db db' :
  part_wf c db -> hour_ok a -> record_partition (part_name a) a (a + time.Hour) db = Ok db' -> part_wf c db'.
Proof.
  intros [Ht Hc] Ha. unfold record_partition. destruct (_ || _); [done|]. intros [= <-]. split; [done|]. cbn.
  intros name a' b [[<- [= <- <-]]|[_ Hn]]%lookup_insert_Some; [done|by apply Hc].
Qed.

Lemma over_table c cutoff db name p :
  part_wf c db -> over cutoff name -> pd_tables db !! name = Some p -> pt_end p <= cutoff.
Proof.
  intros Hdb (a & Ha & -> & Hle) Hp. destruct (pw_table _ _ Hdb _ _ Hp) as (Hs & Hn & -> & _).
  apply part_name_inj in Hn as <-; done.
Qed.

Lemma part_wf_state c cutoff name db st :
  cutoff <= c -> over cutoff name -> part_wf c db -> part_wf c (set_tables (alter (with_state st) name (pd_tables db)) db).
Proof.
  intros Hle Ho Hdb. split; [|apply (pw_catalog _ _ Hdb)]. cbn. intros n p Hp.
  apply lookup_alter_Some in Hp as [(-> & q & Hq & ->)|[Hne Hp]]; [|by apply (pw_table _ _ Hdb)].
  destruct (pw_table _ _ Hdb _ _ Hq) as (H1 & H2 & H3 & H4 & H5). cbn. split_and!; try done.
  intros _. pose proof (over_table _ _ _ _ _ Hdb Ho Hq). lia.
Qed.

Lemma part_wf_drop c name db : part_wf c db -> part_wf c (set_tables (delete name (pd_tables db)) db).
Proof. intros [Ht Hc]. split; [|done]. cbn. intros n p [_ Hp]%lookup_delete_Some. by apply Ht. Qed.

Lemma part_wf_forget c name db : part_wf c db -> part_wf c (mkPartDB (pd_tables db) (delete name (pd_catalog db))).
Proof. intros [Ht Hc]. split; [done|]. cbn. intros n a b [_ Hn]%lookup_delete_Some. by apply Hc. Qed.

Lemma part_wf_later c c' db : c <= c' -> part_wf c db -> part_wf c' db.
Proof.
  intros Hle [Ht Hc]. split; [|done]. intros name p Hp. destruct (Ht _ _ Hp) as (? & ? & ? & ? & H). split_and!; try done.
  intros Hs. specialize (H Hs). lia.
Qed.

(** Tables that have not ended by [cutoff] are left as they are. *)
Definition keeps_tables (cutoff : time.Time) (db0 db : PartDB) : Prop :=
  forall name p, pd_tables db0 !! name = Some p -> cutoff < pt_end p -> pd_tables db !! name = Some p.

Lemma pass_inv_wf now cutoff db0 :
  cutoff <= now -> part_wf now db0 ->
  pass_inv now cutoff (fun db => part_wf now db /\ keeps_tables cutoff db0 db).
Proof.
  intros Hle H0.
  assert (forall name p, over cutoff name -> pd_tables db0 !! name = Some p -> ~ cutoff < pt_end p) as Hov
    by (intros name p Ho Hp; pose proof (over_table _ _ _ _ _ H0 Ho Hp); lia).
  split.
  - intros a db db' Ha _ [Hw Hk] Hcr. split; [by eapply part_wf_create|].
    apply create_table_Ok in Hcr as [[_ ->]|[Hnone ->]]; [done| |done]. intros name p Hp Hlt. cbn.
    specialize (Hk _ _ Hp Hlt). rewrite lookup_insert_ne; [done|]. intros <-. congruence.
  - intros a db db' Ha _ [Hw Hk] Hr. split; [by eapply part_wf_record|].
    unfold record_partition in Hr. destruct (_ || _); [done|]. by injection Hr as <-.
  - intros db [Hw _]. by apply (expired_over now).
  - intros name db st Ho [Hw Hk]. split; [by apply (part_wf_state _ cutoff)|]. intros n p Hp Hlt. cbn.
    rewrite lookup_alter_ne; [by apply Hk|]. intros <-. by apply (Hov name p).
  - intros name db Ho [Hw Hk]. split; [by apply part_wf_drop|]. intros n p Hp Hlt. cbn.
    rewrite lookup_delete_ne; [by apply Hk|]. intros <-. by apply (Hov name p).
  - intros name db Ho [Hw Hk]. split; [by apply part_wf_forget|done].
Qed.

Lemma Maintain_wf cfg free now db env :
  0 < dp_Retention cfg -> in_calendar cfg now -> part_wf now db ->
  part_wf now (Maintain cfg free now (db, env)).2.1 /\
  keeps_tables (now - dp_Retention cfg) db (Maintain cfg free now (db, env)).2.1.
Proof.
  intros Hr Hcal Hdb.
  destruct (keeps_Maintain cfg free now _ Hcal (pass_inv_wf now (now - dp_Retention cfg) db ltac:(lia) Hdb) (db, env)) as [H _]; [|exact H].
  split; [done|]. by intros name p Hp _.
Qed.

(** ** Histories *)

(** The server's clock does not go back, and stays in the calendar. *)
Fixpoint hist_ok (cfg : DeltaPartitionConfig) (c : time.Time) (es : list part_event) : Prop :=
  match es with
  | [] => True
  | EvMaintain _ now _ :: es' => c <= now /\ in_calendar cfg now /\ hist_ok cfg now es'
  | EvInsert _ :: es' => hist_ok cfg c es'
  end.

Fixpoint hist_clock (c : time.Time) (es : list part_event) : time.Time :=
  match es with
  | [] => c
  | EvMaintain _ now _ :: es' => hist_clock now es'
  | EvInsert _ :: es' => hist_clock c es'
  end.

Lemma insert_row_Ok t db db' :
  insert_row t db = Ok db' ->
  exists name p, pd_tables db !! name = Some p /\ holds_time t p = true /\
    db' = set_tables (<[name := mkPartition (pt_start p) (pt_end p) (pt_state p) (t :: pt_rows p)]> (pd_tables db)) db.
Proof.
  unfold insert_row. destruct (List.filter _ _) as [|[name p] l] eqn:E; [done|]. intros [= <-].
  assert ((name, p) ∈ List.filter (fun kv => holds_time t kv.2) (map_to_list (pd_tables db))) as Hin by (rewrite E; by left).
  apply list_elem_of_In, filter_In in Hin as [Hin Ht]. apply list_elem_of_In, elem_of_map_to_list in Hin. by exists name, p.
Qed.

Lemma insert_row_wf c t db db' : part_wf c db -> insert_row t db = Ok db' -> part_wf c db'.
Proof.
  intros Hdb (name & p & Hp & Ht & ->)%insert_row_Ok. split; [|apply (pw_catalog _ _ Hdb)]. cbn.
  intros n q [[<- <-]|[_ Hq]]%lookup_insert_Some; [|by apply (pw_table _ _ Hdb)].
  destruct (pw_table _ _ Hdb _ _ Hp) as (H1 & H2 & H3 & H4 & H5). cbn. split_and!; try done. constructor; [|done].
  unfold holds_time in Ht. bool_to_prop. done.
Qed.

Lemma part_run_wf cfg c es db :
  0 < dp_Retention cfg -> hist_ok cfg c es -> part_wf c db -> part_wf (hist_clock c es) (part_run cfg db es).
Proof.
  intros Hr. revert c db. induction es as [|[free now env|t] es IH]; intros c db Hes Hdb; cbn in *; [done| |].
  - destruct Hes as (Hc & Hcal & Hes). apply IH; [done|]. apply Maintain_wf; [done|done|by apply (part_wf_later c)].
  - apply IH; [done|]. destruct (insert_row t db) as [db'|e] eqn:E; [by eapply insert_row_wf|done].
Qed.

Lemma emptyParts_wf c : part_wf c emptyParts.
Proof. by split. Qed.

(** (C20) Retention never takes a row early.  After any history of maintenance
    passes and inserts, with any faults, one more pass at [now], whatever the
    server answers to its statements and wherever it stops, leaves untouched the
    table of every delta row ingested at [now - Retention] or later, and the
    partition tables keep their invariant: every partition is one hour under
    that hour's name, with only rows of that hour. *)
Theorem retention_keeps_recent_rows cfg c es free now env :
  0 < dp_Retention cfg -> hist_ok cfg c es -> hist_clock c es <= now -> in_calendar cfg now ->
  let db := part_run cfg emptyParts es in
  let db' := (Maintain cfg free now (db, env)).2.1 in
  part_wf now db' /\
  forall name p t, pd_tables db !! name = Some p -> t ∈ pt_rows p -> now - dp_Retention cfg <= t ->
    pd_tables db' !! name = Some p.
Proof.
  intros Hr Hes Hc Hcal db db'.
  assert (part_wf now db) as Hdb by (eapply part_wf_later, part_run_wf, emptyParts_wf; done).
  destruct (Maintain_wf cfg free now db env Hr Hcal Hdb) as [Hw Hk]. split; [done|].
  intros name p t Hp Ht Hlt. apply Hk; [done|].
  destruct (pw_table _ _ Hdb _ _ Hp) as (_ & _ & _ & Hrows & _). rewrite Forall_forall in Hrows. specialize (Hrows _ Ht). lia.
Qed.

(** ** The hours of the window *)

(** How many hours the loop visits. *)
Definition window_size (current horizon : time.Time) : nat :=
  Z.to_nat (Z.max 1 ((horizon - current + time.Hour - 1) / time.Hour)).

Definition window (current horizon : time.Time) : list time.Time :=
  map (fun i => current + Z.of_nat i * time.Hour) (seq 0 (window_size current horizon)).

Fixpoint create_all (starts : list time.Time) : pm () :=
  match starts with
  | [] => mret ()
  | start :: starts' => _ ← createDeltaPartition start; create_all starts'
  end.

Lemma in_window_size current horizon k :
  (k < window_size current horizon)%nat <->
  time.Before (current + Z.of_nat k * time.Hour) horizon || (current + Z.of_nat k * time.Hour =? current) = true.
Proof.
  unfold window_size, time.Before. assert (time.Hour = 3600000000000) as -> by reflexivity.
  rewrite orb_true_iff, Z.ltb_lt, Z.eqb_eq. Z.div_mod_to_equations. lia.
Qed.

Lemma precreate_window_from current horizon n k fuel s :
  (k + n = window_size current horizon)%nat -> (n <= fuel)%nat ->
  precreate fuel current horizon (current + Z.of_nat k * time.Hour) s =
  create_all (map (fun i => current + Z.of_nat i * time.Hour) (seq k n)) s.
Proof.
  revert k fuel s. induction n as [|n IH]; intros k fuel s Hk Hf.
  - assert (time.Before (current + Z.of_nat k * time.Hour) horizon || (current + Z.of_nat k * time.Hour =? current) = false) as Hg
      by (apply not_true_is_false; intros H%in_window_size; lia).
    destruct fuel; cbn [precreate]; by rewrite Hg.
  - destruct fuel as [|fuel]; [lia|]. cbn [precreate map seq create_all].
    rewrite (proj1 (in_window_size current horizon k)) by lia.
    unfold mbind, pm_bind. destruct (createDeltaPartition _ s) as [[[]|e] s']; [|done].
    replace (current + Z.of_nat k * time.Hour + time.Hour) with (current + Z.of_nat (S k) * time.Hour) by lia.
    by rewrite (IH (S k)) by lia.
Qed.

Lemma window_fuel current horizon : current <= horizon -> (window_size current horizon <= precreate_fuel current horizon)%nat.
Proof.
  unfold window_size, precreate_fuel. assert (time.Hour = 3600000000000) as -> by reflexivity.
  intros. Z.div_mod_to_equations. lia.
Qed.

Lemma precreate_window current horizon s :
  current <= horizon -> precreate (precreate_fuel current horizon) current horizon current s = create_all (window current horizon) s.
Proof.
  intros Hle. rewrite <- (precreate_window_from current horizon (window_size current horizon) 0 (precreate_fuel current horizon)) by (lia || by apply window_fuel).
  by rewrite Z.mul_0_l, Z.add_0_r.
Qed.

Lemma elem_of_window current horizon a :
  current mod time.Hour = 0 ->
  a ∈ window current horizon <-> a mod time.Hour = 0 /\ (a = current \/ (current <= a < horizon)).
Proof.
  intros Hm. unfold window. rewrite list_elem_of_fmap. split.
  - intros (i & -> & Hi). apply elem_of_seq in Hi. split; [by rewrite Z_mod_plus_full|].
    destruct Hi as [_ Hi]. apply in_window_size in Hi. unfold time.Before in Hi. apply orb_true_iff in Hi.
    assert (0 <= Z.of_nat i * time.Hour) by (vm_compute (time.Hour); lia). destruct Hi; bool_to_prop; [right|left]; lia.
  - intros [Ha Hor]. exists (Z.to_nat ((a - current) / time.Hour)).
    pose proof (Z.div_mod a time.Hour ltac:(discriminate)). pose proof (Z.div_mod current time.Hour ltac:(discriminate)).
    assert (a - current = (a / time.Hour - current / time.Hour) * time.Hour) as Hq by lia.
    assert ((a - current) / time.Hour = a / time.Hour - current / time.Hour) as Hd by (rewrite Hq; by apply Z.div_mul).
    assert (time.Hour = 3600000000000) as Eh by reflexivity.
    assert (0 <= (a - current) / time.Hour) by (rewrite Eh in *; Z.div_mod_to_equations; lia).
    assert (a = current + Z.of_nat (Z.to_nat ((a - current) / time.Hour)) * time.Hour) as Ea by (rewrite Z2Nat.id by done; lia).
    split; [done|]. apply elem_of_seq. split; [lia|]. rewrite Nat.add_0_l. apply in_window_size. rewrite <- Ea.
    unfold time.Before. apply orb_true_iff. rewrite Z.ltb_lt, Z.eqb_eq. lia.
Qed.

(** (C32) The precreation loop ends, and visits exactly the window.  For a horizon
    that is not negative, the loop's fuel suffices from any state and under any
    answers: the loop is the creation, in ascending order and each once, of the
    hours from the current one up to, but not including, the horizon; the current
    hour is always among them. *)
Theorem precreate_visits_window cfg now s :
  0 <= dp_PrecreateHorizon cfg ->
  let current := Truncate now time.Hour in
  let horizon := now + dp_PrecreateHorizon cfg in
  precreate (precreate_fuel current horizon) current horizon current s = create_all (window current horizon) s /\
  StronglySorted Z.lt (window current horizon) /\
  forall a, a ∈ window current horizon <-> a mod time.Hour = 0 /\ (a = current \/ (current <= a < horizon)).
Proof.
  intros Hh current horizon. pose proof (Truncate_bounds now). split_and!.
  - apply precreate_window. unfold current, horizon. lia.
  - unfold window. generalize (window_size current horizon). intros n. generalize 0%nat as k.
    induction n as [|n IH]; intros k; cbn; constructor; [apply IH|]. apply Forall_forall.
    intros a (i & -> & Hi)%list_elem_of_fmap. apply elem_of_seq in Hi.
    assert (time.Hour = 3600000000000) as -> by reflexivity. lia.
  - intros a. apply elem_of_window, Truncate_mod.
Qed.

(** ** A pass without faults *)

(** From a state of [P], without faults, [m] succeeds. *)
Definition succeeds (P : PartDB -> Prop) {A} (m : pm A) (Q : A -> PartDB -> Prop) : Prop :=
  forall db, P db -> exists a db', m (db, []) = (Ok a, (db', [])) /\ Q a db'.

Lemma succeeds_bind {A B} P (m : pm A) (f : A -> pm B) Q Q' :
  succeeds P m Q -> (forall a, succeeds (Q a) (f a) Q') -> succeeds P (m ≫= f) Q'.
Proof.
  intros Hm Hf db Hdb. destruct (Hm db Hdb) as (a & db1 & E & H1). destruct (Hf a db1 H1) as (b & db2 & E2 & H2).
  exists b, db2. split; [|done]. unfold mbind, pm_bind. by rewrite E.
Qed.

Lemma succeeds_ret {A} P (a : A) (Q : A -> PartDB -> Prop) : (forall db, P db -> Q a db) -> succeeds P (mret a) Q.
Proof. intros H db Hdb. exists a, db. split; [done|by apply H]. Qed.

Lemma succeeds_query {A} P (f : PartDB -> A) : succeeds P (query_stmt f) (fun a db => P db /\ a = f db).
Proof. intros db Hdb. by exists (f db), db. Qed.

Lemma succeeds_exec P f (Q : PartDB -> Prop) :
  (forall db, P db -> exists db', f db = Ok db' /\ Q db') -> succeeds P (exec_stmt f) (fun _ db => Q db).
Proof. intros H db Hdb. destruct (H db Hdb) as (db' & E & HQ). exists (), db'. split; [|done]. unfold exec_stmt. cbn. by rewrite E. Qed.

Definition no_pending (db : PartDB) : Prop := forall name p, pd_tables db !! name = Some p -> pt_state p <> PendingDetach.

Lemma any_table_false f db : any_table f db = false <-> forall name p, pd_tables db !! name = Some p -> f name p = false.
Proof.
  unfold any_table. split.
  - intros H name p Hp. apply not_true_is_false. intros Hf. assert (existsb (fun kv => f kv.1 kv.2) (map_to_list (pd_tables db)) = true); [|congruence].
    apply existsb_exists. exists (name, p). split; [|done]. by apply list_elem_of_In, elem_of_map_to_list.
  - intros H. apply not_true_is_false. intros ([name p] & Hin & Hf)%existsb_exists.
    apply list_elem_of_In, elem_of_map_to_list in Hin. cbn in Hf. rewrite (H _ _ Hin) in Hf. done.
Qed.

(** The partition of an hour is there, and takes rows. *)
Definition hour_attached (a : time.Time) (db : PartDB) : Prop :=
  exists p, pd_tables db !! part_name a = Some p /\ pt_state p = Attached.

(** A state in which a pass at [now] from [db0] has created the hours of [done_]. *)
Definition calm_inv (now : time.Time) (db0 : PartDB) (done_ : list time.Time) (db : PartDB) : Prop :=
  part_wf now db /\ no_pending db /\ Forall (fun a => hour_attached a db) done_ /\
  forall name a b, pd_catalog db0 !! name = Some (a, b) -> b <= now -> pd_catalog db !! name = Some (a, b).

Lemma succeeds_create now db0 done_ a :
  hour_ok a -> now < a + time.Hour ->
  succeeds (calm_inv now db0 done_) (createDeltaPartition a) (fun _ db => calm_inv now db0 (a :: done_) db).
Proof.
  intros Ha Hn. unfold createDeltaPartition. rewrite Truncate_id by apply Ha. cbv zeta.
  apply (succeeds_bind _ _ _ (fun _ => calm_inv now db0 (a :: done_))); [apply succeeds_exec|intros _; apply succeeds_exec].
  - intros db (Hw & Hp & Hd & Hk). destruct (create_table (part_name a) (Format 0 a) (Format 0 (a + time.Hour)) db) as [db'|e] eqn:E.
    + exists db'. split; [done|]. destruct (create_table_Ok a db db' Ha E) as [[[p Hpa] Heq]|[Hnone Heq]]; subst db'.
      * split_and!; [done|done| |done]. constructor; [|done]. exists p. split; [done|].
        destruct (pw_table _ _ Hw _ _ Hpa) as (Hs & Hnm & He & _ & Hold). apply part_name_inj in Hnm as Hs'; [|done|done].
        destruct (decide (pt_state p = Attached)); [done|]. specialize (Hold ltac:(done)). lia.
      * split_and!; [by eapply part_wf_create| | |done].
        -- intros name p. cbn. intros [[<- <-]|[_ Hq]]%lookup_insert_Some; [done|by apply (Hp name)].
        -- constructor; [eexists; split; [apply lookup_insert_eq|done]|].
           eapply Forall_impl; [done|]. intros b (q & Hq & Hs). exists q. split; [|done]. cbn.
           rewrite lookup_insert_ne; [done|]. intros Hab. congruence.
    + exfalso. unfold create_table in E. destruct (pd_tables db !! part_name a) as [p|] eqn:Hpa; [done|].
      destruct (bounds_read_back a Ha) as [E1 E2]. rewrite E1, E2 in E.
      destruct (Z.ltb_spec a (a + time.Hour)) as [_|Hlt]; [|vm_compute (time.Hour) in Hlt; lia]. cbn [andb] in E.
      destruct (any_table _ db) eqn:Et; [|done]. clear E. apply not_false_iff_true in Et. apply Et, any_table_false.
      intros name p Hp'. apply not_true_is_false. intros Hov. bool_to_prop.
      destruct (pw_table _ _ Hw _ _ Hp') as ((Hm & _) & Hnm & He & _).
      assert (pt_start p = a) as <- by (apply hours_overlap; [done|apply Ha|lia|lia]). congruence.
  - intros db (Hw & Hp & Hd & Hk). destruct (record_partition (part_name a) a (a + time.Hour) db) as [db'|e] eqn:E.
    + exists db'. split; [done|]. split; [by eapply part_wf_record|].
      unfold record_partition in E. destruct (_ || _); [done|]. injection E as <-. split_and!; [done|done|].
      intros name a' b' Hc Hb. specialize (Hk _ _ _ Hc Hb). cbn. rewrite lookup_insert_ne; [done|]. intros <-.
      destruct (pw_catalog _ _ Hw _ _ _ Hk) as (Ha' & Hnm & ->). apply part_name_inj in Hnm; [subst; lia|done|done].
    + exfalso. unfold record_partition in E. destruct (Z.leb_spec (a + time.Hour) a) as [Hlt|_]; [vm_compute (time.Hour) in Hlt; lia|].
      cbn [orb] in E. destruct (existsb _ _) eqn:Ex; [|done]. apply existsb_exists in Ex as ([name [x y]] & Hin & Hb). cbn in Hb.
      apply list_elem_of_In, elem_of_map_to_list in Hin. bool_to_prop. simplify_eq.
      by destruct (pw_catalog _ _ Hw _ _ _ Hin) as (_ & Hnm & _).
Qed.

Lemma succeeds_create_all now db0 starts done_ :
  Forall (fun a => hour_ok a /\ now < a + time.Hour) starts ->
  succeeds (calm_inv now db0 done_) (create_all starts) (fun _ db => calm_inv now db0 (rev starts ++ done_) db).
Proof.
  intros Hall. revert done_. induction Hall as [|a starts [Ha Hn] _ IH]; intros done_; cbn [create_all rev].
  - by apply succeeds_ret.
  - apply (succeeds_bind _ _ _ (fun _ => calm_inv now db0 (a :: done_))); [by apply succeeds_create|]. intros _. rewrite <- app_assoc. apply IH.
Qed.

(** Without faults and pending detaches, an expired partition goes. *)
Definition without (names : list string) (db : PartDB) : PartDB :=
  mkPartDB (foldl (fun m name => delete name m) (pd_tables db) names) (foldl (fun m name => delete name m) (pd_catalog db) names).

Lemma no_pending_delete db name : no_pending db -> no_pending (without [name] db).
Proof. intros H n p. cbn. intros [_ Hp]%lookup_delete_Some. by apply (H n). Qed.

Lemma drop_calm name db : no_pending db -> dropDeltaPartition name (db, []) = (Ok (), (without [name] db, [])).
Proof.
  intros Hnp. unfold dropDeltaPartition, without, mbind, pm_bind. cbn. destruct (pd_tables db !! name) as [p|] eqn:E; [|done].
  destruct (inherits p); [|done]. unfold detach_stmt. cbn.
  rewrite (proj2 (any_table_false (fun _ p => bool_decide (pt_state p = PendingDetach)) db))
    by (intros n q Hq; apply bool_decide_eq_false; by apply (Hnp n)).
  cbn. unfold set_tables. cbn. by rewrite delete_alter_eq.
Qed.

Lemma drop_all_calm names db : no_pending db -> drop_all names (db, []) = (Ok (), (without names db, [])).
Proof.
  revert db. induction names as [|name names IH]; intros db Hnp; cbn [drop_all]; [by destruct db|].
  unfold mbind, pm_bind. rewrite drop_calm by done. by rewrite IH by by apply no_pending_delete.
Qed.

Lemma window_hours cfg now :
  0 <= dp_PrecreateHorizon cfg -> in_calendar cfg now ->
  Forall (fun a => hour_ok a /\ now < a + time.Hour) (window (Truncate now time.Hour) (now + dp_PrecreateHorizon cfg)).
Proof.
  intros Hh [Hc1 Hc2]. apply Forall_forall. intros a Ha. pose proof (Truncate_bounds now).
  apply elem_of_window in Ha as [Hm Hor]; [|apply Truncate_mod]. unfold hour_ok.
  assert (time.Hour = 3600000000000) as Eh by reflexivity. assert (day_ns = 86400000000000) as Ed by reflexivity.
  rewrite Eh, Ed in *. split_and!; [done| | |lia]; Z.div_mod_to_equations; lia.
Qed.

Lemma calm_maintainAt cfg now db :
  0 < dp_Retention cfg -> 0 <= dp_PrecreateHorizon cfg -> in_calendar cfg now -> part_wf now db -> no_pending db ->
  exists db1, calm_inv now db (rev (window (Truncate now time.Hour) (now + dp_PrecreateHorizon cfg)) ++ []) db1 /\
    maintainAt cfg now (db, []) = (Ok (), (without (expired_names (now - dp_Retention cfg) db1) db1, [])).
Proof.
  intros Hr Hh Hcal Hw Hp. destruct (succeeds_create_all now db _ [] (window_hours cfg now Hh Hcal) db) as ([] & db1 & E & H1).
  { by split_and!. }
  exists db1. split; [done|]. unfold maintainAt, mbind, pm_bind. cbn. pose proof (Truncate_bounds now).
  rewrite precreate_window by lia. rewrite E. cbn. rewrite drop_all_calm; [done|apply H1].
Qed.

(** A time in the hour of a window is in the window's range. *)
Definition covered (cfg : DeltaPartitionConfig) (now t : time.Time) : Prop :=
  Truncate now time.Hour <= t < Z.max (Truncate now time.Hour + time.Hour) (now + dp_PrecreateHorizon cfg).

Lemma covered_hour cfg now t :
  covered cfg now t -> Truncate t time.Hour ∈ window (Truncate now time.Hour) (now + dp_PrecreateHorizon cfg).
Proof.
  unfold covered. intros Ht. apply elem_of_window; [apply Truncate_mod|]. split; [apply Truncate_mod|].
  pose proof (Truncate_bounds t). pose proof (Truncate_mod t). pose proof (Truncate_mod now).
  destruct (Z.le_gt_cases (Truncate now time.Hour) (Truncate t time.Hour)) as [Hle|Hgt].
  - destruct (Z.ltb_spec (Truncate t time.Hour) (now + dp_PrecreateHorizon cfg)); [by right|left].
    symmetry. apply hours_overlap; [done|done|lia|lia].
  - left. apply hours_overlap; [done|done|lia|lia].
Qed.

Lemma expired_elem cutoff db name a b : pd_catalog db !! name = Some (a, b) -> b <= cutoff -> name ∈ expired_names cutoff db.
Proof.
  intros Hc Hle. unfold expired_names. apply list_elem_of_fmap. exists (name, (a, b)). split; [done|].
  rewrite merge_sort_Permutation. apply list_elem_of_In, filter_In. split; [by apply list_elem_of_In, elem_of_map_to_list|].
  by apply Z.leb_le.
Qed.

Lemma insert_row_runs t db name p : pd_tables db !! name = Some p -> holds_time t p = true -> is_ok (insert_row t db) = true.
Proof.
  intros Hp Ht. unfold insert_row. destruct (List.filter _ _) as [|[n q] l] eqn:E; [|done]. exfalso.
  assert ((name, p) ∈ List.filter (fun kv => holds_time t kv.2) (map_to_list (pd_tables db))) as Hin
    by (apply list_elem_of_In, filter_In; split; [by apply list_elem_of_In, elem_of_map_to_list|done]).
  rewrite E in Hin. by apply elem_of_nil in Hin.
Qed.

Lemma elem_of_reverse_rev {A} (x : A) l : x ∈ l -> x ∈ rev l.
Proof. rewrite !list_elem_of_In. apply in_rev. Qed.

Lemma calm_pass cfg now db :
  0 < dp_Retention cfg -> 0 <= dp_PrecreateHorizon cfg -> in_calendar cfg now -> part_wf now db -> no_pending db ->
  exists db', Maintain cfg true now (db, []) = (Ok (), (db', [])) /\
    (forall t, covered cfg now t -> is_ok (insert_row t db') = true) /\
    (forall name a b, pd_catalog db' !! name = Some (a, b) -> now - dp_Retention cfg < b) /\
    (forall name a b, pd_catalog db !! name = Some (a, b) -> b <= now - dp_Retention cfg -> pd_tables db' !! name = None).
Proof.
  intros Hr Hh Hcal Hw Hnp.
  destruct (calm_maintainAt cfg now db Hr Hh Hcal Hw Hnp) as (db1 & (Hw1 & Hnp1 & Hall & Hk) & E).
  set (cutoff := now - dp_Retention cfg) in *. set (gone := expired_names cutoff db1) in *.
  assert (forall name a b, pd_catalog db1 !! name = Some (a, b) -> b <= cutoff -> name ∈ gone) as Hgone
    by (intros name a b H1 H2; by eapply expired_elem).
  exists (without gone db1). split; [exact E|]. rewrite app_nil_r in Hall. split_and!.
  - intros t Ht. pose proof (covered_hour _ _ _ Ht) as Hin. rewrite Forall_forall in Hall.
    destruct (Hall (Truncate t time.Hour)) as (p & Hp & Hs); [by apply elem_of_reverse_rev|].
    apply (insert_row_runs t _ (part_name (Truncate t time.Hour)) p).
    + unfold without. cbn. rewrite foldl_delete_lookup, bool_decide_false; [done|]. intros Hg.
      pose proof (expired_over now cutoff db1 Hw1) as Ho. rewrite Forall_forall in Ho.
      pose proof (over_table _ _ _ _ _ Hw1 (Ho _ Hg) Hp). destruct (pw_table _ _ Hw1 _ _ Hp) as ((Hm & _) & Hn & He & _).
      pose proof (Truncate_bounds now). destruct Ht as [Ht _]. pose proof (Truncate_bounds t).
      pose proof (window_hours cfg now Hh Hcal) as Hwin. rewrite Forall_forall in Hwin. destruct (Hwin _ Hin) as [Hok Hend].
      apply part_name_inj in Hn; [|done|by destruct (pw_table _ _ Hw1 _ _ Hp)]. rewrite <- Hn in He. lia.
    + pose proof (window_hours cfg now Hh Hcal) as Hwin. rewrite Forall_forall in Hwin. destruct (Hwin _ Hin) as [Hok _].
      destruct (pw_table _ _ Hw1 _ _ Hp) as (Hok' & Hn & He & _). apply part_name_inj in Hn; [|done|done].
      unfold holds_time. rewrite Hs, He, <- Hn, bool_decide_true by done. pose proof (Truncate_bounds t). cbn.
      apply andb_true_iff. rewrite Z.leb_le, Z.ltb_lt. lia.
  - intros name a b. unfold without. cbn. rewrite foldl_delete_lookup. case_bool_decide as Hg; [done|]. intros Hcat.
    apply Z.nle_gt. intros Hle. by eapply Hg, Hgone.
  - intros name a b Hcat Hle. unfold without. cbn. rewrite foldl_delete_lookup, bool_decide_true; [done|].
    eapply Hgone; [|exact Hle]. apply Hk; [done|]. unfold cutoff in Hle. lia.
Qed.

(** (C21) A pass without faults heals what came before, short of two things it
    cannot: after any history of passes and inserts, with any faults that left no
    detach pending, a pass at [now] that runs and takes the lock succeeds; then the
    partition of every instant from the start of the current hour to the
    precreation horizon takes rows, the catalogue names no partition that ended at
    or before [now - Retention], and no table of one that it named is left.  A
    table that ended by then and is still there was not in the catalogue: one that
    was created and never recorded stays. *)
Theorem calm_pass_covers_and_retires cfg c es now :
  0 < dp_Retention cfg -> 0 <= dp_PrecreateHorizon cfg ->
  hist_ok cfg c es -> hist_clock c es <= now -> in_calendar cfg now ->
  let db := part_run cfg emptyParts es in
  no_pending db ->
  exists db', Maintain cfg true now (db, []) = (Ok (), (db', [])) /\
    (forall t, covered cfg now t -> is_ok (insert_row t db') = true) /\
    (forall name a b, pd_catalog db' !! name = Some (a, b) -> now - dp_Retention cfg < b) /\
    (forall name a b, pd_catalog db !! name = Some (a, b) -> b <= now - dp_Retention cfg -> pd_tables db' !! name = None) /\
    (forall name p, pd_tables db' !! name = Some p -> pt_end p <= now - dp_Retention cfg -> pd_catalog db !! name = None).
Proof.
  intros Hr Hh Hes Hc Hcal db Hnp.
  assert (part_wf now db) as Hw by (by eapply part_wf_later, part_run_wf, emptyParts_wf).
  destruct (calm_pass cfg now db Hr Hh Hcal Hw Hnp) as (db' & E & H1 & H2 & H3). exists db'. split_and!; [done..|].
  pose proof (proj1 (Maintain_wf cfg true now db [] Hr Hcal Hw)) as Hw'. rewrite E in Hw'.
  intros name p Hp Hle. destruct (pd_catalog db !! name) as [[a b]|] eqn:Ec; [|done]. exfalso.
  destruct (pw_table _ _ Hw' _ _ Hp) as (Hs & Hn & He & _). destruct (pw_catalog _ _ Hw _ _ _ Ec) as (Ha & Hn' & ->).
  rewrite Hn in Hn'. apply part_name_inj in Hn' as <-; [|done|done].
  by rewrite (H3 name _ _ Ec) in Hp by lia.
Qed.

(** ** A pass that reports success met no fault *)

(** A success under any answers is the one without faults. *)
Definition calm_success {A} (m : pm A) : Prop :=
  forall db env a s', m (db, env) = (Ok a, s') -> m (db, []) = (Ok a, (s'.1, [])).

Lemma calm_success_ret {A} (a : A) : calm_success (mret a).
Proof. intros db env a' s'. by intros [= <- <-]. Qed.

Lemma calm_success_bind {A B} (m : pm A) (f : A -> pm B) :
  calm_success m -> (forall a, calm_success (f a)) -> calm_success (m ≫= f).
Proof.
  intros Hm Hf db env b s'. unfold mbind, pm_bind. destruct (m (db, env)) as [[a|e] [db1 env1]] eqn:E; [|done].
  intros H. rewrite (Hm _ _ _ _ E). cbn. by apply (Hf a db1 env1).
Qed.

Lemma calm_success_query {A} (f : PartDB -> A) : calm_success (query_stmt f).
Proof. intros db [|[] env] a s'; by intros [= <- <-]. Qed.

Lemma calm_success_exec f : calm_success (exec_stmt f).
Proof. intros db env a s'. unfold exec_stmt. cbn. destruct env as [|[] env]; cbn; destruct (f db); intros [= <- <-]; done. Qed.

Lemma calm_success_detach name : calm_success (detach_stmt name).
Proof.
  intros db env a s'. unfold detach_stmt. cbn. destruct (any_table _ db); [by destruct env|].
  destruct env as [|[] env]; by intros [= <- <-].
Qed.

Create HintDb calm.
#[local] Hint Resolve calm_success_ret calm_success_bind calm_success_query calm_success_exec calm_success_detach : calm.

Lemma calm_success_drop_all names : calm_success (drop_all names).
Proof.
  induction names as [|name names IH]; cbn [drop_all]; [auto with calm|]. apply calm_success_bind; [|auto].
  unfold dropDeltaPartition. apply calm_success_bind; [auto with calm|]. intros []; auto 6 with calm.
Qed.

Lemma calm_success_precreate fuel current horizon start : calm_success (precreate fuel current horizon start).
Proof.
  revert start. induction fuel as [|n IH]; intros start; cbn [precreate]; destruct (_ || _); auto with calm; [by intros ????|].
  apply calm_success_bind; [|auto]. unfold createDeltaPartition. auto with calm.
Qed.

Lemma calm_success_Maintain cfg free now : calm_success (Maintain cfg free now).
Proof.
  unfold Maintain, maintainAt. apply calm_success_bind; [auto with calm|]. intros _. apply calm_success_bind; [auto with calm|].
  intros []; [|auto with calm]. repeat (apply calm_success_bind; [auto with calm|intros]);
    auto using calm_success_precreate, calm_success_drop_all.
Qed.

(** ** A detach that was interrupted *)

(** Every partition still in the parent stays there, with its rows. *)
Definition frozen (db0 db : PartDB) : Prop :=
  forall name p, pd_tables db0 !! name = Some p -> inherits p = true ->
  exists p', pd_tables db !! name = Some p' /\ pt_state p' = pt_state p /\ pt_start p' = pt_start p /\
    pt_end p' = pt_end p /\ pt_rows p ⊆ pt_rows p'.

Definition some_pending (db : PartDB) : Prop := exists name p, pd_tables db !! name = Some p /\ pt_state p = PendingDetach.

Lemma inherits_state p q : pt_state p = pt_state q -> inherits p = inherits q.
Proof. unfold inherits. by intros ->. Qed.

Lemma frozen_refl db : frozen db db.
Proof. intros name p Hp _. by exists p. Qed.

Lemma frozen_trans db1 db2 db3 : frozen db1 db2 -> frozen db2 db3 -> frozen db1 db3.
Proof.
  intros H1 H2 name p Hp Hi. destruct (H1 _ _ Hp Hi) as (q & Hq & Es & Ea & Eb & Hr).
  destruct (H2 _ _ Hq) as (r & Hr' & Es' & Ea' & Eb' & Hr2); [by rewrite (inherits_state q p Es)|].
  exists r. split_and!; [done|congruence..|set_solver].
Qed.

Lemma frozen_pending db0 db : some_pending db0 -> frozen db0 db -> some_pending db.
Proof.
  intros (name & p & Hp & Hs) Hf. destruct (Hf name p Hp) as (q & Hq & Es & _); [unfold inherits; by rewrite Hs|].
  exists name, q. split; [done|congruence].
Qed.

Lemma some_pending_any db : some_pending db -> any_table (fun _ p => bool_decide (pt_state p = PendingDetach)) db = true.
Proof.
  intros (name & p & Hp & Hs). apply not_false_is_true. intros H. pose proof (proj1 (any_table_false _ _) H _ _ Hp) as H'.
  cbn in H'. by apply bool_decide_eq_false in H'.
Qed.

Section frozen.
Context (db0 : PartDB) (Hpend : some_pending db0).

Lemma frozen_create a : keeps (frozen db0) (createDeltaPartition a) (fun _ => True).
Proof.
  unfold createDeltaPartition. eapply keeps_bind; [|intros ? _]; apply keeps_exec; intros db db' Hf H; (eapply frozen_trans; [exact Hf|]).
  - unfold create_table in H. destruct (pd_tables db !! _) eqn:E; [injection H as <-; apply frozen_refl|].
    repeat case_match; try done. injection H as <-.
    intros name p Hp Hi. exists p. cbn. rewrite lookup_insert_ne; [done|congruence].
  - unfold record_partition in H. destruct (_ || _); [done|]. injection H as <-. exact (frozen_refl db).
Qed.

Lemma frozen_precreate fuel current horizon start : keeps (frozen db0) (precreate fuel current horizon start) (fun _ => True).
Proof.
  revert start. induction fuel as [|fuel IH]; intros start; cbn [precreate]; (destruct (_ || _); [|by apply keeps_ret]).
  - intros s Hs. by split.
  - eapply keeps_bind; [apply frozen_create|intros; apply IH].
Qed.

(** A drop either stops at the refused detach or removes a table that has left the parent. *)
Lemma frozen_drop name s :
  frozen db0 s.1 ->
  frozen db0 (dropDeltaPartition name s).2.1 /\
  (forall p, pd_tables s.1 !! name = Some p -> inherits p = true -> is_ok (dropDeltaPartition name s).1 = false).
Proof.
  destruct s as [db env]. cbn. intros Hf. unfold dropDeltaPartition, mbind, pm_bind, query_stmt. cbn.
  destruct (next_answer env) as [[] env1]; cbn; [|by split..].
  destruct (pd_tables db !! name) as [p|] eqn:E; [destruct (inherits p) eqn:Ei|].
  - unfold detach_stmt. cbn. destruct (next_answer env1) as [a env2].
    rewrite some_pending_any by by eapply frozen_pending. cbn. by split.
  - cbn. assert (frozen db0 (set_tables (delete name (pd_tables db)) db)) as Hd.
    { intros n q Hq Hi. destruct (Hf _ _ Hq Hi) as (r & Hr & Es & H). exists r. cbn. rewrite lookup_delete_ne; [done|].
      intros ->. rewrite E in Hr. injection Hr as <-. rewrite (inherits_state _ _ Es) in Ei. by rewrite Ei in Hi. }
    split; [|intros q [= <-]; congruence]. unfold exec_stmt. cbn.
    destruct (next_answer env1) as [[] env2]; cbn; try done; destruct (next_answer env2) as [[] env3]; by cbn.
  - cbn. split; [|done]. assert (set_tables (delete name (pd_tables db)) db = db) as Hid by (unfold set_tables; rewrite delete_id by done; by destruct db).
    unfold exec_stmt. cbn. rewrite Hid.
    destruct (next_answer env1) as [[] env2]; cbn; try done; destruct (next_answer env2) as [[] env3]; by cbn.
Qed.

Lemma frozen_drop_all names : keeps (frozen db0) (drop_all names) (fun _ => True).
Proof.
  induction names as [|name names IH]; cbn; [by apply keeps_ret|].
  apply (keeps_bind _ _ _ (fun _ => True)); [|done]. intros s Hs. split; [by apply frozen_drop|done].
Qed.

Lemma frozen_step cfg e db : frozen db0 db -> frozen db0 (part_step cfg db e).
Proof.
  intros Hf. destruct e as [free now env|t]; cbn.
  - apply (keeps_Maintain_parts cfg free now (frozen db0) (fun _ => True)); [apply frozen_precreate|done|intros names _; apply frozen_drop_all|done].
  - destruct (insert_row t db) as [db'|e] eqn:E; [|done]. eapply frozen_trans; [done|].
    apply insert_row_Ok in E as (name & p & Hp & _ & ->). intros n q Hq Hi. cbn. destruct (decide (name = n)) as [->|Hne].
    + rewrite lookup_insert_eq. rewrite Hp in Hq. injection Hq as <-. eexists. split; [done|]. cbn. split_and!; try done. set_solver.
    + rewrite lookup_insert_ne by done. by exists q.
Qed.

Lemma frozen_run cfg es db : frozen db0 db -> frozen db0 (part_run cfg db es).
Proof. revert db. induction es as [|e es IH]; intros db Hf; cbn; [done|]. by apply IH, frozen_step. Qed.

End frozen.

(** One interrupted detach stops retention for good.  Once a partition is
    left pending, whatever passes follow and however long, no partition that is
    still part of the table is ever detached or dropped, and a drop of one of
    them reports an error each time: nothing in the code finalises the detach. *)
Theorem pending_detach_stops_retention cfg db es :
  some_pending db ->
  frozen db (part_run cfg db es) /\
  forall name p env, pd_tables (part_run cfg db es) !! name = Some p -> inherits p = true ->
    is_ok (dropDeltaPartition name (part_run cfg db es, env)).1 = false.
Proof.
  intros Hp. assert (frozen db (part_run cfg db es)) as Hf.
  { apply frozen_run; [done|apply frozen_refl]. }
  split; [done|]. intros name p env Hn Hi. by eapply (proj2 (frozen_drop db Hp name (part_run cfg db es, env) Hf)).
Qed.

(** ** At concrete instants *)

Definition sample_partition_cfg : DeltaPartitionConfig := mkDeltaPartitionConfig (2 * time.Hour) time.Hour (3 * time.Hour).

(** 2023-11-14 22:13:20 UTC *)
Definition sample_now : time.Time := 1700000000 * time.Second.

Definition sample_history : list part_event :=
  [EvMaintain true sample_now []; EvInsert sample_now; EvMaintain true (sample_now + time.Hour) [Runs; Runs; Runs; Runs; Unacked];
   EvInsert (sample_now + time.Hour)].

Lemma sample_history_ok : hist_ok sample_partition_cfg sample_now sample_history.
Proof. vm_compute. split_and!; try done; discriminate. Qed.

Example sample_names :
  map fst (map_to_list (pd_tables (part_run sample_partition_cfg emptyParts [EvMaintain true sample_now []]))) ≡ₚ
  ["orderbook_deltas_20231114_22"; "orderbook_deltas_20231114_23"; "orderbook_deltas_20231115_00"; "orderbook_deltas_20231115_01"].
Proof. vm_compute. apply Permutation_rev. Qed.

Lemma sample_clock : hist_clock sample_now sample_history <= sample_now + 2 * time.Hour.
Proof. vm_compute. discriminate. Qed.

Lemma sample_calendar k : 0 <= k <= 24 -> in_calendar sample_partition_cfg (sample_now + k * time.Hour).
Proof.
  intros Hk. unfold in_calendar. rewrite Truncate_hour. assert (time.Hour = 3600000000000) as -> by reflexivity.
  assert (day_ns = 86400000000000) as -> by reflexivity. assert (sample_now = 1700000000000000000) as -> by reflexivity.
  cbn [dp_PrecreateHorizon sample_partition_cfg]. assert (3 * time.Hour = 10800000000000) as -> by reflexivity.
  split; Z.div_mod_to_equations; lia.
Qed.

Lemma retention_keeps_recent_rows_witness :
  let db := part_run sample_partition_cfg emptyParts sample_history in
  let db' := (Maintain sample_partition_cfg true (sample_now + 2 * time.Hour) (db, [Runs; Runs; Runs; Fails])).2.1 in
  option_map pt_rows (pd_tables db' !! "orderbook_deltas_20231114_23") = Some [sample_now + time.Hour].
Proof.
  intros db db'.
  destruct (retention_keeps_recent_rows sample_partition_cfg sample_now sample_history true (sample_now + 2 * time.Hour)
    [Runs; Runs; Runs; Fails] eq_refl sample_history_ok sample_clock (sample_calendar 2 ltac:(lia))) as [_ H].
  destruct (pd_tables db !! "orderbook_deltas_20231114_23") as [p|] eqn:E; [|vm_compute in E; discriminate].
  assert (pt_rows p = [sample_now + time.Hour]) as Hr by (vm_compute in E; injection E as <-; vm_compute; reflexivity).
  assert (pd_tables db' !! "orderbook_deltas_20231114_23" = Some p) as ->; [|by rewrite <- Hr].
  apply (H _ p (sample_now + time.Hour) E); [rewrite Hr; by left|vm_compute; discriminate].
Defined.

Lemma precreate_visits_window_witness :
  window (Truncate sample_now time.Hour) (sample_now + 3 * time.Hour) =
  map (fun h => 1699999200 * time.Second + h * time.Hour) [0; 1; 2; 3] /\
  StronglySorted Z.lt (window (Truncate sample_now time.Hour) (sample_now + 3 * time.Hour)).
Proof.
  split; [vm_compute; reflexivity|].
  apply (precreate_visits_window sample_partition_cfg sample_now (emptyParts, [])). vm_compute. discriminate.
Defined.

Lemma calm_pass_covers_and_retires_witness :
  let db := part_run sample_partition_cfg emptyParts sample_history in
  exists db', Maintain sample_partition_cfg true (sample_now + 2 * time.Hour) (db, []) = (Ok (), (db', [])) /\
    is_ok (insert_row (sample_now + 4 * time.Hour) db') = true.
Proof.
  intros db.
  destruct (calm_pass_covers_and_retires sample_partition_cfg sample_now sample_history (sample_now + 2 * time.Hour)
    eq_refl ltac:(vm_compute; discriminate) sample_history_ok sample_clock (sample_calendar 2 ltac:(lia))) as (db' & H1 & H2 & _).
  - intros name p Hp Hs.
    assert (any_table (fun _ p => bool_decide (pt_state p = PendingDetach)) db = false) as Ha by (vm_compute; reflexivity).
    pose proof (proj1 (any_table_false _ _) Ha _ _ Hp) as Hb. apply bool_decide_eq_false in Hb. exact (Hb Hs).
  - exists db'. split; [exact H1|]. apply H2. vm_compute. split; [discriminate|reflexivity].
Defined.

(** The second pass is interrupted while it detaches the first expired hour. *)
Definition interrupted_history : list part_event :=
  [EvMaintain true sample_now []; EvInsert sample_now;
   EvMaintain true (sample_now + 5 * time.Hour) (repeat Runs 14 ++ [Interrupted])].

Lemma pending_detach_stops_retention_witness :
  let db := part_run sample_partition_cfg emptyParts interrupted_history in
  let later := part_run sample_partition_cfg db
    [EvMaintain true (sample_now + 20 * time.Hour) []; EvMaintain true (sample_now + 40 * time.Hour) []] in
  option_map pt_rows (pd_tables later !! "orderbook_deltas_20231114_22") = Some [sample_now] /\
  is_ok (dropDeltaPartition "orderbook_deltas_20231114_22" (later, [])).1 = false.
Proof.
  intros db later.
  destruct (pd_tables later !! "orderbook_deltas_20231114_22") as [p|] eqn:E; [|vm_compute in E; discriminate].
  split; [vm_compute in E; injection E as <-; vm_compute; reflexivity|].
  eapply (proj2 (pending_detach_stops_retention sample_partition_cfg db
    [EvMaintain true (sample_now + 20 * time.Hour) []; EvMaintain true (sample_now + 40 * time.Hour) []] _) _ p []); [exact E|].
  vm_compute in E. injection E as <-. vm_compute. reflexivity.
  Unshelve.
  destruct (pd_tables db !! "orderbook_deltas_20231114_22") as [q|] eqn:Eq; [|vm_compute in Eq; discriminate].
  exists "orderbook_deltas_20231114_22", q. split; [exact Eq|]. vm_compute in Eq. injection Eq as <-. vm_compute. reflexivity.
Defined.
