(* ===== verification/Query.v ===== *)
(** * Query: keyset pages over the fact tables

    The query methods of internal/storage/postgres.go: composite cursors, limits
    and pages of trades, candles and book snapshots.  The process's time zone is
    an offset in minutes ([off]); text columns are ordered by bytes, as in the C
    collation. *)

From Stdlib Require Import Ascii.
From S2P Require Import Prelude GoStd Rfc3339 Model StorageInterface Storage.

Open Scope Z_scope.

Definition defaultQueryLimit : Z := 200.
Definition maxQueryLimit : Z := 1000.

Definition validateQueryLimit (limit : Z) : Z :=
  if (limit <=? 0) then defaultQueryLimit
  else if (maxQueryLimit <? limit) then maxQueryLimit
  else limit.

Record QueryResult (A : Type) := mkQueryResult { qr_Rows : list A; qr_NextCursor : string }.
Arguments mkQueryResult {A} _ _.
Arguments qr_Rows {A} _.
Arguments qr_NextCursor {A} _.

Inductive query_error :=
| ErrCursorShape
| ErrCursorTime (e : parse_error)
| ErrCursorID
| ErrQuery
| ErrScan.

(** ** Cursors *)

(** [parseTradeCursor] and [parseSnapshotCursor], which differ in messages only. *)
Definition parseTradeCursor (cursor : string) : result query_error (time.Time * Z) :=
  if bool_decide (cursor = "") then Ok (time.zero, 0)
  else match strings.split_last "|"%char cursor with
       | None => Err ErrCursorShape
       | Some (ts, id) =>
           match Parse ts with
           | Err e => Err (ErrCursorTime e)
           | Ok t => match strconv.ParseInt 64 id with
                     | None => Err ErrCursorID
                     | Some n => Ok (t, n)
                     end
           end
       end.

Definition formatTradeCursor (off : Z) (t : time.Time) (id : Z) : string :=
  Format off t +:+ "|" +:+ strconv.FormatInt id.

Definition parseSnapshotCursor := parseTradeCursor.
Definition formatSnapshotCursor := formatTradeCursor.

(** [strings.SplitN(cursor, "|", 3)] into exactly three parts. *)
Definition parseKlineCursor (cursor : string) : result query_error (time.Time * string * string) :=
  if bool_decide (cursor = "") then Ok (time.zero, "", "")
  else match strings.split_first "|"%char cursor with
       | None => Err ErrCursorShape
       | Some (ts, rest) =>
           match strings.split_first "|"%char rest with
           | None => Err ErrCursorShape
           | Some (source, interval) =>
               match Parse ts with
               | Err e => Err (ErrCursorTime e)
               | Ok t => Ok (t, source, interval)
               end
           end
       end.

Definition formatKlineCursor (off : Z) (t : time.Time) (source interval : string) : string :=
  Format off t +:+ "|" +:+ source +:+ "|" +:+ interval.

(** ** Row order *)

(** The row comparisons of the ORDER BY and of the cursor condition. *)
Definition id_key_lt (k1 k2 : time.Time * Z) : Prop := k1.1 < k2.1 \/ (k1.1 = k2.1 /\ k1.2 < k2.2).

Definition string_lt (s t : string) : Prop := string_le s t /\ s <> t.

Definition kline_key_lt (k1 k2 : time.Time * string * string) : Prop :=
  k1.1.1 < k2.1.1 \/
  (k1.1.1 = k2.1.1 /\ (string_lt k1.1.2 k2.1.2 \/ (k1.1.2 = k2.1.2 /\ string_lt k1.2 k2.2))).

#[export] Instance id_key_lt_dec : RelDecision id_key_lt.
Proof. intros x y. unfold id_key_lt. apply _. Defined.

#[export] Instance string_lt_dec : RelDecision string_lt.
Proof. intros x y. unfold string_lt. apply _. Defined.

#[export] Instance kline_key_lt_dec : RelDecision kline_key_lt.
Proof. intros x y. unfold kline_key_lt. apply _. Defined.

Definition trade_key (t : Trade) : time.Time * Z := (tr_EventTime t, tr_ID t).
Definition candle_key (k : Kline) : time.Time * string * string := (kl_OpenTime k, kl_Source k, kl_Interval k).
Definition snap_key (s : OrderBookSnapshot) : time.Time * Z := (os_SnapshotTime s, os_SnapshotID s).

(** ** Pages *)

Section keyset.

Context {A K : Type} (key : A -> K) (lt : relation K) `{!RelDecision lt}.

(** [a] does not come after [b]. *)
Definition row_le (a b : A) : Prop := ~ lt (key b) (key a).

#[export] Instance row_le_dec : RelDecision row_le.
Proof. intros x y. unfold row_le. apply _. Defined.

(** SELECT ... WHERE ... AND key > cursor ORDER BY key LIMIT n *)
Definition select_page (sel : A -> bool) (after : option K) (n : Z) (table : list A) : list A :=
  take (Z.to_nat n)
    (merge_sort row_le
       (List.filter (fun r => sel r && match after with Some k => bool_decide (lt k (key r)) | None => true end) table)).

(** The end of each query method: one row too many says that there is a next
    page, and its key is the cursor. *)
Definition cut_page (limit : Z) (fmt : A -> string) (rows : list A) : QueryResult A :=
  match rows !! Z.to_nat limit with
  | Some last => mkQueryResult (take (Z.to_nat limit) rows) (fmt last)
  | None => mkQueryResult rows ""
  end.

(** A query method after its cursor is parsed; [scan] is whether a row can be read. *)
Definition run_query (out : outcome) (sel : A -> bool) (after : option K) (limit : Z) (scan : A -> bool)
    (fmt : A -> string) (table : list A) : result query_error (QueryResult A) :=
  match out with
  | Done =>
      let rows := select_page sel after (limit + 1) table in
      if forallb scan rows then Ok (cut_page limit fmt rows) else Err ErrScan
  | _ => Err ErrQuery
  end.

End keyset.

(** The cursor condition holds of every row for an empty cursor. *)
Definition cursor_key {K} (cursor : string) (k : K) : option K :=
  if bool_decide (cursor = "") then None else Some k.

Definition in_window (from to t : time.Time) : bool := (from <=? t) && (t <? to).

Definition QueryTrades (off : Z) (out : outcome) (db : DB) (groupID : string) (from to : time.Time)
    (limit : Z) (cursor : string) : result query_error (QueryResult Trade) :=
  let limit := validateQueryLimit limit in
  k ← parseTradeCursor cursor;
  run_query trade_key id_key_lt out
    (fun t => bool_decide (tr_GroupID t = groupID) && in_window from to (tr_EventTime t))
    (cursor_key cursor k) limit (fun _ => true)
    (fun t => formatTradeCursor off (tr_EventTime t) (tr_ID t)) (db_trades db).

(** A NULL quote volume cannot be scanned into a string. *)
Definition QueryKlines (off : Z) (out : outcome) (db : DB) (groupID : string) (from to : time.Time)
    (limit : Z) (cursor : string) : result query_error (QueryResult Kline) :=
  let limit := validateQueryLimit limit in
  k ← parseKlineCursor cursor;
  run_query candle_key kline_key_lt out
    (fun c => bool_decide (kl_GroupID c = groupID) && in_window from to (kl_OpenTime c))
    (cursor_key cursor k) limit (fun c => bool_decide (is_Some (nullIfEmpty (kl_QuoteVolume c))))
    (fun c => formatKlineCursor off (kl_OpenTime c) (kl_Source c) (kl_Interval c))
    (map snd (map_to_list (db_klines db))).

Definition QuerySnapshots (off : Z) (out : outcome) (db : DB) (groupID : string) (from to : time.Time)
    (limit : Z) (cursor : string) : result query_error (QueryResult OrderBookSnapshot) :=
  let limit := validateQueryLimit limit in
  k ← parseSnapshotCursor cursor;
  run_query snap_key id_key_lt out
    (fun s => bool_decide (os_GroupID s = groupID) && in_window from to (os_SnapshotTime s))
    (cursor_key cursor k) limit (fun _ => true)
    (fun s => formatSnapshotCursor off (os_SnapshotTime s) (os_SnapshotID s)) (db_snapshots db).

(** ** Cursors are read back *)

Lemma Format_not_empty off t s : Format off t +:+ String "|"%char s <> "".
Proof. destruct (Format off t); discriminate. Qed.

(** The instants a cursor can carry: the years 0 to 9999 in the process's zone. *)
Definition printable (off : Z) (t : time.Time) : Prop :=
  -1440 <= off <= 1440 /\ -719528 <= (t + off * time.Minute) / day_ns <= 2932896.

#[export] Instance printable_dec off t : Decision (printable off t).
Proof. unfold printable. apply _. Defined.

Lemma parse_format_trade off t id :
  printable off t -> int64 id -> parseTradeCursor (formatTradeCursor off t id) = Ok (t, id).
Proof.
  intros [Ho Ht] Hid. unfold parseTradeCursor, formatTradeCursor. rewrite lit_app.
  rewrite bool_decide_false by apply Format_not_empty.
  rewrite strings_facts.split_last_app by apply strconv_facts.FormatInt_no_bar.
  by rewrite Parse_Format, strconv_facts.ParseInt_FormatInt.
Qed.

Lemma parse_format_kline off t source interval :
  printable off t -> strings.has_byte "|"%char source = false ->
  parseKlineCursor (formatKlineCursor off t source interval) = Ok (t, source, interval).
Proof.
  intros [Ho Ht] Hs. unfold parseKlineCursor, formatKlineCursor. rewrite !lit_app.
  rewrite bool_decide_false by apply Format_not_empty.
  rewrite strings_facts.split_first_app by apply Format_no_bar.
  rewrite strings_facts.split_first_app by done. by rewrite Parse_Format.
Qed.

(** (C35) A cursor is the position it was made from: what [formatTradeCursor],
    [formatSnapshotCursor] and [formatKlineCursor] print, the parsers read back,
    in any time zone, for the years 0 to 9999, every 64-bit id and every source
    without a bar; the interval may hold anything. *)
Theorem cursor_roundtrip off t :
  printable off t ->
  (forall id, int64 id -> parseTradeCursor (formatTradeCursor off t id) = Ok (t, id) /\
     parseSnapshotCursor (formatSnapshotCursor off t id) = Ok (t, id)) /\
  (forall source interval, strings.has_byte "|"%char source = false ->
     parseKlineCursor (formatKlineCursor off t source interval) = Ok (t, source, interval)).
Proof.
  intros Hp. split.
  - intros id Hid. split; by apply parse_format_trade.
  - intros source interval Hs. by apply parse_format_kline.
Qed.

Lemma cursor_roundtrip_witness :
  parseKlineCursor (formatKlineCursor (-150) 1700000000123450000 "exchange" "1|m") = Ok (1700000000123450000, "exchange", "1|m").
Proof.
  apply (cursor_roundtrip (-150) 1700000000123450000); [|reflexivity].
  split; [lia|]. vm_compute. split; discriminate.
Defined.

(** ** What a page holds *)

Section keyset_facts.

Context {A K : Type} (key : A -> K) (lt : relation K) `{!RelDecision lt, !StrictOrder lt}.
Hypothesis lt_total : forall k1 k2, lt k1 k2 \/ k1 = k2 \/ lt k2 k1.

Notation row_le := (row_le key lt).

#[local] Instance row_le_total : Total row_le.
Proof.
  intros a b. unfold Query.row_le. destruct (decide (lt (key b) (key a))) as [H|H]; [right|by left].
  intros H'. apply (irreflexivity lt (key a)). by transitivity (key b).
Qed.

#[local] Instance row_le_trans : Transitive row_le.
Proof.
  intros a b c Hab Hbc Hca. destruct (lt_total (key a) (key b)) as [H|[H|H]]; [|apply Hbc; by rewrite <- H|by apply Hab].
  apply Hbc. by transitivity (key a).
Qed.

Lemma cut_page_rows limit fmt (rows : list A) :
  0 <= limit ->
  exists rest, rows = qr_Rows (cut_page limit fmt rows) ++ rest /\
    Z.of_nat (length (qr_Rows (cut_page limit fmt rows))) <= limit /\
    (rest <> [] -> Z.of_nat (length (qr_Rows (cut_page limit fmt rows))) = limit) /\
    (rest = [] -> qr_NextCursor (cut_page limit fmt rows) = "") /\
    (forall x, hd_error rest = Some x -> qr_NextCursor (cut_page limit fmt rows) = fmt x).
Proof.
  intros Hl. unfold cut_page. destruct (rows !! Z.to_nat limit) as [x|] eqn:E; cbn.
  - exists (drop (Z.to_nat limit) rows). pose proof (lookup_lt_Some _ _ _ E) as Hlen.
    rewrite (drop_S _ _ _ E) in *. split_and!; try done.
    + by rewrite <- (drop_S _ _ _ E), take_drop.
    + rewrite length_take. lia.
    + intros _. rewrite length_take. lia.
    + intros y [= ->]. done.
  - exists []. apply lookup_ge_None in E. rewrite app_nil_r. split_and!; try done. lia.
Qed.

Lemma select_page_spec sel after n table :
  0 <= n ->
  exists rest,
    select_page key lt sel after n table ++ rest
      ≡ₚ List.filter (fun r => sel r && match after with Some k => bool_decide (lt k (key r)) | None => true end) table /\
    StronglySorted row_le (select_page key lt sel after n table ++ rest) /\
    (rest <> [] -> Z.of_nat (length (select_page key lt sel after n table)) = n).
Proof.
  intros Hn. unfold select_page. set (M := List.filter _ table). exists (drop (Z.to_nat n) (merge_sort row_le M)).
  rewrite take_drop. split_and!.
  - apply merge_sort_Permutation.
  - apply StronglySorted_merge_sort; apply _.
  - intros Hne. rewrite length_take. assert (Z.to_nat n < length (merge_sort row_le M))%nat; [|lia].
    apply Nat.nle_gt. intros H. apply Hne. by apply drop_ge.
Qed.

Lemma StronglySorted_app_le l1 l2 :
  StronglySorted row_le (l1 ++ l2) -> forall x y, x ∈ l1 -> y ∈ l2 -> row_le x y.
Proof.
  induction l1 as [|a l1 IH]; intros H x y Hx Hy; [by apply elem_of_nil in Hx|].
  apply StronglySorted_inv in H as [H1 H2]. apply elem_of_cons in Hx as [->|Hx]; [|by apply IH].
  rewrite Forall_forall in H2. apply H2, elem_of_app. by right.
Qed.

(** The rows fetched are the first ones, in key order, of those that match; if all
    of them can be read, the page is cut from them: a cursor exactly when there are
    more. *)
Lemma run_query_page sel after limit scan fmt table :
  0 <= limit -> (forall r, fmt r <> "") ->
  exists fetched rest,
    fetched ++ rest
      ≡ₚ List.filter (fun r => sel r && match after with Some k => bool_decide (lt k (key r)) | None => true end) table /\
    StronglySorted row_le (fetched ++ rest) /\
    Z.of_nat (length fetched) <= limit + 1 /\ (rest <> [] -> Z.of_nat (length fetched) = limit + 1) /\
    if forallb scan fetched then
      exists r rest', run_query key lt Done sel after limit scan fmt table = Ok r /\ fetched ++ rest = qr_Rows r ++ rest' /\
        Z.of_nat (length (qr_Rows r)) <= limit /\
        (qr_NextCursor r = "" <-> rest' = []) /\ (rest' <> [] -> Z.of_nat (length (qr_Rows r)) = limit)
    else run_query key lt Done sel after limit scan fmt table = Err ErrScan.
Proof.
  intros Hl Hfmt. unfold run_query.
  destruct (select_page_spec sel after (limit + 1) table ltac:(lia)) as (rest & Hp & Hs & Hfull).
  assert (Z.of_nat (length (select_page key lt sel after (limit + 1) table)) <= limit + 1) as Hlen0
    by (unfold select_page; rewrite length_take; lia).
  set (rows := select_page key lt sel after (limit + 1) table) in *. cbv zeta.
  exists rows, rest. split_and!; [done..|]. destruct (forallb scan rows); [|done].
  destruct (cut_page_rows limit fmt rows Hl) as (tl & Hrows & Hlen & Hfull2 & Hnil & Hcur).
  exists (cut_page limit fmt rows), (tl ++ rest). rewrite app_assoc, <- Hrows. split_and!; try done.
  - destruct tl as [|x tl].
    + rewrite (Hnil eq_refl). split; [intros _|done]. destruct rest as [|y rest]; [done|].
      exfalso. specialize (Hfull ltac:(done)). rewrite Hrows, app_nil_r in Hfull. lia.
    + rewrite (Hcur x eq_refl). split; [by intros H%Hfmt|done].
  - intros Hne. destruct tl as [|x tl]; [|by apply Hfull2]. exfalso. rewrite app_nil_l in Hne. specialize (Hfull Hne).
    rewrite Hrows, app_nil_r in Hfull. lia.
Qed.

Lemma row_le_lt a b : row_le a b -> key a <> key b -> lt (key a) (key b).
Proof. intros H Hne. destruct (lt_total (key a) (key b)) as [?|[?|?]]; [done|done|by destruct H]. Qed.

Lemma filter_after l i x :
  StronglySorted row_le l -> NoDup (map key l) -> l !! i = Some x ->
  List.filter (fun r => bool_decide (lt (key x) (key r))) l = drop (S i) l.
Proof.
  revert i. induction l as [|a l IH]; intros i Hs Hnd Hi; [done|].
  apply StronglySorted_inv in Hs as [Hs Ha]. apply NoDup_cons in Hnd as [Hna Hnd]. rewrite Forall_forall in Ha.
  assert (forall y, y ∈ l -> key a <> key y) as Hne.
  { intros y Hy E. apply Hna. rewrite E. by apply list_elem_of_fmap_2. }
  destruct i as [|i]; cbn [lookup list_lookup] in Hi; cbn [List.filter drop].
  - injection Hi as ->. rewrite bool_decide_false by apply irreflexivity, _. apply filter_true.
    intros y Hy. apply bool_decide_eq_true. apply row_le_lt; [by apply Ha|by apply Hne].
  - rewrite bool_decide_false; [by apply IH|]. apply Ha. by eapply list_elem_of_lookup_2.
Qed.

Lemma filter_filter (f g : A -> bool) l : List.filter g (List.filter f l) = List.filter (fun r => f r && g r) l.
Proof. induction l as [|r l IH]; cbn; [done|]. destruct (f r); cbn; [destruct (g r); by rewrite IH|done]. Qed.

Lemma StronglySorted_drop {B} (R : relation B) n (l : list B) : StronglySorted R l -> StronglySorted R (drop n l).
Proof.
  revert n. induction l as [|a l IH]; intros [|n] H; cbn; try done. apply IH. by apply StronglySorted_inv in H as [H _].
Qed.

(** All the rows after a row of the sorted table are the rest of the sorted table. *)
Lemma sorted_after sel table i x :
  let all := merge_sort row_le (List.filter sel table) in
  NoDup (map key all) -> all !! i = Some x ->
  merge_sort row_le (List.filter (fun r => sel r && bool_decide (lt (key x) (key r))) table) = drop (S i) all.
Proof.
  intros all Hnd Hx. assert (StronglySorted row_le all) as Hs by (apply StronglySorted_merge_sort; apply _).
  assert (all ≡ₚ List.filter sel table) as Hall by apply merge_sort_Permutation.
  apply (StronglySorted_unique_strong row_le).
  - intros a b Ha Hb Hab Hba. rewrite merge_sort_Permutation in Ha.
    rewrite <- filter_filter in Ha. rewrite (filter_perm _ _ _ (symmetry Hall)) in Ha.
    assert (a ∈ all) as Ha' by (rewrite list_elem_of_In, filter_In in Ha; apply list_elem_of_In; by apply Ha).
    assert (b ∈ all) as Hb' by (rewrite <- (take_drop (S i) all); apply elem_of_app; by right).
    apply list_elem_of_lookup in Ha' as [ia Ha']. apply list_elem_of_lookup in Hb' as [ib Hb'].
    assert (key a = key b) as Hk by (destruct (lt_total (key a) (key b)) as [?|[?|?]]; [by destruct Hba|done|by destruct Hab]).
    assert (ia = ib) as ->; [|congruence].
    apply (NoDup_lookup (map key all) ia ib (key a)); [done|by rewrite list_lookup_fmap, Ha'|by rewrite list_lookup_fmap, Hb'; cbn; rewrite Hk].
  - apply StronglySorted_merge_sort; apply _.
  - by apply StronglySorted_drop.
  - rewrite merge_sort_Permutation, <- filter_filter, (filter_perm _ _ _ (symmetry Hall)).
    by rewrite (filter_after all i x).
Qed.

End keyset_facts.

(** ** The three orders *)

#[export] Instance id_key_lt_strict : StrictOrder id_key_lt.
Proof. split; [intros [t i]; unfold complement, id_key_lt; cbn; lia|intros [] [] []; unfold id_key_lt; cbn; lia]. Qed.

Lemma id_key_lt_total k1 k2 : id_key_lt k1 k2 \/ k1 = k2 \/ id_key_lt k2 k1.
Proof.
  destruct k1 as [t1 i1], k2 as [t2 i2]. unfold id_key_lt; cbn.
  destruct (Z.lt_trichotomy t1 t2) as [?|[->|?]]; [by left; left| |by right; right; left].
  destruct (Z.lt_trichotomy i1 i2) as [?|[->|?]]; [by left; right|by right; left|by right; right; right].
Qed.

#[export] Instance string_lt_strict : StrictOrder string_lt.
Proof.
  split; [by intros s [_ ?]|]. intros s t u [H1 N1] [H2 N2]. split; [by transitivity t|].
  intros ->. apply N1. by apply (anti_symm string_le).
Qed.

Lemma string_lt_total s t : string_lt s t \/ s = t \/ string_lt t s.
Proof.
  destruct (decide (s = t)) as [->|Hne]; [by right; left|].
  destruct (total string_le s t); [left; by split|right; right; by split].
Qed.

#[export] Instance kline_key_lt_strict : StrictOrder kline_key_lt.
Proof.
  split.
  - intros [[t s] i] [H|(_ & [H|(_ & H)])]; cbn in H; [lia|by destruct H|by destruct H].
  - intros [[t1 s1] i1] [[t2 s2] i2] [[t3 s3] i3]. unfold kline_key_lt; cbn.
    intros [H1|(-> & [H1|(-> & H1)])] [H2|(-> & [H2|(-> & H2)])]; try (left; lia); right; (split; [lia|]).
    + left. by transitivity s2.
    + by left.
    + by left.
    + right. split; [done|]. by transitivity i2.
Qed.

Lemma kline_key_lt_total k1 k2 : kline_key_lt k1 k2 \/ k1 = k2 \/ kline_key_lt k2 k1.
Proof.
  destruct k1 as [[t1 s1] i1], k2 as [[t2 s2] i2]. unfold kline_key_lt; cbn.
  destruct (Z.lt_trichotomy t1 t2) as [?|[->|?]]; [by left; left| |by right; right; left].
  destruct (string_lt_total s1 s2) as [?|[->|?]]; [by left; right; split; [|left]| |by right; right; right; split; [|left]].
  destruct (string_lt_total i1 i2) as [?|[->|?]]; [by left; right; split; [|right]|by right; left|by right; right; right; split; [|right]].
Qed.

(** ** The pages of the three queries *)

(** A page of the rows that match: the first ones in key order, as many as the
    limit allows, with a cursor exactly when some are left. *)
Definition page_of {A K} (key : A -> K) (lt : relation K) (limit : Z) (matching : list A) (r : QueryResult A) : Prop :=
  exists rest, qr_Rows r ++ rest ≡ₚ matching /\ StronglySorted (row_le key lt) (qr_Rows r ++ rest) /\
    Z.of_nat (length (qr_Rows r)) <= limit /\ (qr_NextCursor r = "" <-> rest = []) /\
    (rest <> [] -> Z.of_nat (length (qr_Rows r)) = limit).

(** The rows that are read for a page: one more than the limit, if there are. *)
Definition fetched_for {A K} (key : A -> K) (lt : relation K) (limit : Z) (matching : list A) (fetched : list A) : Prop :=
  exists rest, fetched ++ rest ≡ₚ matching /\ StronglySorted (row_le key lt) (fetched ++ rest) /\
    Z.of_nat (length fetched) <= limit + 1 /\ (rest <> [] -> Z.of_nat (length fetched) = limit + 1).

(** The rows of a table the query asks for. *)
Definition matching {A K} (key : A -> K) (lt : relation K) `{!RelDecision lt} (group : A -> string) (time : A -> time.Time)
    (groupID : string) (from to : time.Time) (after : option K) (table : list A) : list A :=
  List.filter (fun r => (bool_decide (group r = groupID) && in_window from to (time r)) &&
    match after with Some k => bool_decide (lt k (key r)) | None => true end) table.

Lemma validateQueryLimit_bounds limit : 1 <= validateQueryLimit limit <= 1000.
Proof.
  unfold validateQueryLimit, defaultQueryLimit, maxQueryLimit.
  destruct (Z.leb_spec limit 0); [lia|]. destruct (Z.ltb_spec 1000 limit); lia.
Qed.

Lemma validateQueryLimit_eq limit : validateQueryLimit limit = if limit <=? 0 then 200 else Z.min limit 1000.
Proof.
  unfold validateQueryLimit, defaultQueryLimit, maxQueryLimit. destruct (Z.leb_spec limit 0); [done|].
  destruct (Z.ltb_spec 1000 limit); lia.
Qed.

(** Which candles can be read. *)
Lemma quote_volumes (l : list Kline) :
  let scan := fun c => bool_decide (is_Some (nullIfEmpty (kl_QuoteVolume c))) in
  ((exists c, c ∈ l /\ kl_QuoteVolume c = "") -> forallb scan l = false) /\
  ((forall c, c ∈ l -> kl_QuoteVolume c <> "") -> forallb scan l = true).
Proof.
  cbv zeta. unfold nullIfEmpty. split.
  - intros (c & Hc & Hq). apply not_true_is_false. intros H. rewrite forallb_forall in H.
    specialize (H c (proj1 (list_elem_of_In _ _) Hc)). rewrite Hq, (bool_decide_true ("" = "")) in H by done. by apply bool_decide_eq_true in H as [? ?].
  - intros H. apply forallb_forall. intros c Hc. apply bool_decide_eq_true. rewrite bool_decide_false by (by apply H, list_elem_of_In). by eexists.
Qed.

Lemma formatTradeCursor_not_empty off t id : formatTradeCursor off t id <> "".
Proof. unfold formatTradeCursor. rewrite lit_app. apply Format_not_empty. Qed.

Lemma formatKlineCursor_not_empty off t s i : formatKlineCursor off t s i <> "".
Proof. unfold formatKlineCursor. rewrite lit_app. apply Format_not_empty. Qed.

Lemma all_scanned {A} (l : list A) : forallb (fun _ => true) l = true.
Proof. by apply forallb_forall. Qed.

(** (C33) A query answers with a page.  For a cursor that parses, QueryTrades and
    QuerySnapshots return, of the rows of the group in the half-open time window
    whose key comes after the cursor's position, the first ones in key order: at
    most the limit (200 where the given one is 0 or negative, never above 1000), with
    a cursor exactly when rows are left, in which case the page is full.
    QueryKlines returns such a page when all the candles it reads for it, one more
    than the limit if there are, have a quote volume; when one has none it fails.
    A cursor that does not parse is an error of all three. *)
Theorem query_pages off db groupID from to limit cursor :
  let L := if limit <=? 0 then 200 else Z.min limit 1000 in
  (forall k, parseTradeCursor cursor = Ok k ->
     exists r, QueryTrades off Done db groupID from to limit cursor = Ok r /\
       page_of trade_key id_key_lt L
         (matching trade_key id_key_lt tr_GroupID tr_EventTime groupID from to (cursor_key cursor k) (db_trades db)) r) /\
  (forall k, parseSnapshotCursor cursor = Ok k ->
     exists r, QuerySnapshots off Done db groupID from to limit cursor = Ok r /\
       page_of snap_key id_key_lt L
         (matching snap_key id_key_lt os_GroupID os_SnapshotTime groupID from to (cursor_key cursor k) (db_snapshots db)) r) /\
  (forall k, parseKlineCursor cursor = Ok k ->
     let candles := matching candle_key kline_key_lt kl_GroupID kl_OpenTime groupID from to (cursor_key cursor k)
                      (map snd (map_to_list (db_klines db))) in
     exists fetched, fetched_for candle_key kline_key_lt L candles fetched /\
       ((exists c, c ∈ fetched /\ kl_QuoteVolume c = "") -> QueryKlines off Done db groupID from to limit cursor = Err ErrScan) /\
       ((forall c, c ∈ fetched -> kl_QuoteVolume c <> "") ->
          exists r, QueryKlines off Done db groupID from to limit cursor = Ok r /\ page_of candle_key kline_key_lt L candles r)) /\
  (forall e, parseTradeCursor cursor = Err e -> QueryTrades off Done db groupID from to limit cursor = Err e) /\
  (forall e, parseSnapshotCursor cursor = Err e -> QuerySnapshots off Done db groupID from to limit cursor = Err e) /\
  (forall e, parseKlineCursor cursor = Err e -> QueryKlines off Done db groupID from to limit cursor = Err e).
Proof.
  cbv zeta. rewrite <- validateQueryLimit_eq. pose proof (validateQueryLimit_bounds limit) as HL.
  unfold QueryTrades, QueryKlines, QuerySnapshots, page_of, matching. split_and!; [..|by intros e ->|by intros e ->|by intros e ->].
  - intros k Hk. rewrite Hk. cbn [mbind result_bind].
    destruct (run_query_page trade_key id_key_lt id_key_lt_total
      (fun t => bool_decide (tr_GroupID t = groupID) && in_window from to (tr_EventTime t)) (cursor_key cursor k)
      (validateQueryLimit limit) (fun _ => true) (fun t => formatTradeCursor off (tr_EventTime t) (tr_ID t)) (db_trades db))
      as (fetched & rest & Hp & Hs & _ & _ & H); [lia|intros; apply formatTradeCursor_not_empty|].
    rewrite all_scanned in H. destruct H as (r & rest' & Hr & E & H). rewrite E in Hp, Hs. exists r. split; [exact Hr|]. by exists rest'.
  - intros k Hk. rewrite Hk. cbn [mbind result_bind].
    destruct (run_query_page snap_key id_key_lt id_key_lt_total
      (fun s => bool_decide (os_GroupID s = groupID) && in_window from to (os_SnapshotTime s)) (cursor_key cursor k)
      (validateQueryLimit limit) (fun _ => true) (fun s => formatSnapshotCursor off (os_SnapshotTime s) (os_SnapshotID s)) (db_snapshots db))
      as (fetched & rest & Hp & Hs & _ & _ & H); [lia|intros; apply formatTradeCursor_not_empty|].
    rewrite all_scanned in H. destruct H as (r & rest' & Hr & E & H). rewrite E in Hp, Hs. exists r. split; [exact Hr|]. by exists rest'.
  - intros k Hk. rewrite Hk. cbn [mbind result_bind].
    destruct (run_query_page candle_key kline_key_lt kline_key_lt_total
      (fun c => bool_decide (kl_GroupID c = groupID) && in_window from to (kl_OpenTime c)) (cursor_key cursor k)
      (validateQueryLimit limit) (fun c => bool_decide (is_Some (nullIfEmpty (kl_QuoteVolume c))))
      (fun c => formatKlineCursor off (kl_OpenTime c) (kl_Source c) (kl_Interval c)) (map snd (map_to_list (db_klines db))))
      as (fetched & rest & Hp & Hs & Hle & Hfull & H); [lia|intros; apply formatKlineCursor_not_empty|].
    exists fetched. split; [by exists rest|]. pose proof (quote_volumes fetched) as [Hq1 Hq2]. split.
    + intros Hno. by rewrite (Hq1 Hno) in H.
    + intros Hall. rewrite (Hq2 Hall) in H. destruct H as (r & rest' & Hr & E & H). rewrite E in Hp, Hs. exists r. split; [exact Hr|]. by exists rest'.
Qed.

(** ** Following the cursors *)

(** A client that asks for page after page. *)
Fixpoint walk (fuel : nat) (off : Z) (db : DB) (groupID : string) (from to limit : Z) (cursor : string)
    : list (list Trade) :=
  match fuel with
  | O => []
  | S f =>
      match QueryTrades off Done db groupID from to limit cursor with
      | Err _ => []
      | Ok r => qr_Rows r :: (if bool_decide (qr_NextCursor r = "") then []
                              else walk f off db groupID from to limit (qr_NextCursor r))
      end
  end.

(** A list cut in pages of [n], dropping one element between two pages. *)
Fixpoint pages_of {A} (fuel : nat) (n : nat) (l : list A) : list (list A) :=
  match fuel with
  | O => []
  | S f => take n l :: (if Nat.leb (length l) n then [] else pages_of f n (drop (S n) l))
  end.

Definition all_trades (db : DB) (groupID : string) (from to : time.Time) : list Trade :=
  merge_sort (row_le trade_key id_key_lt)
    (List.filter (fun t => bool_decide (tr_GroupID t = groupID) && in_window from to (tr_EventTime t)) (db_trades db)).

(** What a cursor leaves to be read. *)
Definition remaining (db : DB) (groupID : string) (from to : time.Time) (cursor : string) (rem : list Trade) : Prop :=
  exists k, parseTradeCursor cursor = Ok k /\
    merge_sort (row_le trade_key id_key_lt)
      (List.filter (fun t => (bool_decide (tr_GroupID t = groupID) && in_window from to (tr_EventTime t)) &&
         match cursor_key cursor k with Some k => bool_decide (id_key_lt k (trade_key t)) | None => true end) (db_trades db)) = rem.

Lemma cut_take {A} (n : nat) fmt (rem : list A) :
  cut_page (Z.of_nat n) fmt (take (Z.to_nat (Z.of_nat n + 1)) rem)
  = mkQueryResult (take n rem) (match rem !! n with Some x => fmt x | None => "" end).
Proof.
  unfold cut_page. rewrite Nat2Z.id. replace (Z.to_nat (Z.of_nat n + 1)) with (S n) by lia.
  rewrite lookup_take_lt by lia. destruct (rem !! n) as [x|] eqn:E.
  - rewrite take_take. by replace (n `min` S n)%nat with n by lia.
  - apply lookup_ge_None in E. by rewrite !take_ge by lia.
Qed.

Lemma QueryTrades_remaining off db g from to limit cursor rem :
  remaining db g from to cursor rem ->
  let n := Z.to_nat (validateQueryLimit limit) in
  QueryTrades off Done db g from to limit cursor
  = Ok (mkQueryResult (take n rem)
      (match rem !! n with Some t => formatTradeCursor off (tr_EventTime t) (tr_ID t) | None => "" end)).
Proof.
  intros (k & Hk & Hrem). cbv zeta. pose proof (validateQueryLimit_bounds limit) as HL.
  set (n := Z.to_nat _). assert (validateQueryLimit limit = Z.of_nat n) as Hn by (unfold n; lia).
  unfold QueryTrades. rewrite Hk, Hn. cbn [mbind result_bind]. unfold run_query, select_page.
  rewrite Hrem. cbv zeta. assert (forall l : list Trade, forallb (fun _ => true) l = true) as -> by (intros l; by apply forallb_forall).
  by rewrite cut_take.
Qed.

Lemma all_trades_keys db g from to : db_wf db -> NoDup (map trade_key (all_trades db g from to)).
Proof.
  intros Hwf. unfold all_trades. rewrite merge_sort_Permutation.
  assert (NoDup (map tr_ID (db_trades db))) as Hid.
  { pose proof (wf_trade_ids db Hwf) as Hs. induction Hs as [|a l Hs IH Ha]; [constructor|].
    constructor; [|done]. rewrite Forall_forall in Ha. intros Hin. specialize (Ha a Hin). lia. }
  induction (db_trades db) as [|t ts IH]; cbn; [constructor|]. cbn in Hid. apply NoDup_cons in Hid as [Hn Hid].
  destruct (_ && _); [|by apply IH]. cbn. constructor; [|by apply IH].
  intros Hin. apply Hn. apply list_elem_of_In, in_map_iff in Hin as (u & Hu & Hin). apply filter_In in Hin as [Hin _].
  unfold trade_key in Hu. injection Hu as _ Hu. rewrite <- Hu. apply list_elem_of_fmap_2. by apply list_elem_of_In.
Qed.

(** The cursor made from a row leaves what follows it. *)
Lemma remaining_after off db g from to i t :
  db_wf db -> all_trades db g from to !! i = Some t -> printable off (tr_EventTime t) -> int64 (tr_ID t) ->
  remaining db g from to (formatTradeCursor off (tr_EventTime t) (tr_ID t)) (drop (S i) (all_trades db g from to)).
Proof.
  intros Hwf Hi Hp Hid. exists (tr_EventTime t, tr_ID t). split; [by apply parse_format_trade|].
  unfold cursor_key. rewrite bool_decide_false by apply formatTradeCursor_not_empty.
  apply (sorted_after trade_key id_key_lt id_key_lt_total); [by apply all_trades_keys|exact Hi].
Qed.

Lemma walk_pages fuel off db g from to limit cursor j :
  db_wf db -> Forall (fun t => printable off (tr_EventTime t) /\ int64 (tr_ID t)) (all_trades db g from to) ->
  remaining db g from to cursor (drop j (all_trades db g from to)) ->
  walk fuel off db g from to limit cursor
  = pages_of fuel (Z.to_nat (validateQueryLimit limit)) (drop j (all_trades db g from to)).
Proof.
  intros Hwf Hok. rewrite Forall_lookup in Hok. revert cursor j.
  induction fuel as [|f IH]; intros cursor j Hrem; cbn [walk pages_of]; [done|].
  rewrite (QueryTrades_remaining off _ _ _ _ _ _ _ Hrem). cbn [qr_Rows qr_NextCursor].
  set (n := Z.to_nat _). set (all := all_trades db g from to) in *. f_equal.
  destruct (drop j all !! n) as [t|] eqn:E.
  - rewrite bool_decide_false by apply formatTradeCursor_not_empty.
    pose proof (lookup_lt_Some _ _ _ E) as Hlen. rewrite (proj2 (Nat.leb_gt _ _)) by done.
    rewrite lookup_drop in E. destruct (Hok _ _ E) as [Hp Hid].
    rewrite (IH _ (S (j + n))); [by rewrite drop_drop, Nat.add_succ_r|]. by apply remaining_after.
  - apply lookup_ge_None in E. by rewrite bool_decide_true, (proj2 (Nat.leb_le _ _)) by done.
Qed.

(** (C34) Paging through a table.  On a store that keeps its keys, a client that
    follows the cursors from the first page reads the matching rows in key order,
    in pages of the limit, except that the row after each full page is in none:
    the cursor is that row, and the next page starts strictly after it.  In
    particular, a table with more rows than the limit is never read completely. *)
Theorem paging_skips_rows off db groupID from to limit :
  db_wf db ->
  let all := all_trades db groupID from to in
  let n := Z.to_nat (validateQueryLimit limit) in
  let pages := walk (S (length all)) off db groupID from to limit "" in
  Forall (fun t => printable off (tr_EventTime t) /\ int64 (tr_ID t)) all ->
  pages = pages_of (S (length all)) n all /\
  (forall t, all !! n = Some t -> t ∉ concat pages) /\
  (Z.of_nat (length all) <= validateQueryLimit limit -> pages = [all]).
Proof.
  intros Hwf all n pages Hok. pose proof (validateQueryLimit_bounds limit) as HL.
  assert (pages = pages_of (S (length all)) n all) as Hpages.
  { unfold pages. rewrite (walk_pages _ _ _ _ _ _ _ _ 0); [done..|]. exists (time.zero, 0). split; [done|].
    cbn [cursor_key bool_decide decide_rel]. rewrite drop_0. unfold all_trades. f_equal.
    assert (cursor_key "" (time.zero, 0) = None) as -> by done.
    induction (db_trades db) as [|t ts IH]; cbn; [done|]. rewrite andb_true_r. destruct (_ && _); by rewrite IH. }
  split_and!; [done| |].
  - intros t Ht. rewrite Hpages. cbn [pages_of concat]. pose proof (lookup_lt_Some _ _ _ Ht) as Hlen.
    rewrite (proj2 (Nat.leb_gt _ _)) by done. pose proof (all_trades_keys db groupID from to Hwf) as Hnd. fold all in Hnd.
    apply NoDup_fmap_1 in Hnd. rewrite <- (take_drop_middle all n t Ht) in Hnd.
    apply NoDup_app in Hnd as (_ & Hd & Hnd). apply NoDup_cons in Hnd as [Hnd _]. intros [Hin|Hin]%elem_of_app.
    + apply (Hd t Hin). by left.
    + apply Hnd. clear -Hin. revert Hin. generalize (drop (S n) all) (length all). intros l f. revert l.
      induction f as [|f IH]; intros l; cbn; [by intros ?%elem_of_nil|]. intros [Hin|Hin]%elem_of_app.
      * rewrite <- (take_drop n l). apply elem_of_app. by left.
      * destruct (Nat.leb (length l) n); [by apply elem_of_nil in Hin|]. apply IH in Hin.
        rewrite <- (take_drop (S n) l). apply elem_of_app. by right.
  - intros Hle. rewrite Hpages. cbn [pages_of]. rewrite (proj2 (Nat.leb_le _ _)) by (unfold n; lia).
    by rewrite take_ge by (unfold n; lia).
Qed.

(** Three trades of one group, read two at a time: the first page has a cursor,
    and the page after it is empty. *)
Definition sample_fact (off : Z) : Trade :=
  mkTrade 0 "g" "i" (1700000000000000000 + off) None None "" "" "1" "2" "buy" false "t" 0 off 1 0.

Definition queried_db : DB := fst (WriteTrades Done 5 emptyDB [sample_fact 1; sample_fact 2; sample_fact 3]).

Lemma paging_skips_rows_witness :
  map (map tr_ID) (walk 4 0 queried_db "g" 0 1800000000000000000 2 "") = [[1; 2]; []] /\
  length (db_trades queried_db) = 3%nat /\
  (forall t, all_trades queried_db "g" 0 1800000000000000000 !! 2%nat = Some t ->
     t ∉ concat (walk 4 0 queried_db "g" 0 1800000000000000000 2 "")).
Proof.
  split; [vm_compute; reflexivity|]. split; [vm_compute; reflexivity|].
  assert (db_wf queried_db) as Hwf by (eapply db_step_wf; [apply dbs_trades|apply db_wf_empty]).
  assert (walk (S (length (all_trades queried_db "g" 0 1800000000000000000))) 0 queried_db "g" 0 1800000000000000000 2 ""
          = walk 4 0 queried_db "g" 0 1800000000000000000 2 "") as Heq by (vm_compute; reflexivity).
  assert (Z.to_nat (validateQueryLimit 2) = 2%nat) as Hn by reflexivity.
  destruct (paging_skips_rows 0 queried_db "g" 0 1800000000000000000 2 Hwf) as (_ & H & _).
  - apply (bool_decide_eq_true_1 _). vm_compute. reflexivity.
  - rewrite Heq, Hn in H. exact H.
Defined.

Lemma query_pages_witness :
  exists r, QueryTrades 0 Done queried_db "g" 0 1800000000000000000 2 "2023-11-14T22:13:20.000000001Z|1" = Ok r /\
    page_of trade_key id_key_lt 2
      (matching trade_key id_key_lt tr_GroupID tr_EventTime "g" 0 1800000000000000000
         (Some (1700000000000000001, 1)) (db_trades queried_db)) r.
Proof.
  apply (proj1 (query_pages 0 queried_db "g" 0 1800000000000000000 2 "2023-11-14T22:13:20.000000001Z|1")
           (1700000000000000001, 1)).
  vm_compute. reflexivity.
Defined.
