(* ===== verification/Api.v ===== *)
(** * The control-plane API

    internal/api/api.go and dto.go over Metadata.v and Query.v: routing, request
    validation, handlers and responses.  A handler is a function of the metadata
    tables and of what the metadata server answers to each of its calls (an
    outcome and a server time per call; when the list is used up, every further
    call succeeds at the request's own time).  JSON and URL syntax is the standard
    library's: a request carries its decoded body, its path segments and its
    query parameters; a response is a status and a body value. *)

From S2P Require Import Prelude GoStd Rfc3339 Model Metadata MetadataWf Storage Query.

Open Scope Z_scope.

(** ** Payloads (dto.go) *)

Record inputRequest := mkInputRequest {
  ir_StreamKey : string;
  ir_StreamKind : string;
  ir_Interval : string;
  ir_KafkaTopic : string;
  ir_KafkaGroupID : string;
  ir_KafkaCluster : string;
  ir_DesiredStatus : string
}.

Record createGroupRequest := mkCreateGroupRequest {
  cg_Exchange : string;
  cg_MarketType : string;
  cg_Symbol : string;
  cg_BaseAsset : string;
  cg_QuoteAsset : string;
  cg_Weight : Z;
  cg_DesiredStatus : string;
  cg_Inputs : list inputRequest
}.

Inductive api_error :=
| ErrBody (e : string)
| ErrTrailing
| ErrFieldsRequired
| ErrMarketType (v : string)
| ErrDesiredStatus (v : string)
| ErrTopicRequired
| ErrStreamKind (v : string)
| ErrKey (e : streamkey_error)
| ErrKeyMismatch (got want : string)
| ErrIntervalMismatch (interval key : string)
| ErrStreamRequired
| ErrGroupRequired
| ErrRangeRequired
| ErrLimit
| ErrFrom (e : parse_error)
| ErrTo (e : parse_error)
| ErrEmptyRange
| ErrStore (e : meta_error).

(** The switch of [toModel]: kind, interval, key. *)
Definition request_stream (r : inputRequest) : result api_error (string * string * string) :=
  if negb (bool_decide (ir_StreamKind r = "")) then
    if negb (IsValidStreamKind (ir_StreamKind r)) then Err (ErrStreamKind (ir_StreamKind r))
    else match StreamKeyFor (ir_StreamKind r) (ir_Interval r) with
         | Err e => Err (ErrKey e)
         | Ok key =>
             if negb (bool_decide (ir_StreamKey r = "")) && negb (bool_decide (ir_StreamKey r = key))
             then Err (ErrKeyMismatch (ir_StreamKey r) key)
             else Ok (ir_StreamKind r, ir_Interval r, key)
         end
  else if negb (bool_decide (ir_StreamKey r = "")) then
    match ParseStreamKey (ir_StreamKey r) with
    | Err e => Err (ErrKey e)
    | Ok (k, iv) =>
        if negb (bool_decide (ir_Interval r = "")) && negb (bool_decide (ir_Interval r = iv))
        then Err (ErrIntervalMismatch (ir_Interval r) (ir_StreamKey r))
        else Ok (k, iv, ir_StreamKey r)
    end
  else Err ErrStreamRequired.

Definition toModel (r : inputRequest) : result api_error GroupInput :=
  if bool_decide (ir_KafkaTopic r = "") then Err ErrTopicRequired
  else if negb (bool_decide (ir_DesiredStatus r = "")) && negb (IsValidDesiredStatus (ir_DesiredStatus r))
  then Err (ErrDesiredStatus (ir_DesiredStatus r))
  else
    '(kind, interval, streamKey) ← request_stream r;
    Ok {| gi_InputID := ""; gi_GroupID := ""; gi_StreamKey := streamKey; gi_StreamKind := kind;
          gi_Interval := interval; gi_Enabled := true; gi_KafkaCluster := ir_KafkaCluster r;
          gi_KafkaTopic := ir_KafkaTopic r; gi_KafkaGroupID := ir_KafkaGroupID r;
          gi_DesiredStatus := ir_DesiredStatus r; gi_SchemaVersion := 0;
          gi_CreatedAt := time.zero; gi_UpdatedAt := time.zero |}.

Record leaseResponse := mkLeaseResponse {
  lr_NodeID : string;
  lr_LeaseExpiresAt : time.Time;
  lr_Version : Z;
  lr_Active : bool
}.

Record runtimeStatusResponse := mkRuntimeStatusResponse {
  rr_ActualStatus : string;
  rr_NodeID : string;
  rr_KafkaLag : option Z;
  rr_CommittedOffset : option Z;
  rr_LastError : string;
  rr_UpdatedAt : option time.Time
}.

Record inputResponse := mkInputResponse {
  ip_InputID : string;
  ip_StreamKey : string;
  ip_StreamKind : string;
  ip_Interval : string;
  ip_KafkaTopic : string;
  ip_KafkaGroupID : string;
  ip_DesiredStatus : string;
  ip_Runtime : option runtimeStatusResponse
}.

Record groupResponse := mkGroupResponse {
  gr_GroupID : string;
  gr_Exchange : string;
  gr_MarketType : string;
  gr_Symbol : string;
  gr_BaseAsset : string;
  gr_QuoteAsset : string;
  gr_DesiredStatus : string;
  gr_Weight : Z;
  gr_Lease : option leaseResponse;
  gr_Inputs : list inputResponse;
  gr_CreatedAt : time.Time;
  gr_UpdatedAt : time.Time
}.

Definition newGroupSummary (g : MarketGroup) : groupResponse :=
  mkGroupResponse (mg_GroupID g) (mg_Exchange g) (mg_MarketType g) (mg_Symbol g) (mg_BaseAsset g)
    (mg_QuoteAsset g) (mg_DesiredStatus g) (mg_Weight g) None [] (mg_CreatedAt g) (mg_UpdatedAt g).

Definition newLeaseResponse (l : option GroupLease) (now : time.Time) : option leaseResponse :=
  match l with
  | None => None
  | Some l => Some (mkLeaseResponse (gl_NodeID l) (gl_LeaseExpiresAt l) (gl_Version l)
                      (time.After (gl_LeaseExpiresAt l) now))
  end.

Definition newInputResponse (i : GroupInput) (st : option StreamRuntimeStatus) : inputResponse :=
  mkInputResponse (gi_InputID i) (gi_StreamKey i) (gi_StreamKind i) (gi_Interval i) (gi_KafkaTopic i)
    (gi_KafkaGroupID i) (gi_DesiredStatus i)
    (Some match st with
          | None => mkRuntimeStatusResponse ActualStatusPending "" None None "" None
          | Some st => mkRuntimeStatusResponse (rs_ActualStatus st) (rs_NodeID st) (rs_KafkaLag st)
                         (rs_CommittedOffset st) (rs_LastError st) (Some (rs_UpdatedAt st))
          end).

(** ** Requests and responses *)

(** What the JSON decoder made of a body, and whether text was left. *)
Record json_body (A : Type) := mkJsonBody { jb_value : result string A; jb_more : bool }.
Arguments mkJsonBody {A} _ _.
Arguments jb_value {A} _.
Arguments jb_more {A} _.

Definition decodeJSON {A} (b : json_body A) : result api_error A :=
  match jb_value b with
  | Err e => Err (ErrBody e)
  | Ok v => if jb_more b then Err ErrTrailing else Ok v
  end.

Record request := mkRequest {
  rq_method : string;
  rq_path : list string;                       (* non-empty, unescaped segments *)
  rq_query : string -> string;                 (* URL.Query().Get *)
  rq_group : json_body createGroupRequest;     (* the body, read as the one payload *)
  rq_input : json_body inputRequest            (* or as the other *)
}.

Inductive query_rows :=
| RTrades (rows : list Trade)
| RKlines (rows : list Kline)
| RSnapshots (rows : list OrderBookSnapshot).

Inductive response_body :=
| BGroup (g : groupResponse)
| BGroups (l : list groupResponse)
| BInput (i : inputResponse)
| BInputs (l : list inputResponse)
| BFields (l : list (string * string))
| BQuery (rows : query_rows) (next_cursor : string)
| BError (e : api_error)
| BInternal                                    (* "internal error" *)
| BNone.                                       (* written by the router *)

Record response := mkResponse { rp_status : Z; rp_body : response_body }.

Definition StatusOK : Z := 200.
Definition StatusCreated : Z := 201.
Definition StatusBadRequest : Z := 400.
Definition StatusNotFound : Z := 404.
Definition StatusMethodNotAllowed : Z := 405.
Definition StatusConflict : Z := 409.
Definition StatusInternalServerError : Z := 500.

(** ** Calls of the store *)

Definition hstate : Type := MetaDB * list (outcome * time.Time).

(** A handler in progress: it ends with a response. *)
Definition handler : Type := hstate -> response * hstate.

Definition reply (status : Z) (b : response_body) : handler := fun s => (mkResponse status b, s).

Definition badRequest (e : api_error) : handler := reply StatusBadRequest (BError e).

Definition writeStoreError (e : meta_error) : handler :=
  match e with
  | ErrConflict => reply StatusConflict (BError (ErrStore e))
  | ErrNotFound => reply StatusNotFound (BError (ErrStore e))
  | _ => reply StatusInternalServerError BInternal
  end.

(** [if err != nil { badRequest(w, err); return }] *)
Definition or_bad_request {A} (r : result api_error A) (k : A -> handler) : handler :=
  match r with
  | Err e => badRequest e
  | Ok a => k a
  end.

Section server.

(** Are the metadata store and the query store configured, the request's own
    time, the zone cursors are printed in, the fact tables, and the answers of
    the query server. *)
Variables (store query_store : bool) (now : time.Time) (off : Z) (facts : DB) (fact_out : outcome).

Definition next_call (s : hstate) : outcome * time.Time * hstate :=
  match s.2 with
  | [] => (Done, now, s)
  | (out, t) :: env => (out, t, (s.1, env))
  end.

(** A call of a store method: [if err != nil { s.writeStoreError(w, err); return }]. *)
Definition store_read {A} (f : outcome -> MetaDB -> result meta_error A) (k : A -> handler) : handler := fun s =>
  let '(out, _, s') := next_call s in
  match f out s'.1 with
  | Err e => writeStoreError e s'
  | Ok a => k a s'
  end.

Definition store_write (f : outcome -> time.Time -> MetaDB -> MetaDB * result meta_error ()) (k : handler) : handler := fun s =>
  let '(out, t, s') := next_call s in
  let '(db', r) := f out t s'.1 in
  match r with
  | Err e => writeStoreError e (db', s'.2)
  | Ok _ => k (db', s'.2)
  end.

Definition statusMap (groupID : string) (k : gmap string StreamRuntimeStatus -> handler) : handler :=
  store_read (fun out db => ListStreamRuntimeStatus out db groupID) (fun statuses =>
    k (foldl (fun m st => <[rs_InputID st := st]> m) ∅ statuses)).

Definition lookupStatus (m : gmap string StreamRuntimeStatus) (inputID : string) : option StreamRuntimeStatus := m !! inputID.

(** The responses of a list of inputs. *)
Definition input_responses (m : gmap string StreamRuntimeStatus) (inputs : list GroupInput) : list inputResponse :=
  map (fun i => newInputResponse i (lookupStatus m (gi_InputID i))) inputs.

Definition with_details (g : groupResponse) (l : option leaseResponse) (inputs : list inputResponse) : groupResponse :=
  mkGroupResponse (gr_GroupID g) (gr_Exchange g) (gr_MarketType g) (gr_Symbol g) (gr_BaseAsset g) (gr_QuoteAsset g)
    (gr_DesiredStatus g) (gr_Weight g) l inputs (gr_CreatedAt g) (gr_UpdatedAt g).

Definition aggregateGroup (groupID : string) (k : groupResponse -> handler) : handler :=
  store_read (fun out db => GetGroup out db groupID) (fun g =>
  store_read (fun out db => ListGroupInputs out db groupID) (fun inputs =>
  store_read (fun out db => GetGroupLease out db groupID) (fun lease =>
  statusMap groupID (fun m =>
    k (with_details (newGroupSummary g) (newLeaseResponse lease now) (input_responses m inputs)))))).

(** ** Group handlers *)

Definition request_group (req : createGroupRequest) (inputs : list GroupInput) : MarketGroup :=
  {| mg_GroupID := ""; mg_Exchange := cg_Exchange req; mg_MarketType := cg_MarketType req;
     mg_Symbol := cg_Symbol req; mg_BaseAsset := cg_BaseAsset req; mg_QuoteAsset := cg_QuoteAsset req;
     mg_DesiredStatus := cg_DesiredStatus req; mg_Weight := cg_Weight req; mg_Inputs := inputs;
     mg_CreatedAt := time.zero; mg_UpdatedAt := time.zero |}.

(** The checks of [handleCreateGroup], and the group they let through. *)
Definition check_create (req : createGroupRequest) : result api_error MarketGroup :=
  if bool_decide (cg_Exchange req = "") || bool_decide (cg_MarketType req = "") || bool_decide (cg_Symbol req = "")
  then Err ErrFieldsRequired
  else if negb (IsValidMarketType (cg_MarketType req)) then Err (ErrMarketType (cg_MarketType req))
  else if negb (bool_decide (cg_DesiredStatus req = "")) && negb (IsValidDesiredStatus (cg_DesiredStatus req))
  then Err (ErrDesiredStatus (cg_DesiredStatus req))
  else inputs ← result_mapM toModel (cg_Inputs req); Ok (request_group req inputs).

Definition handleCreateGroup (body : json_body createGroupRequest) : handler :=
  or_bad_request (decodeJSON body) (fun req =>
  or_bad_request (check_create req) (fun g =>
  store_write (fun out t db => CreateGroup out t db g)
    (aggregateGroup (NewGroupID (cg_Exchange req) (cg_MarketType req) (cg_Symbol req))
      (fun resp => reply StatusCreated (BGroup resp))))).

Definition handleListGroups : handler :=
  store_read (fun out db => ListGroups out db) (fun groups => reply StatusOK (BGroups (map newGroupSummary groups))).

Definition handleGetGroup (gid : string) : handler :=
  aggregateGroup gid (fun resp => reply StatusOK (BGroup resp)).

Definition setGroupStatus (gid status : string) : handler :=
  store_write (fun out t db => UpdateGroupDesiredStatus out t db gid status)
    (aggregateGroup gid (fun resp => reply StatusOK (BGroup resp))).

Definition handlePauseGroup (gid : string) : handler := setGroupStatus gid DesiredStatusPaused.
Definition handleResumeGroup (gid : string) : handler := setGroupStatus gid DesiredStatusRunning.
Definition handleDisableGroup (gid : string) : handler := setGroupStatus gid DesiredStatusDisabled.

Definition handleDeleteGroup (gid : string) : handler :=
  store_write (fun out _ db => DeleteGroup out db gid)
    (reply StatusOK (BFields [("group_id", gid); ("status", "deleted")])).

(** ** Input handlers *)

Definition handleCreateInput (gid : string) (body : json_body inputRequest) : handler :=
  or_bad_request (decodeJSON body) (fun req =>
  or_bad_request (toModel req) (fun inp =>
  store_write (fun out t db => AddInputs out t db gid [inp])
    (store_read (fun out db => ListGroupInputs out db gid) (fun inputs =>
      match List.find (fun stored => bool_decide (gi_StreamKey stored = gi_StreamKey inp)) inputs with
      | Some stored => reply StatusCreated (BInput (newInputResponse stored None))
      | None => reply StatusCreated (BInput (newInputResponse inp None))
      end)))).

Definition handleListInputs (gid : string) : handler :=
  store_read (fun out db => GetGroup out db gid) (fun _ =>
  store_read (fun out db => ListGroupInputs out db gid) (fun inputs =>
  statusMap gid (fun m => reply StatusOK (BInputs (input_responses m inputs))))).

Definition setInputStatus (gid streamKey status : string) : handler :=
  store_write (fun out t db => UpdateInputDesiredStatus out t db gid streamKey status)
    (reply StatusOK (BFields [("group_id", gid); ("stream_key", streamKey); ("desired_status", status)])).

Definition handlePauseInput (gid streamKey : string) : handler := setInputStatus gid streamKey DesiredStatusPaused.
Definition handleResumeInput (gid streamKey : string) : handler := setInputStatus gid streamKey DesiredStatusRunning.

(** ** Query handlers *)

Record queryRequest := mkQueryRequest { qp_From : string; qp_To : string; qp_Limit : Z; qp_Cursor : string }.

Definition parseQueryParams (q : string -> string) : result api_error queryRequest :=
  if bool_decide (q "from" = "") || bool_decide (q "to" = "") then Err ErrRangeRequired
  else if bool_decide (q "limit" = "") then Ok (mkQueryRequest (q "from") (q "to") 0 (q "cursor"))
  else match strconv.Atoi (q "limit") with
       | Some v => if (v <? 0) then Err ErrLimit else Ok (mkQueryRequest (q "from") (q "to") v (q "cursor"))
       | None => Err ErrLimit
       end.

(** [time.Parse] with [time.RFC3339] accepts what it accepts with
    [time.RFC3339Nano]. *)
Definition parseTimeRange (from to : string) : result api_error (time.Time * time.Time) :=
  match Parse from with
  | Err e => Err (ErrFrom e)
  | Ok f => match Parse to with
            | Err e => Err (ErrTo e)
            | Ok t => if negb (time.After t f) then Err ErrEmptyRange else Ok (f, t)
            end
  end.

(** The three closures: rows and cursor, or an error. *)
Definition query_fn : Type := string -> time.Time -> time.Time -> Z -> string -> option (query_rows * string).

Definition page {A} (wrap : list A -> query_rows) (r : result query_error (QueryResult A)) : option (query_rows * string) :=
  if query_store then
    match r with
    | Ok q => Some (wrap (qr_Rows q), qr_NextCursor q)
    | Err _ => None
    end
  else None.

Definition trades_fn : query_fn := fun gid from to limit cursor =>
  page RTrades (QueryTrades off fact_out facts gid from to limit cursor).
Definition klines_fn : query_fn := fun gid from to limit cursor =>
  page RKlines (QueryKlines off fact_out facts gid from to limit cursor).
Definition snapshots_fn : query_fn := fun gid from to limit cursor =>
  page RSnapshots (QuerySnapshots off fact_out facts gid from to limit cursor).

(** The end of [handleQuery]: any error of the query is an internal one. *)
Definition answer_query (r : option (query_rows * string)) : handler :=
  match r with
  | None => reply StatusInternalServerError BInternal
  | Some (rows, next) => reply StatusOK (BQuery rows next)
  end.

Definition handleQuery (gid : string) (q : string -> string) (fn : query_fn) : handler :=
  if bool_decide (gid = "") then badRequest ErrGroupRequired
  else
    or_bad_request (parseQueryParams q) (fun params =>
    or_bad_request (parseTimeRange (qp_From params) (qp_To params)) (fun '(from, to) =>
      let run := answer_query (fn gid from to (qp_Limit params) (qp_Cursor params)) in
      if store then store_read (fun out db => GetGroup out db gid) (fun _ => run) else run)).

Definition handleQueryTrades (gid : string) (q : string -> string) : handler := handleQuery gid q trades_fn.
Definition handleQueryKlines (gid : string) (q : string -> string) : handler := handleQuery gid q klines_fn.
Definition handleQuerySnapshots (gid : string) (q : string -> string) : handler := handleQuery gid q snapshots_fn.

(** ** Routing *)

(** The handlers of a path, by method; a GET pattern also serves HEAD. *)
Definition routes (r : request) : list (string * handler) :=
  match rq_path r with
  | [p] =>
      if bool_decide (p = "groups") then [("POST", handleCreateGroup (rq_group r)); ("GET", handleListGroups)] else []
  | [p; gid] =>
      if bool_decide (p = "groups") then [("GET", handleGetGroup gid); ("DELETE", handleDeleteGroup gid)] else []
  | [p; gid; s] =>
      if bool_decide (p = "groups") then
        if bool_decide (s = "pause") then [("POST", handlePauseGroup gid)]
        else if bool_decide (s = "resume") then [("POST", handleResumeGroup gid)]
        else if bool_decide (s = "disable") then [("POST", handleDisableGroup gid)]
        else if bool_decide (s = "inputs") then [("POST", handleCreateInput gid (rq_input r)); ("GET", handleListInputs gid)]
        else []
      else if bool_decide (p = "markets") then
        if bool_decide (s = "trades") then [("GET", handleQueryTrades gid (rq_query r))]
        else if bool_decide (s = "klines") then [("GET", handleQueryKlines gid (rq_query r))]
        else []
      else []
  | [p; gid; s; t] =>
      if bool_decide (p = "markets") && bool_decide (s = "orderbook") && bool_decide (t = "snapshots")
      then [("GET", handleQuerySnapshots gid (rq_query r))] else []
  | [p; gid; s; key; t] =>
      if bool_decide (p = "groups") && bool_decide (s = "inputs") then
        if bool_decide (t = "pause") then [("POST", handlePauseInput gid key)]
        else if bool_decide (t = "resume") then [("POST", handleResumeInput gid key)]
        else []
      else []
  | _ => []
  end.

Definition Handler (r : request) : handler :=
  match routes r with
  | [] => reply StatusNotFound BNone
  | rs =>
      let m := if bool_decide (rq_method r = "HEAD") then "GET" else rq_method r in
      match List.find (fun mh => bool_decide (mh.1 = m)) rs with
      | Some (_, h) => h
      | None => reply StatusMethodNotAllowed BNone
      end
  end.

End server.

(** ** The two validations of an input agree *)

(** A request's fields as the store would take them unchecked. *)
Definition raw_input (r : inputRequest) : GroupInput :=
  mkGroupInput "" "" (ir_StreamKey r) (ir_StreamKind r) (ir_Interval r) true (ir_KafkaCluster r) (ir_KafkaTopic r)
    (ir_KafkaGroupID r) (ir_DesiredStatus r) 0 time.zero time.zero.

Lemma request_stream_normalize r :
  match request_stream r with
  | Ok (kind, interval, key) => normalize_stream (raw_input r) = Ok (kind, key, interval)
  | Err _ => is_ok (normalize_stream (raw_input r)) = false
  end.
Proof.
  unfold request_stream, normalize_stream, raw_input. cbn [gi_StreamKind gi_StreamKey gi_Interval].
  destruct (negb (bool_decide (ir_StreamKind r = ""))).
  - destruct (negb (IsValidStreamKind _)); [done|]. destruct (StreamKeyFor _ _); [|done]. by destruct (_ && _).
  - destruct (negb _); [|done]. destruct (ParseStreamKey _) as [[k iv]|]; [|done]. by destruct (_ && _).
Qed.

(** What [toModel] returns, field by field. *)
Lemma toModel_Ok r i :
  toModel r = Ok i ->
  exists kind interval key, request_stream r = Ok (kind, interval, key) /\
    ir_KafkaTopic r <> "" /\ (ir_DesiredStatus r = "" \/ IsValidDesiredStatus (ir_DesiredStatus r) = true) /\
    i = mkGroupInput "" "" key kind interval true (ir_KafkaCluster r) (ir_KafkaTopic r) (ir_KafkaGroupID r)
          (ir_DesiredStatus r) 0 time.zero time.zero.
Proof.
  unfold toModel. case_bool_decide as Ht; [done|]. destruct (negb _ && _) eqn:Ed; [done|].
  intros ([[kind interval] key] & Hs & [= <-])%bind_Ok. exists kind, interval, key. split_and!; try done.
  bool_to_prop. destruct Ed as [Ed|Ed]; apply negb_false_iff in Ed; [left; by apply bool_decide_eq_true in Ed|by right].
Qed.

(** A stream triple that derives its key normalises to itself. *)
Lemma normalize_stream_fixed kind interval key i :
  StreamKeyFor kind interval = Ok key -> gi_StreamKind i = kind -> gi_Interval i = interval -> gi_StreamKey i = key ->
  normalize_stream i = Ok (kind, key, interval).
Proof.
  intros Hs Hk Hi Hkey. destruct (StreamKeyFor_shape _ _ _ Hs) as (Hv & Hne & Hkne & _). unfold normalize_stream.
  rewrite Hk, Hi, Hkey, Hv, Hs. rewrite !bool_decide_false, bool_decide_true by done. done.
Qed.

Lemma normalizeInput_is_ok g i :
  is_ok (normalizeInput g i) =
  is_ok (normalize_stream i) && negb (bool_decide (gi_KafkaTopic i = "")) &&
  (bool_decide (gi_DesiredStatus i = "") || IsValidDesiredStatus (gi_DesiredStatus i)).
Proof.
  unfold normalizeInput. destruct (normalize_stream i) as [[[kind key] interval]|e]; [|done]. cbn.
  case_bool_decide; [done|]. cbn. case_bool_decide; cbn; [done|]. by destruct (IsValidDesiredStatus _).
Qed.

Lemma toModel_normalizes g r i :
  toModel r = Ok i ->
  exists n, normalizeInput g i = Ok n /\ input_ok g n /\
    gi_StreamKey n = gi_StreamKey i /\ gi_StreamKind n = gi_StreamKind i /\ gi_Interval n = gi_Interval i.
Proof.
  intros (kind & interval & key & Hs & Ht & Hd & ->)%toModel_Ok.
  pose proof (request_stream_normalize r) as Hn. rewrite Hs in Hn. apply normalize_stream_Ok in Hn.
  set (i := mkGroupInput _ _ _ _ _ _ _ _ _ _ _ _ _).
  pose proof (normalize_stream_fixed kind interval key i Hn eq_refl eq_refl eq_refl) as Hf.
  destruct (normalizeInput g i) as [n|e] eqn:E.
  - exists n. split; [done|]. split; [by apply normalizeInput_Ok in E as [? _]|].
    unfold normalizeInput in E. rewrite Hf in E. cbn in E. repeat case_match; simplify_eq. done.
  - exfalso. pose proof (normalizeInput_is_ok g i) as H. rewrite E, Hf in H. cbn in H.
    rewrite bool_decide_false in H by done. cbn in H. symmetry in H. apply orb_false_iff in H as [H1 H2].
    apply bool_decide_eq_false in H1. destruct Hd; [done|congruence].
Qed.

(** (C30) The API and the store accept the same inputs.  [toModel] accepts a request
    exactly when the store's [normalizeInput] accepts its fields, and what it
    produces the store accepts, without changing its kind, interval or key, so
    that no validation error of the store can reach a client as a server error. *)
Theorem toModel_agrees_with_store g r :
  is_ok (toModel r) = is_ok (normalizeInput g (raw_input r)) /\
  forall i, toModel r = Ok i ->
    exists n, normalizeInput g i = Ok n /\ input_ok g n /\
      gi_StreamKey n = gi_StreamKey i /\ gi_StreamKind n = gi_StreamKind i /\ gi_Interval n = gi_Interval i.
Proof.
  split; [|intros i; apply toModel_normalizes].
  rewrite normalizeInput_is_ok. unfold toModel. cbn [raw_input gi_KafkaTopic gi_DesiredStatus].
  pose proof (request_stream_normalize r) as Hn.
  case_bool_decide; cbn; [by rewrite andb_false_r|]. rewrite andb_true_r.
  case_bool_decide; cbn; [|destruct (IsValidDesiredStatus _); cbn; [|by rewrite andb_false_r]];
    rewrite andb_true_r; (destruct (request_stream r) as [[[kind interval] key]|e]; [by rewrite Hn|by rewrite Hn]).
Qed.

Lemma toModel_agrees_with_store_witness :
  let r := mkInputRequest "kline_1m" "" "" "topic" "" "" "paused" in
  exists i n, toModel r = Ok i /\ normalizeInput "g" i = Ok n /\ gi_Interval n = "1m".
Proof.
  intros r. destruct (toModel r) as [i|e] eqn:E; [|vm_compute in E; discriminate].
  destruct (proj2 (toModel_agrees_with_store "g" r) i E) as (n & Hn & _ & _ & _ & Hi).
  exists i, n. split; [reflexivity|]. split; [exact Hn|]. rewrite Hi. vm_compute in E. injection E as <-. reflexivity.
Defined.

(** ** Reasoning about handlers *)

(** From tables of [P], the handler answers and leaves tables as [Q] says. *)
Definition hoare (P : MetaDB -> Prop) (h : handler) (Q : response -> MetaDB -> Prop) : Prop :=
  forall s, P s.1 -> Q (h s).1 (h s).2.1.

Lemma hoare_reply P st b (Q : response -> MetaDB -> Prop) : (forall db, P db -> Q (mkResponse st b) db) -> hoare P (reply st b) Q.
Proof. intros H s Hs. by apply H. Qed.

Lemma hoare_weaken (P P' : MetaDB -> Prop) h Q : (forall db, P db -> P' db) -> hoare P' h Q -> hoare P h Q.
Proof. intros H Hh s Hs. by apply Hh, H. Qed.

(** The response to an error of the store. *)
Definition error_response (e : meta_error) : response :=
  match e with
  | ErrConflict => mkResponse StatusConflict (BError (ErrStore e))
  | ErrNotFound => mkResponse StatusNotFound (BError (ErrStore e))
  | _ => mkResponse StatusInternalServerError BInternal
  end.

Lemma writeStoreError_eq e s : writeStoreError e s = (error_response e, s).
Proof. by destruct e. Qed.

Lemma hoare_bad_request {A} P (r : result api_error A) k (Q : response -> MetaDB -> Prop) :
  (forall db e, P db -> Q (mkResponse StatusBadRequest (BError e)) db) ->
  (forall a, r = Ok a -> hoare P (k a) Q) -> hoare P (or_bad_request r k) Q.
Proof. intros He Hk. destruct r as [a|e]; cbn; [by apply Hk|]. apply hoare_reply. intros db. by apply He. Qed.

Section rules.
Context (now : time.Time).

Lemma next_call_db s : (next_call now s).2.1 = s.1.
Proof. destruct s as [db [|[out t] env]]; done. Qed.

Lemma hoare_read {A} P (f : outcome -> MetaDB -> result meta_error A) k (Q : response -> MetaDB -> Prop) :
  (forall out db e, P db -> f out db = Err e -> Q (error_response e) db) ->
  (forall out a, hoare (fun db => P db /\ f out db = Ok a) (k a) Q) ->
  hoare P (store_read now f k) Q.
Proof.
  intros He Hk s Hs. unfold store_read. pose proof (next_call_db s) as Hdb. destruct (next_call now s) as [[out t] s']. cbn in Hdb.
  rewrite <- Hdb in Hs. destruct (f out s'.1) as [a|e] eqn:E; [by apply (Hk out)|]. rewrite writeStoreError_eq. by apply (He out).
Qed.

Lemma hoare_write P f k (Q : response -> MetaDB -> Prop) :
  (forall out t db e, P db -> (f out t db).2 = Err e -> Q (error_response e) (f out t db).1) ->
  (forall out t, hoare (fun db' => exists db, P db /\ f out t db = (db', Ok ())) k Q) ->
  hoare P (store_write now f k) Q.
Proof.
  intros He Hk s Hs. unfold store_write. pose proof (next_call_db s) as Hdb. destruct (next_call now s) as [[out t] s']. cbn in Hdb.
  rewrite <- Hdb in Hs. destruct (f out t s'.1) as [db' [[]|e]] eqn:E.
  - apply (Hk out t). by exists s'.1.
  - rewrite writeStoreError_eq. cbn. pose proof (He out t s'.1 e Hs) as H. rewrite E in H. by apply H.
Qed.

End rules.

(** ** Requests keep the tables' integrity *)

Definition client_error (st : Z) : Prop := 400 <= st < 500.

Definition internal : response := mkResponse StatusInternalServerError BInternal.

(** An error other than a failed call comes with unchanged tables. *)
Definition clean {A} (db : MetaDB) (r : MetaDB * result meta_error A) : Prop :=
  forall e, r.2 = Err e -> e = ErrServer \/ r.1 = db.

Lemma call_clean {A} out db (r : MetaDB * result meta_error A) : clean db r -> clean db (call out db r).
Proof. intros H. destruct out; cbn; [done|by intros e [= <-]; left|by intros e [= <-]; left]. Qed.

Lemma transact_clean out db r : clean db (transact out db r).
Proof. destruct r as [db'|e]; cbn; [|by right]. apply call_clean. by intros e. Qed.

Lemma CreateGroup_clean out t db g : clean db (CreateGroup out t db g).
Proof.
  unfold CreateGroup. destruct (_ || _ || _); [by right|]. destruct (negb _); [by right|].
  destruct (normalizeGroup g); [apply transact_clean|by right].
Qed.

Lemma AddInputs_clean out t db gid inputs : clean db (AddInputs out t db gid inputs).
Proof. destruct inputs; [by intros e|apply transact_clean]. Qed.

Lemma UpdateGroup_clean out t db gid st : clean db (UpdateGroupDesiredStatus out t db gid st).
Proof. unfold UpdateGroupDesiredStatus. destruct (negb _); [by right|]. apply call_clean. destruct (_ !! _); [by intros e|by right]. Qed.

Lemma UpdateInput_clean out t db gid key st : clean db (UpdateInputDesiredStatus out t db gid key st).
Proof. unfold UpdateInputDesiredStatus. destruct (negb _); [by right|]. apply call_clean. destruct (any_row _ _); [by intros e|by right]. Qed.

Lemma DeleteGroup_clean out db gid : clean db (DeleteGroup out db gid).
Proof. unfold DeleteGroup. apply call_clean. destruct (_ !! _); [by intros e|by right]. Qed.

(** A group that was created, or whose status was set, is there. *)
Lemma insert_inputs_groups t db inputs db' : insert_inputs t db inputs = Ok db' -> md_groups db' = md_groups db.
Proof.
  revert db. induction inputs as [|i inputs IH]; intros db; cbn; [by intros [= <-]|].
  intros (db1 & H1 & H2)%bind_Ok. rewrite (IH _ H2). unfold insertGroupInput in H1. repeat case_match; simplify_eq. done.
Qed.

Lemma CreateGroup_present out t db req inputs db' :
  CreateGroup out t db (request_group req inputs) = (db', Ok ()) ->
  is_Some (md_groups db' !! NewGroupID (cg_Exchange req) (cg_MarketType req) (cg_Symbol req)).
Proof.
  unfold CreateGroup. destruct (_ || _ || _); [done|]. destruct (negb _); [done|].
  destruct (normalizeGroup _) as [g|e] eqn:En; [|done]. unfold transact, create_tx. destruct (negb _); [done|]. destruct (_ || _); [done|].
  destruct (insert_inputs _ _ _) as [db1|e] eqn:Ei; [|done]. destruct out; intros [= <-].
  apply insert_inputs_groups in Ei as ->. cbn. unfold normalizeGroup in En. destruct (_ && _); [done|].
  apply bind_Ok in En as (ins & _ & [= <-]). cbn. apply lookup_insert_is_Some'. by left.
Qed.

Lemma UpdateGroup_present out t db gid st db' :
  UpdateGroupDesiredStatus out t db gid st = (db', Ok ()) -> is_Some (md_groups db' !! gid).
Proof.
  unfold UpdateGroupDesiredStatus. destruct (negb _); [done|]. destruct (md_groups db !! gid) as [g|] eqn:E, out; intros [= <-].
  cbn. apply lookup_insert_is_Some'. by left.
Qed.

Section endpoints.
Context (store query_store : bool) (now : time.Time) (off : Z) (facts : DB) (fact_out : outcome).

Lemma query_err {A} out (r : A) e : query out r = Err e -> e = ErrServer.
Proof. destruct out; cbn; congruence. Qed.

Lemma hoare_query {A} P (f : outcome -> MetaDB -> result meta_error A) k (Q : response -> MetaDB -> Prop) :
  (forall out db e, f out db = Err e -> e = ErrServer) ->
  (forall db, P db -> Q internal db) -> (forall a, hoare P (k a) Q) -> hoare P (store_read now f k) Q.
Proof.
  intros Hf Hi Hk. apply hoare_read.
  - intros out db e HP He. rewrite (Hf _ _ _ He). by apply Hi.
  - intros out a. apply (hoare_weaken _ P); [by intros db [? _]|apply Hk].
Qed.

Lemma hoare_get_group P gid k (Q : response -> MetaDB -> Prop) :
  (forall db, P db -> Q internal db) ->
  (forall db, P db -> md_groups db !! gid = None -> Q (error_response ErrNotFound) db) ->
  (forall g, hoare P (k g) Q) -> hoare P (store_read now (fun out db => GetGroup out db gid) k) Q.
Proof.
  intros Hi Hn Hk. apply hoare_read.
  - intros out db e HP He. unfold GetGroup in He. destruct out; cbn in He; try (injection He as <-; by apply Hi).
    destruct (md_groups db !! gid) eqn:E; [done|]. injection He as <-. by apply Hn.
  - intros out g. apply (hoare_weaken _ P); [by intros db [? _]|apply Hk].
Qed.

Lemma hoare_aggregate P gid k (Q : response -> MetaDB -> Prop) :
  (forall db, P db -> Q internal db) ->
  (forall db, P db -> md_groups db !! gid = None -> Q (error_response ErrNotFound) db) ->
  (forall resp, hoare P (k resp) Q) -> hoare P (aggregateGroup now gid k) Q.
Proof.
  intros Hi Hn Hk. unfold aggregateGroup, statusMap. apply hoare_get_group; [done|done|]. intros g.
  apply hoare_query; [by intros out db e; apply query_err|done|]. intros inputs.
  apply hoare_query; [by intros out db e; apply query_err|done|]. intros lease.
  apply hoare_query; [by intros out db e; apply query_err|done|]. intros statuses. apply Hk.
Qed.

(** What a request does to the tables it found. *)
Definition keeps_integrity (db0 : MetaDB) (r : response) (db : MetaDB) : Prop :=
  meta_wf db /\ (client_error (rp_status r) -> db = db0).

Lemma keeps_same db0 r : meta_wf db0 -> keeps_integrity db0 r db0.
Proof. by split. Qed.

Lemma keeps_other db0 r db : meta_wf db -> ~ client_error (rp_status r) -> keeps_integrity db0 r db.
Proof. intros H1 H2. split; [done|]. intros H. by destruct H2. Qed.

(** A call that changes the tables, and what follows it. *)
Lemma hoare_change db0 f k :
  meta_wf db0 -> (forall out t db, meta_wf db -> meta_wf (f out t db).1) -> (forall out t db, clean db (f out t db)) ->
  (forall out t, hoare (fun db => meta_wf db /\ f out t db0 = (db, Ok ())) k (keeps_integrity db0)) ->
  hoare (fun db => db = db0) (store_write now f k) (keeps_integrity db0).
Proof.
  intros H0 Hwf Hcl Hk. apply hoare_write.
  - intros out t db e -> He. split; [by apply Hwf|]. destruct (Hcl out t db0 e He) as [-> | ->]; [|done].
    cbn. intros [_ H]. by vm_compute in H.
  - intros out t. eapply hoare_weaken; [|apply (Hk out t)]. intros db (db1 & -> & E). cbn. split; [|done].
    specialize (Hwf out t db0 H0). by rewrite E in Hwf.
Qed.

(** The handlers that only read. *)
Definition read_only (h : handler) : Prop := forall db0, hoare (fun db => db = db0) h (fun _ db => db = db0).

Lemma read_only_keeps db0 h : meta_wf db0 -> read_only h -> hoare (fun db => db = db0) h (keeps_integrity db0).
Proof. intros H0 Hr s Hs. pose proof (Hr db0 s Hs) as H. cbn in H. rewrite H. by apply keeps_same. Qed.

Lemma query_read_only gid q fn : read_only (handleQuery store now gid q fn).
Proof.
  intros db0. unfold handleQuery. case_bool_decide; [by apply hoare_reply|].
  apply hoare_bad_request; [done|]. intros p _. apply hoare_bad_request; [done|]. intros [from to] _.
  assert (forall r, hoare (fun db => db = db0) (answer_query r) (fun _ db => db = db0)) as Ha
    by (intros [[]|]; by apply hoare_reply).
  cbv zeta. destruct store; [|apply Ha]. apply hoare_get_group; [done|done|]. intros g. apply Ha.
Qed.

Lemma list_inputs_read_only gid : read_only (handleListInputs now gid).
Proof.
  intros db0. unfold handleListInputs, statusMap. apply hoare_get_group; [done|done|]. intros g.
  apply hoare_query; [by intros out db e; apply query_err|done|]. intros inputs.
  apply hoare_query; [by intros out db e; apply query_err|done|]. intros m. by apply hoare_reply.
Qed.

Lemma reads_read_only :
  read_only (handleListGroups now) /\ forall gid, read_only (handleGetGroup now gid).
Proof.
  split; [intros db0|intros gid db0].
  - apply hoare_query; [by intros out db e; apply query_err|done|]. intros l. by apply hoare_reply.
  - apply hoare_aggregate; [done|done|]. intros resp. by apply hoare_reply.
Qed.

Lemma present_aggregate db0 gid st (mk : groupResponse -> response_body) :
  ~ client_error st ->
  hoare (fun db => meta_wf db /\ is_Some (md_groups db !! gid)) (aggregateGroup now gid (fun resp => reply st (mk resp))) (keeps_integrity db0).
Proof.
  intros Hst. apply hoare_aggregate.
  - intros db [Hw _]. apply keeps_other; [done|]. cbn. intros [_ H]. vm_compute in H. discriminate.
  - intros db [Hw [g Hg]] Hn. congruence.
  - intros resp. apply hoare_reply. intros db [Hw _]. by apply keeps_other.
Qed.

Lemma not_client_error_small st : st < 400 -> ~ client_error st.
Proof. unfold client_error. lia. Qed.

Lemma create_group_keeps db0 body :
  meta_wf db0 -> hoare (fun db => db = db0) (handleCreateGroup now body) (keeps_integrity db0).
Proof.
  intros H0. unfold handleCreateGroup. apply hoare_bad_request; [intros db e ->; by apply keeps_same|]. intros req _.
  apply hoare_bad_request; [intros db e ->; by apply keeps_same|]. intros g Hg.
  apply hoare_change; [done|intros; by apply CreateGroup_wf|intros; apply CreateGroup_clean|]. intros out t.
  eapply hoare_weaken; [|apply present_aggregate; by apply not_client_error_small]. cbn. intros db [Hw Hc]. split; [done|].
  unfold check_create in Hg. repeat (destruct (_ || _) in Hg || destruct (_ && _) in Hg || destruct (negb _) in Hg); try done.
  all: apply bind_Ok in Hg as (inputs & _ & [= <-]); by eapply CreateGroup_present.
Qed.

Lemma set_group_keeps db0 gid st : meta_wf db0 -> hoare (fun db => db = db0) (setGroupStatus now gid st) (keeps_integrity db0).
Proof.
  intros H0. apply hoare_change; [done|intros; by apply UpdateGroupDesiredStatus_wf|intros; apply UpdateGroup_clean|]. intros out t.
  eapply hoare_weaken; [|apply present_aggregate; by apply not_client_error_small]. cbn. intros db [Hw Hc]. split; [done|].
  by eapply UpdateGroup_present.
Qed.

Lemma create_input_keeps db0 gid body : meta_wf db0 -> hoare (fun db => db = db0) (handleCreateInput now gid body) (keeps_integrity db0).
Proof.
  intros H0. unfold handleCreateInput. apply hoare_bad_request; [intros db e ->; by apply keeps_same|]. intros req _.
  apply hoare_bad_request; [intros db e ->; by apply keeps_same|]. intros i _.
  apply hoare_change; [done|intros; by apply AddInputs_wf|intros; apply AddInputs_clean|]. intros out t.
  apply (hoare_weaken _ meta_wf); [by intros db [? _]|].
  apply hoare_query; [by intros o db e; apply query_err| |].
  - intros db Hw. apply keeps_other; [done|]. cbn. intros [_ H]. vm_compute in H. discriminate.
  - intros inputs. destruct (List.find _ _); apply hoare_reply; intros db Hw; apply keeps_other; try done; by apply not_client_error_small.
Qed.

Lemma finish_keeps db0 f st b :
  meta_wf db0 -> (forall out t db, meta_wf db -> meta_wf (f out t db).1) -> (forall out t db, clean db (f out t db)) ->
  ~ client_error st -> hoare (fun db => db = db0) (store_write now f (reply st b)) (keeps_integrity db0).
Proof. intros H0 Hw Hc Hst. apply hoare_change; [done..|]. intros out t. apply hoare_reply. intros db [? _]. by apply keeps_other. Qed.

(** Every handler of the routing table. *)
Lemma routes_keep db0 r mh :
  meta_wf db0 -> mh ∈ routes store query_store now off facts fact_out r ->
  hoare (fun db => db = db0) mh.2 (keeps_integrity db0) /\ (mh.1 = "GET" -> read_only mh.2).
Proof.
  intros H0 Hin. destruct reads_read_only as [Hlist Hget].
  assert (forall h, read_only h -> hoare (fun db => db = db0) h (keeps_integrity db0) /\ ("GET" = "GET" -> read_only h)) as HR
    by (intros h Hh; split; [by apply read_only_keeps|done]).
  assert (forall gid key st, hoare (fun db => db = db0) (setInputStatus now gid key st) (keeps_integrity db0)) as Hset
    by (intros; apply finish_keeps; [done|intros; by apply UpdateInputDesiredStatus_wf|intros; apply UpdateInput_clean|by apply not_client_error_small]).
  assert (forall gid, hoare (fun db => db = db0) (handleDeleteGroup now gid) (keeps_integrity db0)) as Hdel
    by (intros; apply finish_keeps; [done|intros; by apply DeleteGroup_wf|intros; apply DeleteGroup_clean|by apply not_client_error_small]).
  pose proof (create_group_keeps db0) as Hcg. pose proof (create_input_keeps db0) as Hci. pose proof (set_group_keeps db0) as Hsg.
  unfold routes in Hin. repeat case_match; repeat rewrite elem_of_cons in Hin; rewrite elem_of_nil in Hin; destruct_or? Hin; try done; subst; cbn;
    first [apply HR; first [apply query_read_only|apply list_inputs_read_only|apply Hlist|apply Hget]
          |split; [|done]; first [by apply Hcg|by apply Hci|by apply Hsg|by apply Hset|by apply Hdel]].
Qed.

End endpoints.

(** (C13) A request keeps the integrity of the metadata.  Whatever the request, and
    whatever the store answers to each of the calls it causes, the tables stay
    well formed; a request answered with a client error, of whatever origin, has
    changed nothing; and neither has a GET. *)
Theorem requests_keep_integrity store query_store now off facts fact_out r db env :
  meta_wf db ->
  let '(resp, s') := Handler store query_store now off facts fact_out r (db, env) in
  meta_wf s'.1 /\ (400 <= rp_status resp < 500 -> s'.1 = db) /\
  (rq_method r ∈ ["GET"; "HEAD"] -> s'.1 = db).
Proof.
  intros Hw. destruct (Handler _ _ _ _ _ _ r (db, env)) as [resp s'] eqn:E. revert E. unfold Handler.
  destruct (routes _ _ _ _ _ _ r) as [|mh0 rs] eqn:Er; [by intros [= <- <-]|].
  destruct (List.find _ _) as [[m h]|] eqn:Ef; [|by intros [= <- <-]]. apply find_some in Ef as [Hin Hm]. cbn in Hm.
  apply list_elem_of_In in Hin. rewrite <- Er in Hin. intros E.
  destruct (routes_keep store query_store now off facts fact_out db r (m, h) Hw Hin) as [Hk Hr]. cbn in Hk, Hr.
  pose proof (Hk (db, env) eq_refl) as [H1 H2]. rewrite E in H1, H2. split_and!; [done|done|].
  intros Hmeth. assert (m = "GET") as Hg.
  { apply bool_decide_eq_true in Hm. repeat rewrite elem_of_cons in Hmeth. rewrite elem_of_nil in Hmeth.
    destruct_or! Hmeth; try done; rewrite Hmeth in Hm; by vm_compute in Hm. }
  pose proof (Hr Hg db (db, env) eq_refl) as H. by rewrite E in H.
Qed.

(** ** A created group is served *)






(** Reads without faults. *)
Lemma calm_read {A} now (f : outcome -> MetaDB -> result meta_error A) k db a :
  f Done db = Ok a -> store_read now f k (db, []) = k a (db, []).
Proof. intros H. unfold store_read. cbn. by rewrite H. Qed.




(** *** Valid requests, field by field *)



















(** *** What the store answers to a valid request *)







(** *** The answer to POST /groups *)


(** ** Behaviours the documentation does not announce *)

(** A cursor that does not parse is answered with 500, like a failure of the
    server, although it is the client's mistake. *)
Lemma malformed_cursor_is_500 now off facts db gid q g t1 t2 :
  gid <> "" -> md_groups db !! gid = Some g -> q "limit" = "" ->
  Parse (q "from") = Ok t1 -> Parse (q "to") = Ok t2 -> t1 < t2 ->
  is_ok (parseTradeCursor (q "cursor")) = false ->
  (handleQueryTrades true true now off facts Done gid q (db, [])).1 = internal.
Proof.
  intros Hg Hdb Hl Hf Ht Hlt Hc. unfold handleQueryTrades, handleQuery. rewrite bool_decide_false by done.
  assert (parseQueryParams q = Ok (mkQueryRequest (q "from") (q "to") 0 (q "cursor"))) as ->.
  { unfold parseQueryParams. rewrite Hl. rewrite (bool_decide_true ("" = "")), !bool_decide_false; [done|intros E; first [rewrite E in Hf; vm_compute in Hf; discriminate|rewrite E in Ht; vm_compute in Ht; discriminate]..|done]. }
  cbn [or_bad_request]. unfold parseTimeRange. cbn [qp_From qp_To qp_Limit qp_Cursor]. rewrite Hf, Ht. unfold time.After.
  rewrite (proj2 (Z.ltb_lt _ _) Hlt). cbn [negb or_bad_request]. cbv zeta. rewrite (calm_read _ _ _ _ g) by (unfold GetGroup; cbn; by rewrite Hdb).
  unfold trades_fn, page, QueryTrades. destruct (parseTradeCursor (q "cursor")); [done|reflexivity].
Qed.

(** Pausing, resuming or disabling a group sets the status of the group alone;
    the documentation says that it sets its inputs'. *)
Lemma group_status_leaves_inputs now gid st s :
  md_inputs (setGroupStatus now gid st s).2.1 = md_inputs s.1.
Proof.
  assert (hoare (fun db => md_inputs db = md_inputs s.1) (setGroupStatus now gid st) (fun _ db => md_inputs db = md_inputs s.1)) as H; [|by apply H].
  apply hoare_write.
  - intros out t db e Hdb _. rewrite <- Hdb. unfold UpdateGroupDesiredStatus. destruct (negb _); [done|]. destruct (md_groups db !! gid), out; done.
  - intros out t. apply (hoare_weaken _ (fun db => md_inputs db = md_inputs s.1)).
    + intros db (db1 & <- & E). unfold UpdateGroupDesiredStatus in E. destruct (negb _); [done|].
      destruct (md_groups db1 !! gid), out; cbn in E; try done; by injection E as <-.
    + apply hoare_aggregate; [done|done|]. intros resp. by apply hoare_reply.
Qed.

(** ** At concrete requests *)

Definition sample_request : createGroupRequest :=
  mkCreateGroupRequest "binance" "spot" "BTCUSDT" "BTC" "USDT" 0 ""
    [mkInputRequest "" "trade" "" "t1" "" "" ""; mkInputRequest "kline_1m" "" "" "t2" "" "" "paused"].

Definition sample_post : request :=
  mkRequest "POST" ["groups"] (fun _ => "") (mkJsonBody (Ok sample_request) false) (mkJsonBody (Err "EOF") false).

Definition sample_env : list (outcome * time.Time) := [(Done, 3)].

Lemma requests_keep_integrity_witness :
  let '(resp, s') := Handler true true 7 0 emptyDB Done sample_post (emptyMeta, sample_env) in
  rp_status resp = 201 /\ meta_wf s'.1.
Proof.
  assert (rp_status (Handler true true 7 0 emptyDB Done sample_post (emptyMeta, sample_env)).1 = 201) as Hs by (vm_compute; reflexivity).
  pose proof (requests_keep_integrity true true 7 0 emptyDB Done sample_post emptyMeta sample_env emptyMeta_wf) as H.
  revert Hs H. generalize (Handler true true 7 0 emptyDB Done sample_post (emptyMeta, sample_env)). intros [resp s'] Hs [H _].
  split; [exact Hs|exact H].
Defined.




(** A weight that the column cannot hold is answered 500. *)
Example heavy_group_is_500 :
  let req := mkCreateGroupRequest "binance" "spot" "BTCUSDT" "BTC" "USDT" 3000000000 "" [] in
  rp_status (handleCreateGroup 7 (mkJsonBody (Ok req) false) (emptyMeta, [])).1 = 500.
Proof. vm_compute. reflexivity. Qed.
