(* ===== verification/InputWorker.v ===== *)
(** * InputWorker: from Kafka records to durable facts

    internal/runtime/input_worker.go: the batching consume loop of one fact
    input.  Every external call (fetch, load, write, commit, poison write) takes
    the next answer of the environment; an exhausted list of answers is the
    canceled context, so every call that follows fails and the loops return.
    The store is any [MarketDataStorage], the payload decoders any [Decoders].
    The trace records the calls that took effect, in order.  Waiting, logging
    and the periodic status reports are left out. *)

From S2P Require Import Prelude GoStd Model Kafka Decode Sequence StorageInterface.

Open Scope Z_scope.

(** ** Configuration *)

Record BatchConfig := mkBatchConfig {
  bc_Size : Z;
  bc_FlushInterval : time.Duration
}.

Definition withDefaults (c : BatchConfig) : BatchConfig :=
  {| bc_Size := if (bc_Size c <=? 0) then 1 else bc_Size c;
     bc_FlushInterval := if (bc_FlushInterval c <=? 0) then 100 * time.Millisecond
                         else bc_FlushInterval c |}.

Record ConsumptionConfig := mkConsumptionConfig {
  cc_StatusReportEvery : time.Duration;
  cc_InputReconcileEvery : time.Duration;
  cc_TradeBatch : BatchConfig;
  cc_KlineBatch : BatchConfig;
  cc_OrderBookDeltaBatch : BatchConfig;
  cc_SnapshotInterval : time.Duration
}.

Definition batchFor (c : ConsumptionConfig) (kind : string) : BatchConfig :=
  if bool_decide (kind = StreamKindTrade) then withDefaults (cc_TradeBatch c)
  else if bool_decide (kind = StreamKindKline) then withDefaults (cc_KlineBatch c)
  else if bool_decide (kind = StreamKindOrderBookDelta) then withDefaults (cc_OrderBookDeltaBatch c)
  else withDefaults (mkBatchConfig 0 0).

Definition isRetryableStage (stage : string) : bool :=
  bool_decide (stage = "sequence") || bool_decide (stage = "durable").

(** ** State *)

Record pendingRecord := mkPendingRecord {
  pr_msg : Message;
  pr_eventTime : time.Time;
  pr_trade : option Trade;
  pr_kline : option Kline;
  pr_delta : option OrderBookDelta
}.

(** [lastErr], by the call it names. *)
Inductive worker_error :=
| NoError
| FetchError
| LoadError
| WriteError
| CommitError
| StageError (stage : string).

(** The fields of an [inputWorker] that change. *)
Record iwState := mkIwState {
  iw_status : string;
  iw_lastErr : worker_error;
  iw_partition : Z;
  iw_committed : option Z;
  iw_highWM : option Z;
  iw_lastEvent : option time.Time;
  iw_lastProc : option time.Time;
  iw_lastDeltaByPartition : gmap Z OrderBookDelta;
  iw_loadedProgress : gset Z;
  iw_durableByPartition : gmap Z Z;
  iw_snapshotResetSeq : option Z;
  iw_snapshotResetLastUpdate : option Z
}.

(** A worker as [newInputWorker] and [startInput] leave it. *)
Definition newIwState (resetSeq resetLastUpdate : option Z) : iwState :=
  mkIwState ActualStatusRunning NoError 0 None None None None ∅ ∅ ∅ resetSeq resetLastUpdate.

(** What an input worker did to the outside, oldest first. *)
Inductive action :=
| AFetch (m : Message)
| AWrite (rs : list pendingRecord)
| ACommit (m : Message)
| APoison (m : Message)
| ADrop (m : Message)
| AApplied (d : OrderBookDelta).

Record metrics := mkMetrics { mt_decodeErrors : Z; mt_writeErrors : Z; mt_processed : Z }.

(** ** Setters *)

Definition set_iw_status (status : string) (e : worker_error) (s : iwState) : iwState :=
  mkIwState status e (iw_partition s) (iw_committed s) (iw_highWM s) (iw_lastEvent s) (iw_lastProc s)
    (iw_lastDeltaByPartition s) (iw_loadedProgress s) (iw_durableByPartition s)
    (iw_snapshotResetSeq s) (iw_snapshotResetLastUpdate s).

Definition set_lastDelta (p : Z) (d : OrderBookDelta) (s : iwState) : iwState :=
  mkIwState (iw_status s) (iw_lastErr s) (iw_partition s) (iw_committed s) (iw_highWM s) (iw_lastEvent s)
    (iw_lastProc s) (<[p := d]> (iw_lastDeltaByPartition s)) (iw_loadedProgress s)
    (iw_durableByPartition s) (iw_snapshotResetSeq s) (iw_snapshotResetLastUpdate s).

Definition set_durable (p o : Z) (s : iwState) : iwState :=
  mkIwState (iw_status s) (iw_lastErr s) (iw_partition s) (iw_committed s) (iw_highWM s) (iw_lastEvent s)
    (iw_lastProc s) (iw_lastDeltaByPartition s) (iw_loadedProgress s)
    (<[p := o]> (iw_durableByPartition s)) (iw_snapshotResetSeq s) (iw_snapshotResetLastUpdate s).

Definition set_loaded (p : Z) (s : iwState) : iwState :=
  mkIwState (iw_status s) (iw_lastErr s) (iw_partition s) (iw_committed s) (iw_highWM s) (iw_lastEvent s)
    (iw_lastProc s) (iw_lastDeltaByPartition s) ({[p]} ∪ iw_loadedProgress s)
    (iw_durableByPartition s) (iw_snapshotResetSeq s) (iw_snapshotResetLastUpdate s).

Definition set_position (p o : Z) (s : iwState) : iwState :=
  mkIwState (iw_status s) (iw_lastErr s) p (Some o) (iw_highWM s) (iw_lastEvent s) (iw_lastProc s)
    (iw_lastDeltaByPartition s) (iw_loadedProgress s) (iw_durableByPartition s)
    (iw_snapshotResetSeq s) (iw_snapshotResetLastUpdate s).

Definition clear_reset (s : iwState) : iwState :=
  mkIwState (iw_status s) (iw_lastErr s) (iw_partition s) (iw_committed s) (iw_highWM s) (iw_lastEvent s)
    (iw_lastProc s) (iw_lastDeltaByPartition s) (iw_loadedProgress s) (iw_durableByPartition s) None None.

(** [durableByPartition[p]]; a missing entry reads as 0. *)
Definition durable_at (p : Z) (s : iwState) : Z := default 0 (iw_durableByPartition s !! p).

(** The method [advance]. *)
Definition advance_status (now : time.Time) (msg : Message) (ev : option time.Time) (s : iwState) : iwState :=
  mkIwState (iw_status s) (iw_lastErr s) (ms_Partition msg) (Some (ms_Offset msg))
    (if (0 <? ms_HighWatermark msg) then Some (ms_HighWatermark msg) else iw_highWM s)
    (match ev with Some _ => ev | None => iw_lastEvent s end) (Some now)
    (iw_lastDeltaByPartition s) (iw_loadedProgress s) (iw_durableByPartition s)
    (iw_snapshotResetSeq s) (iw_snapshotResetLastUpdate s).

Definition lagLocked (committed highWM : option Z) : option Z :=
  match committed, highWM with
  | Some c, Some h =>
      let lag := wrap64 (wrap64 (h - c) - 1) in
      Some (if (lag <? 0) then 0 else lag)
  | _, _ => None
  end.

(** [snapshotLocked]; the error text is left to the caller. *)
Definition snapshotLocked (group : MarketGroup) (input : GroupInput) (nodeID status lastErr : string)
    (s : iwState) : StreamRuntimeStatus :=
  {| rs_InputID := inputID input; rs_GroupID := mg_GroupID group; rs_StreamKey := gi_StreamKey input;
     rs_NodeID := nodeID; rs_ActualStatus := status; rs_KafkaPartition := Some (iw_partition s);
     rs_KafkaLag := lagLocked (iw_committed s) (iw_highWM s);
     rs_CommittedOffset := iw_committed s; rs_HighWatermarkOffset := iw_highWM s;
     rs_LastEventTime := iw_lastEvent s; rs_LastProcessedTime := iw_lastProc s;
     rs_LastError := lastErr; rs_UpdatedAt := time.zero |}.

(** ** One fact input over a store and a JSON layer *)

Section input_worker.
Context `{S : MarketDataStorage} `{Decoders}.
Variables (group : MarketGroup) (input : GroupInput) (batch : BatchConfig).
(** Whether [onDeltaApplied] is set. *)
Variable hook : bool.

(** The state of the run: worker, database, trace, process metrics. *)
Record world := mkWorld {
  w_iw : iwState;
  w_db : st_DB;
  w_trace : list action;
  w_metrics : metrics
}.

Inductive fetch_answer :=
| FMsg (m : Message)
| FDeadline
| FError.

(** What the environment answers to the next call, whichever it is. *)
Record answer := mkAnswer {
  an_fetch : fetch_answer;
  an_fault : st_fault;
  an_commit : bool * bool;   (* took effect, reported success *)
  an_now : time.Time
}.

Definition on_iw (f : iwState -> iwState) (w : world) : world :=
  mkWorld (f (w_iw w)) (w_db w) (w_trace w) (w_metrics w).
Definition set_db (db : st_DB) (w : world) : world := mkWorld (w_iw w) db (w_trace w) (w_metrics w).
Definition log (l : list action) (w : world) : world :=
  mkWorld (w_iw w) (w_db w) (w_trace w ++ l) (w_metrics w).
Definition on_metrics (f : metrics -> metrics) (w : world) : world :=
  mkWorld (w_iw w) (w_db w) (w_trace w) (f (w_metrics w)).

Definition incDecodeErrors (m : metrics) : metrics :=
  mkMetrics (wrap64 (mt_decodeErrors m + 1)) (mt_writeErrors m) (mt_processed m).
Definition incWriteErrors (m : metrics) : metrics :=
  mkMetrics (mt_decodeErrors m) (wrap64 (mt_writeErrors m + 1)) (mt_processed m).
Definition incProcessed (n : Z) (m : metrics) : metrics :=
  mkMetrics (mt_decodeErrors m) (mt_writeErrors m) (wrap64 (mt_processed m + n)).

(** *** [prepare] *)

Inductive prepare_result :=
| Prepared (r : pendingRecord)
| Rejected (stage : string).

(** A delta with the raw payload of its record. *)
Definition with_payload (d : OrderBookDelta) (payload : string) : OrderBookDelta :=
  mkOrderBookDelta (od_GroupID d) (od_InputID d) (od_EventTime d) (od_ExchangeTime d)
    (od_LocalReceiveTime d) (od_RawEventID d) (od_FirstUpdateID d) (od_LastUpdateID d)
    (od_PrevUpdateID d) (od_Sequence d) (od_Bids d) (od_Asks d) payload (od_KafkaTopic d)
    (od_KafkaPartition d) (od_KafkaOffset d) (od_IngestedAt d).

Definition prepare_delta (msg : Message) (delta : OrderBookDelta) (s : iwState)
    : iwState * prepare_result :=
  let p := ms_Partition msg in
  match checkDeltaContinuity (iw_lastDeltaByPartition s !! p) delta with
  | Err _ =>
      match iw_snapshotResetSeq s, iw_snapshotResetLastUpdate s with
      | None, None => (s, Rejected "sequence")
      | _, _ => (s, Prepared (mkPendingRecord msg (od_EventTime delta) None None None))
      end
  | Ok advance =>
      let delta' := with_payload delta (ms_Value msg) in
      if advance then
        (set_lastDelta p delta' s, Prepared (mkPendingRecord msg (od_EventTime delta') None None (Some delta')))
      else (s, Prepared (mkPendingRecord msg (od_EventTime delta') None None None))
  end.

Definition prepare (msg : Message) (s : iwState) : iwState * prepare_result :=
  if (ms_Offset msg <=? durable_at (ms_Partition msg) s)
  then (s, Prepared (mkPendingRecord msg time.zero None None None))
  else if bool_decide (gi_StreamKind input = StreamKindTrade) then
    match buildTrade input msg with
    | Ok t => (s, Prepared (mkPendingRecord msg (tr_EventTime t) (Some t) None None))
    | Err _ => (s, Rejected "decode")
    end
  else if bool_decide (gi_StreamKind input = StreamKindKline) then
    match buildKline input msg with
    | Ok k => (s, Prepared (mkPendingRecord msg (kl_CloseTime k) None (Some k) None))
    | Err _ => (s, Rejected "decode")
    end
  else if bool_decide (gi_StreamKind input = StreamKindOrderBookDelta) then
    match buildOrderBookDelta input msg with
    | Ok d => prepare_delta msg d s
    | Err _ => (s, Rejected "decode")
    end
  else (s, Rejected "decode").

(** *** [flushBatch] *)

(** The batch built from the records, whose last one is [last]. *)
Definition batch_of (s : iwState) (records : list pendingRecord) (last : pendingRecord) : FactBatch :=
  let p := ms_Partition (pr_msg last) in
  let cursor := if bool_decide (gi_StreamKind input = StreamKindOrderBookDelta)
                then iw_lastDeltaByPartition s !! p else None in
  {| fb_Trades := omap pr_trade records;
     fb_Klines := omap pr_kline records;
     fb_OrderBookDeltas := omap pr_delta records;
     fb_Progress := {|
       wp_InputID := inputID input; wp_KafkaPartition := p; wp_DurableOffset := ms_Offset (pr_msg last);
       wp_LastRawEventID := match cursor with Some c => od_RawEventID c | None => "" end;
       wp_LastUpdateID := match cursor with Some c => od_LastUpdateID c | None => None end;
       wp_LastSequence := match cursor with Some c => od_Sequence c | None => None end;
       wp_UpdatedAt := time.zero |} |}.

(** Retry the write until it succeeds or the context ends. *)
Fixpoint write_loop (b : FactBatch) (records : list pendingRecord) (w : world) (env : list answer)
    : bool * world * list answer :=
  match env with
  | [] => (false, w, [])
  | a :: env' =>
      match st_write (an_fault a) (an_now a) (w_db w) b with
      | (db', None) => (true, log [AWrite records] (set_db db' w), env')
      | (db', Some _) =>
          write_loop b records
            (on_metrics incWriteErrors (on_iw (set_iw_status ActualStatusError WriteError) (set_db db' w))) env'
      end
  end.

(** One call of [Commit]. *)
Definition call_commit (a : answer) (msg : Message) (w : world) : bool * world :=
  let '(effect, success) := an_commit a in
  (success, if (effect || success) then log [ACommit msg] w else w).

(** Retry the commit until it succeeds or the context ends. *)
Fixpoint commit_loop (msg : Message) (w : world) (env : list answer) : bool * world * list answer * time.Time :=
  match env with
  | [] => (false, w, [], time.zero)
  | a :: env' =>
      match call_commit a msg w with
      | (true, w') => (true, w', env', an_now a)
      | (false, w') => commit_loop msg (on_iw (set_iw_status ActualStatusError CommitError) w') env'
      end
  end.

(** The event time of the last record that has one. *)
Definition last_event_time (records : list pendingRecord) : option time.Time :=
  fold_left (fun acc r => if time.IsZero (pr_eventTime r) then acc else Some (pr_eventTime r)) records None.

(** What [flushBatch] does after the commit. *)
Definition after_commit (now : time.Time) (records : list pendingRecord) (last : Message) (w : world) : world :=
  let w1 := on_iw (set_durable (ms_Partition last) (ms_Offset last)) w in
  let w2 := if (hook && bool_decide (gi_StreamKind input = StreamKindOrderBookDelta))
            then log (map AApplied (omap pr_delta records)) w1 else w1 in
  on_iw (fun s => set_iw_status ActualStatusRunning NoError
                    (advance_status now last (last_event_time records) s)) w2.

Definition flushBatch (records : list pendingRecord) (w : world) (env : list answer)
    : bool * world * list answer :=
  match last records with
  | None => (true, w, env)
  | Some lastr =>
      match write_loop (batch_of (w_iw w) records lastr) records w env with
      | (false, w1, env1) => (false, w1, env1)
      | (true, w1, env1) =>
          let w2 := on_metrics (incProcessed (Z.of_nat (length records))) w1 in
          match commit_loop (pr_msg lastr) w2 env1 with
          | (false, w3, env2, _) => (false, w3, env2)
          | (true, w3, env2, now) => (true, after_commit now records (pr_msg lastr) w3, env2)
          end
      end
  end.

(** *** [ensureProgress] *)

(** The cursor of a delta stream loaded from the progress row. *)
Definition loaded_delta (progress : StreamWriteProgress) (s : iwState) : OrderBookDelta :=
  mkOrderBookDelta "" "" time.zero None None (wp_LastRawEventID progress) None
    (match iw_snapshotResetLastUpdate s with Some _ => iw_snapshotResetLastUpdate s | None => wp_LastUpdateID progress end)
    None
    (match iw_snapshotResetSeq s with Some _ => iw_snapshotResetSeq s | None => wp_LastSequence progress end)
    [] [] "" "" 0 0 time.zero.

Definition install_progress (p : Z) (row : option StreamWriteProgress) (s : iwState) : iwState :=
  let s1 := set_loaded p s in
  match row with
  | None => set_durable p (-1) s1
  | Some progress =>
      let s2 := set_position p (wp_DurableOffset progress) (set_durable p (wp_DurableOffset progress) s1) in
      let s3 := if bool_decide (gi_StreamKind input = StreamKindOrderBookDelta)
                then set_lastDelta p (loaded_delta progress s2) s2 else s2 in
      clear_reset s3
  end.

Fixpoint load_loop (p : Z) (w : world) (env : list answer) : bool * world * list answer :=
  match env with
  | [] => (false, w, [])
  | a :: env' =>
      match st_load (an_fault a) (w_db w) (inputID input) p with
      | Ok row => (true, on_iw (install_progress p row) w, env')
      | Err _ => load_loop p (on_iw (set_iw_status ActualStatusError LoadError) w) env'
      end
  end.

Definition ensureProgress (p : Z) (w : world) (env : list answer) : bool * world * list answer :=
  if bool_decide (p ∈ iw_loadedProgress (w_iw w)) then (true, w, env) else load_loop p w env.

(** *** [consume] *)

Definition poison_record (msg : Message) (reason : string) : PoisonRecord :=
  {| po_InputID := inputID input; po_GroupID := mg_GroupID group; po_StreamKind := gi_StreamKind input;
     po_Topic := ""; po_Partition := ms_Partition msg; po_Offset := ms_Offset msg;
     po_ErrorMessage := reason; po_RawPayload := ms_Value msg; po_RecordedAt := time.zero |}.

(** The dead-letter path for a rejected record: write the poison record, then
    commit its offset.  Both results only change what is logged. *)
Definition dead_letter (msg : Message) (stage : string) (w : world) (env : list answer)
    : world * list answer :=
  let w1 := on_metrics incDecodeErrors (on_iw (set_iw_status ActualStatusError (StageError stage)) w) in
  match env with
  | [] => (w1, [])
  | a :: env1 =>
      match st_poison (an_fault a) (an_now a) (w_db w1) (poison_record msg stage) with
      | (db', Some _) => (log [ADrop msg] (set_db db' w1), env1)
      | (db', None) =>
          let w2 := log [APoison msg] (set_db db' w1) in
          match env1 with
          | [] => (w2, [])
          | a1 :: env2 => (snd (call_commit a1 msg w2), env2)
          end
      end
  end.

(** Flush a non-empty batch; an empty one needs no call. *)
Definition flush_pending (pending : list pendingRecord) (w : world) (env : list answer)
    : bool * world * list answer :=
  match pending with
  | [] => (true, w, env)
  | _ => flushBatch pending w env
  end.

(** Does the batch belong to another partition than [msg]? *)
Definition other_partition (pending : list pendingRecord) (msg : Message) : bool :=
  match pending with
  | r :: _ => negb (ms_Partition (pr_msg r) =? ms_Partition msg)
  | [] => false
  end.

(** What one iteration leaves: go on with a batch, or leave the loop with it. *)
Inductive iteration :=
| Continue (pending : list pendingRecord) (w : world) (env : list answer)
| Return (pending : list pendingRecord) (w : world) (env : list answer).

(** A prepared record joins the batch, which is flushed when full. *)
Definition enqueue (pending : list pendingRecord) (r : pendingRecord) (w : world) (env : list answer)
    : iteration :=
  let pending' := pending ++ [r] in
  if (bc_Size (withDefaults batch) <=? Z.of_nat (length pending')) then
    match flushBatch pending' w env with
    | (true, w', env') => Continue [] w' env'
    | (false, w', env') => Return pending' w' env'
    end
  else Continue pending' w env.

(** The iteration body from [prepare] on. *)
Definition handle_record (pending : list pendingRecord) (msg : Message) (w : world) (env : list answer)
    : iteration :=
  match prepare msg (w_iw w) with
  | (s', Prepared r) => enqueue pending r (on_iw (fun _ => s') w) env
  | (s', Rejected stage) =>
      match flush_pending pending (on_iw (fun _ => s') w) env with
      | (false, w1, env1) => Return pending w1 env1
      | (true, w1, env1) =>
          if isRetryableStage stage
          then Return [] (on_iw (set_iw_status ActualStatusError (StageError stage)) w1) env1
          else let '(w2, env2) := dead_letter msg stage w1 env1 in Continue [] w2 env2
      end
  end.

(** The iteration body after a fetched message. *)
Definition handle_message (pending : list pendingRecord) (msg : Message) (w : world) (env : list answer)
    : iteration :=
  let after_switch (pending : list pendingRecord) (w : world) (env : list answer) :=
    match ensureProgress (ms_Partition msg) w env with
    | (false, w', env') => Return pending w' env'
    | (true, w', env') => handle_record pending msg w' env'
    end in
  if other_partition pending msg then
    match flushBatch pending w env with
    | (false, w', env') => Return pending w' env'
    | (true, w', env') => after_switch [] w' env'
    end
  else after_switch pending w env.

Definition iterate (pending : list pendingRecord) (w : world) (env : list answer) : iteration :=
  match env with
  | [] => Return pending w []
  | a :: env' =>
      match an_fetch a, pending with
      | FMsg msg, _ => handle_message pending msg (log [AFetch msg] w) env'
      | FDeadline, _ :: _ =>
          match flushBatch pending w env' with
          | (true, w', env2) => Continue [] w' env2
          | (false, w', env2) => Continue pending w' env2
          end
      | _, _ => Continue pending (on_iw (set_iw_status ActualStatusError FetchError) w) env'
      end
  end.

(** The loop; [None] is out of fuel. *)
Fixpoint consume_loop (fuel : nat) (pending : list pendingRecord) (w : world) (env : list answer)
    : option (list pendingRecord * world) :=
  match fuel with
  | O => None
  | Datatypes.S f =>
      match iterate pending w env with
      | Return pending' w' _ => Some (pending', w')
      | Continue pending' w' env' => consume_loop f pending' w' env'
      end
  end.

(** [consume] with its deferred flush under a fresh context. *)
Definition consume (flushOnStop : bool) (w : world) (env flush_env : list answer) : option world :=
  match consume_loop (Datatypes.S (length env)) [] w env with
  | None => None
  | Some (pending, w1) =>
      match pending with
      | [] => Some w1
      | _ => if flushOnStop then Some (snd (fst (flushBatch pending w1 flush_env))) else Some w1
      end
  end.

End input_worker.
