(* ===== verification/Consume.v ===== *)
(** * Consume: what a run of an input worker guarantees

    The invariant of the consume loop of InputWorker, by induction over the
    answers of the environment, and the guarantees that follow from it: commits
    cover only handled records, written facts are decoded records, calm runs
    leave nothing behind.  The store is used through its promises only. *)

From S2P Require Import Prelude GoStd Model Kafka Decode Sequence StorageInterface InputWorker.

Open Scope Z_scope.

(** ** Reading a trace *)

Definition fetched (tr : list action) : list Message :=
  omap (fun a => match a with AFetch m => Some m | _ => None end) tr.
Definition commits (tr : list action) : list Message :=
  omap (fun a => match a with ACommit m => Some m | _ => None end) tr.
Definition poisoned (tr : list action) : list Message :=
  omap (fun a => match a with APoison m => Some m | _ => None end) tr.
Definition dropped (tr : list action) : list Message :=
  omap (fun a => match a with ADrop m => Some m | _ => None end) tr.
Definition applied (tr : list action) : list OrderBookDelta :=
  omap (fun a => match a with AApplied d => Some d | _ => None end) tr.
Definition written (tr : list action) : list pendingRecord :=
  concat (omap (fun a => match a with AWrite rs => Some rs | _ => None end) tr).

(** The record reached the store, as part of a written batch or as poison; or
    its poison record could not be written. *)
Definition handled (tr : list action) (m : Message) : Prop :=
  m ∈ map pr_msg (written tr) \/ m ∈ poisoned tr \/ m ∈ dropped tr.

(** Each partition delivers strictly increasing offsets, as a Kafka session
    without a rebalance does. *)
Definition increasing_feed (ms : list Message) : Prop :=
  forall l1 m l2, ms = l1 ++ m :: l2 ->
    Forall (fun m' => ms_Partition m' = ms_Partition m -> ms_Offset m' < ms_Offset m) l1.

(** A commit moves the group past every record of the partition up to its
    offset: none of the fetched ones may still be waiting. *)
Definition commit_safe (tr : list action) : Prop :=
  forall t1 m t2, tr = t1 ++ ACommit m :: t2 ->
    forall m', m' ∈ fetched t1 -> ms_Partition m' = ms_Partition m -> ms_Offset m' <= ms_Offset m ->
    handled t1 m'.

Lemma fetched_app t1 t2 : fetched (t1 ++ t2) = fetched t1 ++ fetched t2.
Proof. apply omap_app. Qed.
Lemma commits_app t1 t2 : commits (t1 ++ t2) = commits t1 ++ commits t2.
Proof. apply omap_app. Qed.
Lemma poisoned_app t1 t2 : poisoned (t1 ++ t2) = poisoned t1 ++ poisoned t2.
Proof. apply omap_app. Qed.
Lemma dropped_app t1 t2 : dropped (t1 ++ t2) = dropped t1 ++ dropped t2.
Proof. apply omap_app. Qed.
Lemma applied_app t1 t2 : applied (t1 ++ t2) = applied t1 ++ applied t2.
Proof. apply omap_app. Qed.
Lemma written_app t1 t2 : written (t1 ++ t2) = written t1 ++ written t2.
Proof. unfold written. by rewrite omap_app, concat_app. Qed.

#[export] Hint Rewrite fetched_app commits_app poisoned_app dropped_app applied_app written_app : mdb_rw.

Lemma handled_app t1 t2 m : handled t1 m -> handled (t1 ++ t2) m.
Proof.
  unfold handled. rewrite written_app, poisoned_app, dropped_app, map_app, !elem_of_app. tauto.
Qed.

(** Extending a safe trace by actions that are not commits. *)
Lemma commit_safe_quiet tr l : commit_safe tr -> commits l = [] -> commit_safe (tr ++ l).
Proof.
  intros Hs Hl t1 m t2 Heq.
  assert (exists t2', tr = t1 ++ ACommit m :: t2') as [t2' ->]; [|by apply (Hs t1 m t2')].
  revert l Hl t2 Heq. induction l as [|a l IH] using rev_ind; intros Hl t2 Heq.
  { exists t2. by rewrite app_nil_r in Heq. }
  rewrite commits_app in Hl. apply app_eq_nil in Hl as [Hl Ha].
  destruct t2 as [|b t2 _] using rev_ind.
  - rewrite app_assoc in Heq. apply app_inj_tail in Heq as [_ ->]. done.
  - rewrite app_comm_cons, !app_assoc in Heq. apply app_inj_tail in Heq as [Heq _]. by apply (IH Hl t2).
Qed.

Lemma commit_safe_commit tr m :
  commit_safe tr ->
  (forall m', m' ∈ fetched tr -> ms_Partition m' = ms_Partition m -> ms_Offset m' <= ms_Offset m -> handled tr m') ->
  commit_safe (tr ++ [ACommit m]).
Proof.
  intros Hs Hm t1 c t2 Heq. destruct t2 as [|b t2 _] using rev_ind.
  - apply app_inj_tail in Heq as [-> [= ->]]. done.
  - rewrite app_comm_cons, app_assoc in Heq. apply app_inj_tail in Heq as [-> _]. by apply (Hs t1 c t2).
Qed.

Lemma commit_safe_nil : commit_safe [].
Proof. intros t1 m t2 Heq. by destruct t1. Qed.

Lemma increasing_feed_app l1 l2 : increasing_feed (l1 ++ l2) -> increasing_feed l1.
Proof. intros H a m b ->. apply (H a m (b ++ l2)). by rewrite <- app_assoc. Qed.

Lemma increasing_feed_last l m m' :
  increasing_feed (l ++ [m]) -> m' ∈ l -> ms_Partition m' = ms_Partition m -> ms_Offset m' < ms_Offset m.
Proof.
  intros H Hm Hp. pose proof (H l m [] eq_refl) as Hf. rewrite Forall_forall in Hf. by apply Hf.
Qed.

Lemma commit_safe_repeat tr m n :
  commit_safe tr ->
  (forall m', m' ∈ fetched tr -> ms_Partition m' = ms_Partition m -> ms_Offset m' <= ms_Offset m -> handled tr m') ->
  commit_safe (tr ++ repeat (ACommit m) n).
Proof.
  intros Hs Hm. induction n as [|n IH]; [by rewrite app_nil_r|].
  replace (repeat (ACommit m) (Datatypes.S n)) with (repeat (ACommit m) n ++ [ACommit m])
    by (symmetry; apply repeat_cons).
  rewrite app_assoc. apply commit_safe_commit; [done|]. intros m' Hm' Hp Ho. apply handled_app.
  apply Hm; [|done..]. rewrite fetched_app in Hm'. apply elem_of_app in Hm' as [Hm'|Hm']; [done|].
  exfalso. clear -Hm'. induction n; [by apply elem_of_nil in Hm'|done].
Qed.

(** Appending a larger number keeps a list of numbers sorted. *)
Lemma sorted_snoc_lt {A} (f : A -> Z) l x :
  StronglySorted Z.lt (map f l) -> Forall (fun y => f y < f x) l ->
  StronglySorted Z.lt (map f (l ++ [x])).
Proof.
  intros Hs Hx. induction l as [|y l IH]; [repeat constructor|].
  simpl in *. apply StronglySorted_inv in Hs as [Hs Hy]. apply Forall_cons in Hx as [Hyx Hx].
  constructor; [by apply IH|]. rewrite map_app. apply Forall_app. split; [done|]. by repeat constructor.
Qed.

(** ** The loops over the environment *)

Section input_worker_facts.
Context `{S : MarketDataStorage} `{L : !MarketDataStorageLaws S} `{Decoders}.
Variables (group : MarketGroup) (input : GroupInput) (batch : BatchConfig) (hook : bool).

(** Nothing durable is taken back. *)
Record db_le (db db' : st_DB) : Prop := {
  dle_durable k : st_durable db k <= st_durable db' k;
  dle_poison c : st_poisoned db c -> st_poisoned db' c
}.

#[local] Instance db_le_refl : Reflexive db_le.
Proof. by constructor. Qed.

#[local] Instance db_le_trans : Transitive db_le.
Proof. intros a b c [] []. constructor; [intros k; etrans; eauto|eauto]. Qed.

Lemma write_db_le f now db b : db_le db (fst (st_write f now db b)).
Proof. constructor; intros; [apply law_write_monotone|by apply law_write_poisoned]. Qed.

Lemma poison_db_le f now db r : db_le db (fst (st_poison f now db r)).
Proof.
  constructor; intros; [by rewrite law_poison_durable|by apply law_poison_monotone].
Qed.

(** The worker fields that decide what is prepared. *)
Definition same_core (s s' : iwState) : Prop :=
  iw_lastDeltaByPartition s' = iw_lastDeltaByPartition s /\
  iw_loadedProgress s' = iw_loadedProgress s /\
  iw_durableByPartition s' = iw_durableByPartition s.

Lemma same_core_refl s : same_core s s.
Proof. done. Qed.

(** The offset of [m] is durable, or its poison record is stored. *)
Definition safe_offset (db : st_DB) (m : Message) : Prop :=
  ms_Offset m <= st_durable db (inputID input, ms_Partition m) \/
  st_poisoned db (inputID input, ms_Partition m, ms_Offset m).

Lemma safe_offset_le db db' m : db_le db db' -> safe_offset db m -> safe_offset db' m.
Proof.
  intros [Hd Hp] [Hs|Hs]; [left|right; auto]. specialize (Hd (inputID input, ms_Partition m)). lia.
Qed.

Lemma write_loop_spec b rs w env ok w' env' :
  write_loop b rs w env = (ok, w', env') ->
  db_le (w_db w) (w_db w') /\ same_core (w_iw w) (w_iw w') /\
  if ok then w_trace w' = w_trace w ++ [AWrite rs] /\ (length env' < length env)%nat /\
             wp_DurableOffset (fb_Progress b) <= st_durable (w_db w') (progress_key (fb_Progress b))
  else w_trace w' = w_trace w /\ env' = [].
Proof.
  revert w. induction env as [|a env IH]; intros w Hw; cbn [write_loop] in Hw.
  { by injection Hw as <- <- <-. }
  pose proof (write_db_le (an_fault a) (an_now a) (w_db w) b) as Hle.
  pose proof (law_write_durable (an_fault a) (an_now a) (w_db w) b) as Hd.
  destruct (st_write _ _ _ _) as [db' [e|]]; cbn [fst snd] in *.
  - destruct (IH _ Hw) as (H1 & H2 & H3). split; [by etrans|]. split; [exact H2|].
    destruct ok; [|done]. destruct H3 as (H3 & H4 & H5). split_and!; [done|simpl; lia|done].
  - injection Hw as <- <- <-. simpl. split_and!; try done; auto.
Qed.

Lemma commit_loop_spec m w env ok w' env' now :
  commit_loop m w env = (ok, w', env', now) ->
  w_db w' = w_db w /\ same_core (w_iw w) (w_iw w') /\
  (exists n, w_trace w' = w_trace w ++ repeat (ACommit m) n) /\
  if ok then (length env' < length env)%nat /\ last (w_trace w') = Some (ACommit m) else env' = [].
Proof.
  revert w. induction env as [|a env IH]; intros w Hw; cbn [commit_loop] in Hw.
  { injection Hw as <- <- <- <-. split_and!; try done. exists 0%nat. by rewrite app_nil_r. }
  unfold call_commit in Hw. destruct (an_commit a) as [effect [|]].
  - injection Hw as <- <- <- <-. rewrite orb_true_r. simpl. split_and!; try done.
    + by exists 1%nat.
    + lia.
    + by rewrite last_snoc.
  - apply IH in Hw as (H1 & H2 & (n & H3) & H4). rewrite orb_false_r in *.
    assert (w_db (if effect then log [ACommit m] w else w) = w_db w) as E1 by (by destruct effect).
    assert (w_iw (if effect then log [ACommit m] w else w) = w_iw w) as E2 by (by destruct effect).
    simpl in H1, H2, H3. rewrite E1 in H1. rewrite E2 in H2. split_and!; [done|done| |].
    + destruct effect; [exists (Datatypes.S n); by rewrite H3; simpl; rewrite <- app_assoc|by exists n].
    + destruct ok; [|done]. destruct H4. split; [simpl; lia|done].
Qed.

Lemma load_loop_spec p w env ok w' env' :
  load_loop input p w env = (ok, w', env') ->
  w_db w' = w_db w /\ w_trace w' = w_trace w /\
  if ok then (length env' < length env)%nat /\
             exists s row, same_core (w_iw w) s /\ w_iw w' = install_progress input p row s /\
               st_durable (w_db w) (inputID input, p) = match row with Some r => wp_DurableOffset r | None => -1 end
  else env' = [] /\ same_core (w_iw w) (w_iw w').
Proof.
  revert w. induction env as [|a env IH]; intros w Hw; cbn [load_loop] in Hw.
  { by injection Hw as <- <- <-. }
  destruct (st_load _ _ _ _) as [row|e] eqn:E.
  - injection Hw as <- <- <-. simpl. split_and!; try done; [lia|].
    exists (w_iw w), row. split_and!; [done|done|]. by apply law_load_exact in E.
  - apply IH in Hw as (H1 & H2 & H3). split_and!; [done|done|].
    destruct ok; [|done]. destruct H3 as (H3 & s & row & H4 & H5 & H6).
    split; [simpl; lia|]. exists s, row. split_and!; [exact H4|done|done].
Qed.

(** ** The invariant of a run *)

(** Where a record of a batch comes from. *)
Record rec_sound (db : st_DB) (r : pendingRecord) : Prop := {
  rs_trade t : pr_trade r = Some t ->
    gi_StreamKind input = StreamKindTrade /\ buildTrade input (pr_msg r) = Ok t;
  rs_kline k : pr_kline r = Some k ->
    gi_StreamKind input = StreamKindKline /\ buildKline input (pr_msg r) = Ok k;
  rs_delta d : pr_delta r = Some d ->
    gi_StreamKind input = StreamKindOrderBookDelta /\
    exists d0, buildOrderBookDelta input (pr_msg r) = Ok d0 /\ d = with_payload d0 (ms_Value (pr_msg r));
  rs_none : pr_trade r = None -> pr_kline r = None -> pr_delta r = None ->
    ms_Offset (pr_msg r) <= st_durable db (inputID input, ms_Partition (pr_msg r)) \/
    (gi_StreamKind input = StreamKindOrderBookDelta /\ exists d0 prev,
       buildOrderBookDelta input (pr_msg r) = Ok d0 /\ checkDeltaContinuity prev d0 = Ok false)
}.

Lemma rec_sound_le db db' r : db_le db db' -> rec_sound db r -> rec_sound db' r.
Proof.
  intros Hle [Ht Hk Hd Hn]. constructor; auto. intros H1 H2 H3.
  destruct (Hn H1 H2 H3) as [Ho|Ho]; [left|by right].
  pose proof (dle_durable _ _ Hle (inputID input, ms_Partition (pr_msg r))). lia.
Qed.

Definition good_feed (ms : list Message) : Prop :=
  increasing_feed ms /\ Forall (fun m => 0 <= ms_Partition m /\ 0 <= ms_Offset m) ms.

Lemma good_feed_app l1 l2 : good_feed (l1 ++ l2) -> good_feed l1.
Proof. intros [H1 H2]. split; [by eapply increasing_feed_app|]. by apply Forall_app in H2 as [H2 _]. Qed.

(** [inflight] is the record fetched last when it is not in the batch yet. *)
Record inv (pending : list pendingRecord) (inflight : list Message) (w : world) : Prop := {
  inv_fetched : exists l, fetched (w_trace w) = l ++ inflight /\
    Forall (fun m => handled (w_trace w) m \/ m ∈ map pr_msg pending) l /\
    (length inflight <= 1)%nat /\
    (increasing_feed (fetched (w_trace w)) ->
     StronglySorted Z.lt (map (fun r => ms_Offset (pr_msg r)) pending)) /\
    Forall (fun r => pr_msg r ∈ l) pending;
  inv_partition : forall r1 r2, r1 ∈ pending -> r2 ∈ pending ->
    ms_Partition (pr_msg r1) = ms_Partition (pr_msg r2);
  inv_safe : increasing_feed (fetched (w_trace w)) -> commit_safe (w_trace w);
  inv_durable : Forall (safe_offset (w_db w)) (commits (w_trace w));
  inv_loaded : forall p, p ∈ iw_loadedProgress (w_iw w) ->
    exists d, iw_durableByPartition (w_iw w) !! p = Some d /\ d <= st_durable (w_db w) (inputID input, p);
  inv_sound : Forall (rec_sound (w_db w)) (pending ++ written (w_trace w))
}.

(** The invariant looks at the worker through [same_core] only. *)
Lemma inv_core pending inflight w s m :
  same_core (w_iw w) s -> inv pending inflight w ->
  inv pending inflight (mkWorld s (w_db w) (w_trace w) m).
Proof.
  intros (_ & H2 & H3) [? ? ? ? Hl ?]. constructor; simpl; try done. by rewrite H2, H3.
Qed.

(** The facts of a batch carry the coordinates of their records. *)
Lemma buildTrade_coord msg t :
  buildTrade input msg = Ok t -> trade_coord t = (inputID input, ms_Partition msg, ms_Offset msg).
Proof.
  unfold buildTrade. intros H0. apply bind_Ok in H0 as (tm & _ & H0).
  apply bind_Ok in H0 as (side & _ & H0). by injection H0 as <-.
Qed.

Lemma buildKline_coord msg k :
  buildKline input msg = Ok k -> kline_coord k = (inputID input, ms_Partition msg, ms_Offset msg).
Proof.
  unfold buildKline. intros H0. apply bind_Ok in H0 as (km & _ & H0).
  apply bind_Ok in H0 as (source & _ & H0). by injection H0 as <-.
Qed.

Lemma buildOrderBookDelta_coord msg d v :
  buildOrderBookDelta input msg = Ok d ->
  delta_coord (with_payload d v) = (inputID input, ms_Partition msg, ms_Offset msg).
Proof.
  unfold buildOrderBookDelta. intros H0. apply bind_Ok in H0 as (dm & _ & H0).
  apply bind_Ok in H0 as (u & _ & H0). by injection H0 as <-.
Qed.

(** Rows extracted from sorted records of one partition are valid rows. *)
Lemma rows_valid_omap {A} (f : pendingRecord -> option A) (coord : A -> string * Z * Z) p records :
  wp_InputID p = inputID input ->
  Forall (fun r => ms_Partition (pr_msg r) = wp_KafkaPartition p /\
                   0 <= ms_Offset (pr_msg r) <= wp_DurableOffset p) records ->
  (forall r x, r ∈ records -> f r = Some x ->
     coord x = (inputID input, ms_Partition (pr_msg r), ms_Offset (pr_msg r))) ->
  StronglySorted Z.lt (map (fun r => ms_Offset (pr_msg r)) records) ->
  rows_valid p (map coord (omap f records)).
Proof.
  intros Hi Hp Hc Hs. unfold rows_valid. induction records as [|r records IH]; [split; constructor|].
  apply Forall_cons in Hp as [[Hpr Ho] Hp]. simpl in Hs. apply StronglySorted_inv in Hs as [Hs Hlt].
  destruct IH as [IH1 IH2]; [done|intros; apply Hc; [by right|done]|done|].
  simpl. destruct (f r) as [x|] eqn:Ex; [|done].
  pose proof (Hc r x ltac:(by left) Ex) as Hx. simpl. split.
  - constructor; [|done]. unfold in_prefix, progress_key. rewrite Hx, Hi, <- Hpr. done.
  - constructor; [done|]. rewrite Hx. simpl. rewrite !Forall_map in *.
    apply Forall_forall. intros y Hy. apply list_elem_of_omap in Hy as (r' & Hr' & Hfr').
    rewrite (Hc r' y) by (try (by right); done). simpl. rewrite Forall_forall in Hlt. by apply Hlt.
Qed.

Lemma inputID_not_empty : inputID input <> "".
Proof.
  unfold inputID. case_bool_decide; [done|]. unfold NewInputID.
  destruct (gi_GroupID input); simpl; discriminate.
Qed.

(** ** Batches the worker builds are acceptable *)

Lemma omap_none {A B} (f : A -> option B) l : (forall x, x ∈ l -> f x = None) -> omap f l = [].
Proof.
  induction l as [|x l IH]; intros Hf; [done|]. simpl. rewrite (Hf x) by by left.
  apply IH. intros y Hy. apply Hf. by right.
Qed.

Lemma records_one_kind db records s lastr :
  Forall (rec_sound db) records -> one_kind (batch_of input s records lastr).
Proof.
  intros Hs. rewrite Forall_forall in Hs. unfold one_kind. cbn [batch_of fb_Trades fb_Klines fb_OrderBookDeltas].
  assert (gi_StreamKind input <> StreamKindTrade -> omap pr_trade records = []) as Ht.
  { intros Hk. apply omap_none. intros r Hr. destruct (pr_trade r) eqn:E; [|done].
    by destruct (rs_trade _ _ (Hs r Hr) _ E). }
  assert (gi_StreamKind input <> StreamKindKline -> omap pr_kline records = []) as Hkl.
  { intros Hk. apply omap_none. intros r Hr. destruct (pr_kline r) eqn:E; [|done].
    by destruct (rs_kline _ _ (Hs r Hr) _ E). }
  assert (gi_StreamKind input <> StreamKindOrderBookDelta -> omap pr_delta records = []) as Hd.
  { intros Hk. apply omap_none. intros r Hr. destruct (pr_delta r) eqn:E; [|done].
    by destruct (rs_delta _ _ (Hs r Hr) _ E). }
  destruct (decide (gi_StreamKind input = StreamKindTrade)) as [E|E].
  { left. split; [apply Hkl|apply Hd]; by rewrite E. }
  destruct (decide (gi_StreamKind input = StreamKindKline)) as [E'|E'].
  { right. left. split; [by apply Ht|apply Hd; by rewrite E']. }
  right. right. split; [by apply Ht|by apply Hkl].
Qed.

(** In a sorted non-empty list the last element bounds the others. *)
Lemma sorted_last (f : pendingRecord -> Z) l r :
  StronglySorted Z.lt (map f l) -> last l = Some r -> Forall (fun x => f x <= f r) l.
Proof.
  intros Hs. revert Hs. induction l as [|x l IH]; intros Hs Hl; [done|].
  simpl in Hs. apply StronglySorted_inv in Hs as [Hs Hx].
  destruct l as [|y l]; [injection Hl as ->; constructor; [lia|constructor]|].
  assert (last (y :: l) = Some r) as Hl' by exact Hl. constructor; [|by apply IH].
  apply last_Some_elem_of in Hl'. rewrite Forall_map, Forall_forall in Hx. specialize (Hx r Hl'). lia.
Qed.

Lemma batch_of_valid pending inflight w s lastr :
  inv pending inflight w -> good_feed (fetched (w_trace w)) -> last pending = Some lastr ->
  batch_valid (batch_of input s pending lastr).
Proof.
  intros Hinv [Hinc Hpos] Hlast. destruct Hinv as [(l & Hf & _ & _ & Hsort & Hpl) Hpart _ _ _ Hsound].
  pose proof (last_Some_elem_of _ _ Hlast) as Hin. specialize (Hsort Hinc).
  apply Forall_app in Hsound as [Hsound _].
  rewrite Hf, Forall_app in Hpos. destruct Hpos as [Hpos _]. rewrite Forall_forall in Hpos. rewrite Forall_forall in Hpl.
  assert (Forall (fun r => ms_Partition (pr_msg r) = ms_Partition (pr_msg lastr) /\
                           0 <= ms_Offset (pr_msg r) <= ms_Offset (pr_msg lastr)) pending) as Hrows.
  { pose proof (sorted_last (fun r => ms_Offset (pr_msg r)) pending lastr Hsort Hlast) as Hle.
    rewrite Forall_forall in Hle |- *. intros r Hr. split; [by apply Hpart|].
    split; [by apply Hpos, Hpl|by apply Hle]. }
  pose proof (records_one_kind (w_db w) pending s lastr Hsound) as Hone.
  rewrite Forall_forall in Hsound. destruct (Hpos _ (Hpl _ Hin)) as [Hp0 Ho0].
  split_and!; [apply inputID_not_empty|exact Hp0|exact Ho0|exact Hone|..];
    (eapply rows_valid_omap; [reflexivity|exact Hrows| |exact Hsort]); intros r x Hr Hx.
  - destruct (rs_trade _ _ (Hsound r Hr) x Hx). by apply buildTrade_coord.
  - destruct (rs_kline _ _ (Hsound r Hr) x Hx). by apply buildKline_coord.
  - destruct (rs_delta _ _ (Hsound r Hr) x Hx) as (_ & d0 & Hd0 & ->). by apply buildOrderBookDelta_coord.
Qed.

(** ** Flushing *)

Lemma fetched_repeat m n : fetched (repeat (ACommit m) n) = [].
Proof. induction n; [done|]. by simpl. Qed.
Lemma written_repeat m n : written (repeat (ACommit m) n) = [].
Proof. induction n; [done|]. by simpl. Qed.
Lemma commits_repeat m n : commits (repeat (ACommit m) n) = repeat m n.
Proof. induction n; [done|]. simpl. by f_equal. Qed.
Lemma fetched_applied ds : fetched (map AApplied ds) = [].
Proof. induction ds; [done|]. by simpl. Qed.
Lemma written_applied ds : written (map AApplied ds) = [].
Proof. induction ds; [done|]. by simpl. Qed.
Lemma commits_applied ds : commits (map AApplied ds) = [].
Proof. induction ds; [done|]. by simpl. Qed.

(** What a flush appends to the trace. *)
Record flush_effect (records : list pendingRecord) (lastr : pendingRecord) (ok : bool)
    (w w' : world) : Prop := {
  fe_db : db_le (w_db w) (w_db w');
  fe_loaded : iw_loadedProgress (w_iw w') = iw_loadedProgress (w_iw w);
  fe_deltas : iw_lastDeltaByPartition (w_iw w') = iw_lastDeltaByPartition (w_iw w);
  fe_durable : iw_durableByPartition (w_iw w') =
    (if ok then <[ms_Partition (pr_msg lastr) := ms_Offset (pr_msg lastr)]> else id)
      (iw_durableByPartition (w_iw w));
  fe_trace : w_trace w' = w_trace w \/
    (exists n ds, w_trace w' = w_trace w ++ AWrite records :: repeat (ACommit (pr_msg lastr)) n ++ map AApplied ds) /\
    ms_Offset (pr_msg lastr) <= st_durable (w_db w') (inputID input, ms_Partition (pr_msg lastr));
  fe_ok : ok = true -> w_trace w' <> w_trace w
}.

Lemma flushBatch_effect records lastr w env ok w' env' :
  last records = Some lastr -> flushBatch input hook records w env = (ok, w', env') ->
  flush_effect records lastr ok w w' /\
  if ok then (length env' < length env)%nat else env' = [].
Proof.
  intros Hlast Hf. unfold flushBatch in Hf. rewrite Hlast in Hf.
  destruct (write_loop _ _ _ _) as [[okw w1] env1] eqn:Ew.
  apply write_loop_spec in Ew as (Hdb & (Hc1 & Hc2 & Hc3) & Hw).
  destruct okw; cycle 1.
  { injection Hf as <- <- <-. destruct Hw as [Ht ->]. split; [|done].
    constructor; try done. by left. }
  destruct Hw as (Ht & Hlen & Hd).
  set (w2 := on_metrics _ w1) in Hf.
  destruct (commit_loop _ _ _) as [[[okc w3] env2] now] eqn:Ec.
  apply commit_loop_spec in Ec as (Hdb3 & (Hd1 & Hd2 & Hd3) & (n & Ht3) & Hc).
  change (w_db w2) with (w_db w1) in Hdb3. change (w_iw w2) with (w_iw w1) in *.
  change (w_trace w2) with (w_trace w1) in Ht3. rewrite Ht in Ht3.
  destruct okc; injection Hf as <- <- <-.
  - destruct Hc as [Hlen2 _]. split; [|lia].
    unfold after_commit. constructor.
    + destruct (hook && _); simpl; by rewrite Hdb3.
    + destruct (hook && _); simpl; congruence.
    + destruct (hook && _); simpl; congruence.
    + destruct (hook && _); simpl; congruence.
    + right. split; [|destruct (hook && _); simpl; by rewrite Hdb3].
      destruct (hook && _); simpl; rewrite Ht3.
      * exists n, (omap pr_delta records). by rewrite <- !app_assoc.
      * exists n, []. by rewrite app_nil_r, <- app_assoc.
    + intros _. destruct (hook && _); simpl; rewrite Ht3, <- ?app_assoc;
        intros E%(f_equal (@length action)); rewrite length_app in E; simpl in E; lia.
  - split; [|done]. constructor.
    + by rewrite Hdb3.
    + congruence.
    + congruence.
    + simpl. congruence.
    + right. split; [|by rewrite Hdb3]. exists n, []. by rewrite Ht3, app_nil_r, <- app_assoc.
    + done.
Qed.

(** The written records appear in the trace. *)
Lemma written_flush tr records m n ds :
  written (tr ++ AWrite records :: repeat (ACommit m) n ++ map AApplied ds) = written tr ++ records.
Proof.
  rewrite written_app. f_equal. change (written (AWrite records :: ?x)) with (records ++ written x).
  by rewrite written_app, written_repeat, written_applied, !app_nil_r.
Qed.

Lemma fetched_flush tr records m n ds :
  fetched (tr ++ AWrite records :: repeat (ACommit m) n ++ map AApplied ds) = fetched tr.
Proof.
  rewrite fetched_app. change (fetched (AWrite records :: ?x)) with (fetched x).
  by rewrite fetched_app, fetched_repeat, fetched_applied, !app_nil_r.
Qed.

Lemma commits_flush tr records m n ds :
  commits (tr ++ AWrite records :: repeat (ACommit m) n ++ map AApplied ds) = commits tr ++ repeat m n.
Proof.
  rewrite commits_app. change (commits (AWrite records :: ?x)) with (commits x).
  by rewrite commits_app, commits_repeat, commits_applied, !app_nil_r.
Qed.

Lemma handled_flush tr records rest m :
  handled tr m \/ m ∈ map pr_msg records -> handled (tr ++ AWrite records :: rest) m.
Proof.
  intros [Hm|Hm]; [by apply handled_app|]. left. rewrite written_app, map_app, elem_of_app. right.
  change (written (AWrite records :: rest)) with (records ++ written rest).
  rewrite map_app. apply elem_of_app. by left.
Qed.

(** A flush keeps the trace safe: what its commit covers was just written. *)
Lemma flush_safe pending inflight w lastr n ds :
  inv pending inflight w -> last pending = Some lastr ->
  increasing_feed (fetched (w_trace w)) ->
  commit_safe (w_trace w ++ AWrite pending :: repeat (ACommit (pr_msg lastr)) n ++ map AApplied ds).
Proof.
  intros [(l & Hf & Hh & Hone & _ & Hpl) _ Hsafe _ _ _] Hlast Hinc.
  replace (w_trace w ++ AWrite pending :: repeat (ACommit (pr_msg lastr)) n ++ map AApplied ds)
    with (((w_trace w ++ [AWrite pending]) ++ repeat (ACommit (pr_msg lastr)) n) ++ map AApplied ds)
    by (by rewrite <- !app_assoc).
  apply commit_safe_quiet; [|apply commits_applied].
  apply commit_safe_repeat; [apply commit_safe_quiet; [by apply Hsafe|done]|].
  intros m' Hm' Hp Ho. apply handled_flush.
  rewrite fetched_app in Hm'. simpl in Hm'. rewrite app_nil_r, Hf in Hm'.
  apply elem_of_app in Hm' as [Hm'|Hm'].
  { rewrite Forall_forall in Hh. by apply Hh. }
  exfalso. destruct inflight as [|x [|]]; [by apply elem_of_nil in Hm'| |simpl in Hone; lia].
  apply list_elem_of_singleton in Hm' as ->. rewrite Forall_forall in Hpl.
  assert (pr_msg lastr ∈ l) as Hl by (by apply Hpl, last_Some_elem_of).
  rewrite Hf in Hinc. pose proof (increasing_feed_last l x (pr_msg lastr) Hinc Hl). lia.
Qed.

(** A flush keeps the invariant; a successful one empties the batch. *)
Lemma flush_inv pending inflight w lastr ok w' :
  last pending = Some lastr -> flush_effect pending lastr ok w w' -> inv pending inflight w ->
  inv (if ok then [] else pending) inflight w'.
Proof.
  intros Hlast [Hdb Hload _ Hdur Htr Hok] Hinv.
  pose proof (flush_safe pending inflight w lastr) as Hsafe'.
  pose proof Hinv as [(l & Hf & Hh & Hone & Hsort & Hpl) Hpart Hsafe Hdurable Hloaded Hsound].
  assert (fetched (w_trace w') = fetched (w_trace w)) as Hfe.
  { destruct Htr as [->|[(n & ds & ->) _]]; [done|apply fetched_flush]. }
  assert (Forall (safe_offset (w_db w')) (commits (w_trace w))) as Hco.
  { eapply Forall_impl; [exact Hdurable|]. intros m. by apply safe_offset_le. }
  assert (Forall (rec_sound (w_db w')) pending /\ Forall (rec_sound (w_db w')) (written (w_trace w))) as [Hs1 Hs2].
  { apply Forall_app. eapply Forall_impl; [exact Hsound|]. intros r. by apply rec_sound_le. }
  constructor.
  - exists l. rewrite Hfe. split; [done|]. split; [|split; [done|]].
    + eapply Forall_impl; [exact Hh|]. cbv beta. intros m Hm.
      destruct ok, Htr as [Htr|[(n & ds & Htr) _]]; rewrite Htr.
      * exfalso. by apply Hok.
      * left. by apply handled_flush.
      * exact Hm.
      * left. by apply handled_flush.
    + destruct ok; [split; [constructor|constructor]|done].
  - destruct ok; [|exact Hpart]. intros r1 r2 Hr. by apply elem_of_nil in Hr.
  - rewrite Hfe. intros Hinc. destruct Htr as [->|[(n & ds & ->) _]]; [by apply Hsafe|by apply Hsafe'].
  - destruct Htr as [->|[(n & ds & ->) Ho]]; [done|]. rewrite commits_flush. apply Forall_app. split; [done|].
    apply Forall_forall. intros m Hm. apply list_elem_of_In, repeat_spec in Hm as ->. by left.
  - rewrite Hload, Hdur. intros p Hp. destruct (Hloaded p Hp) as (d & Hd & Hle).
    pose proof (dle_durable _ _ Hdb (inputID input, p)) as Hmono.
    destruct ok; [|exists d; split; [done|lia]].
    destruct Htr as [Htr|[_ Ho]]; [exfalso; by apply Hok|].
    destruct (decide (ms_Partition (pr_msg lastr) = p)) as [<-|Hne].
    + exists (ms_Offset (pr_msg lastr)). by rewrite lookup_insert_eq.
    + exists d. rewrite lookup_insert_ne by done. split; [done|lia].
  - assert (Forall (rec_sound (w_db w')) (written (w_trace w'))) as Hw'.
    { destruct Htr as [->|[(n & ds & ->) _]]; [done|]. rewrite written_flush. by apply Forall_app. }
    apply Forall_app. split; [by destruct ok|done].
Qed.

(** ** Loading progress and preparing records *)

Lemma install_progress_core p row s :
  iw_loadedProgress (install_progress input p row s) = {[p]} ∪ iw_loadedProgress s /\
  iw_durableByPartition (install_progress input p row s) =
    <[p := match row with Some r => wp_DurableOffset r | None => -1 end]> (iw_durableByPartition s).
Proof. destruct row as [r|]; [|done]. unfold install_progress. by case_bool_decide. Qed.

Lemma ensureProgress_inv pending inflight p w env ok w' env' :
  ensureProgress input p w env = (ok, w', env') -> inv pending inflight w ->
  inv pending inflight w' /\ w_trace w' = w_trace w /\ w_db w' = w_db w /\ (length env' <= length env)%nat /\
  if ok then p ∈ iw_loadedProgress (w_iw w') else env' = [].
Proof.
  unfold ensureProgress. case_bool_decide as Hp.
  { intros [= <- <- <-] Hinv. by split_and!. }
  intros Hl Hinv. apply load_loop_spec in Hl as (Hdb & Htr & Hok).
  assert (forall s, same_core (w_iw w) s -> inv pending inflight (mkWorld s (w_db w) (w_trace w) (w_metrics w'))) as Hc
    by (intros s Hs; by apply inv_core).
  destruct ok.
  - destruct Hok as (Hlen & s & row & Hcore & Hiw & Hd).
    destruct (install_progress_core p row s) as [Hlo Hdu].
    split_and!; [|done|done|lia|rewrite Hiw, Hlo; set_solver].
    destruct (Hc s Hcore) as [H1 H2 H3 H4 H5 H6]. constructor; rewrite ?Htr, ?Hdb; try done.
    rewrite Hiw, Hlo, Hdu. intros q Hq.
    destruct (decide (p = q)) as [<-|Hne].
    + rewrite lookup_insert_eq. eexists. split; [done|]. rewrite Hd. lia.
    + rewrite lookup_insert_ne by done. apply H5. set_solver.
  - destruct Hok as [-> Hcore]. split_and!; [|done|done|simpl; lia|done].
    pose proof (Hc (w_iw w') Hcore) as Hi. rewrite <- Hdb, <- Htr in Hi. by destruct w'.
Qed.

(** The only stage a rejected record has is "decode". *)
Lemma prepare_stage msg s s' stage : prepare input msg s = (s', Rejected stage) -> stage = "decode" /\ s' = s.
Proof.
  unfold prepare, prepare_delta. intros Hp.
  repeat case_match; simplify_eq; try done.
  all: destruct (check_total (iw_lastDeltaByPartition s' !! ms_Partition msg) a) as [b Hb]; congruence.
Qed.

Lemma prepare_sound msg s s' r db :
  prepare input msg s = (s', Prepared r) ->
  durable_at (ms_Partition msg) s <= st_durable db (inputID input, ms_Partition msg) ->
  pr_msg r = msg /\ rec_sound db r /\ iw_loadedProgress s' = iw_loadedProgress s /\
  iw_durableByPartition s' = iw_durableByPartition s.
Proof.
  unfold prepare, prepare_delta. intros Hp Hd.
  destruct (Z.leb_spec (ms_Offset msg) (durable_at (ms_Partition msg) s)) as [Hle|_].
  { injection Hp as <- <-. split_and!; try done. constructor; try done. intros _ _ _. left. simpl. lia. }
  case_bool_decide as Ht.
  { destruct (buildTrade input msg) as [t|] eqn:E; [|done]. injection Hp as <- <-.
    split_and!; try done. constructor; simpl; try done. by intros t' [= <-]. }
  case_bool_decide as Hk.
  { destruct (buildKline input msg) as [k|] eqn:E; [|done]. injection Hp as <- <-.
    split_and!; try done. constructor; simpl; try done. by intros k' [= <-]. }
  case_bool_decide as Ho; [|done].
  destruct (buildOrderBookDelta input msg) as [d|] eqn:E; [|done].
  destruct (check_total (iw_lastDeltaByPartition s !! ms_Partition msg) d) as [adv Hadv].
  rewrite Hadv in Hp. destruct adv; injection Hp as <- <-; (split_and!; try done).
  - constructor; simpl; try done. intros d' [= <-]. split; [done|]. by exists d.
  - constructor; simpl; try done. intros _ _ _. right. split; [done|]. by exists d, (iw_lastDeltaByPartition s !! ms_Partition msg).
Qed.

(** ** One iteration *)

Lemma inv_fetch pending w m : inv pending [] w -> inv pending [m] (log [AFetch m] w).
Proof.
  intros [(l & Hf & Hh & _ & Hsort & Hpl) Hpart Hsafe Hd Hl Hs].
  rewrite app_nil_r in Hf. subst l.
  assert (fetched (w_trace w ++ [AFetch m]) = fetched (w_trace w) ++ [m]) as Hfe by apply fetched_app.
  constructor; simpl; try done.
  - exists (fetched (w_trace w)). split_and!; [done| |simpl; lia| |done].
    + eapply Forall_impl; [exact Hh|]. intros x [Hx|Hx]; [left; by apply handled_app|by right].
    + rewrite Hfe. intros Hi. apply Hsort. by eapply increasing_feed_app.
  - rewrite Hfe. intros Hi. apply commit_safe_quiet; [|done]. apply Hsafe. by eapply increasing_feed_app.
  - rewrite commits_app. simpl. by rewrite app_nil_r.
  - rewrite written_app. change (written [AFetch m]) with (@nil pendingRecord). by rewrite app_nil_r.
Qed.

Lemma inv_enqueue pending w r :
  inv pending [pr_msg r] w -> rec_sound (w_db w) r ->
  (forall x, x ∈ pending -> ms_Partition (pr_msg x) = ms_Partition (pr_msg r)) ->
  inv (pending ++ [r]) [] w.
Proof.
  intros [(l & Hf & Hh & _ & Hsort & Hpl) Hpart Hsafe Hd Hl Hs] Hr Hp.
  constructor; try done.
  - exists (l ++ [pr_msg r]). rewrite app_nil_r. split_and!; [done| |simpl; lia| |].
    + rewrite map_app. apply Forall_app. split.
      * eapply Forall_impl; [exact Hh|]. intros x [Hx|Hx]; [by left|right; apply elem_of_app; by left].
      * constructor; [|constructor]. right. apply elem_of_app. right. by apply list_elem_of_singleton.
    + intros Hi. specialize (Hsort Hi). rewrite Hf in Hi.
      apply sorted_snoc_lt; [done|]. rewrite Forall_forall in Hpl |- *. intros x Hx.
      apply (increasing_feed_last l (pr_msg r)); [done|by apply Hpl|by apply Hp].
    + apply Forall_app. split; [|constructor; [|constructor]; apply elem_of_app; right; by apply list_elem_of_singleton].
      eapply Forall_impl; [exact Hpl|]. cbv beta. intros x Hx. apply elem_of_app. by left.
  - intros r1 r2 [H1|H1%list_elem_of_singleton]%elem_of_app [H2|H2%list_elem_of_singleton]%elem_of_app;
      subst; auto. symmetry. auto.
  - apply Forall_app in Hs as [Hs1 Hs2]. rewrite <- app_assoc. apply Forall_app. split; [done|]. by constructor.
Qed.

(** A record that is poisoned or dropped is no longer in flight. *)
Lemma inv_dispose w msg a db' :
  inv [] [msg] w -> db_le (w_db w) db' -> a = APoison msg \/ a = ADrop msg ->
  inv [] [] (log [a] (set_db db' w)).
Proof.
  intros [(l & Hf & Hh & _ & _ & _) _ Hsafe Hd Hl Hs] Hle Ha.
  assert (fetched (w_trace w ++ [a]) = fetched (w_trace w)) as Hfe.
  { rewrite fetched_app. destruct Ha as [-> | ->]; apply app_nil_r. }
  assert (commits [a] = [] /\ written [a] = []) as [Hca Hwa] by (by destruct Ha as [-> | ->]).
  constructor; simpl.
  - exists (l ++ [msg]). rewrite Hfe, app_nil_r. split_and!; [done| |simpl; lia|constructor|constructor].
    apply Forall_app. split.
    + eapply Forall_impl; [exact Hh|]. intros x [Hx|Hx]; [left; by apply handled_app|by apply elem_of_nil in Hx].
    + constructor; [|constructor]. left. unfold handled. rewrite poisoned_app, dropped_app, !elem_of_app.
      destruct Ha as [-> | ->]; [right; left|right; right]; right; by apply list_elem_of_singleton.
  - intros r1 r2 Hr. by apply elem_of_nil in Hr.
  - rewrite Hfe. intros Hi. apply commit_safe_quiet; [by apply Hsafe|done].
  - rewrite commits_app, Hca, app_nil_r. eapply Forall_impl; [exact Hd|]. intros m. by apply safe_offset_le.
  - intros p Hp. destruct (Hl p Hp) as (d & Hd1 & Hd2). exists d. split; [done|].
    pose proof (dle_durable _ _ Hle (inputID input, p)). lia.
  - rewrite written_app, Hwa, app_nil_r. eapply Forall_impl; [exact Hs|]. intros r. by apply rec_sound_le.
Qed.

(** The commit after a stored poison record. *)
Lemma inv_poison_commit w msg a :
  inv [] [] w -> safe_offset (w_db w) msg -> inv [] [] (snd (call_commit a msg w)).
Proof.
  intros Hinv Hm. unfold call_commit. destruct (an_commit a) as [e s]. simpl.
  destruct (e || s); [|done].
  destruct Hinv as [(l & Hf & Hh & _ & _ & _) _ Hsafe Hd Hl Hs].
  rewrite app_nil_r in Hf. subst l.
  assert (fetched (w_trace w ++ [ACommit msg]) = fetched (w_trace w)) as Hfe
    by (rewrite fetched_app; apply app_nil_r).
  constructor; simpl; try done.
  - exists (fetched (w_trace w)). rewrite Hfe, app_nil_r. split_and!; [done| |simpl; lia|constructor|constructor].
    eapply Forall_impl; [exact Hh|]. intros x [Hx|Hx]; [left; by apply handled_app|by apply elem_of_nil in Hx].
  - intros r1 r2 Hr. by apply elem_of_nil in Hr.
  - rewrite Hfe. intros Hi. apply commit_safe_commit; [by apply Hsafe|]. intros m' Hm' _ _.
    rewrite Forall_forall in Hh. destruct (Hh m' Hm') as [Hx|Hx]; [done|by apply elem_of_nil in Hx].
  - rewrite commits_app. apply Forall_app. split; [done|]. constructor; [done|constructor].
  - rewrite written_app. change (written [ACommit msg]) with (@nil pendingRecord). by rewrite app_nil_r.
Qed.

Lemma dead_letter_inv msg stage w env w' env' :
  dead_letter group input msg stage w env = (w', env') -> inv [] [msg] w ->
  (length env' <= length env)%nat /\ exists inflight, inv [] inflight w' /\ (env' = [] \/ inflight = []).
Proof.
  unfold dead_letter. intros Hd Hinv.
  set (w1 := on_metrics _ _) in Hd.
  assert (inv [] [msg] w1) as Hinv1 
    by exact (inv_core [] [msg] w (w_iw w1) (w_metrics w1) (conj eq_refl (conj eq_refl eq_refl)) Hinv).
  destruct env as [|a env]; [injection Hd as <- <-; split; [done|]; exists [msg]; by auto|].
  pose proof (poison_db_le (an_fault a) (an_now a) (w_db w1) (poison_record group input msg stage)) as Hle.
  pose proof (law_poison_recorded (an_fault a) (an_now a) (w_db w1) (poison_record group input msg stage)) as Hrec.
  destruct (st_poison _ _ _ _) as [db' [e|]]; cbn [fst snd] in *.
  - injection Hd as <- <-. split; [simpl; lia|]. exists []. split; [|by right].
    apply inv_dispose with (msg := msg); auto.
  - assert (inv [] [] (log [APoison msg] (set_db db' w1))) as Hinv2 by (apply inv_dispose with (msg := msg); auto).
    destruct env as [|a1 env]; injection Hd as <- <-.
    + split; [simpl; lia|]. exists []. by auto.
    + split; [simpl; lia|]. exists []. split; [|by right]. apply inv_poison_commit; [done|].
      right. by apply Hrec.
Qed.

(** The state after an iteration: with a batch while it goes on, and possibly a
    record in flight once it has returned. *)
Definition iteration_inv (n : nat) (it : iteration) : Prop :=
  match it with
  | Continue p w env => (length env <= n)%nat /\
      exists inflight, inv p inflight w /\ (env = [] \/ inflight = [])
  | Return p w _ => exists inflight, inv p inflight w
  end.

Lemma last_cons_Some {A} (x : A) l : exists y, last (x :: l) = Some y.
Proof.
  destruct (last (x :: l)) as [y|] eqn:E; [by exists y|]. by apply last_None in E.
Qed.

Lemma flush_pending_inv pending inflight w env ok w' env' :
  flush_pending input hook pending w env = (ok, w', env') -> inv pending inflight w ->
  inv (if ok then [] else pending) inflight w' /\ (length env' <= length env)%nat /\
  (forall p, p ∈ iw_loadedProgress (w_iw w) -> p ∈ iw_loadedProgress (w_iw w')).
Proof.
  unfold flush_pending. destruct pending as [|r rs].
  { intros [= <- <- <-] Hinv. by split_and!. }
  intros Hf Hinv. destruct (last_cons_Some r rs) as [lastr Hlast].
  apply (flushBatch_effect _ lastr) in Hf as [He Hl]; [|done].
  split; [by eapply flush_inv|]. split; [destruct ok; [lia|subst; simpl; lia]|].
  intros p Hp. by rewrite (fe_loaded _ _ _ _ _ He).
Qed.

Lemma enqueue_inv pending r w env :
  inv pending [pr_msg r] w -> rec_sound (w_db w) r ->
  (forall x, x ∈ pending -> ms_Partition (pr_msg x) = ms_Partition (pr_msg r)) ->
  iteration_inv (length env) (enqueue input batch hook pending r w env).
Proof.
  intros Hinv Hr Hp. pose proof (inv_enqueue pending w r Hinv Hr Hp) as Hinv'.
  unfold enqueue. destruct (_ <=? _); [|split; [done|exists []; auto]].
  destruct (flushBatch _ _ _ _ _) as [[ok w'] env'] eqn:E.
  apply (flushBatch_effect _ r) in E as [He Hl]; [|by rewrite last_snoc].
  assert (inv (if ok then [] else pending ++ [r]) [] w') as Hf
    by (eapply flush_inv; [by rewrite last_snoc|done|done]).
  destruct ok; simpl; [split; [lia|exists []; auto]|by eexists].
Qed.

Lemma handle_record_inv pending msg w env :
  inv pending [msg] w -> ms_Partition msg ∈ iw_loadedProgress (w_iw w) ->
  (forall x, x ∈ pending -> ms_Partition (pr_msg x) = ms_Partition msg) ->
  iteration_inv (length env) (handle_record group input batch hook pending msg w env).
Proof.
  intros Hinv Hload Hp. unfold handle_record.
  assert (durable_at (ms_Partition msg) (w_iw w) <= st_durable (w_db w) (inputID input, ms_Partition msg)) as Hd.
  { destruct (inv_loaded _ _ _ Hinv _ Hload) as (d & Hd & Hle). unfold durable_at. by rewrite Hd. }
  destruct (prepare input msg (w_iw w)) as [s' [r|stage]] eqn:E.
  - apply (prepare_sound msg _ _ _ (w_db w)) in E as (<- & Hr & Hl1 & Hl2); [|done].
    apply enqueue_inv; [|done|done].
    destruct Hinv as [H1 H2 H3 H4 H5 H6]. constructor; simpl; try done. by rewrite Hl1, Hl2.
  - apply prepare_stage in E as [-> ->].
    destruct (flush_pending _ _ _ _ _) as [[ok w1] env1] eqn:Ef.
    apply (flush_pending_inv _ [msg]) in Ef as (Hinv1 & Hlen & _); [|by destruct w].
    destruct ok; [|by exists [msg]].
    change (isRetryableStage "decode") with false. cbv iota.
    destruct (dead_letter _ _ _ _ _ _) as [w2 env2] eqn:Ed.
    apply dead_letter_inv in Ed as (Hlen2 & inflight & Hinv2 & Hor); [|done].
    split; [lia|]. by exists inflight.
Qed.

Lemma handle_message_inv pending msg w env :
  inv pending [msg] w -> iteration_inv (length env) (handle_message group input batch hook pending msg w env).
Proof.
  intros Hinv. unfold handle_message.
  assert (forall p w1 env1, inv p [msg] w1 -> (length env1 <= length env)%nat ->
    (forall x, x ∈ p -> ms_Partition (pr_msg x) = ms_Partition msg) ->
    iteration_inv (length env)
      match ensureProgress input (ms_Partition msg) w1 env1 with
      | (true, w', env') => handle_record group input batch hook p msg w' env'
      | (false, w', env') => Return p w' env'
      end) as Hgo.
  { intros p w1 env1 Hi1 Hlen Hp.
    destruct (ensureProgress _ _ _ _) as [[ok w2] env2] eqn:E.
    apply (ensureProgress_inv p [msg]) in E as (Hi2 & _ & _ & Hlen2 & Hok); [|done].
    destruct ok; [|by exists [msg]].
    pose proof (handle_record_inv p msg w2 env2 Hi2 Hok Hp) as Hr.
    destruct (handle_record _ _ _ _ _ _ _ _); [|done].
    destruct Hr as [Hr1 Hr2]. split; [lia|done]. }
  destruct (other_partition pending msg) eqn:Eo.
  - destruct pending as [|r rs]; [done|]. destruct (last_cons_Some r rs) as [lastr Hlast].
    destruct (flushBatch _ _ _ _ _) as [[ok w1] env1] eqn:Ef.
    apply (flushBatch_effect _ lastr) in Ef as [He Hl]; [|done].
    pose proof (flush_inv _ [msg] _ _ _ _ Hlast He Hinv) as Hi1.
    destruct ok; [|by exists [msg]]. apply Hgo; [done|lia|]. intros x Hx. by apply elem_of_nil in Hx.
  - apply Hgo; [done|lia|]. intros x Hx. destruct pending as [|r rs]; [by apply elem_of_nil in Hx|].
    simpl in Eo. apply negb_false_iff, Z.eqb_eq in Eo. rewrite <- Eo.
    apply (inv_partition _ _ _ Hinv); [done|by left].
Qed.

Lemma inv_status pending inflight w st e :
  inv pending inflight w -> inv pending inflight (on_iw (set_iw_status st e) w).
Proof. intros Hinv. by apply (inv_core pending inflight w (set_iw_status st e (w_iw w)) (w_metrics w)). Qed.

Lemma iterate_inv pending inflight w env :
  inv pending inflight w -> env = [] \/ inflight = [] ->
  iteration_inv (length env - 1) (iterate group input batch hook pending w env).
Proof.
  intros Hinv Hor. unfold iterate. destruct env as [|a env]; [by exists inflight|].
  destruct Hor as [Hor| ->]; [done|]. simpl length. rewrite Nat.sub_succ, Nat.sub_0_r.
  assert (iteration_inv (length env) (Continue pending (on_iw (set_iw_status ActualStatusError FetchError) w) env)) as Herr.
  { split; [done|]. exists []. split; [by apply inv_status|by right]. }
  destruct (an_fetch a) as [msg| |]; [| |done].
  - by apply handle_message_inv, inv_fetch.
  - destruct pending as [|r rs]; [done|].
    destruct (last_cons_Some r rs) as [lastr Hlast].
    destruct (flushBatch _ _ _ _ _) as [[ok w1] env1] eqn:Ef.
    apply (flushBatch_effect _ lastr) in Ef as [He Hl]; [|done].
    pose proof (flush_inv _ [] _ _ _ _ Hlast He Hinv) as Hi1.
    destruct ok; (split; [first [lia | subst; simpl; lia]|exists []; auto]).
Qed.

Lemma consume_loop_inv fuel pending inflight w env :
  inv pending inflight w -> env = [] \/ inflight = [] -> (length env < fuel)%nat ->
  exists pending' w', consume_loop group input batch hook fuel pending w env = Some (pending', w') /\
    exists inflight', inv pending' inflight' w'.
Proof.
  revert pending inflight w env. induction fuel as [|f IH]; intros pending inflight w env Hinv Hor Hlen; [lia|].
  cbn [consume_loop]. pose proof (iterate_inv pending inflight w env Hinv Hor) as Hit.
  destruct env as [|a env]; [simpl in Hit |- *; by eauto|].
  destruct (iterate _ _ _ _ _ _ _) as [p' w' env'|p' w' env'].
  - destruct Hit as (Hlen' & inflight' & Hi & Hor'). simpl in Hlen, Hlen'.
    apply (IH p' inflight' w' env'); [done|done|lia].
  - by eauto.
Qed.

Lemma consume_inv flushOnStop w env flush_env :
  inv [] [] w ->
  exists w', consume group input batch hook flushOnStop w env flush_env = Some w' /\
    exists pending inflight, inv pending inflight w'.
Proof.
  intros Hinv. unfold consume.
  destruct (consume_loop_inv (Datatypes.S (length env)) [] [] w env Hinv) as (pending & w1 & -> & inflight & Hi);
    [by right|lia|].
  destruct pending as [|r rs]; [by eauto|]. destruct flushOnStop; [|by eauto].
  destruct (last_cons_Some r rs) as [lastr Hlast].
  destruct (flushBatch _ _ _ _ _) as [[ok w2] env2] eqn:Ef.
  apply (flushBatch_effect _ lastr) in Ef as [He _]; [|done].
  eexists. split; [done|]. simpl. eexists _, inflight. by eapply flush_inv.
Qed.

(** A fresh worker over any database, with an empty trace. *)
Definition fresh (db : st_DB) (resetSeq resetLastUpdate : option Z) : world :=
  mkWorld (newIwState resetSeq resetLastUpdate) db [] (mkMetrics 0 0 0).

Lemma inv_fresh db rs ru : inv [] [] (fresh db rs ru).
Proof.
  constructor; simpl.
  - exists []. split_and!; [done|constructor|simpl; lia|constructor|constructor].
  - intros r1 r2 Hr. by apply elem_of_nil in Hr.
  - intros _. apply commit_safe_nil.
  - constructor.
  - intros p Hp. by apply elem_of_empty in Hp.
  - constructor.
Qed.

(** ** Calm runs

    No call fails: the only ways a run ends are the end of the answers and the
    stop signal they stand for. *)

Definition calm_answer (a : answer) : Prop := an_fault a = st_calm /\ an_commit a = (true, true).

(** Nothing was retried and nothing was dropped. *)
Definition calm_world (w : world) : Prop :=
  good_feed (fetched (w_trace w)) ->
  mt_writeErrors (w_metrics w) = 0 /\ dropped (w_trace w) = [].

Lemma write_loop_calm b rs w env :
  batch_valid b -> Forall calm_answer env ->
  write_loop b rs w env =
    match env with
    | [] => (false, w, [])
    | a :: env' => (true, log [AWrite rs] (set_db (fst (st_write st_calm (an_now a) (w_db w) b)) w), env')
    end.
Proof.
  intros Hb Hc. destruct env as [|a env]; [done|]. apply Forall_cons in Hc as [[Hf _] _]. simpl.
  rewrite Hf. pose proof (law_write_accepts (an_now a) (w_db w) b Hb) as Ha.
  destruct (st_write _ _ _ _) as [db' [e|]]; [done|reflexivity].
Qed.

Lemma commit_loop_calm m w env :
  Forall calm_answer env ->
  commit_loop m w env =
    match env with
    | [] => (false, w, [], time.zero)
    | a :: env' => (true, log [ACommit m] w, env', an_now a)
    end.
Proof.
  intros Hc. destruct env as [|a env]; [done|]. apply Forall_cons in Hc as [[_ Hm] _]. simpl.
  unfold call_commit. by rewrite Hm.
Qed.

Lemma dropped_applied ds : dropped (map AApplied ds) = [].
Proof. induction ds; [done|]. by simpl. Qed.

Lemma after_commit_calm now records m w :
  w_metrics (after_commit input hook now records m w) = w_metrics w /\
  dropped (w_trace (after_commit input hook now records m w)) = dropped (w_trace w) /\
  fetched (w_trace (after_commit input hook now records m w)) = fetched (w_trace w).
Proof.
  unfold after_commit. destruct (hook && _); [|done]. simpl.
  by rewrite dropped_app, dropped_applied, fetched_app, fetched_applied, !app_nil_r.
Qed.

(** A flush that meets no fault succeeds, and counts no error. *)
Lemma flush_succeeds pending inflight w lastr env ok w' env' :
  inv pending inflight w -> last pending = Some lastr -> Forall calm_answer env -> good_feed (fetched (w_trace w)) ->
  flushBatch input hook pending w env = (ok, w', env') ->
  (mt_writeErrors (w_metrics w') = mt_writeErrors (w_metrics w) /\ dropped (w_trace w') = dropped (w_trace w)) /\
  Forall calm_answer env' /\ ((2 <= length env)%nat -> ok = true).
Proof.
  intros Hinv Hlast Hc Hgood Hf. unfold flushBatch in Hf. rewrite Hlast in Hf.
  rewrite write_loop_calm in Hf by (try done; by eapply batch_of_valid).
  destruct env as [|a env]; [injection Hf as <- <- <-; split_and!; try done; simpl; lia|].
  apply Forall_cons in Hc as [_ Hc]. rewrite commit_loop_calm in Hf by done.
  destruct env as [|a' env].
  - injection Hf as <- <- <-. simpl. rewrite dropped_app. simpl. rewrite app_nil_r.
    split_and!; try done. lia.
  - apply Forall_cons in Hc as [_ Hc]. injection Hf as <- <- <-.
    match goal with |- context [after_commit _ _ ?n ?r ?m ?w0] =>
      destruct (after_commit_calm n r m w0) as (-> & -> & _) end.
    simpl. rewrite !dropped_app. simpl. rewrite !app_nil_r. by split_and!.
Qed.

Lemma flush_fetched pending w lastr env ok w' env' :
  last pending = Some lastr -> flushBatch input hook pending w env = (ok, w', env') -> fetched (w_trace w') = fetched (w_trace w).
Proof.
  intros Hlast Hf. destruct (flushBatch_effect _ _ _ _ _ _ _ Hlast Hf) as [[_ _ _ _ Htr _] _].
  destruct Htr as [->|[(n & ds & ->) _]]; [done|apply fetched_flush].
Qed.

Lemma flush_calm pending inflight w lastr env ok w' env' :
  inv pending inflight w -> last pending = Some lastr -> Forall calm_answer env -> calm_world w ->
  flushBatch input hook pending w env = (ok, w', env') ->
  calm_world w' /\ (good_feed (fetched (w_trace w)) -> Forall calm_answer env' /\ ((2 <= length env)%nat -> ok = true)).
Proof.
  intros Hinv Hlast Hc Hcw Hf. pose proof (flush_fetched _ _ _ _ _ _ _ Hlast Hf) as Hfe.
  pose proof (fun Hg => flush_succeeds _ _ _ _ _ _ _ _ Hinv Hlast Hc Hg Hf) as Hmain.
  split; [|intros Hg; by apply Hmain in Hg as [_ Hg]].
  unfold calm_world. rewrite Hfe. intros Hg. destruct (Hcw Hg) as [H1 H2].
  destruct (Hmain Hg) as [[-> ->] _]. done.
Qed.

(** The answers left over are among the answers given. *)
Lemma write_loop_forall P b rs w env ok w' env' :
  write_loop b rs w env = (ok, w', env') -> Forall P env -> Forall P env'.
Proof.
  revert w. induction env as [|a env IH]; intros w Hw Hp; cbn [write_loop] in Hw.
  { by injection Hw as <- <- <-. }
  apply Forall_cons in Hp as [_ Hp]. destruct (st_write _ _ _ _) as [db' [e|]]; [by eapply IH|].
  by injection Hw as <- <- <-.
Qed.

Lemma commit_loop_forall P m w env ok w' env' now :
  commit_loop m w env = (ok, w', env', now) -> Forall P env -> Forall P env'.
Proof.
  revert w. induction env as [|a env IH]; intros w Hw Hp; cbn [commit_loop] in Hw.
  { by injection Hw as <- <- <- <-. }
  apply Forall_cons in Hp as [_ Hp]. destruct (call_commit a m w) as [[|] w1]; [|by eapply IH].
  by injection Hw as <- <- <- <-.
Qed.

Lemma flushBatch_forall P records w env ok w' env' :
  flushBatch input hook records w env = (ok, w', env') -> Forall P env -> Forall P env'.
Proof.
  unfold flushBatch. destruct (last records) as [lastr|]; [|by intros [= <- <- <-]].
  destruct (write_loop _ _ _ _) as [[okw w1] env1] eqn:Ew. intros Hf Hp.
  apply (write_loop_forall P) in Ew; [|done]. destruct okw; [|by injection Hf as <- <- <-].
  destruct (commit_loop _ _ _) as [[[okc w3] env2] now] eqn:Ec.
  apply (commit_loop_forall P) in Ec; [|done]. by destruct okc; injection Hf as <- <- <-.
Qed.

Lemma ensureProgress_forall P p w env ok w' env' :
  ensureProgress input p w env = (ok, w', env') -> Forall P env ->
  Forall P env' /\ w_metrics w' = w_metrics w /\ w_trace w' = w_trace w.
Proof.
  unfold ensureProgress. case_bool_decide as Hin; [by intros [= <- <- <-]|]. clear Hin.
  revert w. induction env as [|a env IH]; intros w Hw Hp; cbn [load_loop] in Hw.
  { by injection Hw as <- <- <-. }
  apply Forall_cons in Hp as [_ Hp]. destruct (st_load _ _ _ _) as [row|e].
  - by injection Hw as <- <- <-.
  - apply IH in Hw as (H1 & H2 & H3); done.
Qed.

Definition iteration_calm (it : iteration) : Prop :=
  match it with
  | Continue _ w env => calm_world w /\ Forall calm_answer env
  | Return _ w _ => calm_world w
  end.

Lemma calm_world_eq w w' :
  w_trace w' = w_trace w -> mt_writeErrors (w_metrics w') = mt_writeErrors (w_metrics w) ->
  calm_world w -> calm_world w'.
Proof. unfold calm_world. by intros -> ->. Qed.

Lemma flush_pending_calm pending inflight w env ok w' env' :
  flush_pending input hook pending w env = (ok, w', env') -> inv pending inflight w ->
  Forall calm_answer env -> calm_world w -> calm_world w' /\ Forall calm_answer env'.
Proof.
  unfold flush_pending. destruct pending as [|r rs]; [by intros [= <- <- <-]|].
  intros Hf Hinv Hc Hcw. destruct (last_cons_Some r rs) as [lastr Hlast]. split.
  - exact (proj1 (flush_calm _ _ _ _ _ _ _ _ Hinv Hlast Hc Hcw Hf)).
  - by eapply flushBatch_forall.
Qed.

Lemma dead_letter_calm msg stage w env w' env' :
  dead_letter group input msg stage w env = (w', env') -> Forall calm_answer env -> calm_world w ->
  calm_world w' /\ Forall calm_answer env'.
Proof.
  unfold dead_letter. intros Hd Hc Hcw. set (w1 := on_metrics _ _) in Hd.
  assert (calm_world w1) as Hcw1 by by apply (calm_world_eq w).
  destruct env as [|a env]; [by injection Hd as <- <-|].
  apply Forall_cons in Hc as [[Hf _] Hc]. rewrite Hf in Hd.
  pose proof (law_poison_calm (an_now a) (w_db w1) (poison_record group input msg stage)) as Hp.
  destruct (st_poison _ _ _ _) as [db' [e|]]; [done|].
  assert (calm_world (log [APoison msg] (set_db db' w1))) as Hcw2.
  { unfold calm_world. simpl. rewrite fetched_app, dropped_app. simpl. by rewrite !app_nil_r. }
  destruct env as [|a1 env]; injection Hd as <- <-; [done|].
  apply Forall_cons in Hc as [_ Hc]. split; [|done].
  unfold call_commit. destruct (an_commit a1) as [e s]. simpl. destruct (e || s); [|done].
  unfold calm_world. simpl. rewrite (fetched_app _ [ACommit msg]), (dropped_app _ [ACommit msg]).
  simpl. by rewrite !app_nil_r.
Qed.

Lemma enqueue_calm pending r w env :
  inv (pending ++ [r]) [] w -> Forall calm_answer env -> calm_world w ->
  iteration_calm (enqueue input batch hook pending r w env).
Proof.
  intros Hinv Hc Hcw. unfold enqueue. destruct (_ <=? _); [|done].
  destruct (flushBatch _ _ _ _ _) as [[ok w'] env'] eqn:E.
  pose proof (flushBatch_forall calm_answer _ _ _ _ _ _ E Hc) as Hc'.
  assert (last (pending ++ [r]) = Some r) as Hlast by apply last_snoc.
  destruct (flush_calm _ _ _ _ _ _ _ _ Hinv Hlast Hc Hcw E) as [Hcw' _].
  by destruct ok.
Qed.

Lemma handle_record_calm pending msg w env :
  inv pending [msg] w -> ms_Partition msg ∈ iw_loadedProgress (w_iw w) ->
  (forall x, x ∈ pending -> ms_Partition (pr_msg x) = ms_Partition msg) ->
  Forall calm_answer env -> calm_world w ->
  iteration_calm (handle_record group input batch hook pending msg w env).
Proof.
  intros Hinv Hload Hp Hc Hcw. unfold handle_record.
  assert (durable_at (ms_Partition msg) (w_iw w) <= st_durable (w_db w) (inputID input, ms_Partition msg)) as Hd.
  { destruct (inv_loaded _ _ _ Hinv _ Hload) as (d & Hd & Hle). unfold durable_at. by rewrite Hd. }
  destruct (prepare input msg (w_iw w)) as [s' [r|stage]] eqn:E.
  - apply (prepare_sound msg _ _ _ (w_db w)) in E as (<- & Hr & Hl1 & Hl2); [|done].
    apply enqueue_calm; [|done|done]. apply inv_enqueue; [|done|done].
    destruct Hinv as [H1 H2 H3 H4 H5 H6]. constructor; simpl; try done. by rewrite Hl1, Hl2.
  - apply prepare_stage in E as [-> ->].
    destruct (flush_pending _ _ _ _ _) as [[ok w1] env1] eqn:Ef.
    apply (flush_pending_calm _ [msg]) in Ef as (Hcw1 & Hc1); [|by destruct w|done|done].
    destruct ok; [|done].
    change (isRetryableStage "decode") with false. cbv iota.
    destruct (dead_letter _ _ _ _ _ _) as [w2 env2] eqn:Ed.
    by apply dead_letter_calm in Ed.
Qed.

Lemma handle_message_calm pending msg w env :
  inv pending [msg] w -> Forall calm_answer env -> calm_world w ->
  iteration_calm (handle_message group input batch hook pending msg w env).
Proof.
  intros Hinv Hc Hcw. unfold handle_message.
  assert (forall p w1 env1, inv p [msg] w1 -> Forall calm_answer env1 -> calm_world w1 ->
    (forall x, x ∈ p -> ms_Partition (pr_msg x) = ms_Partition msg) ->
    iteration_calm
      match ensureProgress input (ms_Partition msg) w1 env1 with
      | (true, w', env') => handle_record group input batch hook p msg w' env'
      | (false, w', env') => Return p w' env'
      end) as Hgo.
  { intros p w1 env1 Hi1 Hc1 Hcw1 Hp.
    destruct (ensureProgress _ _ _ _) as [[ok w2] env2] eqn:E.
    pose proof (ensureProgress_forall _ _ _ _ _ _ _ E Hc1) as (Hc2 & Hm2 & Ht2).
    apply (ensureProgress_inv p [msg]) in E as (Hi2 & _ & _ & _ & Hok); [|done].
    assert (calm_world w2) as Hcw2 by (apply (calm_world_eq w1); [congruence..|done]).
    destruct ok; [by apply handle_record_calm|done]. }
  destruct (other_partition pending msg) eqn:Eo.
  - destruct pending as [|r rs]; [done|]. destruct (last_cons_Some r rs) as [lastr Hlast].
    destruct (flushBatch _ _ _ _ _) as [[ok w1] env1] eqn:Ef.
    destruct (flush_pending_calm (r :: rs) [msg] w env ok w1 env1 Ef Hinv Hc Hcw) as [Hcw1 Hc1].
    apply (flushBatch_effect _ lastr) in Ef as [He Hl]; [|done].
    pose proof (flush_inv _ [msg] _ _ _ _ Hlast He Hinv) as Hi1.
    destruct ok; [|done]. apply Hgo; [done..|]. intros x Hx. by apply elem_of_nil in Hx.
  - apply Hgo; [done..|]. intros x Hx. destruct pending as [|r rs]; [by apply elem_of_nil in Hx|].
    simpl in Eo. apply negb_false_iff, Z.eqb_eq in Eo. rewrite <- Eo.
    apply (inv_partition _ _ _ Hinv); [done|by left].
Qed.

Lemma iterate_calm pending w env :
  inv pending [] w -> Forall calm_answer env -> calm_world w ->
  iteration_calm (iterate group input batch hook pending w env).
Proof.
  intros Hinv Hc Hcw. unfold iterate. destruct env as [|a env]; [done|].
  apply Forall_cons in Hc as [_ Hc]. destruct (an_fetch a) as [msg| |].
  - apply handle_message_calm; [by apply inv_fetch|done|].
    unfold calm_world. simpl. rewrite fetched_app, dropped_app. simpl. rewrite app_nil_r.
    intros Hg. apply Hcw. by eapply good_feed_app.
  - destruct pending as [|r rs]; [done|].
    destruct (flushBatch _ _ _ _ _) as [[ok w1] env1] eqn:Ef.
    destruct (flush_pending_calm (r :: rs) [] w env ok w1 env1 Ef Hinv Hc Hcw) as [Hcw1 Hc1].
    by destruct ok.
  - done.
Qed.

Lemma consume_loop_calm fuel pending inflight w env pending' w' :
  inv pending inflight w -> env = [] \/ inflight = [] -> Forall calm_answer env -> calm_world w ->
  consume_loop group input batch hook fuel pending w env = Some (pending', w') -> calm_world w'.
Proof.
  revert pending inflight w env. induction fuel as [|f IH]; intros pending inflight w env Hinv Hor Hc Hcw Hl; [done|].
  cbn [consume_loop] in Hl. destruct env as [|a env]; [by injection Hl as <- <-|].
  destruct Hor as [Hor| ->]; [done|].
  pose proof (iterate_inv pending [] w (a :: env) Hinv ltac:(by right)) as Hit.
  pose proof (iterate_calm pending w (a :: env) Hinv Hc Hcw) as Hic.
  destruct (iterate _ _ _ _ _ _ _) as [p1 w1 env1|p1 w1 env1].
  - destruct Hit as (_ & inflight' & Hi & Hor'), Hic as [Hcw1 Hc1]. by apply (IH p1 inflight' w1 env1).
  - by injection Hl as <- <-.
Qed.

(** ** The database only moves by store calls *)

Section db_relation.
Context (R : st_DB -> st_DB -> Prop) `{!PreOrder R}.
Hypothesis R_write : forall f now db b, wp_InputID (fb_Progress b) = inputID input -> R db (fst (st_write f now db b)).
Hypothesis R_poison : forall f now db r, R db (fst (st_poison f now db r)).

Lemma write_loop_db b rs w env :
  wp_InputID (fb_Progress b) = inputID input -> R (w_db w) (w_db (snd (fst (write_loop b rs w env)))).
Proof.
  intros Hb. revert w. induction env as [|a env IH]; intros w; [done|]. cbn [write_loop].
  pose proof (R_write (an_fault a) (an_now a) (w_db w) b Hb) as Hw.
  destruct (st_write _ _ _ _) as [db' [e|]]; [|done]. etrans; [exact Hw|].
  exact (IH (on_metrics incWriteErrors (on_iw (set_iw_status ActualStatusError WriteError) (set_db db' w)))).
Qed.

Lemma flushBatch_db records w env : R (w_db w) (w_db (snd (fst (flushBatch input hook records w env)))).
Proof.
  unfold flushBatch. destruct (last records) as [lastr|]; [|done].
  pose proof (write_loop_db (batch_of input (w_iw w) records lastr) records w env eq_refl) as Hw.
  destruct (write_loop _ _ _ _) as [[okw w1] env1]. simpl in Hw. destruct okw; [|done].
  destruct (commit_loop _ _ _) as [[[okc w3] env2] now] eqn:Ec.
  apply commit_loop_spec in Ec as (Hdb & _). simpl in Hdb.
  destruct okc; simpl; [|by rewrite Hdb].
  unfold after_commit. destruct (hook && _); simpl; by rewrite Hdb.
Qed.

Lemma ensureProgress_db p w env : w_db (snd (fst (ensureProgress input p w env))) = w_db w.
Proof.
  unfold ensureProgress. case_bool_decide as Hin; [done|]. clear Hin.
  destruct (load_loop input p w env) as [[ok w'] env'] eqn:E. simpl. by apply load_loop_spec in E as (-> & _).
Qed.

Lemma dead_letter_db msg stage w env : R (w_db w) (w_db (fst (dead_letter group input msg stage w env))).
Proof.
  unfold dead_letter. destruct env as [|a env]; [done|].
  match goal with |- context [st_poison ?f ?n ?d ?r] => pose proof (R_poison f n d r) as Hp;
    destruct (st_poison f n d r) as [db' [e|]] end; [done|].
  destruct env as [|a1 env]; [done|]. unfold call_commit. destruct (an_commit a1) as [x y]. simpl.
  by destruct (x || y).
Qed.

Definition iteration_world (it : iteration) : world :=
  match it with Continue _ w _ => w | Return _ w _ => w end.

Lemma handle_record_db pending msg w env :
  R (w_db w) (w_db (iteration_world (handle_record group input batch hook pending msg w env))).
Proof.
  unfold handle_record. destruct (prepare input msg (w_iw w)) as [s' [r|stage]].
  - unfold enqueue. destruct (_ <=? _); [|done].
    pose proof (flushBatch_db (pending ++ [r]) (on_iw (fun _ => s') w) env) as Hf.
    by destruct (flushBatch _ _ _ _ _) as [[[] w1] env1].
  - assert (R (w_db w) (w_db (snd (fst (flush_pending input hook pending (on_iw (fun _ => s') w) env))))) as Hf.
    { unfold flush_pending. destruct pending as [|r rs]; [done|]. apply (flushBatch_db (r :: rs) (on_iw (fun _ => s') w)). }
    destruct (flush_pending _ _ _ _ _) as [[[] w1] env1]; [|done]. simpl in Hf.
    destruct (isRetryableStage stage); [done|].
    pose proof (dead_letter_db msg stage w1 env1) as Hd.
    destruct (dead_letter _ _ _ _ _ _) as [w2 env2]. simpl in *. by etrans.
Qed.

Lemma iterate_db pending w env :
  R (w_db w) (w_db (iteration_world (iterate group input batch hook pending w env))).
Proof.
  unfold iterate. destruct env as [|a env]; [done|]. destruct (an_fetch a) as [msg| |]; [|destruct pending as [|r rs]|done].
  - unfold handle_message.
    assert (forall p w1 env1, R (w_db w) (w_db w1) -> R (w_db w) (w_db (iteration_world
      match ensureProgress input (ms_Partition msg) w1 env1 with
      | (true, w', env') => handle_record group input batch hook p msg w' env'
      | (false, w', env') => Return p w' env'
      end))) as Hgo.
    { intros p w1 env1 H1. pose proof (ensureProgress_db (ms_Partition msg) w1 env1) as He.
      destruct (ensureProgress _ _ _ _) as [[[] w2] env2]; simpl in *; rewrite <- He in H1; [|done].
      etrans; [exact H1|apply handle_record_db]. }
    destruct (other_partition pending msg); [|by apply Hgo].
    pose proof (flushBatch_db pending (log [AFetch msg] w) env) as Hf.
    destruct (flushBatch _ _ _ _ _) as [[[] w1] env1]; [by apply Hgo|done].
  - done.
  - pose proof (flushBatch_db (r :: rs) w env) as Hf.
    by destruct (flushBatch _ _ _ _ _) as [[[] w1] env1].
Qed.

Lemma consume_db flushOnStop w env flush_env w' :
  consume group input batch hook flushOnStop w env flush_env = Some w' -> R (w_db w) (w_db w').
Proof.
  unfold consume. destruct (consume_loop _ _ _ _ _ _ _ _) as [[pending w1]|] eqn:El; [|done].
  assert (forall fuel p w env q w1, consume_loop group input batch hook fuel p w env = Some (q, w1) ->
    R (w_db w) (w_db w1)) as Hloop.
  { clear El w env w1. induction fuel as [|f IH]; intros p w env q w1 Hl; [done|]. cbn [consume_loop] in Hl.
    pose proof (iterate_db p w env) as Hi. destruct (iterate _ _ _ _ _ _ _) as [p1 w2 env1|p1 w2 env1].
    - etrans; [exact Hi|]. by eapply IH.
    - by injection Hl as <- <-. }
  apply Hloop in El. destruct pending as [|r rs]; [by intros [= <-]|]. destruct flushOnStop; intros [= <-]; [|done].
  etrans; [exact El|apply flushBatch_db].
Qed.

End db_relation.

(** ** What a run guarantees *)

(** (C1) Every run of an input worker ends.  It never loses a record silently:
    provided that the records come in strictly increasing offsets per partition,
    as they do as long as none is redelivered within the session, when a commit
    moves the group past an offset, every fetched record of the partition up to
    that offset has already been written in a batch, put in the poison table, or
    given up after a failed poison write.  And whatever is fetched, redelivered
    records included, every committed offset is durable in the store or recorded
    as poison. *)
Theorem commits_cover_only_handled db resetSeq resetLastUpdate flushOnStop env flush_env :
  exists w', consume group input batch hook flushOnStop (fresh db resetSeq resetLastUpdate) env flush_env = Some w' /\
    (increasing_feed (fetched (w_trace w')) -> commit_safe (w_trace w')) /\
    Forall (safe_offset (w_db w')) (commits (w_trace w')).
Proof.
  destruct (consume_inv flushOnStop _ env flush_env (inv_fresh db resetSeq resetLastUpdate))
    as (w' & Hc & pending & inflight & [_ _ Hs Hd _ _]).
  exists w'. by split_and!.
Qed.

(** (C11) What is written is what was received: each fact of a written batch is
    the decoding of its own Kafka record, of the kind of the input, and a record
    is written without a fact only when its offset was already durable or when
    the delta gate had dropped it. *)
Theorem written_records_sound db resetSeq resetLastUpdate flushOnStop env flush_env w' :
  consume group input batch hook flushOnStop (fresh db resetSeq resetLastUpdate) env flush_env = Some w' ->
  Forall (rec_sound (w_db w')) (written (w_trace w')).
Proof.
  intros Hc.
  destruct (consume_inv flushOnStop _ env flush_env (inv_fresh db resetSeq resetLastUpdate))
    as (w1 & Hc1 & pending & inflight & [_ _ _ _ _ Hs]).
  rewrite Hc in Hc1. injection Hc1 as <-. by apply Forall_app in Hs as [_ Hs].
Qed.

(** (C10) A calm run leaves nothing behind: when no call fails, the worker may
    flush on stop and the records come in strictly increasing offsets per
    partition (none is redelivered within the session; with one,
    [redelivery_blocks_batch] shows the batch blocked) with coordinates that are
    not negative, no write is ever refused or retried, nothing is dropped, and
    every fetched record ends up written or in the poison table, except possibly
    the one that was being handled when the context ended. *)
Theorem calm_run_handles_everything db resetSeq resetLastUpdate env flush_env w' :
  Forall calm_answer env -> Forall calm_answer flush_env -> (2 <= length flush_env)%nat ->
  consume group input batch hook true (fresh db resetSeq resetLastUpdate) env flush_env = Some w' ->
  good_feed (fetched (w_trace w')) ->
  mt_writeErrors (w_metrics w') = 0 /\ dropped (w_trace w') = [] /\
  exists l inflight, fetched (w_trace w') = l ++ inflight /\ (length inflight <= 1)%nat /\
    Forall (fun m => m ∈ map pr_msg (written (w_trace w')) \/ m ∈ poisoned (w_trace w')) l.
Proof.
  intros Hc Hfc Hlen Hrun Hg. set (w0 := fresh db resetSeq resetLastUpdate) in *.
  pose proof (inv_fresh db resetSeq resetLastUpdate) as Hi0. fold w0 in Hi0.
  assert (forall inflight w, inv [] inflight w -> calm_world w -> good_feed (fetched (w_trace w)) ->
    mt_writeErrors (w_metrics w) = 0 /\ dropped (w_trace w) = [] /\
    exists l inflight, fetched (w_trace w) = l ++ inflight /\ (length inflight <= 1)%nat /\
      Forall (fun m => m ∈ map pr_msg (written (w_trace w)) \/ m ∈ poisoned (w_trace w)) l) as Hdone.
  { intros inflight w [(l & Hf & Hh & Hone & _) _ _ _ _ _] Hcw Hgw. destruct (Hcw Hgw) as [H1 H2].
    split; [done|]. split; [done|]. exists l, inflight. split_and!; [done|done|].
    eapply Forall_impl; [exact Hh|]. intros m [[Hm|[Hm|Hm]]|Hm]; [by left|by right| |by apply elem_of_nil in Hm].
    rewrite H2 in Hm. by apply elem_of_nil in Hm. }
  unfold consume in Hrun. destruct (consume_loop _ _ _ _ _ _ _ _) as [[pending w1]|] eqn:El; [|done].
  destruct (consume_loop_inv (Datatypes.S (length env)) [] [] w0 env Hi0) as (p1 & w1' & El' & inflight & Hi1);
    [by right|lia|].
  rewrite El in El'. injection El' as <- <-.
  assert (calm_world w1) as Hcw1.
  { eapply (consume_loop_calm _ [] [] w0 env); [done|by right|done|by intros _|exact El]. }
  destruct pending as [|r rs]; [injection Hrun as <-; by eapply Hdone|].
  destruct (last_cons_Some r rs) as [lastr Hlast].
  destruct (flushBatch _ _ _ _ _) as [[ok w2] env2] eqn:Ef. simpl in Hrun. injection Hrun as <-.
  destruct (flush_calm _ _ _ _ _ _ _ _ Hi1 Hlast Hfc Hcw1 Ef) as [Hcw2 Hok].
  apply (flushBatch_effect _ lastr) in Ef as [He _]; [|done].
  assert (fetched (w_trace w2) = fetched (w_trace w1)) as Hfe.
  { destruct (fe_trace _ _ _ _ _ He) as [->|[(n & ds & ->) _]]; [done|apply fetched_flush]. }
  rewrite <- Hfe in Hok. destruct (Hok Hg) as [_ Hok']. rewrite (Hok' Hlen) in He.
  pose proof (flush_inv _ inflight _ _ _ _ Hlast He Hi1) as Hi2. by eapply Hdone.
Qed.

(** A record redelivered inside an open batch, as after a rebalance, blocks
    the worker: once a batch holds a trade whose offset lies beyond its last
    record's, every write of the batch is refused, so the loop only ends with
    the context and nothing of the batch is ever stored. *)
Theorem redelivery_blocks_batch s records lastr r t w env :
  last records = Some lastr -> r ∈ records -> pr_trade r = Some t ->
  ms_Offset (pr_msg lastr) < tr_KafkaOffset t ->
  exists w', write_loop (batch_of input s records lastr) records w env = (false, w', []) /\
    w_db w' = w_db w /\ w_trace w' = w_trace w.
Proof.
  intros Hlast Hr Ht Ho. set (b := batch_of input s records lastr).
  assert (~ batch_valid b) as Hb.
  { intros (_ & _ & _ & _ & [Hrows _] & _). rewrite Forall_map, Forall_forall in Hrows.
    destruct (Hrows t) as [_ Hle]; [|simpl in Hle; lia].
    apply list_elem_of_omap. by exists r. }
  revert w. induction env as [|a env IH]; intros w; [by exists w|].
  cbn [write_loop]. destruct (law_write_refuses (an_fault a) (an_now a) (w_db w) b Hb) as [Hdb He].
  destruct (st_write _ _ _ _) as [db' [e|]]; [|done]. simpl in Hdb. subst db'.
  destruct (IH (on_metrics incWriteErrors (on_iw (set_iw_status ActualStatusError WriteError) (set_db (w_db w) w))))
    as (w' & -> & H2 & H3). by exists w'.
Qed.

End input_worker_facts.

(** Lag is the number of records after the committed one, never negative,
    and known exactly when both offsets are; 64-bit arithmetic does not wrap on
    offsets Kafka can report. *)
Theorem lag_counts_unread committed highWM :
  match committed, highWM with
  | Some c, Some h =>
      -1 <= c <= int64_max -> 0 <= h <= int64_max ->
      lagLocked committed highWM = Some (Z.max 0 (h - c - 1)) /\ 0 <= Z.max 0 (h - c - 1) <= int64_max
  | _, _ => lagLocked committed highWM = None
  end.
Proof.
  destruct committed as [c|], highWM as [h|]; try done. intros Hc Hh.
  unfold lagLocked. rewrite wrap64_sub. unfold int64_max in *.
  rewrite wrap64_small by (unfold int64, int64_min, int64_max; lia).
  split; [|lia]. f_equal. destruct (Z.ltb_spec (h - c - 1) 0); lia.
Qed.

Lemma lag_counts_unread_witness : lagLocked (Some 4) (Some 10) = Some 5.
Proof. apply (proj1 (lag_counts_unread (Some 4) (Some 10) ltac:(cbv; split; discriminate) ltac:(cbv; split; discriminate))). Defined.
