(* ===== verification/Topic.v ===== *)
(** * Topic: a topic as a log, and the cursors of its deltas

    The specification side of EndToEnd: which records a topic partition holds,
    what it means to read it in order, and which deltas the gate of Sequence may
    drop, given where the cursor it compares with comes from. *)

From S2P Require Import Prelude GoStd Model Kafka Sequence Decode StorageInterface Storage InputWorker Consume.

Open Scope Z_scope.

(** ** A topic as a log *)

(** The record at a partition and offset. *)
Definition topic : Type := Z -> Z -> option Message.

Definition topic_ok (log : topic) : Prop :=
  forall p o m, log p o = Some m -> ms_Partition m = p /\ ms_Offset m = o /\ 0 <= p /\ 0 <= o.

(** The records were read from the log: of each partition, from its start position
    on, in order and without a gap. *)
Definition reads (log : topic) (start : Z -> Z) (ms : list Message) : Prop :=
  forall l1 m l2, ms = l1 ++ m :: l2 ->
    log (ms_Partition m) (ms_Offset m) = Some m /\
    Forall (fun m' => ms_Partition m' = ms_Partition m -> ms_Offset m' < ms_Offset m) l1 /\
    forall o m', log (ms_Partition m) o = Some m' -> start (ms_Partition m) <= o < ms_Offset m -> m' ∈ l1.

Lemma reads_app log start l1 l2 : reads log start (l1 ++ l2) -> reads log start l1.
Proof. intros H k1 m k2 ->. apply (H k1 m (k2 ++ l2)). by rewrite <- app_assoc. Qed.

Lemma reads_increasing log start ms : reads log start ms -> increasing_feed ms.
Proof. intros H l1 m l2 E. by apply H in E as (_ & ? & _). Qed.

Lemma reads_log log start ms m : reads log start ms -> m ∈ ms -> log (ms_Partition m) (ms_Offset m) = Some m.
Proof. intros H (l1 & l2 & E)%list_elem_of_split. by apply H in E as (? & _). Qed.

(** ** Which deltas may be dropped *)

Section cursors.
Context `{Decoders}.
Variables (input : GroupInput) (log : topic).
(** The positions of the order book a session may have been started with. *)
Variable reset : Z -> Prop.

(** A delta of the partition with this property, at an offset of [B]. *)
Definition earlier (B : Z -> Prop) (p : Z) (P : OrderBookDelta -> Prop) : Prop :=
  exists o m d, B o /\ log p o = Some m /\ buildOrderBookDelta input m = Ok d /\ P d.

(** The delta of a record brings nothing new: an earlier delta has its raw id, or a
    terminal id at or above its own, or, when it has no terminal id, its first id;
    or the order book was already at a position at or above it. *)
Definition superseded (m : Message) (d : OrderBookDelta) : Prop :=
  let before := earlier (fun o => o < ms_Offset m) (ms_Partition m) in
  (od_RawEventID d <> "" /\ before (fun e => od_RawEventID e = od_RawEventID d)) \/
  (exists y, deltaTerminal d = Some y /\
    ((exists x, reset x /\ y <= x) \/ before (fun e => exists x, deltaTerminal e = Some x /\ y <= x))) \/
  (deltaTerminal d = None /\ od_FirstUpdateID d <> None /\ before (fun e => od_FirstUpdateID e = od_FirstUpdateID d)).

(** Where the parts of a cursor come from. *)
Record known (B : Z -> Prop) (p : Z) (c : OrderBookDelta) : Prop := {
  kn_raw : od_RawEventID c <> "" -> earlier B p (fun e => od_RawEventID e = od_RawEventID c);
  kn_terminal x : deltaTerminal c = Some x -> reset x \/ earlier B p (fun e => deltaTerminal e = Some x);
  kn_first : od_FirstUpdateID c <> None -> earlier B p (fun e => od_FirstUpdateID e = od_FirstUpdateID c)
}.

Lemma earlier_mono (B B' : Z -> Prop) p (P Q : OrderBookDelta -> Prop) :
  (forall o, B o -> B' o) -> (forall d, P d -> Q d) -> earlier B p P -> earlier B' p Q.
Proof. intros HB HP (o & m & d & Ho & Hl & Hd & Hp). exists o, m, d. auto. Qed.

Lemma known_mono (B B' : Z -> Prop) p c : (forall o, B o -> B' o) -> known B p c -> known B' p c.
Proof.
  intros HB [H1 H2 H3]. constructor.
  - intros Hr. eapply earlier_mono; [exact HB| |by apply H1]; done.
  - intros x Hx. destruct (H2 x Hx) as [?|He]; [by left|right]. eapply earlier_mono; [exact HB| |exact He]; done.
  - intros Hf. eapply earlier_mono; [exact HB| |by apply H3]; done.
Qed.

(** A delta of the log is its own cursor. *)
Lemma known_record (B : Z -> Prop) p o m d payload :
  log p o = Some m -> buildOrderBookDelta input m = Ok d -> B o -> known B p (with_payload d payload).
Proof.
  intros Hl Hd Ho. assert (forall P : OrderBookDelta -> Prop, P d -> earlier B p P) as He by (intros P HP; by exists o, m, d).
  constructor; [intros _; by apply He|intros x Hx; right; by apply He|intros _; by apply He].
Qed.

(** The cursor of a progress row, and what a session makes of it. *)
Definition row_cursor (row : StreamWriteProgress) : OrderBookDelta := loaded_delta row (newIwState None None).

Definition resets_ok (s : iwState) : Prop :=
  forall x, iw_snapshotResetSeq s = Some x \/ iw_snapshotResetLastUpdate s = Some x -> reset x.

Lemma known_loaded B p row s : resets_ok s -> known B p (row_cursor row) -> known B p (loaded_delta row s).
Proof.
  intros Hs [H1 H2 _]. constructor; [exact H1| |done]. unfold row_cursor, deltaTerminal in *. cbn in *. intros x Hx.
  destruct (iw_snapshotResetLastUpdate s) as [u|] eqn:Eu; [left; apply Hs; right; congruence|].
  destruct (wp_LastUpdateID row) as [v|]; [by apply H2|].
  destruct (iw_snapshotResetSeq s) as [q|] eqn:Eq; [left; apply Hs; left; congruence|by apply H2].
Qed.

(** The cursor a batch records, from the last delta of its partition. *)
Lemma known_row B p c now (progress : StreamWriteProgress) :
  wp_LastRawEventID progress = match c with Some c => od_RawEventID c | None => "" end ->
  wp_LastUpdateID progress = match c with Some c => od_LastUpdateID c | None => None end ->
  wp_LastSequence progress = match c with Some c => od_Sequence c | None => None end ->
  (forall d, c = Some d -> known B p d) -> known B p (row_cursor (progress_row now progress)).
Proof.
  intros E1 E2 E3 Hc. unfold row_cursor, progress_row. constructor; unfold deltaTerminal; cbn; rewrite ?E1, ?E2, ?E3; [| |done];
    (destruct c as [d|]; [|done]); destruct (Hc d eq_refl) as [H1 H2 _]; [exact H1|exact H2].
Qed.

Lemma sameOptional_true a b : sameOptionalInt64 a b = true -> a = b.
Proof. by intros ?%sameOptionalInt64_spec. Qed.

(** What the gate drops is superseded. *)
Lemma dropped_superseded m c d :
  known (fun o => o < ms_Offset m) (ms_Partition m) c -> checkDeltaContinuity (Some c) d = Ok false -> superseded m d.
Proof.
  intros [H1 H2 H3] Hd. cbn in Hd.
  assert (forall x, deltaTerminal c = Some x -> forall y, deltaTerminal d = Some y -> y <= x -> superseded m d) as Hterm.
  { intros x Hx y Hy Hle. right. left. exists y. split; [done|]. destruct (H2 x Hx) as [Hr|He]; [left; by exists x|right].
    eapply earlier_mono; [intros o Ho; exact Ho| |exact He]. intros e Ee. by exists x. }
  destruct (sameDeltaIdentity c d) eqn:E.
  - unfold sameDeltaIdentity in E. destruct (_ && _ && _) eqn:Er.
    + bool_to_prop. left. split; [done|]. eapply earlier_mono; [intros o Ho; exact Ho| |by apply H1]. intros e Ee. cbv beta in Ee. congruence.
    + apply andb_true_iff in E as [[[Ef El]%andb_true_iff Es]%andb_true_iff Hset].
      apply sameOptional_true in Ef, El, Es. assert (deltaTerminal c = deltaTerminal d) as Et by (unfold deltaTerminal; by rewrite El, Es).
      destruct (deltaTerminal d) as [y|] eqn:Ey; [by apply (Hterm y Et y)|]. right. right. split; [done|].
      assert (od_FirstUpdateID c <> None) as Hf.
      { unfold deltaTerminal in Et. destruct (od_LastUpdateID c) eqn:Elc; [done|].
        rewrite ?orb_true_iff, !bool_decide_eq_true in Hset. naive_solver. }
      split; [by rewrite <- Ef|]. rewrite <- Ef. by apply H3.
  - destruct (deltaTerminal c) as [x|] eqn:Ex; [|done]. destruct (deltaTerminal d) as [y|] eqn:Ey; [|done].
    injection Hd as Hd%Z.ltb_ge. by apply (Hterm x eq_refl y).
Qed.

(** Every delta of a partition has a terminal id above those of the earlier ones, and
    no raw id is repeated. *)
Definition increasing_deltas : Prop :=
  forall p o o' m1 m2 d1 d2, o < o' -> log p o = Some m1 -> log p o' = Some m2 ->
    buildOrderBookDelta input m1 = Ok d1 -> buildOrderBookDelta input m2 = Ok d2 ->
    terminal_lt d1 d2 /\ (od_RawEventID d2 <> "" -> od_RawEventID d1 <> od_RawEventID d2).

(** Then, when no session starts from the order book, nothing is superseded. *)
Lemma increasing_not_superseded m d :
  (forall x, ~ reset x) -> log (ms_Partition m) (ms_Offset m) = Some m -> buildOrderBookDelta input m = Ok d ->
  increasing_deltas -> ~ superseded m d.
Proof.
  intros Hr Hm Hd Hinc.
  assert (forall P, earlier (fun o => o < ms_Offset m) (ms_Partition m) P ->
    exists e, P e /\ terminal_lt e d /\ (od_RawEventID d <> "" -> od_RawEventID e <> od_RawEventID d)) as He.
  { intros P (o & m1 & e & Ho & Hl & He & HP). exists e. split; [done|]. by eapply Hinc. }
  intros [[Hn (e & Ee & _ & Hne)%He]|[(y & Hy & [(x & Hx & _)|(e & (x & Ex & Hle) & Hlt & _)%He])|(Hy & _ & (e & _ & Hlt & _)%He)]].
  - by apply Hne.
  - by apply (Hr x).
  - unfold terminal_lt in Hlt. rewrite Ex, Hy in Hlt. lia.
  - unfold terminal_lt in Hlt. rewrite Hy in Hlt. by destruct (deltaTerminal e).
Qed.

End cursors.
