(* ===== verification/Pipeline.v ===== *)
(** * Pipeline: input workers over the PostgreSQL store

    The consume loop of InputWorker instantiated with the store of Storage and
    the sample JSON layer of Decode: concrete runs, each evaluated. *)

From S2P Require Import Prelude GoStd Model Kafka Decode Sequence OrderBook StorageInterface Storage.
From S2P Require Import InputWorker Consume.

Open Scope Z_scope.

(** ** Building blocks of the runs *)

Definition sample_group : MarketGroup := mkMarketGroup "g" "binance" "spot" "BTCUSDT" "BTC" "USDT" "running" 1 [] 0 0.
Definition trade_input : GroupInput := sample_input "trade" "trade" "".
Definition delta_input : GroupInput := sample_input "orderbook_delta" "orderbook_delta" "".

Definition ok_fault : pg_fault := mkPgFault no_fault Done.
Definition down_fault : pg_fault := mkPgFault (fun _ => Failed) Failed.

(** An answer that suits every call: [f] to a fetch, success to the others. *)
Definition good (f : fetch_answer) : @answer PostgresStorage := @mkAnswer PostgresStorage f ok_fault (true, true) 7.
(** The same with the database down. *)
Definition down (f : fetch_answer) : @answer PostgresStorage := @mkAnswer PostgresStorage f down_fault (false, false) 7.

Definition get (offset : Z) (value : string) : @answer PostgresStorage := good (FMsg (sample_msg offset value)).
Definition yes : @answer PostgresStorage := good FError.
Definition no : @answer PostgresStorage := down FError.

Definition run (input : GroupInput) (size : Z) (flushOnStop : bool) (db : DB)
    (env flush_env : list (@answer PostgresStorage)) : option (@world PostgresStorage) :=
  @consume PostgresStorage sample_decoders sample_group input (mkBatchConfig size 0) true flushOnStop
    (fresh db None None) env flush_env.

(** ** The tables after any number of sessions *)

(** One session of some input worker: any input, configuration, faults, crash
    point and message feed. *)
Inductive session : DB -> DB -> Prop :=
| session_run `{Decoders} group input batch hook flushOnStop rs ru db env flush_env w' :
    consume (S := PostgresStorage) group input batch hook flushOnStop (fresh db rs ru) env flush_env = Some w' ->
    session db (w_db w').

Lemma session_steps db db' : session db db' -> rtc db_step db db'.
Proof.
  intros [? group input batch hook fl rs ru d env fenv w' Hc].
  change d with (w_db (S := PostgresStorage) (fresh d rs ru)).
  eapply (consume_db (S := PostgresStorage) group input batch hook (rtc db_step)); [| |exact Hc].
  - intros f now db0 b _. apply rtc_once. constructor.
  - intros f now db0 r. apply rtc_once. constructor.
Qed.

(** (C8) Crashes and restarts never duplicate a fact: whatever input workers
    ran over the database, however their sessions were interrupted and whatever
    records were delivered again, there is one trade and one delta per Kafka
    coordinate, no delta beyond its durable offset, and stored candles only
    move forward. *)
Theorem sessions_never_duplicate db db' :
  rtc session emptyDB db -> session db db' ->
  NoDup (map trade_coord (db_trades db')) /\ NoDup (map delta_coord (db_deltas db')) /\
  Forall (fun d => od_KafkaOffset d <= durable db' (od_InputID d, od_KafkaPartition d)) (db_deltas db') /\
  klines_forward db db'.
Proof.
  intros Hr Hs. assert (rtc db_step emptyDB db') as Hdb.
  { assert (rtc db_step emptyDB db) as H0; [|etrans; [exact H0|by apply session_steps]].
    clear Hs. induction Hr as [|a b c Hab _ IH]; [done|]. etrans; [by apply session_steps|done]. }
  assert (db_wf db') as [H1 _ _ _ _ H2 H3 _ _ _ _].
  { clear Hr Hs. revert Hdb. generalize db_wf_empty. generalize emptyDB. intros d0 Hd0 Hr.
    induction Hr; [done|]. eauto using db_step_wf. }
  split_and!; [done..|].
  apply session_steps in Hs. clear -Hs. induction Hs as [|a b c Hab _ IH]; [done|].
  etrans; [by apply db_step_forward|done].
Qed.

Definition db_after (o : option (@world PostgresStorage)) : DB :=
  match o with Some w => w_db w | None => emptyDB end.

(** Every run ends. *)
Lemma run_total input size fl db env fenv : exists w, run input size fl db env fenv = Some w.
Proof.
  unfold run.
  destruct (@consume_inv PostgresStorage PostgresStorage_laws sample_decoders sample_group input
    (mkBatchConfig size 0) true fl (@fresh PostgresStorage db None None) env fenv) as (w' & Hc & _).
  { apply inv_fresh. }
  by exists w'.
Qed.

Lemma run_session input size fl db env fenv : session db (db_after (run input size fl db env fenv)).
Proof.
  destruct (run_total input size fl db env fenv) as [w Hw]. rewrite Hw. unfold run in Hw.
  simpl. by eapply (@session_run sample_decoders).
Qed.

(** A worker that dies between the write and the commit, and the next one. *)
Definition interrupted : DB := db_after (run delta_input 1 false emptyDB [get 8 "x"; yes; yes] []).

Definition resumed : DB := db_after (run delta_input 1 false interrupted [get 8 "x"; yes; yes; yes] []).

Lemma sessions_never_duplicate_witness :
  NoDup (map delta_coord (db_deltas resumed)) /\
  map delta_coord (db_deltas interrupted) = [("g:orderbook_delta", 0, 8)].
Proof.
  split; [|vm_compute; reflexivity].
  apply (sessions_never_duplicate interrupted resumed).
  - apply rtc_once. apply run_session.
  - apply run_session.
Defined.

(** ** Runs that apply the guarantees *)

Definition trace_of (o : option (@world PostgresStorage)) : list action :=
  match o with Some w => w_trace w | None => [] end.

(** Two trades in one batch, whose first write fails. *)
Definition retried_env : list (@answer PostgresStorage) := [get 8 "x"; yes; get 9 "x"; no; yes; yes].
Definition retried_run : option (@world PostgresStorage) := run trade_input 2 false emptyDB retried_env [].

Lemma sample_feed_increasing : increasing_feed [sample_msg 8 "x"; sample_msg 9 "x"].
Proof.
  intros l1 m l2 E. destruct l1 as [|a [|b l1]]; simpl in E.
  - constructor.
  - injection E as <- <- <-. repeat constructor.
  - exfalso. injection E as _ _ E. by destruct l1.
Qed.

Lemma commits_cover_only_handled_witness :
  commit_safe (trace_of retried_run) /\ map ms_Offset (commits (trace_of retried_run)) = [9].
Proof.
  split; [|vm_compute; reflexivity]. unfold retried_run, run.
  destruct (@commits_cover_only_handled PostgresStorage PostgresStorage_laws sample_decoders sample_group
    trade_input (mkBatchConfig 2 0) true emptyDB None None false retried_env []) as (w' & E & Hs & _).
  rewrite E. apply Hs.
  assert (fetched (w_trace w') = fetched (trace_of retried_run)) as ->.
  { unfold retried_run, run. by rewrite E. }
  assert (fetched (trace_of retried_run) = [sample_msg 8 "x"; sample_msg 9 "x"]) as ->
    by (vm_compute; reflexivity).
  apply sample_feed_increasing.
Defined.

Lemma written_records_sound_witness :
  Forall (@rec_sound PostgresStorage sample_decoders trade_input (db_after retried_run))
    (written (trace_of retried_run)) /\
  map (fun r => ms_Offset (pr_msg r)) (written (trace_of retried_run)) = [8; 9].
Proof.
  split; [|vm_compute; reflexivity].
  unfold retried_run. destruct (run_total trade_input 2 false emptyDB retried_env []) as [w E].
  rewrite E. unfold run in E. cbn [db_after trace_of].
  exact (@written_records_sound PostgresStorage PostgresStorage_laws sample_decoders sample_group
    trade_input (mkBatchConfig 2 0) true emptyDB None None false retried_env [] w E).
Defined.

(** Three records, one of them poison, no failure, stopped with a batch open. *)
Definition calm_env : list (@answer PostgresStorage) :=
  [get 7 ""; yes; yes; yes; get 8 "x"; get 9 "x"].
Definition calm_run : option (@world PostgresStorage) := run trade_input 5 true emptyDB calm_env [yes; yes].

Lemma calm_run_handles_everything_witness :
  dropped (trace_of calm_run) = [] /\
  map ms_Offset (commits (trace_of calm_run)) = [7; 9] /\
  map tr_KafkaOffset (db_trades (db_after calm_run)) = [8].
Proof.
  split; [|split; vm_compute; reflexivity].
  unfold calm_run. destruct (run_total trade_input 5 true emptyDB calm_env [yes; yes]) as [w E].
  rewrite E. cbn [trace_of].
  apply (@calm_run_handles_everything PostgresStorage PostgresStorage_laws sample_decoders sample_group
    trade_input (mkBatchConfig 5 0) true emptyDB None None calm_env [yes; yes] w).
  - repeat constructor.
  - repeat constructor.
  - simpl. lia.
  - unfold run in E. exact E.
  - assert (fetched (w_trace w) = [sample_msg 7 ""; sample_msg 8 "x"; sample_msg 9 "x"]) as ->.
    { assert (fetched (trace_of calm_run) = [sample_msg 7 ""; sample_msg 8 "x"; sample_msg 9 "x"]) as Hf
        by (vm_compute; reflexivity).
      unfold calm_run in Hf. by rewrite E in Hf. }
    split; [|repeat constructor; simpl; lia].
    intros l1 m l2 Eq. destruct l1 as [|a [|b [|c l1]]]; simpl in Eq.
    + constructor.
    + injection Eq as <- <- <-. repeat constructor.
    + injection Eq as <- <- <- <-. repeat constructor.
    + exfalso. injection Eq as _ _ _ Eq. by destruct l1.
Defined.

(** Offsets 5 and 6 are batched, then 5 is delivered again. *)
Definition sample_record (offset : Z) : pendingRecord :=
  mkPendingRecord (sample_msg offset "x") 5
    (Some (toTrade sample_trade trade_input (sample_msg offset "x") "buy")) None None.

Lemma redelivery_blocks_batch_witness :
  let records := [sample_record 5; sample_record 6; sample_record 5] in
  let w := @fresh PostgresStorage emptyDB None None in
  exists w', @write_loop PostgresStorage (batch_of trade_input (w_iw w) records (sample_record 5)) records w
               [yes; yes; yes; yes] = (false, w', []) /\ w_db w' = emptyDB.
Proof.
  intros records w.
  destruct (@redelivery_blocks_batch PostgresStorage PostgresStorage_laws trade_input (w_iw w) records
    (sample_record 5) (sample_record 6)
    (toTrade sample_trade trade_input (sample_msg 6 "x") "buy") w [yes; yes; yes; yes])
    as (w' & H1 & H2 & _); [reflexivity|by right; left|reflexivity|reflexivity|].
  exists w'. split; [exact H1|exact H2].
Defined.

(** A record whose poison write fails is lost: although the code means to
    keep its offset uncommitted, the loop goes on and the commit of a later
    record covers it, so it is in no table, and when it is delivered again it is
    skipped as already durable. *)
Theorem failed_poison_write_loses_record :
  let first := run trade_input 1 true emptyDB [get 8 ""; yes; no; get 9 "x"; yes; yes] [] in
  let again := run trade_input 1 true (db_after first) [get 8 "x"; yes; yes; yes] [] in
  map ms_Offset (dropped (trace_of first)) = [8] /\
  map ms_Offset (commits (trace_of first)) = [9] /\
  map ms_Offset (commits (trace_of again)) = [8] /\
  map tr_KafkaOffset (db_trades (db_after again)) = [9] /\ db_poison (db_after again) = [].
Proof. vm_compute. repeat split. Qed.

(** Sessions of a delta input that start at a position of the order book. *)
Definition run_from (seq lastUpdate : option Z) (db : DB) (env : list (@answer PostgresStorage)) : option (@world PostgresStorage) :=
  @consume PostgresStorage sample_decoders sample_group delta_input (mkBatchConfig 1 0) true false (fresh db seq lastUpdate) env [].

Definition row_at_7 : DB :=
  set_progress {[("g:orderbook_delta", 0) := mkStreamWriteProgress "g:orderbook_delta" 0 7 "" None None 7]} emptyDB.

(** A delta that was not stored yet, and that the order book is past, because a
    snapshot came while the input was paused, is committed without a row. *)
Theorem book_start_skips_deltas :
  let env := [get 8 "x"; yes; yes; yes] in
  map od_KafkaOffset (db_deltas (db_after (run_from None None row_at_7 env))) = [8] /\
  map ms_Offset (commits (trace_of (run_from (Some 100) (Some 100) row_at_7 env))) = [8] /\
  db_deltas (db_after (run_from (Some 100) (Some 100) row_at_7 env)) = [].
Proof. vm_compute. repeat split. Qed.

(** After a redelivered batch the worker's own durable offset is behind the one of
    the store: a record that is already there is decoded and put in a batch again,
    where the store leaves it out. *)
Theorem durable_goes_back :
  let first := run trade_input 2 false emptyDB [get 8 "x"; yes; get 9 "x"; yes] [] in
  let again := run trade_input 1 false (db_after first) [get 8 "x"; yes; yes; yes; get 9 "x"; yes; yes] [] in
  let halfway := run trade_input 1 false (db_after first) [get 8 "x"; yes; yes; yes] [] in
  durable (db_after first) ("g:trade", 0) = 9 /\
  option_map (fun w => durable_at 0 (w_iw w)) halfway = Some 8 /\
  map (fun r => (ms_Offset (pr_msg r), bool_decide (pr_trade r = None))) (written (trace_of again)) = [(8, true); (9, false)] /\
  db_trades (db_after again) = db_trades (db_after first).
Proof. vm_compute. repeat split. Qed.
