(* ===== verification/Reporting.v ===== *)
(** * Reporting: the status of an input worker

    The rest of an input worker of internal/runtime/input_worker.go: [run], which
    reports the status, consumes while [reportLoop] reports it again and again,
    and reports it once more at the end.  A report of the loop sees the worker as
    it is while it waits for some call; that is the worker a run of the consume
    loop leaves whose answers end before that call. *)

From S2P Require Import Prelude GoStd Model Kafka Decode Metadata StorageInterface Storage InputWorker Consume Pipeline.

Open Scope Z_scope.

Section reporting.
Context `{S : MarketDataStorage} `{L : !MarketDataStorageLaws S} `{Decoders}.
Variables (group : MarketGroup) (input : GroupInput) (batch : BatchConfig) (hook : bool) (nodeID : string).
(** The text of [lastErr]. *)
Variable error_text : worker_error -> string.

(** ** Operations *)

(** The row [flush] reports. *)
Definition current_status (s : iwState) : StreamRuntimeStatus :=
  snapshotLocked group input nodeID (iw_status s) (error_text (iw_lastErr s)) s.

(** A failed report is logged and dropped. *)
Definition flush (out : outcome) (now : time.Time) (s : iwState) (db : MetaDB) : MetaDB :=
  fst (ReportStreamRuntimeStatus out now db (current_status s)).

(** The worker and its store while it waits for its [n]-th call. *)
Definition waiting (w : world) (env : list answer) (n : nat) : world :=
  match consume_loop group input batch hook (Datatypes.S (length (take n env))) [] w (take n env) with
  | Some (_, w') => w'
  | None => w
  end.

(** A tick of the report loop: when it comes, and what becomes of the call. *)
Record tick := mkTick { tk_at : nat; tk_out : outcome; tk_now : time.Time }.

Definition reportLoop (w : world) (env : list answer) (ticks : list tick) (db : MetaDB) : MetaDB :=
  foldl (fun db t => flush (tk_out t) (tk_now t) (w_iw (waiting w env (tk_at t))) db) db ticks.

Definition input_run (flushOnStop : bool) (w : world) (env flush_env : list answer) (first : outcome * time.Time)
    (ticks : list tick) (final : outcome * time.Time) (db : MetaDB) : option (world * MetaDB) :=
  let db1 := reportLoop w env ticks (flush first.1 first.2 (w_iw w) db) in
  w' ← consume group input batch hook flushOnStop w env flush_env;
  Some (w', flush final.1 final.2 (w_iw w') db1).

(** ** Reported offsets are durable *)

(** The committed offset is durable in the store. *)
Definition honest (s : iwState) (db : st_DB) : Prop :=
  match iw_committed s with
  | Some o => o <= st_durable db (inputID input, iw_partition s)
  | None => True
  end.

Lemma honest_le s db db' : db_le db db' -> honest s db -> honest s db'.
Proof.
  intros [Hd _]. unfold honest. destruct (iw_committed s); [|done]. specialize (Hd (inputID input, iw_partition s)). lia.
Qed.

(** What the calls of a batch do to the worker before the commit went through. *)
Definition same_position (s s' : iwState) : Prop := iw_committed s' = iw_committed s /\ iw_partition s' = iw_partition s.

Lemma honest_same s s' db : same_position s s' -> honest s db -> honest s' db.
Proof. intros [H1 H2]. unfold honest. by rewrite H1, H2. Qed.

Lemma write_loop_honest b rs w env ok w' env' :
  write_loop b rs w env = (ok, w', env') -> honest (w_iw w) (w_db w) ->
  honest (w_iw w') (w_db w') /\ (ok = true -> wp_DurableOffset (fb_Progress b) <= st_durable (w_db w') (progress_key (fb_Progress b))).
Proof.
  intros Hw Hh. split; [|intros ->; by apply write_loop_spec in Hw as (_ & _ & _ & _ & ?)].
  revert w Hw Hh. induction env as [|a env IH]; intros w Hw Hh; cbn [write_loop] in Hw; [by injection Hw as <- <- <-|].
  pose proof (write_db_le (an_fault a) (an_now a) (w_db w) b) as Hle. destruct (st_write _ _ _ _) as [db' [e|]]; cbn in Hle.
  - apply (IH _ Hw). apply (honest_le _ (w_db w)); [done|]. by apply (honest_same (w_iw w)).
  - injection Hw as <- <- <-. by apply (honest_le _ (w_db w)).
Qed.

Lemma commit_loop_honest m w env ok w' env' now :
  commit_loop m w env = (ok, w', env', now) -> honest (w_iw w) (w_db w) -> honest (w_iw w') (w_db w') /\ w_db w' = w_db w.
Proof.
  intros Hc Hh. assert (w_db w' = w_db w) as Hdb by (by apply commit_loop_spec in Hc as (? & _)). split; [|done]. rewrite Hdb.
  clear Hdb. revert w Hc Hh. induction env as [|a env IH]; intros w Hc Hh; cbn [commit_loop] in Hc; [by injection Hc as <- <- <- <-|].
  unfold call_commit in Hc. destruct (an_commit a) as [effect [|]].
  - injection Hc as <- <- <- <-. by destruct (effect || true).
  - rewrite orb_false_r in Hc. destruct effect; apply IH in Hc; done.
Qed.

Lemma flushBatch_honest records w env ok w' env' :
  flushBatch input hook records w env = (ok, w', env') -> honest (w_iw w) (w_db w) -> honest (w_iw w') (w_db w').
Proof.
  unfold flushBatch. intros Hf Hh. destruct (last records) as [lastr|]; [|by injection Hf as <- <- <-].
  destruct (write_loop _ _ _ _) as [[okw w1] env1] eqn:Ew. apply write_loop_honest in Ew as [H1 Hd]; [|done].
  destruct okw; [|by injection Hf as <- <- <-]. specialize (Hd eq_refl).
  destruct (commit_loop _ _ _) as [[[okc w3] env2] now] eqn:Ec. apply commit_loop_honest in Ec as [H3 Hdb]; [|done]. cbn in Hdb.
  destruct okc; injection Hf as <- <- <-; [|done]. unfold after_commit, honest. cbn.
  assert (w_db (if hook && bool_decide (gi_StreamKind input = StreamKindOrderBookDelta)
                then log (map AApplied (omap pr_delta records)) (on_iw (set_durable (ms_Partition (pr_msg lastr)) (ms_Offset (pr_msg lastr))) w3)
                else on_iw (set_durable (ms_Partition (pr_msg lastr)) (ms_Offset (pr_msg lastr))) w3) = w_db w3) as -> by (by destruct (_ && _)).
  rewrite Hdb. exact Hd.
Qed.

Lemma ensureProgress_honest p w env ok w' env' :
  ensureProgress input p w env = (ok, w', env') -> honest (w_iw w) (w_db w) -> honest (w_iw w') (w_db w').
Proof.
  unfold ensureProgress. case_bool_decide as Hin; [by intros [= <- <- <-]|]. clear Hin.
  revert w. induction env as [|a env IH]; intros w; cbn [load_loop]; [by intros [= <- <- <-]|].
  destruct (st_load _ _ _ _) as [row|e] eqn:E.
  - intros [= <- <- <-] Hh. cbn. apply law_load_exact in E. destruct row as [row|]; [|done]. unfold honest, install_progress, clear_reset. cbn.
    by destruct (bool_decide _); cbn; rewrite E.
  - intros Hl Hh. by apply (IH _ Hl).
Qed.

Lemma prepare_position msg s : same_position s (fst (prepare input msg s)).
Proof. unfold prepare, prepare_delta. repeat case_match; done. Qed.

Lemma dead_letter_honest msg stage w env :
  honest (w_iw w) (w_db w) ->
  honest (w_iw (fst (dead_letter group input msg stage w env))) (w_db (fst (dead_letter group input msg stage w env))).
Proof.
  intros Hh. unfold dead_letter. destruct env as [|a env]; [done|].
  match goal with |- context [st_poison ?f ?n ?d ?r] => pose proof (poison_db_le f n d r) as Hp; destruct (st_poison f n d r) as [db' [e|]] end;
    cbn in Hp; [by apply (honest_le _ (w_db w))|].
  destruct env as [|a1 env]; [by apply (honest_le _ (w_db w))|]. unfold call_commit. destruct (an_commit a1) as [x y]. cbn.
  destruct (x || y); by apply (honest_le _ (w_db w)).
Qed.

(** The worker an iteration leaves. *)
Definition left (i : iteration) : world := match i with Continue _ w _ | Return _ w _ => w end.
Definition honest_world (w : world) : Prop := honest (w_iw w) (w_db w).

Lemma handle_record_honest pending msg w env :
  honest_world w -> honest_world (left (handle_record group input batch hook pending msg w env)).
Proof.
  intros Hh. unfold handle_record. pose proof (prepare_position msg (w_iw w)) as Hp.
  destruct (prepare input msg (w_iw w)) as [s' [r|stage]]; cbn in Hp;
    assert (honest_world (on_iw (fun _ => s') w)) as Hs by (by apply (honest_same (w_iw w))).
  - unfold enqueue. destruct (_ <=? _); [|done]. destruct (flushBatch _ _ _ _ _) as [[[] w1] env1] eqn:Ef; by apply flushBatch_honest in Ef.
  - destruct (flush_pending _ _ _ _ _) as [[ok w1] env1] eqn:Ef.
    assert (honest_world w1) as H1.
    { unfold flush_pending in Ef. destruct pending; [by injection Ef as <- <- <-|]. by apply flushBatch_honest in Ef. }
    destruct ok; [|done]. destruct (isRetryableStage stage); [done|].
    pose proof (dead_letter_honest msg stage w1 env1 H1) as Hd. by destruct (dead_letter _ _ _ _ _ _).
Qed.

Lemma iterate_honest pending w env : honest_world w -> honest_world (left (iterate group input batch hook pending w env)).
Proof.
  intros Hh. unfold iterate. destruct env as [|a env]; [done|].
  assert (forall p w1 env1 msg, honest_world w1 -> honest_world (left
    match ensureProgress input (ms_Partition msg) w1 env1 with
    | (true, w', env') => handle_record group input batch hook p msg w' env'
    | (false, w', env') => Return p w' env'
    end)) as Hafter.
  { intros p w1 env1 msg H1. destruct (ensureProgress _ _ _ _) as [[[] w2] env2] eqn:Ee; apply ensureProgress_honest in Ee; try done.
    by apply handle_record_honest. }
  destruct (an_fetch a) as [msg| |]; [|destruct pending as [|r rs]|done]; [|done|].
  - unfold handle_message. destruct (other_partition pending msg); [|by apply Hafter].
    destruct (flushBatch _ _ _ _ _) as [[[] w1] env1] eqn:Ef; apply flushBatch_honest in Ef; try done. by apply Hafter.
  - destruct (flushBatch _ _ _ _ _) as [[[] w1] env1] eqn:Ef; by apply flushBatch_honest in Ef.
Qed.

Lemma consume_loop_honest fuel pending w env p w' :
  consume_loop group input batch hook fuel pending w env = Some (p, w') -> honest_world w -> honest_world w'.
Proof.
  revert pending w env. induction fuel as [|f IH]; intros pending w env Hc Hh; [done|]. cbn [consume_loop] in Hc.
  pose proof (iterate_honest pending w env Hh) as Hi. destruct (iterate _ _ _ _ _ _ _); [by eapply IH|by injection Hc as <- <-].
Qed.

Lemma consume_honest flushOnStop w env flush_env w' :
  consume group input batch hook flushOnStop w env flush_env = Some w' -> honest_world w -> honest_world w'.
Proof.
  unfold consume. intros Hc Hh. destruct (consume_loop _ _ _ _ _ _ _ _) as [[pending w1]|] eqn:El; [|done].
  apply consume_loop_honest in El; [|done]. destruct pending as [|r rs]; [by injection Hc as <-|]. destruct flushOnStop; injection Hc as <-; [|done].
  destruct (flushBatch _ _ _ _ _) as [[ok w2] env2] eqn:Ef. by apply flushBatch_honest in Ef.
Qed.
(** ** What the status table holds *)

Lemma flush_row out now s db :
  (md_status (flush out now s db) = md_status db \/
   md_status (flush out now s db) = <[inputID input := status_row now (current_status s)]> (md_status db)) /\
  md_inputs (flush out now s db) = md_inputs db /\
  (out = Done -> is_Some (md_inputs db !! inputID input) ->
   md_status (flush out now s db) = <[inputID input := status_row now (current_status s)]> (md_status db)).
Proof.
  unfold flush, ReportStreamRuntimeStatus. change (rs_InputID (current_status s)) with (inputID input).
  destruct (md_inputs db !! inputID input) as [i|] eqn:E; destruct out; cbn; split_and!; auto; try done; by intros _ [].
Qed.

(** The row is the status of the worker at some moment, and at that moment its
    offset was durable. *)
Definition reported (moment : world -> Prop) (row : StreamRuntimeStatus) : Prop :=
  exists m now, moment m /\ row = status_row now (current_status (w_iw m)) /\
    forall o p, rs_CommittedOffset row = Some o -> rs_KafkaPartition row = Some p -> o <= st_durable (w_db m) (inputID input, p).

(** Only the row of the input changes, to reported rows. *)
Definition status_kept (moment : world -> Prop) (db db' : MetaDB) : Prop :=
  md_inputs db' = md_inputs db /\
  (forall k, k <> inputID input -> md_status db' !! k = md_status db !! k) /\
  forall row, md_status db' !! inputID input = Some row -> md_status db !! inputID input = Some row \/ reported moment row.

Lemma flush_kept moment out now w db : moment w -> honest_world w -> status_kept moment db (flush out now (w_iw w) db).
Proof.
  intros Hm Hh. destruct (flush_row out now (w_iw w) db) as (H1 & H2 & _). split; [done|].
  destruct H1 as [-> | ->]; [by split; [|left]|]. split; [by intros k Hk; rewrite lookup_insert_ne|].
  intros row. rewrite lookup_insert_eq. intros [= <-]. right. exists w, now. split_and!; [done|done|].
  unfold honest_world, honest in Hh. cbn. intros o p Ho [= <-]. by rewrite Ho in Hh.
Qed.

Lemma kept_refl moment db : status_kept moment db db.
Proof. split; [done|]. split; [done|]. by left. Qed.

Lemma kept_trans moment db1 db2 db3 : status_kept moment db1 db2 -> status_kept moment db2 db3 -> status_kept moment db1 db3.
Proof.
  intros (A1 & A2 & A3) (B1 & B2 & B3). split; [congruence|]. split.
  - intros k Hk. by rewrite B2, A2.
  - intros row [Hr|Hr]%B3; [by apply A3|by right].
Qed.

Lemma waiting_honest w env n : honest_world w -> honest_world (waiting w env n).
Proof.
  intros Hh. unfold waiting. destruct (consume_loop _ _ _ _ _ _ _ _) as [[p w']|] eqn:E; [|done]. by eapply consume_loop_honest.
Qed.

(** (C12) Status reports never run ahead.  A run of an input worker ends, whatever its
    calls answer; the status row of the input is then the one from before, or the
    status of the worker at the start, at some wait for a call or at the end, with
    a committed offset that was durable in the store at that moment; no other row
    is touched; and if the last report got through, the row is the final status. *)
Theorem status_reports_are_durable db resetSeq resetLastUpdate flushOnStop env flush_env first ticks final meta :
  let w := fresh db resetSeq resetLastUpdate in
  exists w' meta', input_run flushOnStop w env flush_env first ticks final meta = Some (w', meta') /\
    status_kept (fun m => m = w \/ (exists n, m = waiting w env n) \/ m = w') meta meta' /\
    (final.1 = Done -> is_Some (md_inputs meta !! inputID input) ->
     md_status meta' !! inputID input = Some (status_row final.2 (current_status (w_iw w')))).
Proof.
  intros w. destruct (consume_inv group input batch hook flushOnStop w env flush_env (inv_fresh input db resetSeq resetLastUpdate)) as (w' & Hc & _).
  unfold input_run. rewrite Hc. cbn [mbind option_bind]. eexists w', _. split; [reflexivity|].
  set (moment := fun m => m = w \/ (exists n, m = waiting w env n) \/ m = w'). assert (honest_world w) as Hw by done.
  pose proof (consume_honest _ _ _ _ _ Hc Hw) as Hw'.
  assert (status_kept moment meta (reportLoop w env ticks (flush first.1 first.2 (w_iw w) meta))) as Hk.
  { eapply kept_trans; [apply (flush_kept _ first.1 first.2 w); [by left|done]|]. unfold reportLoop.
    generalize (flush first.1 first.2 (w_iw w) meta). induction ticks as [|t ticks IH]; intros db0; [apply kept_refl|].
    cbn [foldl]. eapply kept_trans; [|apply IH]. apply flush_kept; [right; left; by eexists|by apply waiting_honest]. }
  split; [eapply kept_trans; [exact Hk|apply flush_kept; [by right; right|done]]|].
  intros Hf Hi. destruct Hk as (Hin & _ & _). destruct (flush_row final.1 final.2 (w_iw w') (reportLoop w env ticks (flush first.1 first.2 (w_iw w) meta))) as (_ & _ & Hlast).
  rewrite Hlast; [by rewrite lookup_insert_eq|done|by rewrite Hin].
Qed.

End reporting.

(** ** A witness *)

Definition known_trade_input : MetaDB := set_inputs {[inputID trade_input := trade_input]} emptyMeta.

(** A run of two trades; the loop reports while the worker waits for its fourth and
    sixth call, and the last report gets through. *)
Definition reported_run : option (@world PostgresStorage * MetaDB) :=
  @input_run PostgresStorage sample_decoders sample_group trade_input (mkBatchConfig 2 0) true "n1" (fun _ => "") false
    (fresh (S := PostgresStorage) emptyDB None None) retried_env [] (Failed, 1) [mkTick 3 Done 2; mkTick 5 Done 3] (Done, 4) known_trade_input.

Lemma status_reports_are_durable_witness :
  (exists w' meta', reported_run = Some (w', meta') /\
     md_status meta' !! inputID trade_input = Some (status_row 4 (current_status sample_group trade_input "n1" (fun _ => "") (w_iw w')))) /\
  option_map (fun r => (rs_ActualStatus <$> md_status r.2 !! inputID trade_input, (md_status r.2 !! inputID trade_input) ≫= rs_CommittedOffset)) reported_run
  = Some (Some ActualStatusRunning, Some 9).
Proof.
  split; [|vm_compute; reflexivity].
  destruct (@status_reports_are_durable PostgresStorage PostgresStorage_laws sample_decoders sample_group trade_input (mkBatchConfig 2 0) true "n1"
    (fun _ => "") emptyDB None None false retried_env [] (Failed, 1) [mkTick 3 Done 2; mkTick 5 Done 3] (Done, 4) known_trade_input)
    as (w' & meta' & E & _ & H).
  exists w', meta'. split; [exact E|]. apply H; [reflexivity|]. exists trade_input. vm_compute. reflexivity.
Defined.
