(* ===== verification/EndToEnd.v ===== *)
(** * EndToEnd: from the topic to the tables

    The input worker of InputWorker over the store of Storage, session after
    session.  A topic partition is a log of records; a session reads it in order
    from the position its consumer group committed, or from an earlier one; then
    it may crash at any call.  What is proved is about the tables that are left
    when any number of sessions is over: no trade and no candle the log holds is
    missing, no delta but a superseded one, and with the JSON layer of Payload,
    nothing a producer wrote.  Stored facts are those of Facts, the log and its
    cursors those of Topic. *)

From S2P Require Import Prelude GoStd Model Kafka Json Sequence Decode Payload StorageInterface Storage InputWorker Facts Consume Topic Pipeline.

Open Scope Z_scope.

(** ** One session loses nothing *)

Section session.
Context `{Decoders}.
Variables (group : MarketGroup) (input : GroupInput) (batch : BatchConfig) (hook : bool).
Variables (log : topic) (start : Z -> Z) (reset : Z -> Prop).
Hypothesis log_ok : topic_ok log.

(** The record needs no more work: its fact is in the tables, or is a delta that
    is superseded.  A record without a fact is poison. *)
Record stored (db : DB) (m : Message) : Prop := {
  sd_trade : gi_StreamKind input = StreamKindTrade -> forall t, buildTrade input m = Ok t -> trade_stored db t;
  sd_kline : gi_StreamKind input = StreamKindKline -> forall k, buildKline input m = Ok k -> kline_stored db k;
  sd_delta : gi_StreamKind input = StreamKindOrderBookDelta -> forall d, buildOrderBookDelta input m = Ok d ->
    delta_stored db (with_payload d (ms_Value m)) \/ superseded input log reset m d
}.

(** The fact of the record is the one prepared for it. *)
Record carries (m : Message) (r : pendingRecord) : Prop := {
  ca_trade : gi_StreamKind input = StreamKindTrade -> forall t, buildTrade input m = Ok t -> pr_trade r = Some t;
  ca_kline : gi_StreamKind input = StreamKindKline -> forall k, buildKline input m = Ok k -> pr_kline r = Some k;
  ca_delta : gi_StreamKind input = StreamKindOrderBookDelta -> forall d, buildOrderBookDelta input m = Ok d ->
    pr_delta r = Some (with_payload d (ms_Value m)) \/ superseded input log reset m d
}.

(** The record is in the open batch, above the durable offset. *)
Definition carried (pending : list pendingRecord) (db : DB) (m : Message) : Prop :=
  durable db (inputID input, ms_Partition m) < ms_Offset m /\ exists r, r ∈ pending /\ pr_msg r = m /\ carries m r.

(** The trade is the decoding of the record at its coordinates. *)
Definition from_log (t : Trade) : Prop :=
  exists m, log (tr_KafkaPartition t) (tr_KafkaOffset t) = Some m /\ buildTrade input m = Ok t.

Definition rows_from_log (db : DB) : Prop :=
  forall x, x ∈ db_trades db -> tr_InputID x = inputID input ->
    exists t now id, from_log t /\ x = trade_row now id t.

(** The cursors of the progress rows come from deltas up to their durable offset. *)
Definition rows_known (db : DB) : Prop :=
  forall p row, db_progress db !! (inputID input, p) = Some row ->
    known input log reset (fun o => o <= wp_DurableOffset row) p (row_cursor row).

(** What holds of the tables between two calls: every record at or below a durable
    offset, and every one before the start position, is stored. *)
Record store_ok (db : DB) : Prop := {
  so_log p o m : log p o = Some m -> o <= durable db (inputID input, p) \/ o < start p -> stored db m;
  so_rows : rows_from_log db;
  so_cursors : rows_known db
}.

(** How far the cursor of a worker may have gone: to the durable offset, or to the
    open batch. *)
Definition reach (pending : list pendingRecord) (db : DB) (p o : Z) : Prop :=
  o <= durable db (inputID input, p) \/ exists r, r ∈ pending /\ ms_Partition (pr_msg r) = p /\ o <= ms_Offset (pr_msg r).

Record worker_ok (pending : list pendingRecord) (db : DB) (s : iwState) : Prop := {
  wo_cursor p c : iw_lastDeltaByPartition s !! p = Some c -> known input log reset (reach pending db p) p c;
  wo_reset : resets_ok reset s
}.

Lemma worker_ok_mono pending pending' db db' s s' :
  (forall p o, reach pending db p o -> reach pending' db' p o) ->
  iw_lastDeltaByPartition s' = iw_lastDeltaByPartition s ->
  iw_snapshotResetSeq s' = iw_snapshotResetSeq s -> iw_snapshotResetLastUpdate s' = iw_snapshotResetLastUpdate s ->
  worker_ok pending db s -> worker_ok pending' db' s'.
Proof.
  intros Hr E1 E2 E3 [H1 H2]. constructor.
  - intros p c. rewrite E1. intros Hc. eapply known_mono; [|by apply H1]. auto.
  - unfold resets_ok. by rewrite E2, E3.
Qed.

Lemma reach_durable pending db db' p o :
  (forall q, durable db (inputID input, q) <= durable db' (inputID input, q)) -> reach pending db p o -> reach pending db' p o.
Proof. intros Hd [Ho|?]; [left; specialize (Hd p); lia|by right]. Qed.

(** The records fetched are stored, in the batch, or in hand. *)
Definition covered (ms : list Message) (pending : list pendingRecord) (inflight : list Message) (db : DB) : Prop :=
  store_ok db /\ forall m, m ∈ ms -> stored db m \/ carried pending db m \/ m ∈ inflight.

Lemma stored_kept db db' m : facts_kept db db' -> stored db m -> stored db' m.
Proof.
  intros Hk [Ht Hkl Hd]. split; intros Hkind x Hx; [eapply trade_stored_kept|eapply kline_stored_kept|]; eauto.
  destruct (Hd Hkind x Hx); [left; by eapply delta_stored_kept|by right].
Qed.

(** *** Publishing a batch *)

Lemma insert_from_log now db t :
  rows_from_log db -> from_log t -> rows_from_log (insert_trade now db t) /\ trade_stored (insert_trade now db t) t.
Proof.
  intros Hrows Ht. pose proof Ht as (m & Hm & Hb). pose proof (buildTrade_coord input m t Hb) as Hc.
  unfold insert_trade. destruct (existsb _ _) eqn:E; cycle 1.
  - split.
    + intros x [Hx|Hx%list_elem_of_singleton]%elem_of_app Hi; [by apply Hrows|]. by exists t, now, (db_nextTrade db).
    + eexists. split; [apply elem_of_app; right; by apply list_elem_of_singleton|]. left. by eexists _, _.
  - split; [done|]. apply existsb_exists in E as (x & Hx%list_elem_of_In & Hcl). unfold trade_clash, nullIfEmpty in Hcl.
    exists x. split; [done|]. apply orb_true_iff in Hcl as [Hcl|Hcl].
    + apply bool_decide_eq_true in Hcl. left. rewrite Hcl in Hc. unfold trade_coord in Hcl, Hc. injection Hc as Hi _ _.
      destruct (Hrows x Hx Hi) as (t' & n & id & (m' & Hm' & Hb') & ->). cbn in Hcl. injection Hcl as _ E1 E2.
      rewrite E1, E2, Hm' in Hm. injection Hm as ->. rewrite Hb in Hb'. injection Hb' as <-. by eexists _, _.
    + right. case_bool_decide as Hr; [done|]. apply andb_true_iff in Hcl as [H1%bool_decide_eq_true H2%bool_decide_eq_true]. done.
Qed.

Lemma fold_from_log now ts db :
  rows_from_log db -> Forall from_log ts ->
  rows_from_log (fold_left (insert_trade now) ts db) /\ Forall (trade_stored (fold_left (insert_trade now) ts db)) ts.
Proof.
  intros Hrows Hts. revert db Hrows. induction Hts as [|t ts Ht _ IH]; intros db Hrows; [done|]. simpl.
  destruct (insert_from_log now db t Hrows Ht) as [H1 H2]. destruct (IH _ H1) as [H3 H4]. split; [done|].
  constructor; [|done]. eapply trade_stored_kept; [|exact H2]. apply fold_kept. intros. apply insert_trade_kept.
Qed.

(** The batch as the worker builds it. *)
Record batch_ready (ms inflight : list Message) (pending : list pendingRecord) (lastr : pendingRecord) : Prop := {
  br_from : exists l, ms = l ++ inflight /\ (length inflight <= 1)%nat /\ Forall (fun r => pr_msg r ∈ l) pending;
  br_partition r : r ∈ pending -> ms_Partition (pr_msg r) = ms_Partition (pr_msg lastr);
  br_sound r t : r ∈ pending -> pr_trade r = Some t -> buildTrade input (pr_msg r) = Ok t;
  br_kline r k : r ∈ pending -> pr_kline r = Some k -> buildKline input (pr_msg r) = Ok k;
  br_delta r d : r ∈ pending -> pr_delta r = Some d -> delta_coord d = (inputID input, ms_Partition (pr_msg r), ms_Offset (pr_msg r));
  br_sorted r : increasing_feed ms -> r ∈ pending -> ms_Offset (pr_msg r) <= ms_Offset (pr_msg lastr);
  br_last : last pending = Some lastr
}.

Lemma inv_batch_ready pending inflight (w : @world PostgresStorage) lastr :
  inv input pending inflight w -> last pending = Some lastr -> batch_ready (fetched (w_trace w)) inflight pending lastr.
Proof.
  intros [(l & Hf & _ & Hone & Hsort & Hpl) Hpart _ _ _ Hsound] Hlast. apply Forall_app in Hsound as [Hsound _].
  rewrite Forall_forall in Hsound. pose proof (last_Some_elem_of _ _ Hlast) as Hin. constructor.
  - by exists l.
  - intros r Hr. by apply Hpart.
  - intros r t Hr Ht. by destruct (rs_trade _ _ _ (Hsound r Hr) t Ht).
  - intros r k Hr Hk. by destruct (rs_kline _ _ _ (Hsound r Hr) k Hk).
  - intros r d Hr Hd. destruct (rs_delta _ _ _ (Hsound r Hr) d Hd) as (_ & d0 & Hd0 & ->). by apply buildOrderBookDelta_coord.
  - intros r Hinc Hr. pose proof (sorted_last (fun r => ms_Offset (pr_msg r)) pending lastr (Hsort Hinc) Hlast) as Hle.
    rewrite Forall_forall in Hle. by apply Hle.
  - done.
Qed.

Section publishing.
Variables (ms inflight : list Message) (pending : list pendingRecord) (lastr : pendingRecord).
Hypothesis ready : batch_ready ms inflight pending lastr.
Hypothesis ms_read : reads log start ms.
Variables (now : time.Time) (db : DB) (s : iwState).
Let b := batch_of input s pending lastr.
Let p := ms_Partition (pr_msg lastr).
Hypothesis valid : batch_valid b.

Lemma pending_fetched r : r ∈ pending -> pr_msg r ∈ ms.
Proof.
  intros Hr. destruct (br_from _ _ _ _ ready) as (l & -> & _ & Hpl). rewrite Forall_forall in Hpl.
  apply elem_of_app. left. by apply Hpl.
Qed.

Lemma above_durable r c :
  r ∈ pending -> c = (inputID input, ms_Partition (pr_msg r), ms_Offset (pr_msg r)) -> in_prefix (fb_Progress b) c ->
  durable db (inputID input, ms_Partition (pr_msg r)) < ms_Offset (pr_msg r) ->
  after_offset (fb_Progress b) (durable db (progress_key (fb_Progress b))) c = true.
Proof.
  intros Hr -> [_ [_ Hle]] Hd. rewrite (br_partition _ _ _ _ ready r Hr) in Hd |- *. cbn in *.
  rewrite bool_decide_true, Z.eqb_refl by done. cbn. apply andb_true_iff. split; [by apply Z.ltb_lt|by apply Z.leb_le].
Qed.

Lemma after_trades r t :
  r ∈ pending -> pr_trade r = Some t -> durable db (inputID input, ms_Partition (pr_msg r)) < ms_Offset (pr_msg r) ->
  t ∈ tradesAfterOffset (fb_Trades b) (fb_Progress b) (durable db (progress_key (fb_Progress b))).
Proof.
  intros Hr Ht Hd. assert (t ∈ fb_Trades b) as Hin by (apply list_elem_of_omap; eauto).
  destruct valid as (_ & _ & _ & _ & [HF _] & _). rewrite Forall_map, Forall_forall in HF.
  apply list_elem_of_In, filter_In. split; [by apply list_elem_of_In|].
  apply (above_durable r); [done| |by apply HF|done]. by apply buildTrade_coord, (br_sound _ _ _ _ ready r t Hr Ht).
Qed.

Lemma after_klines r k :
  r ∈ pending -> pr_kline r = Some k -> durable db (inputID input, ms_Partition (pr_msg r)) < ms_Offset (pr_msg r) ->
  k ∈ klinesAfterOffset (fb_Klines b) (fb_Progress b) (durable db (progress_key (fb_Progress b))).
Proof.
  intros Hr Hk Hd. assert (k ∈ fb_Klines b) as Hin by (apply list_elem_of_omap; eauto).
  destruct valid as (_ & _ & _ & _ & _ & [HF _] & _). rewrite Forall_map, Forall_forall in HF.
  apply list_elem_of_In, filter_In. split; [by apply list_elem_of_In|].
  apply (above_durable r); [done| |by apply HF|done]. by apply buildKline_coord, (br_kline _ _ _ _ ready r k Hr Hk).
Qed.

Lemma after_deltas r x :
  r ∈ pending -> pr_delta r = Some x -> durable db (inputID input, ms_Partition (pr_msg r)) < ms_Offset (pr_msg r) ->
  x ∈ deltasAfterOffset (fb_OrderBookDeltas b) (fb_Progress b) (durable db (progress_key (fb_Progress b))).
Proof.
  intros Hr Hx Hd. assert (x ∈ fb_OrderBookDeltas b) as Hin by (apply list_elem_of_omap; eauto).
  destruct valid as (_ & _ & _ & _ & _ & _ & HF & _). rewrite Forall_map, Forall_forall in HF.
  apply list_elem_of_In, filter_In. split; [by apply list_elem_of_In|].
  apply (above_durable r); [done|by eapply br_delta|by apply HF|done].
Qed.

Lemma batch_from_log d : Forall from_log (tradesAfterOffset (fb_Trades b) (fb_Progress b) d).
Proof.
  apply Forall_forall. intros t [Hin _]%list_elem_of_In%filter_In. apply list_elem_of_In, list_elem_of_omap in Hin as (r & Hr & Ht).
  pose proof (br_sound _ _ _ _ ready r t Hr Ht) as Hb. pose proof (buildTrade_coord input _ t Hb) as Hc.
  unfold trade_coord in Hc. injection Hc as _ E1 E2. exists (pr_msg r). rewrite E1, E2. split; [|done].
  by apply (reads_log log start ms); [|apply pending_fetched].
Qed.

(** What the batch carries is stored once it is published. *)
Lemma publish_stores m : rows_from_log db -> carried pending db m -> stored (publish now db b) m.
Proof.
  intros Hrows [Hd (r & Hr & <- & [Ht Hk Hdl])].
  destruct (fold_from_log now _ db Hrows (batch_from_log (durable db (progress_key (fb_Progress b))))) as [_ HF].
  rewrite Forall_forall in HF. split.
  - intros Hkind t Hb. destruct (HF t) as (x & Hx & Hxt); [eapply after_trades; eauto|].
    exists x. by rewrite publish_trades.
  - intros Hkind k Hb. unfold publish. 
    assert (kline_stored (fold_left (upsert_kline now) (klinesAfterOffset (fb_Klines b) (fb_Progress b) (durable db (progress_key (fb_Progress b))))
      (fold_left (insert_trade now) (tradesAfterOffset (fb_Trades b) (fb_Progress b) (durable db (progress_key (fb_Progress b)))) db)) k) as Hs;
      [|exact Hs].
    apply fold_stores; [intros; apply upsert_kline_kept|apply kline_stored_kept|intros; apply upsert_kline_stored|].
    eapply after_klines; eauto.
  - intros Hkind d Hb. destruct (Hdl Hkind d Hb) as [Hpr|]; [left|by right]. exists now. rewrite publish_deltas.
    apply elem_of_app. right. apply (list_elem_of_fmap_2 (delta_row now)). by eapply after_deltas.
Qed.

Lemma publish_rows : rows_from_log db -> rows_from_log (publish now db b).
Proof.
  intros Hrows x Hx. destruct (fold_from_log now _ db Hrows (batch_from_log (durable db (progress_key (fb_Progress b))))) as [H1 _].
  apply H1. by rewrite publish_trades in Hx.
Qed.

(** The cursor of the batch goes no further than its last record. *)
Lemma publish_cursors :
  durable db (inputID input, p) < ms_Offset (pr_msg lastr) -> rows_known db -> worker_ok pending db s -> rows_known (publish now db b).
Proof.
  intros Hlt Hrows [Hc _] q row Hrow. cbn [publish set_progress db_progress] in Hrow.
  destruct (decide (q = p)) as [->|Hne].
  - change (progress_key (fb_Progress b)) with (inputID input, p) in Hrow. rewrite lookup_insert_eq in Hrow. injection Hrow as <-.
    eapply known_row; [done..|]. intros c. cbv beta. case_bool_decide; [|done]. intros Hl. eapply known_mono; [|by apply Hc].
    intros o [Ho|(r & Hr & Hp & Ho)]; cbn; [fold p; lia|]. etrans; [exact Ho|]. eapply br_sorted; [done|by eapply reads_increasing|done].
  - rewrite lookup_insert_ne in Hrow; [by apply Hrows|]. intros E. injection E as E. by symmetry in E.
Qed.

(** A log record between the durable offset and the batch's was fetched before the
    last one of the batch. *)
Lemma between_fetched o m :
  log p o = Some m -> start p <= o -> o <= ms_Offset (pr_msg lastr) -> exists l, ms = l ++ inflight /\ m ∈ l.
Proof.
  intros Hm Hs Ho. destruct (br_from _ _ _ _ ready) as (l & -> & _ & Hpl). exists l. split; [done|].
  rewrite Forall_forall in Hpl. assert (pr_msg lastr ∈ l) as Hl by (eapply Hpl, last_Some_elem_of, br_last, ready).
  apply list_elem_of_split in Hl as (l1 & l2 & ->).
  destruct (ms_read l1 (pr_msg lastr) (l2 ++ inflight)) as (Hlast & _ & Hall); [by rewrite <- app_assoc|].
  destruct (decide (o = ms_Offset (pr_msg lastr))) as [->|Hne].
  - assert (m = pr_msg lastr) as -> by (unfold p in Hm; congruence). apply elem_of_app. right. by left.
  - apply elem_of_app. left. apply (Hall o); [done|unfold p in *; lia].
Qed.

(** The record in hand comes after the batch. *)
Lemma inflight_after m : m ∈ inflight -> ms_Partition m = p -> ms_Offset (pr_msg lastr) < ms_Offset m.
Proof.
  intros Hm Hp. destruct (br_from _ _ _ _ ready) as (l & -> & Hone & Hpl). rewrite Forall_forall in Hpl.
  assert (pr_msg lastr ∈ l) as Hl by (eapply Hpl, last_Some_elem_of, br_last, ready).
  destruct inflight as [|x [|]]; [by apply elem_of_nil in Hm| |simpl in Hone; lia].
  apply list_elem_of_singleton in Hm as ->. destruct (ms_read l x []) as (_ & Hlt & _); [done|].
  rewrite Forall_forall in Hlt. by apply Hlt.
Qed.

Lemma publish_covered :
  durable db (inputID input, p) < ms_Offset (pr_msg lastr) -> worker_ok pending db s ->
  covered ms pending inflight db -> covered ms pending inflight (publish now db b).
Proof.
  intros Hlt Hw [[Hlog Hrows Hcur] Hms]. pose proof (publish_kept now db b) as Hk.
  assert (forall m, m ∈ ms -> stored (publish now db b) m \/ m ∈ inflight) as Hall.
  { intros m Hm. destruct (Hms m Hm) as [Hs|[Hc|Hi]]; [left; by eapply stored_kept|left; by apply publish_stores|by right]. }
  split; [constructor; [|by apply publish_rows|by apply publish_cursors]|intros m Hm; destruct (Hall m Hm); auto].
  intros q o m Hm Ho. rewrite durable_publish in Ho. case_bool_decide as Hq; [|eapply stored_kept; [exact Hk|by eapply Hlog]].
  cbn in Hq, Ho. injection Hq as ->. fold p in Hm, Ho.
  destruct (decide (o <= durable db (inputID input, p) \/ o < start p)) as [Hold|Hnew];
    [eapply stored_kept; [exact Hk|by eapply Hlog]|].
  destruct (between_fetched o m) as (l & Hl & Hin); [done|lia..|].
  assert (m ∈ ms) as Hf by (rewrite Hl; apply elem_of_app; by left).
  destruct (Hall m Hf) as [?|Hi]; [done|]. apply inflight_after in Hi; [|by eapply log_ok].
  apply log_ok in Hm as (_ & Hmo & _). lia.
Qed.

End publishing.

(** *** The calls of a session *)

Abbreviation world := (@world PostgresStorage).
Abbreviation answer := (@answer PostgresStorage).

Lemma write_durable f now db bt q : durable db q <= durable (fst (WriteFactBatch f now db bt)) q.
Proof.
  destruct (WriteFactBatch_cases f now db bt) as [[-> _]|[(_ & _ & ->)|(_ & Hlt & ->)]]; [done..|].
  rewrite durable_publish. case_bool_decide; [subst; lia|done].
Qed.

Lemma write_worker pending f now db bt s : worker_ok pending db s -> worker_ok pending (fst (WriteFactBatch f now db bt)) s.
Proof. apply worker_ok_mono; [|done..]. intros p o. apply reach_durable. intros q. apply write_durable. Qed.

Lemma write_covered ms inflight pending lastr f now db s :
  batch_ready ms inflight pending lastr -> reads log start ms -> worker_ok pending db s -> covered ms pending inflight db ->
  covered ms pending inflight (fst (WriteFactBatch f now db (batch_of input s pending lastr))).
Proof.
  intros Hr Hread Hw Hc. destruct (WriteFactBatch_cases f now db (batch_of input s pending lastr)) as [[-> _]|[(_ & _ & ->)|(Hv & Hlt & ->)]];
    [done..|]. apply publish_covered; [done|done|by apply validateFactBatch_valid|exact Hlt|done|done].
Qed.

Lemma write_loop_covered ms inflight pending lastr s rs (w : world) env ok w' env' :
  batch_ready ms inflight pending lastr -> reads log start ms ->
  write_loop (batch_of input s pending lastr) rs w env = (ok, w', env') ->
  worker_ok pending (w_db w) s -> covered ms pending inflight (w_db w) ->
  worker_ok pending (w_db w') s /\ covered ms pending inflight (w_db w').
Proof.
  intros Hr Hread. revert w. induction env as [|a env IH]; intros w Hw Hok Hc; cbn [write_loop] in Hw; [by injection Hw as <- <- <-|].
  pose proof (write_covered _ _ _ _ (pf_stages (an_fault a)) (an_now a) (w_db w) s Hr Hread Hok Hc) as Hc1.
  apply (write_worker pending (pf_stages (an_fault a)) (an_now a) _ (batch_of input s pending lastr)) in Hok.
  cbn [st_write PostgresStorage] in Hw. destruct (WriteFactBatch _ _ _ _) as [db' [e|]]; cbn [fst] in Hc1, Hok.
  - by apply (IH _ Hw).
  - by injection Hw as <- <- <-.
Qed.

(** A flush leaves the cursors of the worker as they are. *)
Definition same_cursors (s s' : iwState) : Prop :=
  iw_lastDeltaByPartition s' = iw_lastDeltaByPartition s /\ iw_snapshotResetSeq s' = iw_snapshotResetSeq s /\
  iw_snapshotResetLastUpdate s' = iw_snapshotResetLastUpdate s.

#[local] Instance same_cursors_preorder : PreOrder same_cursors.
Proof. split; [intros s; by split_and!|]. intros a b c (H1 & H2 & H3) (H4 & H5 & H6). unfold same_cursors. by rewrite H4, H5, H6. Qed.

Lemma worker_ok_same pending db s s' : same_cursors s s' -> worker_ok pending db s -> worker_ok pending db s'.
Proof. intros (E1 & E2 & E3). by apply worker_ok_mono. Qed.

Lemma write_loop_cursors bt rs (w : world) env ok w' env' :
  write_loop bt rs w env = (ok, w', env') -> same_cursors (w_iw w) (w_iw w').
Proof.
  revert w. induction env as [|a env IH]; intros w; cbn [write_loop]; [by intros [= <- <- <-]|].
  destruct (st_write _ _ _ _) as [db' [e|]]; [|by intros [= <- <- <-]]. intros Hw%IH. exact Hw.
Qed.

Lemma commit_loop_cursors m (w : world) env ok w' env' now :
  commit_loop m w env = (ok, w', env', now) -> same_cursors (w_iw w) (w_iw w').
Proof.
  revert w. induction env as [|a env IH]; intros w; cbn [commit_loop]; [by intros [= <- <- <- <-]|].
  unfold call_commit. destruct (an_commit a) as [x y]. assert (forall w0 : world, w_iw (if (x || y) then InputWorker.log [ACommit m] w0 else w0) = w_iw w0) as E
    by (intros; by destruct (x || y)).
  destruct y; [intros [= <- <- <- <-]; by rewrite E|]. intros Hw%IH. cbn [on_iw w_iw] in Hw. rewrite E in Hw. exact Hw.
Qed.

Lemma flush_cursors pending (w : world) env ok w' env' :
  flushBatch input hook pending w env = (ok, w', env') -> same_cursors (w_iw w) (w_iw w').
Proof.
  unfold flushBatch. destruct (last pending); [|by intros [= <- <- <-]].
  destruct (write_loop _ _ _ _) as [[okw w1] env1] eqn:Ew. apply write_loop_cursors in Ew. destruct okw; [|by intros [= <- <- <-]].
  destruct (commit_loop _ _ _) as [[[okc w3] env2] now] eqn:Ec. apply commit_loop_cursors in Ec. cbn [on_metrics w_iw] in Ec.
  assert (same_cursors (w_iw w) (w_iw w3)) as H3 by (by etrans). destruct okc; intros [= <- <- <-]; [|done].
  unfold after_commit. destruct (hook && _); exact H3.
Qed.

(** Every log record of the partition up to this one is stored. *)
Definition passed (db : DB) (m : Message) : Prop :=
  forall o m', log (ms_Partition m) o = Some m' -> o <= ms_Offset m -> stored db m'.

Lemma passed_kept db db' m : facts_kept db db' -> passed db m -> passed db' m.
Proof. intros Hk Hp o m' Hm Ho. eapply stored_kept; [exact Hk|by eapply Hp]. Qed.

(** The state of a session, as long as it read the log. *)
Definition lossless (pending : list pendingRecord) (inflight : list Message) (w : world) : Prop :=
  reads log start (fetched (w_trace w)) ->
  covered (fetched (w_trace w)) pending inflight (w_db w) /\ Forall (passed (w_db w)) (commits (w_trace w)) /\
  worker_ok pending (w_db w) (w_iw w).

Definition session_inv (pending : list pendingRecord) (inflight : list Message) (w : world) : Prop :=
  inv input pending inflight w /\ lossless pending inflight w.

(** Once the offset of the last record is durable, nothing is carried any more. *)
Lemma settled ms inflight pending lastr db :
  batch_ready ms inflight pending lastr -> increasing_feed ms ->
  ms_Offset (pr_msg lastr) <= durable db (inputID input, ms_Partition (pr_msg lastr)) ->
  covered ms pending inflight db -> covered ms [] inflight db.
Proof.
  intros Hr Hinc Hd [Hs Hms]. split; [done|]. intros m Hm.
  destruct (Hms m Hm) as [?|[[Hlt (r & Hin & <- & _)]|?]]; [by left| |by auto]. exfalso.
  rewrite (br_partition _ _ _ _ Hr r Hin) in Hlt. pose proof (br_sorted _ _ _ _ Hr r Hinc Hin). lia.
Qed.

Lemma settled_worker ms inflight pending lastr db s :
  batch_ready ms inflight pending lastr -> increasing_feed ms ->
  ms_Offset (pr_msg lastr) <= durable db (inputID input, ms_Partition (pr_msg lastr)) -> worker_ok pending db s -> worker_ok [] db s.
Proof.
  intros Hr Hinc Hd. apply worker_ok_mono; [|done..]. intros p o [?|(r & Hin & <- & Ho)]; [by left|left].
  rewrite (br_partition _ _ _ _ Hr r Hin). pose proof (br_sorted _ _ _ _ Hr r Hinc Hin). lia.
Qed.

Lemma flush_covered pending inflight (w : world) lastr env ok w' env' :
  inv input pending inflight w -> last pending = Some lastr -> flushBatch input hook pending w env = (ok, w', env') ->
  reads log start (fetched (w_trace w)) -> worker_ok pending (w_db w) (w_iw w) ->
  covered (fetched (w_trace w)) pending inflight (w_db w) ->
  covered (fetched (w_trace w)) pending inflight (w_db w') /\ worker_ok pending (w_db w') (w_iw w').
Proof.
  intros Hinv Hlast Hf Hread Hw Hc. pose proof (inv_batch_ready _ _ _ _ Hinv Hlast) as Hr.
  pose proof (flush_cursors _ _ _ _ _ _ Hf) as Hsame.
  assert (covered (fetched (w_trace w)) pending inflight (w_db w') /\ worker_ok pending (w_db w') (w_iw w)) as [H1 H2];
    [|split; [done|by eapply worker_ok_same]].
  unfold flushBatch in Hf. rewrite Hlast in Hf. destruct (write_loop _ _ _ _) as [[okw w1] env1] eqn:Ew.
  apply (write_loop_covered (fetched (w_trace w)) inflight pending lastr) in Ew as [H2 H1]; [|done..]. destruct okw; [|by injection Hf as <- <- <-].
  destruct (commit_loop _ _ _) as [[[okc w3] env2] now] eqn:Ec. apply commit_loop_spec in Ec as (Hdb & _). cbn in Hdb.
  destruct okc; injection Hf as <- <- <-; [|by rewrite Hdb]. unfold after_commit. destruct (hook && _); cbn; by rewrite Hdb.
Qed.

Lemma flush_session pending inflight (w : world) lastr env ok w' env' :
  last pending = Some lastr -> flushBatch input hook pending w env = (ok, w', env') ->
  session_inv pending inflight w -> session_inv (if ok then [] else pending) inflight w'.
Proof.
  intros Hlast Hf [Hinv Hloss]. pose proof (flush_covered _ _ _ _ _ _ _ _ Hinv Hlast Hf) as Hcov.
  pose proof (flushBatch_db input hook facts_kept (fun f now db b _ => write_kept (pf_stages f) now db b) pending w env) as Hkept.
  rewrite Hf in Hkept. cbn in Hkept.
  apply (flushBatch_effect input hook _ lastr) in Hf as [He _]; [|done].
  split; [by eapply flush_inv|]. intros Hread.
  assert (fetched (w_trace w') = fetched (w_trace w)) as Hfe.
  { destruct (fe_trace _ _ _ _ _ _ He) as [->|[(n & ds & ->) _]]; [done|apply fetched_flush]. }
  rewrite Hfe in Hread |- *. destruct (Hloss Hread) as (Hc & Hpass & Hw). destruct (Hcov Hread Hw Hc) as [Hcov' Hw'].
  assert (Forall (passed (w_db w')) (commits (w_trace w))) as Hpass'
    by (eapply Forall_impl; [exact Hpass|]; intros m; by apply passed_kept).
  destruct (fe_trace _ _ _ _ _ _ He) as [Htr|[(n & ds & Htr) Hd]].
  - destruct ok; [by destruct (fe_ok _ _ _ _ _ _ He)|]. by rewrite Htr.
  - assert (increasing_feed (fetched (w_trace w))) as Hinc by (by eapply reads_increasing).
    pose proof (inv_batch_ready _ _ _ _ Hinv Hlast) as Hready.
    split_and!.
    + destruct ok; [|done]. by eapply settled.
    + rewrite Htr, commits_flush. apply Forall_app. split; [done|].
      apply Forall_forall. intros m Hm. apply list_elem_of_In, repeat_spec in Hm as ->. intros o m' Hm' Ho.
      destruct Hcov' as [[Hlog _ _] _]. apply (Hlog _ _ _ Hm'). left. cbn in Hd. lia.
    + destruct ok; [|done]. by eapply settled_worker.
Qed.

Lemma lossless_eq pending inflight (w w' : world) :
  w_trace w' = w_trace w -> w_db w' = w_db w ->
  (rows_known (w_db w) -> worker_ok pending (w_db w) (w_iw w) -> worker_ok pending (w_db w) (w_iw w')) ->
  lossless pending inflight w -> lossless pending inflight w'.
Proof.
  unfold lossless. intros -> -> Hi Hl Hread. destruct (Hl Hread) as (Hc & Hp & Hw). split_and!; [done..|].
  destruct Hc as [[_ _ Hrows] _]. by apply Hi.
Qed.

(** *** Preparing a record, or giving it up *)

(** The records of the batch are before this one. *)
Definition before_msg (pending : list pendingRecord) (msg : Message) : Prop :=
  forall x, x ∈ pending -> ms_Partition (pr_msg x) = ms_Partition msg -> ms_Offset (pr_msg x) < ms_Offset msg.

Lemma reach_before pending db msg o :
  durable db (inputID input, ms_Partition msg) < ms_Offset msg -> before_msg pending msg ->
  reach pending db (ms_Partition msg) o -> o < ms_Offset msg.
Proof. intros Hd Hb [?|(r & Hr & Hp & Ho)]; [lia|]. specialize (Hb r Hr Hp). lia. Qed.

(** What the gate makes of a delta. *)
Lemma gate_cases msg d s s' r :
  prepare_delta msg d s = (s', Prepared r) ->
  (s' = set_lastDelta (ms_Partition msg) (with_payload d (ms_Value msg)) s /\ pr_delta r = Some (with_payload d (ms_Value msg))) \/
  (s' = s /\ exists c, iw_lastDeltaByPartition s !! ms_Partition msg = Some c /\ checkDeltaContinuity (Some c) d = Ok false).
Proof.
  unfold prepare_delta. destruct (check_total (iw_lastDeltaByPartition s !! ms_Partition msg) d) as [adv E]. rewrite E.
  destruct adv; intros [= <- <-]; [by left|right]. split; [done|].
  destruct (iw_lastDeltaByPartition s !! ms_Partition msg) as [c|]; [by exists c|done].
Qed.

Lemma prepare_carries msg s s' r pending db :
  prepare input msg s = (s', Prepared r) -> durable_at (ms_Partition msg) s < ms_Offset msg ->
  durable db (inputID input, ms_Partition msg) < ms_Offset msg -> before_msg pending msg -> worker_ok pending db s -> carries msg r.
Proof.
  unfold prepare. intros Hp Hlt Hd Hb [Hc _]. destruct (Z.leb_spec (ms_Offset msg) (durable_at (ms_Partition msg) s)); [lia|].
  case_bool_decide as Ht; [|case_bool_decide as Hk; [|case_bool_decide as Hdk; [|done]]].
  - constructor; rewrite Ht; [|done..]. intros _ t Hbt. rewrite Hbt in Hp. by injection Hp as _ <-.
  - constructor; rewrite Hk; [done| |done]. intros _ k Hbk. rewrite Hbk in Hp. by injection Hp as _ <-.
  - constructor; rewrite Hdk; [done..|]. intros _ d Hbd. rewrite Hbd in Hp.
    apply gate_cases in Hp as [[_ ->]|(_ & c & Hl & Hdrop)]; [by left|right].
    eapply dropped_superseded; [|exact Hdrop]. eapply known_mono; [|by apply Hc]. intros o. by apply reach_before.
Qed.

Lemma prepare_worker msg s s' r pending db :
  prepare input msg s = (s', Prepared r) -> pr_msg r = msg -> log (ms_Partition msg) (ms_Offset msg) = Some msg ->
  worker_ok pending db s -> worker_ok (pending ++ [r]) db s'.
Proof.
  intros Hp Hr Hlog Hw.
  assert (forall p o, reach pending db p o -> reach (pending ++ [r]) db p o) as Hmono
    by (intros p o [?|(x & Hx & ?)]; [by left|right]; exists x; split; [apply elem_of_app; by left|done]).
  assert (s' = s -> worker_ok (pending ++ [r]) db s') as Hsame by (intros ->; by eapply worker_ok_mono).
  unfold prepare in Hp. destruct (_ <=? _); [apply Hsame; congruence|].
  case_bool_decide; [apply Hsame; destruct (buildTrade input msg); congruence|].
  case_bool_decide; [apply Hsame; destruct (buildKline input msg); congruence|]. case_bool_decide; [|done].
  destruct (buildOrderBookDelta input msg) as [d|] eqn:Ed; [|done].
  apply gate_cases in Hp as [[-> _]|[Hs _]]; [|by apply Hsame]. destruct Hw as [Hc Hreset]. constructor; [|exact Hreset].
  intros q c. cbn [set_lastDelta iw_lastDeltaByPartition]. destruct (decide (ms_Partition msg = q)) as [<-|Hne].
  - rewrite lookup_insert_eq. intros [= <-]. eapply known_record; [exact Hlog|exact Ed|].
    right. exists r. rewrite Hr. split; [apply elem_of_app; right; by apply list_elem_of_singleton|done].
  - rewrite lookup_insert_ne by done. intros Hl. eapply known_mono; [|by apply Hc]. auto.
Qed.

Lemma prepare_covered msg s s' r db ms pending :
  prepare input msg s = (s', Prepared r) -> pr_msg r = msg -> log (ms_Partition msg) (ms_Offset msg) = Some msg ->
  durable_at (ms_Partition msg) s <= durable db (inputID input, ms_Partition msg) -> before_msg pending msg ->
  worker_ok pending db s -> covered ms pending [msg] db -> covered ms (pending ++ [r]) [] db.
Proof.
  intros Hp Hr Hlog Hd Hb Hw [Hs Hms]. split; [done|]. intros m Hm.
  destruct (Hms m Hm) as [?|[[Hlt (x & Hx & ?)]|Hi%list_elem_of_singleton]]; [by left|right; left|subst m].
  - split; [done|]. exists x. split; [apply elem_of_app; by left|done].
  - destruct (decide (ms_Offset msg <= durable db (inputID input, ms_Partition msg))) as [Hle|Hgt].
    + left. eapply so_log; eauto.
    + right. left. split; [lia|]. exists r. split; [apply elem_of_app; right; by apply list_elem_of_singleton|].
      split; [done|]. eapply (prepare_carries _ _ _ _ pending db); [exact Hp|lia|lia|done|done].
Qed.

Lemma rejected_stored msg s s' stage db : prepare input msg s = (s', Rejected stage) -> stored db msg.
Proof.
  unfold prepare. intros Hp. destruct (ms_Offset msg <=? _); [done|].
  case_bool_decide as Ht; [|case_bool_decide as Hk; [|case_bool_decide as Hdk]].
  - constructor; rewrite Ht; [|done..]. intros _ t Hb. by rewrite Hb in Hp.
  - constructor; rewrite Hk; [done| |done]. intros _ k Hb. by rewrite Hb in Hp.
  - constructor; rewrite Hdk; [done..|]. intros _ d Hb. rewrite Hb in Hp. unfold prepare_delta in Hp.
    destruct (check_total (iw_lastDeltaByPartition s !! ms_Partition msg) d) as [adv E]. rewrite E in Hp. by destruct adv.
  - by constructor.
Qed.

Lemma poison_covered ms db out now r msg :
  (forall db, stored db msg) -> covered ms [] [msg] db -> covered ms [] [] (fst (WritePoisonRecord out now db r)).
Proof.
  intros Hst [[Hlog Hrows Hcur] Hms]. pose proof (poison_kept out now db r) as Hk. split; [constructor|].
  - intros p o m Hm Ho. unfold durable in Ho. rewrite poison_progress in Ho. eapply stored_kept; [exact Hk|by eapply Hlog].
  - unfold rows_from_log. by rewrite poison_trades.
  - unfold rows_known. by rewrite poison_progress.
  - intros m Hm. left. destruct (Hms m Hm) as [?|[[_ (x & Hx & _)]|Hi%list_elem_of_singleton]];
      [by eapply stored_kept|by apply elem_of_nil in Hx|subst; by apply Hst].
Qed.

Lemma covered_passed ms l msg db :
  ms = l ++ [msg] -> reads log start ms -> (forall db, stored db msg) -> covered ms [] [] db -> passed db msg.
Proof.
  intros -> Hread Hst [Hs Hms] o m Hm Ho. destruct (decide (o < start (ms_Partition msg))) as [?|?]; [eapply so_log; eauto|].
  destruct (Hread l msg []) as (Hmsg & _ & Hall); [done|]. destruct (decide (o = ms_Offset msg)) as [->|?].
  - rewrite Hm in Hmsg. injection Hmsg as ->. apply Hst.
  - destruct (Hms m) as [?|[[_ (x & Hx & _)]|Hi]]; [|done|by apply elem_of_nil in Hx|by apply elem_of_nil in Hi].
    apply elem_of_app. left. apply (Hall o); [done|lia].
Qed.

Lemma status_cursors status e s : same_cursors s (set_iw_status status e s).
Proof. by split_and!. Qed.

Lemma poison_worker pending out now db r s : worker_ok pending db s -> worker_ok pending (fst (WritePoisonRecord out now db r)) s.
Proof.
  apply worker_ok_mono; [|done..]. intros p o. apply reach_durable. intros q. unfold durable. by rewrite poison_progress.
Qed.

Lemma dead_letter_session msg stage (w : world) env w' env' :
  dead_letter group input msg stage w env = (w', env') -> (forall db, stored db msg) -> session_inv [] [msg] w ->
  exists inflight, session_inv [] inflight w' /\ (env' = [] \/ inflight = []).
Proof.
  intros Hd Hst [Hinv Hloss]. pose proof (dead_letter_inv group input msg stage w env w' env' Hd Hinv) as (_ & i & Hinv' & Hor).
  exists i. split; [|done]. split; [done|]. destruct Hinv as [(l & Hf & _) _ _ _ _ _].
  assert (forall ms db, covered ms [] [] db -> covered ms [] i db) as Hweak
    by (intros ms db [? Hms]; split; [done|]; intros m Hm; destruct (Hms m Hm) as [?|[?|Hx]]; auto; by apply elem_of_nil in Hx).
  unfold dead_letter in Hd. destruct env as [|a env].
  { injection Hd as <- <-. intros Hread. destruct (Hloss Hread) as ([Hs Hms] & Hpass & Hw).
    split_and!; [|done|eapply worker_ok_same; [|exact Hw]; done]. apply Hweak. split; [done|]. intros m Hm. left. destruct (Hms m Hm) as [?|[[_ (x & Hx & _)]|Hi%list_elem_of_singleton]]; [done|by apply elem_of_nil in Hx|by subst]. }
  cbn [st_poison PostgresStorage] in Hd. set (r := poison_record _ _ _ _) in Hd. cbn [w_db on_metrics on_iw] in Hd.
  assert (forall db' (tr : list action) x s, same_cursors (w_iw w) s -> (x = ADrop msg \/ x = APoison msg) -> reads log start (fetched (w_trace w ++ x :: tr)) ->
    fetched tr = [] -> commits tr = [] \/ commits tr = [msg] -> db' = fst (WritePoisonRecord (pf_call (an_fault a)) (an_now a) (w_db w) r) ->
    covered (fetched (w_trace w ++ x :: tr)) [] i db' /\ Forall (passed db') (commits (w_trace w ++ x :: tr)) /\ worker_ok [] db' s) as Hgo.
  { intros db' tr x s Hsame Hx Hread Hft Hct ->. assert (fetched (w_trace w ++ x :: tr) = fetched (w_trace w)) as Hfe
      by (rewrite fetched_app; destruct Hx as [-> | ->]; change (fetched (_ :: tr)) with (fetched tr); by rewrite Hft, app_nil_r).
    rewrite Hfe in Hread |- *. destruct (Hloss Hread) as (Hc & Hpass & Hw).
    apply (poison_covered _ _ (pf_call (an_fault a)) (an_now a) r msg Hst) in Hc.
    split_and!; [by apply Hweak| |apply poison_worker; by eapply worker_ok_same]. rewrite commits_app. apply Forall_app. split.
    - eapply Forall_impl; [exact Hpass|]. intros m. apply passed_kept, poison_kept.
    - assert (commits (x :: tr) = commits tr) as -> by (by destruct Hx as [-> | ->]).
      destruct Hct as [-> | ->]; [constructor|]. constructor; [|constructor]. by eapply covered_passed. }
  destruct (WritePoisonRecord _ _ _ _) as [db' [e|]] eqn:Ep; cbn [fst] in Hgo.
  { injection Hd as <- <-. intros Hread. apply (Hgo db' []); auto; apply status_cursors. }
  destruct env as [|a1 env].
  { injection Hd as <- <-. intros Hread. apply (Hgo db' []); auto; apply status_cursors. }
  unfold call_commit in Hd. destruct (an_commit a1) as [x y]. cbn in Hd. injection Hd as <- <-.
  destruct (x || y); intros Hread; cbn in Hread |- *.
  - rewrite <- app_assoc in Hread |- *. apply (Hgo db' [ACommit msg]); auto; apply status_cursors.
  - apply (Hgo db' []); auto; apply status_cursors.
Qed.

(** *** The loop *)

Definition iteration_session (it : iteration) : Prop :=
  match it with
  | Continue p w env => exists inflight, session_inv p inflight w /\ (env = [] \/ inflight = [])
  | Return p w _ => exists inflight, session_inv p inflight w
  end.

Lemma enqueue_session pending r (w : world) env :
  session_inv (pending ++ [r]) [] w -> iteration_session (enqueue input batch hook pending r w env).
Proof.
  intros Hs. unfold enqueue. destruct (_ <=? _); [|exists []; auto].
  destruct (flushBatch _ _ _ _ _) as [[ok w'] env'] eqn:E.
  apply (flush_session _ [] _ r) in E; [|by rewrite last_snoc|done]. destruct ok; exists []; auto.
Qed.

Lemma flush_pending_session pending inflight (w : world) env ok w' env' :
  flush_pending input hook pending w env = (ok, w', env') -> session_inv pending inflight w ->
  session_inv (if ok then [] else pending) inflight w'.
Proof.
  unfold flush_pending. destruct pending as [|r rs]; [by intros [= <- <- <-]|].
  destruct (last_cons_Some r rs) as [lastr Hlast]. intros Hf. by eapply flush_session.
Qed.

Lemma handle_record_session pending msg (w : world) env :
  session_inv pending [msg] w -> ms_Partition msg ∈ iw_loadedProgress (w_iw w) ->
  (forall x, x ∈ pending -> ms_Partition (pr_msg x) = ms_Partition msg) ->
  iteration_session (handle_record group input batch hook pending msg w env).
Proof.
  intros [Hinv Hloss] Hload Hp. unfold handle_record.
  assert (durable_at (ms_Partition msg) (w_iw w) <= durable (w_db w) (inputID input, ms_Partition msg)) as Hd.
  { destruct (inv_loaded _ _ _ _ Hinv _ Hload) as (d & Hd & Hle). unfold durable_at. by rewrite Hd. }
  destruct (prepare input msg (w_iw w)) as [s' [r|stage]] eqn:E.
  - pose proof (prepare_sound input msg _ _ _ (w_db w) E Hd) as (Hr & Hrs & Hl1 & Hl2).
    pose proof Hinv as [(l & Hf & _ & _ & _ & Hpl) _ _ _ _ _]. apply enqueue_session. split.
    + apply inv_enqueue; rewrite ?Hr; [|done|done]. destruct Hinv. constructor; simpl; try done. by rewrite Hl1, Hl2.
    + unfold lossless. cbn [w_trace w_db w_iw on_iw]. intros Hread. destruct (Hloss Hread) as (Hc & Hpass & Hw).
      assert (log (ms_Partition msg) (ms_Offset msg) = Some msg) as Hlog
        by (apply (reads_log log start _ msg Hread); rewrite Hf; apply elem_of_app; right; by apply list_elem_of_singleton).
      split_and!; [|done|by eapply prepare_worker]. eapply prepare_covered; [exact E|done..| |exact Hw|done].
      intros x Hx Hxp. rewrite Forall_forall in Hpl. apply reads_increasing in Hread. specialize (Hread l msg [] Hf).
      rewrite Forall_forall in Hread. apply Hread; [by apply Hpl|done].
  - pose proof (fun db => rejected_stored _ _ _ _ db E) as Hst. apply prepare_stage in E as [-> ->].
    destruct (flush_pending _ _ _ _ _) as [[ok w1] env1] eqn:Ef.
    apply (flush_pending_session _ [msg]) in Ef; [|by destruct w]. destruct ok; [|by exists [msg]].
    change (isRetryableStage "decode") with false. cbv iota.
    destruct (dead_letter _ _ _ _ _ _) as [w2 env2] eqn:Ed. by eapply dead_letter_session.
Qed.

(** Loading the progress of a partition makes its row the cursor. *)
Lemma install_worker pending p row db s :
  db_progress db !! (inputID input, p) = row -> rows_known db -> worker_ok pending db s ->
  worker_ok pending db (install_progress input p row s).
Proof.
  intros Hrow Hrows Hw. unfold install_progress. destruct row as [row|]; [|by apply (worker_ok_same _ _ s)].
  destruct Hw as [Hc Hreset]. constructor; [|by intros x [?|?]]. intros q c. case_bool_decide; cbn; [|apply Hc].
  destruct (decide (p = q)) as [<-|Hne]; [|rewrite lookup_insert_ne by done; apply Hc].
  rewrite lookup_insert_eq. intros [= <-]. apply known_loaded; [exact Hreset|]. eapply known_mono; [|by apply Hrows].
  intros o Ho. left. unfold durable. by rewrite Hrow.
Qed.

Lemma ensure_worker pending p (w : world) env ok w' env' :
  ensureProgress input p w env = (ok, w', env') -> rows_known (w_db w) -> worker_ok pending (w_db w) (w_iw w) ->
  worker_ok pending (w_db w) (w_iw w').
Proof.
  unfold ensureProgress. case_bool_decide as Hp; [by intros [= <- <- <-]|clear Hp]. revert w.
  induction env as [|a env IH]; intros w; cbn [load_loop]; [by intros [= <- <- <-]|].
  cbn [st_load PostgresStorage]. unfold LoadStreamWriteProgress. destruct (pf_call (an_fault a)).
  - intros [= <- <- <-] Hrows Hw. by apply install_worker.
  - intros Hl Hrows Hw. apply (IH _ Hl); [done|]. eapply worker_ok_same; [|exact Hw]. apply status_cursors.
  - intros Hl Hrows Hw. apply (IH _ Hl); [done|]. eapply worker_ok_same; [|exact Hw]. apply status_cursors.
Qed.

Lemma handle_message_session pending msg (w : world) env :
  session_inv pending [msg] w -> iteration_session (handle_message group input batch hook pending msg w env).
Proof.
  intros Hs. unfold handle_message.
  assert (forall p w1 env1, session_inv p [msg] w1 ->
    (forall x, x ∈ p -> ms_Partition (pr_msg x) = ms_Partition msg) ->
    iteration_session
      match ensureProgress input (ms_Partition msg) w1 env1 with
      | (true, w', env') => handle_record group input batch hook p msg w' env'
      | (false, w', env') => Return p w' env'
      end) as Hgo.
  { intros p w1 env1 [Hi1 Hl1] Hp. destruct (ensureProgress _ _ _ _) as [[ok w2] env2] eqn:E.
    pose proof (ensure_worker p _ _ _ _ _ _ E) as Hw2.
    apply (ensureProgress_inv input p [msg]) in E as (Hi2 & Htr & Hdb & _ & Hok); [|done].
    assert (session_inv p [msg] w2) as Hs2 by (split; [done|by eapply lossless_eq]).
    destruct ok; [|by exists [msg]]. by apply handle_record_session. }
  destruct (other_partition pending msg) eqn:Eo.
  - destruct pending as [|r rs]; [done|]. destruct (last_cons_Some r rs) as [lastr Hlast].
    destruct (flushBatch _ _ _ _ _) as [[ok w1] env1] eqn:Ef. pose proof (flush_session _ [msg] _ _ _ _ _ _ Hlast Ef Hs) as Hs1.
    destruct ok; [|by exists [msg]]. apply Hgo; [done|]. intros x Hx. by apply elem_of_nil in Hx.
  - apply Hgo; [done|]. intros x Hx. destruct pending as [|r rs]; [by apply elem_of_nil in Hx|].
    simpl in Eo. apply negb_false_iff, Z.eqb_eq in Eo. rewrite <- Eo.
    destruct Hs as [Hinv _]. apply (inv_partition _ _ _ _ Hinv); [done|by left].
Qed.

Lemma fetch_session pending msg (w : world) : session_inv pending [] w -> session_inv pending [msg] (InputWorker.log [AFetch msg] w).
Proof.
  intros [Hinv Hloss]. split; [by apply inv_fetch|]. unfold lossless. cbn [w_trace w_db InputWorker.log].
  rewrite fetched_app, commits_app. intros Hread. destruct Hloss as ([Hs Hms] & Hpass & Hw); [by eapply reads_app|].
  split_and!; [split; [done|]|apply Forall_app; split; [done|constructor]|done].
  intros m [Hm|Hm]%elem_of_app; [|by auto]. destruct (Hms m Hm) as [?|[?|Hx]]; auto. by apply elem_of_nil in Hx.
Qed.

Lemma iterate_session pending inflight (w : world) env :
  session_inv pending inflight w -> env = [] \/ inflight = [] ->
  iteration_session (iterate group input batch hook pending w env).
Proof.
  intros Hs Hor. unfold iterate. destruct env as [|a env]; [by exists inflight|]. destruct Hor as [?| ->]; [done|].
  assert (iteration_session (Continue pending (on_iw (set_iw_status ActualStatusError FetchError) w) env)) as Herr.
  { exists []. split; [|by right]. destruct Hs as [Hinv Hloss]. split; [by apply inv_status|].
    apply (lossless_eq _ _ w); [done|done| |exact Hloss]. intros _. apply worker_ok_same, status_cursors. }
  destruct (an_fetch a) as [msg| |]; [| |done].
  - by apply handle_message_session, fetch_session.
  - destruct pending as [|r rs]; [done|]. destruct (last_cons_Some r rs) as [lastr Hlast].
    destruct (flushBatch _ _ _ _ _) as [[ok w1] env1] eqn:Ef. pose proof (flush_session _ [] _ _ _ _ _ _ Hlast Ef Hs) as Hs1.
    destruct ok; exists []; auto.
Qed.

Lemma consume_loop_session fuel pending inflight (w : world) env pending' w' :
  session_inv pending inflight w -> env = [] \/ inflight = [] ->
  consume_loop group input batch hook fuel pending w env = Some (pending', w') ->
  exists inflight', session_inv pending' inflight' w'.
Proof.
  revert pending inflight w env. induction fuel as [|f IH]; intros pending inflight w env Hs Hor Hl; [done|].
  cbn [consume_loop] in Hl. pose proof (iterate_session pending inflight w env Hs Hor) as Hit.
  destruct (iterate _ _ _ _ _ _ _) as [p1 w1 env1|p1 w1 env1].
  - destruct Hit as (i & Hs1 & Hor1). by eapply IH.
  - by injection Hl as <- <-.
Qed.

Lemma consume_session flushOnStop (w : world) env flush_env w' :
  session_inv [] [] w -> consume group input batch hook flushOnStop w env flush_env = Some w' ->
  exists pending inflight, session_inv pending inflight w' /\
    (flushOnStop = true -> reads log start (fetched (w_trace w')) -> Forall calm_answer flush_env -> (2 <= length flush_env)%nat -> pending = []).
Proof.
  intros Hs. unfold consume. destruct (consume_loop _ _ _ _ _ _ _ _) as [[pending w1]|] eqn:El; [|done].
  apply (consume_loop_session _ _ []) in El as [i Hs1]; [|done|by right].
  destruct pending as [|r rs]; [intros [= <-]; by eauto|]. destruct flushOnStop; intros [= <-]; [|by exists (r :: rs), i].
  destruct (last_cons_Some r rs) as [lastr Hlast]. destruct (flushBatch _ _ _ _ _) as [[ok w2] env2] eqn:Ef.
  exists (if ok then [] else r :: rs), i. split; [by eapply flush_session|]. intros _ Hread Hcalm Hlen. cbn [fst snd] in Hread.
  pose proof (flush_fetched _ _ _ _ _ _ _ _ _ Hlast Ef) as Hfe. rewrite Hfe in Hread. destruct Hs1 as [Hinv _].
  assert (good_feed (fetched (w_trace w1))) as Hgood.
  { split; [by eapply reads_increasing|]. apply Forall_forall. intros m Hm.
    by pose proof (log_ok _ _ _ (reads_log log start _ m Hread Hm)) as (_ & _ & ? & ?). }
  destruct (flush_succeeds _ _ _ _ _ _ _ _ _ _ Hinv Hlast Hcalm Hgood Ef) as (_ & _ & Hok). by rewrite Hok.
Qed.

End session.

(** ** Any number of sessions *)

Section history.
Context `{Decoders}.
Variables (input : GroupInput) (log : topic).
(** The positions of the order book the sessions may start from. *)
Variable reset : Z -> Prop.
Hypothesis log_ok : topic_ok log.

(** The tables, and the offset the consumer group has committed of each partition,
    -1 before the first commit. *)
Definition history : Type := DB * (Z -> Z).

(** What may happen next: a session of the input, with any configuration, faults
    and crash, that starts not after the committed position and leaves that
    position or one of its commits, and may be started at a position of the order
    book; a session of another input; the snapshot
    writes of the group worker. *)
Inductive history_step : history -> history -> Prop :=
| HSession group batch hook flushOnStop rs ru db committed start env flush_env w' committed' :
    consume (S := PostgresStorage) group input batch hook flushOnStop (fresh db rs ru) env flush_env = Some w' ->
    reads log start (fetched (w_trace w')) ->
    (forall p, start p <= committed p + 1) ->
    (forall x, rs = Some x \/ ru = Some x -> reset x) ->
    (forall p, committed' p = committed p \/
       exists m, m ∈ commits (w_trace w') /\ ms_Partition m = p /\ committed' p = ms_Offset m) ->
    history_step (db, committed) (w_db w', committed')
| HOther other_decoders other group batch hook flushOnStop rs ru db committed env flush_env w' :
    inputID other <> inputID input ->
    @consume PostgresStorage other_decoders group other batch hook flushOnStop (fresh db rs ru) env flush_env = Some w' ->
    history_step (db, committed) (w_db w', committed)
| HSnapshots out now db rows committed :
    history_step (db, committed) (fst (WriteOrderBookSnapshots out now db rows), committed).

Definition history_ok (h : history) : Prop := store_ok input log (fun p => h.2 p + 1) reset h.1.

(** What the others do to the tables. *)
Record others_step (db db' : DB) : Prop := {
  os_kept : facts_kept db db';
  os_progress p : db_progress db' !! (inputID input, p) = db_progress db !! (inputID input, p);
  os_rows x : x ∈ db_trades db' -> tr_InputID x = inputID input -> x ∈ db_trades db
}.

#[local] Instance others_step_preorder : PreOrder others_step.
Proof.
  split.
  - intros db. by constructor.
  - intros a b c [H1 H2 H3] [H4 H5 H6]. constructor; [by etrans|intros p; by rewrite H5|auto].
Qed.

Lemma others_ok db db' committed : others_step db db' -> history_ok (db, committed) -> history_ok (db', committed).
Proof.
  intros [Hk Hp Hr] [Hlog Hrows Hcur]. constructor; cbn in *.
  - intros p o m Hm Ho. unfold durable in Ho. rewrite Hp in Ho. eapply stored_kept; [exact Hk|by eapply Hlog].
  - intros x Hx Hi. apply Hrows; auto.
  - intros p row. rewrite Hp. apply Hcur.
Qed.

Lemma fold_insert_rows now ts db x :
  x ∈ db_trades (fold_left (insert_trade now) ts db) -> x ∈ db_trades db \/ exists t, t ∈ ts /\ tr_InputID x = tr_InputID t.
Proof.
  revert db. induction ts as [|t ts IH]; intros db Hx; [by left|]. simpl in Hx.
  apply IH in Hx as [Hx|(t' & Ht' & Hi)]; [|right; exists t'; split; [by right|done]].
  unfold insert_trade in Hx. destruct (existsb _ _); [by left|]. cbn in Hx.
  apply elem_of_app in Hx as [Hx|Hx%list_elem_of_singleton]; [by left|right]. exists t. split; [by left|by subst].
Qed.

Lemma others_write f now db b :
  wp_InputID (fb_Progress b) <> inputID input -> others_step db (fst (WriteFactBatch f now db b)).
Proof.
  intros Hne. destruct (WriteFactBatch_cases f now db b) as [[-> _]|[(_ & _ & ->)|(Hv & _ & ->)]]; [done..|].
  constructor; [apply publish_kept| |].
  - intros p. cbn [publish set_progress db_progress]. rewrite lookup_insert_ne; [done|]. unfold progress_key. congruence.
  - intros x Hx Hi. rewrite publish_trades in Hx. apply fold_insert_rows in Hx as [Hx|(t & Ht & E)]; [done|]. exfalso.
    apply validateFactBatch_valid in Hv as (_ & _ & _ & _ & [HF _] & _). rewrite Forall_map, Forall_forall in HF.
    apply list_elem_of_In, filter_In in Ht as [Ht _]. apply list_elem_of_In in Ht. destruct (HF t Ht) as [Hc _].
    unfold trade_coord, progress_key in Hc. cbn in Hc. congruence.
Qed.

Lemma others_poison out now db r : others_step db (fst (WritePoisonRecord out now db r)).
Proof.
  constructor; [apply poison_kept|intros; by rewrite poison_progress|]. intros x. by rewrite poison_trades.
Qed.

Lemma others_snapshots out now db rows : others_step db (fst (WriteOrderBookSnapshots out now db rows)).
Proof.
  assert (forall l d, others_step d (fold_left (insert_snapshot now) l d)) as Hf.
  { induction l as [|x l IH]; intros d; [done|]. simpl. etrans; [|apply IH]. unfold insert_snapshot.
    destruct (existsb _ _); [done|]. constructor; [constructor; [done|by apply klines_forward_eq|done]|done|done]. }
  unfold WriteOrderBookSnapshots. destruct rows as [|r rows]; [done|]. destruct out; [apply (Hf (r :: rows))|done|apply (Hf (r :: rows))].
Qed.

(** A session starts in the state its proof needs. *)
Lemma fresh_session start rs ru db c :
  history_ok (db, c) -> (forall p, start p <= c p + 1) -> (forall x, rs = Some x \/ ru = Some x -> reset x) ->
  session_inv input log start reset [] [] (fresh (S := PostgresStorage) db rs ru).
Proof.
  intros [Hlog Hrows Hcur] Hstart Hreset. split; [apply inv_fresh|]. intros _.
  split_and!; [split; [constructor; [|done..]|]|constructor|by constructor].
  - intros p o m Hm Ho. apply (Hlog p o m Hm). cbn. specialize (Hstart p). destruct Ho; [by left|right; lia].
  - intros m Hm. by apply elem_of_nil in Hm.
Qed.

Lemma history_step_ok h h' : history_step h h' -> history_ok h -> history_ok h'.
Proof.
  intros [group batch hook fl rs ru db c start env fenv w' c' Hc Hread Hstart Hreset Hc'|D other group batch hook fl rs ru db c env fenv w' Hne Hc|out now db rows c] Hok.
  - pose proof (fresh_session start rs ru db c Hok Hstart Hreset) as Hs. destruct Hok as [Hlog Hrows Hcur]. cbn in *.
    pose proof (consume_session group input batch hook log start reset log_ok fl _ env fenv w' Hs Hc) as (p1 & i1 & [_ Hloss] & _).
    destruct (Hloss Hread) as ([[Hlog' Hrows' Hcur'] _] & Hpass & _).
    assert (facts_kept db (w_db w')) as Hk.
    { change db with (w_db (fresh (S := PostgresStorage) db rs ru)).
      eapply (consume_db (S := PostgresStorage) group input batch hook facts_kept); [intros; apply write_kept|intros; apply poison_kept|exact Hc]. }
    constructor; cbn; [|done..]. intros p o m Hm [Ho|Ho]; [apply (Hlog' p o m Hm); by left|].
    destruct (Hc' p) as [E|(m0 & Hm0 & <- & E)]; rewrite E in Ho.
    + eapply stored_kept; [exact Hk|]. apply (Hlog p o m Hm). by right.
    + rewrite Forall_forall in Hpass. apply (Hpass m0 Hm0 o m Hm). lia.
  - apply (others_ok db); [|done]. change db with (w_db (fresh (S := PostgresStorage) db rs ru)) at 1.
    eapply (@consume_db PostgresStorage PostgresStorage_laws D group other batch hook others_step _); [|intros; apply others_poison|exact Hc].
    intros f now d b Hb. apply others_write. by rewrite Hb.
  - apply (others_ok db); [apply others_snapshots|done].
Qed.

Lemma history_kept h : rtc history_step (emptyDB, fun _ => -1) h -> history_ok h.
Proof.
  assert (history_ok (emptyDB, fun _ => -1)) as H0.
  { constructor; cbn; [|intros x Hx; by apply elem_of_nil in Hx|by intros p row Hrow]. intros p o m Hm Ho.
    assert (durable emptyDB (inputID input, p) = -1) as E by done. rewrite E in Ho. apply log_ok in Hm. lia. }
  revert H0. generalize (emptyDB, fun _ : Z => -1). intros h0 H0 Hr. induction Hr as [|a b c Hab _ IH]; [done|].
  apply IH. by eapply history_step_ok.
Qed.

End history.

Lemma history_db_steps `{Decoders} input log reset h h' : rtc (history_step input log reset) h h' -> rtc db_step h.1 h'.1.
Proof.
  induction 1 as [h|a b c Hab _ IH]; [done|]. etrans; [|exact IH]. destruct Hab; cbn.
  - by eapply session_steps, session_run.
  - by eapply session_steps, session_run.
  - apply rtc_once. constructor.
Qed.

(** (C2) No record is lost.  Take any topic, and any number of sessions of an input
    that read it in order from the committed position or before, under any faults
    of broker and database and with a crash at any call, among sessions of other
    inputs.  Then every trade the topic holds up to the committed position, or up
    to the durable offset, has its row in the trades table (or shares its raw trade
    id with a row of the input); every candle there is in the candle table at its
    revision or a later one, or was closed meanwhile; every delta there has its row,
    or an earlier delta or the order book a session started from was already at or
    past its ids (which cannot be when the ids of the topic increase and no session
    starts from the order book); and there is one trade and one delta row per Kafka
    coordinate. *)
Theorem no_record_is_lost `{Decoders} input log reset db committed :
  topic_ok log -> rtc (history_step input log reset) (emptyDB, fun _ => -1) (db, committed) ->
  (forall p o m, log p o = Some m -> o <= committed p \/ o <= durable db (inputID input, p) ->
    (gi_StreamKind input = StreamKindTrade -> forall t, buildTrade input m = Ok t -> trade_stored db t) /\
    (gi_StreamKind input = StreamKindKline -> forall k, buildKline input m = Ok k -> kline_stored db k) /\
    (gi_StreamKind input = StreamKindOrderBookDelta -> forall d, buildOrderBookDelta input m = Ok d ->
      (delta_stored db (with_payload d (ms_Value m)) \/ superseded input log reset m d) /\
      (increasing_deltas input log -> (forall x, ~ reset x) -> delta_stored db (with_payload d (ms_Value m))))) /\
  NoDup (map trade_coord (db_trades db)) /\ NoDup (map delta_coord (db_deltas db)).
Proof.
  intros Hlog Hr. pose proof (history_kept input log reset Hlog (db, committed) Hr) as [Hok _ _].
  apply history_db_steps, db_steps_wf in Hr. split_and!; [|by apply wf_trade_coords|by apply wf_delta_coords].
  intros p o m Hm Ho. destruct (Hok p o m Hm) as [Ht Hk Hd]; [cbn; lia|]. split_and!; [done..|].
  intros Hkind d Hb. specialize (Hd Hkind d Hb). split; [done|]. intros Hinc Hreset. destruct Hd as [?|Hs]; [done|].
  exfalso. pose proof (Hlog p o m Hm) as (<- & <- & _). by eapply increasing_not_superseded in Hs.
Qed.


(** The row of the trades table holds what the producer wrote. *)
Record holds_trade (input : GroupInput) (tm : tradeMessage) (side : string) (m : Message) (r : Trade) : Prop := {
  ht_group : tr_GroupID r = gi_GroupID input;
  ht_input : tr_InputID r = inputID input;
  ht_price : tr_Price r = strings.TrimSpace (tm_Price tm);
  ht_quantity : tr_Quantity r = strings.TrimSpace (tm_Quantity tm);
  ht_side : tr_Side r = side;
  ht_ids : (tr_TradeID r, tr_RawTradeID r) = (strings.TrimSpace (tm_TradeID tm), strings.TrimSpace (tm_RawTradeID tm));
  ht_event : tr_EventTime r = eventTime (tm_EventTime tm);
  ht_times : (tr_ExchangeTime r, tr_LocalReceiveTime r) = (optionalTime (tm_ExchangeTime tm), optionalTime (tm_LocalReceiveTime tm));
  ht_aggregated : tr_IsAggregated r = tm_IsAggregated tm;
  ht_record : (tr_KafkaTopic r, tr_KafkaPartition r, tr_KafkaOffset r) = (ms_Topic m, ms_Partition m, ms_Offset m)
}.

Lemma stored_holds db input tm side m :
  trade_stored db (toTrade tm input m side) ->
  exists r, r ∈ db_trades db /\
    (holds_trade input tm side m r \/
     (strings.TrimSpace (tm_RawTradeID tm) <> "" /\ tr_InputID r = inputID input /\ tr_RawTradeID r = strings.TrimSpace (tm_RawTradeID tm))).
Proof. intros (r & Hr & [(now & id & ->)|H]); (exists (trade_row now id (toTrade tm input m side)) || exists r); (split; [done|]); [by left|by right]. Qed.

(** The row of the delta table holds what the producer wrote. *)
Record holds_delta (input : GroupInput) (dm : orderBookDeltaMessage) (m : Message) (r : OrderBookDelta) : Prop := {
  hd_group : od_GroupID r = gi_GroupID input;
  hd_input : od_InputID r = inputID input;
  hd_levels : (od_Bids r, od_Asks r) = (dm_Bids dm, dm_Asks dm);
  hd_ids : (od_FirstUpdateID r, od_LastUpdateID r, od_PrevUpdateID r, od_Sequence r) =
           (int64Ptr (dm_FirstUpdateID dm), int64Ptr (dm_LastUpdateID dm), int64Ptr (dm_PrevUpdateID dm), int64Ptr (dm_Sequence dm));
  hd_raw : (od_RawEventID r, od_RawPayload r) = (strings.TrimSpace (dm_RawEventID dm), ms_Value m);
  hd_times : (od_EventTime r, od_ExchangeTime r, od_LocalReceiveTime r) =
             (eventTime (dm_EventTime dm), optionalTime (dm_ExchangeTime dm), optionalTime (dm_LocalReceiveTime dm));
  hd_record : (od_KafkaTopic r, od_KafkaPartition r, od_KafkaOffset r) = (ms_Topic m, ms_Partition m, ms_Offset m)
}.

(** (C3) From the producer to the table.  A trade message that passes validation,
    written to the topic as the documented JSON object, has its row once its offset
    is committed or durable: with the price, quantity, side, ids and times the
    producer wrote and the coordinates of the record, unless a row of the input has
    its raw trade id already.  The same for a candle message: the row of its group,
    source, interval and open time is there, at its revision or a later one, or was
    closed before this update of an open candle came.  And the same for a delta
    message, with its levels and its payload, unless it was superseded. *)
Theorem produced_facts_arrive ov input log reset db committed p o m :
  topic_ok log -> rtc (@history_step (json_decoders ov) input log reset) (emptyDB, fun _ => -1) (db, committed) ->
  log p o = Some m -> o <= committed p \/ o <= durable db (inputID input, p) ->
  (forall tm side, gi_StreamKind input = StreamKindTrade -> trade_ok tm -> ms_Value m = print (JObject (trade_members tm)) ->
    tradeMessage_validate tm = Ok side ->
    exists r, r ∈ db_trades db /\
      (holds_trade input tm side m r \/
       (strings.TrimSpace (tm_RawTradeID tm) <> "" /\ tr_InputID r = inputID input /\ tr_RawTradeID r = strings.TrimSpace (tm_RawTradeID tm)))) /\
  (forall km source, gi_StreamKind input = StreamKindKline -> kline_ok km -> ms_Value m = print (JObject (kline_members km)) ->
    klineMessage_validate km input = Ok source ->
    exists k, db_klines db !! (gi_GroupID input, sourceOrDefault source, gi_Interval input, eventTime (km_OpenTime km)) = Some k /\
      (km_Revision km <= kl_Revision k \/ (kl_IsClosed k = true /\ km_IsClosed km = false))) /\
  (forall dm, gi_StreamKind input = StreamKindOrderBookDelta -> delta_ok dm -> ms_Value m = print (JObject (delta_members dm)) ->
    orderBookDeltaMessage_validate dm = Ok () ->
    (exists r, r ∈ db_deltas db /\ holds_delta input dm m r) \/
    @superseded (json_decoders ov) input log reset m (toOrderBookDelta dm input m)).
Proof.
  intros Hlog Hr Hm Ho. pose proof (history_kept (H := json_decoders ov) input log reset Hlog (db, committed) Hr) as [Hok _ _].
  destruct (Hok p o m Hm) as [Ht Hk Hd]; [cbn; lia|]. split_and!.
  - intros tm side Hkind Htm Hv Hside. apply stored_holds, (Ht Hkind). unfold buildTrade. rewrite Hv, trade_wire by done. cbn. by rewrite Hside.
  - intros km source Hkind Hkm Hv Hsource. apply (Hk Hkind (toKline km input m source)). unfold buildKline. rewrite Hv, kline_wire by done.
    cbn. by rewrite Hsource.
  - intros dm Hkind Hdm Hv Hval. destruct (Hd Hkind (toOrderBookDelta dm input m)) as [[now Hin]|]; [|left|by right].
    + unfold buildOrderBookDelta. rewrite Hv, delta_wire by done. cbn. by rewrite Hval.
    + by eexists.
Qed.

(** ** A topic of three trades and two sessions *)

(** The log that holds these records. *)
Definition list_topic (l : list Message) : topic :=
  fun p o => List.find (fun m => (ms_Partition m =? p) && (ms_Offset m =? o)) l.

Lemma list_topic_in l p o m : list_topic l p o = Some m -> m ∈ l /\ ms_Partition m = p /\ ms_Offset m = o.
Proof. intros [Hin H]%find_some. bool_to_prop. split; [by apply list_elem_of_In|done]. Qed.

Lemma list_topic_find l m : increasing_feed l -> m ∈ l -> list_topic l (ms_Partition m) (ms_Offset m) = Some m.
Proof.
  intros Hinc Hin. destruct (list_topic l (ms_Partition m) (ms_Offset m)) as [x|] eqn:E.
  - apply list_topic_in in E as (Hx & Hp & Ho). f_equal.
    apply list_elem_of_split in Hin as (l1 & l2 & ->). apply elem_of_app in Hx as [Hx|[->|Hx]%elem_of_cons]; [|done|].
    + specialize (Hinc l1 m l2 eq_refl). rewrite Forall_forall in Hinc. specialize (Hinc x Hx Hp). lia.
    + apply list_elem_of_split in Hx as (k1 & k2 & ->). specialize (Hinc (l1 ++ m :: k1) x k2). rewrite <- app_assoc in Hinc.
      specialize (Hinc eq_refl). rewrite Forall_app, Forall_cons in Hinc. destruct Hinc as (_ & Hlt & _).
      specialize (Hlt (eq_sym Hp)). lia.
  - exfalso. apply list_elem_of_In in Hin. eapply find_none in E; [|exact Hin]. by rewrite !Z.eqb_refl in E.
Qed.

(** A session may read the records from the first one on. *)
Lemma list_reads l rest start : increasing_feed (l ++ rest) -> reads (list_topic (l ++ rest)) start l.
Proof.
  intros Hinc l1 m l2 ->. rewrite <- app_assoc in Hinc |- *. cbn in *. pose proof (Hinc l1 m (l2 ++ rest) eq_refl) as Hlt. split_and!.
  - apply list_topic_find; [done|]. apply elem_of_app. right. by left.
  - done.
  - intros o m' Hm' [_ Ho]. apply list_topic_in in Hm' as (Hin & Hp & <-).
    apply elem_of_app in Hin as [?|[->|Hin]%elem_of_cons]; [done|lia|].
    apply list_elem_of_split in Hin as (k1 & k2 & E). rewrite E in Hinc.
    specialize (Hinc (l1 ++ m :: k1) m' k2). rewrite <- app_assoc in Hinc. specialize (Hinc eq_refl).
    rewrite Forall_app, Forall_cons in Hinc. destruct Hinc as (_ & Hlt' & _). specialize (Hlt' (eq_sym Hp)). lia.
Qed.

Definition produced_trade (id price : string) : tradeMessage :=
  mkTradeMessage (Some 1700000000123000000) None None id id price "2" "buy" false.

Definition produced (offset : Z) (id price : string) : Message :=
  sample_msg offset (print (JObject (trade_members (produced_trade id price)))).

Definition sample_records : list Message := [produced 0 "a" "1.5"; produced 1 "b" "1.6"; produced 2 "c" "1.7"].

Definition fetch (m : Message) : @answer PostgresStorage := good (FMsg m).

(** The commit of the transaction takes effect, but its answer is lost. *)
Definition lost_fault : pg_fault := mkPgFault (fun st => match st with StCommit => Lost | _ => Done end) Done.
Definition unanswered : @answer PostgresStorage := @mkAnswer PostgresStorage FError lost_fault (false, false) 7.

Definition json_run (db : DB) (env : list (@answer PostgresStorage)) : option (@world PostgresStorage) :=
  @consume PostgresStorage (json_decoders no_overflow) sample_group trade_input (mkBatchConfig 2 0) false false
    (fresh db None None) env [].

(** The first session dies after a batch whose acknowledgement was lost, the second
    one reads from the start again and goes one record further. *)
Definition first_session : option (@world PostgresStorage) :=
  json_run emptyDB [fetch (produced 0 "a" "1.5"); yes; fetch (produced 1 "b" "1.6"); unanswered].
Definition second_session : option (@world PostgresStorage) :=
  json_run (db_after first_session)
    [fetch (produced 0 "a" "1.5"); yes; fetch (produced 1 "b" "1.6"); yes; yes; fetch (produced 2 "c" "1.7")].

Lemma sample_records_increasing : increasing_feed sample_records.
Proof.
  intros l1 m l2 E. destruct l1 as [|x [|y [|z l1]]]; cbn in E.
  - constructor.
  - injection E as <- <- <-. repeat constructor.
  - injection E as <- <- <- <-. repeat constructor.
  - exfalso. injection E as _ _ _ E. by destruct l1.
Qed.

Lemma sample_topic_ok : topic_ok (list_topic sample_records).
Proof.
  intros p o m (Hin & <- & <-)%list_topic_in. split; [done|]. split; [done|]. unfold sample_records in Hin. elem_cases Hin; cbn; lia.
Qed.

Definition sample_committed (p : Z) : Z := if (p =? 0) then 1 else -1.

Lemma json_run_total db env : exists w, json_run db env = Some w.
Proof.
  unfold json_run. edestruct (@consume_inv PostgresStorage PostgresStorage_laws (json_decoders no_overflow)) as (w & Hw & _);
    [apply inv_fresh|by eexists].
Qed.

(** A run that reads the sample topic from its start is a step of the history. *)
Lemma json_run_step db env l rest committed committed' :
  fetched (trace_of (json_run db env)) = l -> l ++ rest = sample_records -> (forall p, -1 <= committed p) ->
  (forall p, committed' p = committed p \/
     exists m, m ∈ commits (trace_of (json_run db env)) /\ ms_Partition m = p /\ committed' p = ms_Offset m) ->
  @history_step (json_decoders no_overflow) trade_input (list_topic sample_records) (fun _ => False) (db, committed)
    (db_after (json_run db env), committed').
Proof.
  intros Hl Hr Hc Hc'. destruct (json_run_total db env) as [w Hw]. rewrite Hw in Hl, Hc' |- *. cbn [trace_of db_after] in *.
  eapply (@HSession (json_decoders no_overflow)) with (start := fun _ => 0); [exact Hw| |intros p; specialize (Hc p); lia|by intros x [?|?]|done].
  rewrite Hl, <- Hr. apply list_reads. rewrite Hr. apply sample_records_increasing.
Qed.

Lemma sample_history :
  rtc (@history_step (json_decoders no_overflow) trade_input (list_topic sample_records) (fun _ => False)) (emptyDB, fun _ => -1)
    (db_after second_session, sample_committed).
Proof.
  apply (rtc_l _ _ (db_after first_session, fun _ => -1)); [|apply rtc_once].
  - eapply (json_run_step _ _ (take 2 sample_records) (drop 2 sample_records)); [vm_compute; reflexivity|reflexivity|done|by left].
  - eapply (json_run_step _ _ sample_records []); [vm_compute; reflexivity|reflexivity|done|].
    intros p. unfold sample_committed. destruct (Z.eqb_spec p 0) as [->|]; [right|by left].
    exists (produced 1 "b" "1.6"). split; [|split; reflexivity].
    match goal with |- _ ∈ ?l => assert (l = [produced 1 "b" "1.6"]) as -> by (vm_compute; reflexivity) end. by left.
Qed.

Lemma produced_ok id price :
  text_ok id -> text_ok price -> trade_ok (produced_trade id price).
Proof.
  intros Hi Hp. unfold trade_ok, produced_trade.
  cbn [tm_EventTime tm_ExchangeTime tm_LocalReceiveTime tm_TradeID tm_RawTradeID tm_Price tm_Quantity tm_Side]. sample_ok; done.
Qed.





Lemma no_record_is_lost_witness :
  (forall t, @buildTrade (json_decoders no_overflow) trade_input (produced 1 "b" "1.6") = Ok t -> trade_stored (db_after second_session) t) /\
  map tr_Price (db_trades (db_after second_session)) = ["1.5"; "1.6"].
Proof.
  split; [|vm_compute; reflexivity].
  destruct (@no_record_is_lost (json_decoders no_overflow) trade_input (list_topic sample_records) (fun _ => False) (db_after second_session)
    sample_committed sample_topic_ok sample_history) as [H _].
  apply (H 0 1 (produced 1 "b" "1.6")); [reflexivity|left; vm_compute; discriminate|reflexivity].
Defined.

Lemma produced_facts_arrive_witness :
  (exists r, r ∈ db_trades (db_after second_session) /\
    (holds_trade trade_input (produced_trade "b" "1.6") "buy" (produced 1 "b" "1.6") r \/
     ("b" <> "" /\ tr_InputID r = inputID trade_input /\ tr_RawTradeID r = "b"))) /\
  map (fun r => (tr_KafkaOffset r, tr_Price r, tr_Side r)) (db_trades (db_after second_session)) = [(0, "1.5", "buy"); (1, "1.6", "buy")].
Proof.
  split; [|vm_compute; reflexivity].
  destruct (produced_facts_arrive no_overflow trade_input (list_topic sample_records) (fun _ => False) (db_after second_session)
    sample_committed 0 1 (produced 1 "b" "1.6") sample_topic_ok sample_history) as [H _];
    [reflexivity|left; vm_compute; discriminate|].
  apply (H (produced_trade "b" "1.6") "buy"); [reflexivity|apply produced_ok; reflexivity|reflexivity|vm_compute; reflexivity].
Defined.
