(* ===== verification/InputManager.v ===== *)
(** * The input manager of a group worker

    internal/runtime/input_worker.go, from [inputManager] on.  The manager keeps a
    map of the input workers it started and a set of delta inputs whose worker
    exited; every goroutine it ever started is a [task] of its state.  Between two
    calls of a pass the rest of the program moves: tasks return, the order book
    changes, other clients write the metadata tables; an [im_answer] says how.

    Stopping and starting a worker is not one step: [stopInput] takes the worker
    out of the map before it cancels it and waits for it, and [startInput] launches
    a worker before it enters it.  Each such moment is noted in [im_seen], with the
    worker the loop has in its hands, so the invariant is about the moments between
    too. *)

From S2P Require Import Prelude GoStd Model Kafka Metadata MetadataWf OrderBook Snapshot InputWorker.

Open Scope Z_scope.

Definition isConsumableStreamKind (kind : string) : bool :=
  bool_decide (kind = StreamKindTrade) || bool_decide (kind = StreamKindKline) ||
  bool_decide (kind = StreamKindOrderBookDelta) || bool_decide (kind = StreamKindOrderBookSnapshot).

(** A fact worker with what [startInput] set in it, or a snapshot worker. *)
Inductive task_state :=
| FactTask (batch : BatchConfig) (hook : bool) (s : iwState)
| SnapTask (w : snapshotInputWorker).

Record task := mkTask {
  tk_in : GroupInput;
  tk_state : task_state;
  tk_flushOnStop : bool;
  tk_canceled : bool;
  tk_done : bool
}.

Record managedInput := mkManagedInput { mi_in : GroupInput; mi_task : nat }.

(** What can be seen at one moment: the map, the tasks, whether the loop has
    returned, and the task that the loop has taken out of the map and waits for, or
    has launched and not entered yet. *)
Record moment := mkMoment {
  mo_active : gmap string managedInput;
  mo_tasks : list task;
  mo_over : bool;
  mo_hand : option nat
}.

Record imState := mkImState {
  im_db : MetaDB;
  im_active : gmap string managedInput;
  im_gapExited : gset string;
  im_tasks : list task;
  im_canceled : bool;     (* the context of the loop, the parent of the tasks' *)
  im_over : bool;         (* the loop has returned *)
  im_seen : list moment   (* the moments within the passes, the latest first *)
}.

Definition moment_of (hand : option nat) (m : imState) : moment :=
  mkMoment (im_active m) (im_tasks m) (im_over m) hand.

Definition note (hand : option nat) (m : imState) : imState :=
  mkImState (im_db m) (im_active m) (im_gapExited m) (im_tasks m) (im_canceled m) (im_over m) (moment_of hand m :: im_seen m).

Record im_answer := mkImAnswer {
  ia_others : MetaDB -> MetaDB;           (* what other clients did meanwhile *)
  ia_exits : list nat;                    (* tasks that returned meanwhile *)
  ia_gapBook : orderBookState;            (* the book when the gap check reads it *)
  ia_startBook : orderBookState;          (* ... when startInput asks whether it is ready *)
  ia_seqBook : orderBookState;            (* ... when startInput reads its position *)
  ia_drain : task_state -> task_state;    (* what a cancelled task still does *)
  ia_now : time.Time;
  ia_out : outcome
}.

(** When the answers are used up nothing happens any more and calls fail. *)
Definition im_silence : im_answer :=
  mkImAnswer id [] (newOrderBookState "" "") (newOrderBookState "" "") (newOrderBookState "" "") id 0 Failed.

Definition task_exit (t : task) : task := mkTask (tk_in t) (tk_state t) (tk_flushOnStop t) (tk_canceled t) true.

Definition set_im_db (db : MetaDB) (m : imState) : imState :=
  mkImState db (im_active m) (im_gapExited m) (im_tasks m) (im_canceled m) (im_over m) (im_seen m).
Definition set_active (a : gmap string managedInput) (m : imState) : imState :=
  mkImState (im_db m) a (im_gapExited m) (im_tasks m) (im_canceled m) (im_over m) (im_seen m).
Definition set_gap (g : gset string) (m : imState) : imState :=
  mkImState (im_db m) (im_active m) g (im_tasks m) (im_canceled m) (im_over m) (im_seen m).
Definition set_tasks (l : list task) (m : imState) : imState :=
  mkImState (im_db m) (im_active m) (im_gapExited m) l (im_canceled m) (im_over m) (im_seen m).

(** The rest of the program moves before a call. *)
Definition meanwhile (a : im_answer) (m : imState) : imState :=
  note None
    (mkImState (ia_others a (im_db m)) (im_active m) (im_gapExited m)
       (foldl (fun l i => alter task_exit i l) (im_tasks m) (ia_exits a)) (im_canceled m) (im_over m) (im_seen m)).

Section input_manager.

Variables (group : MarketGroup) (nodeID : string) (brokers : list string) (config : ConsumptionConfig).
(** The text of an error. *)
Variable consumer_text : consumer_error -> string.
Variable sw_text : sw_error -> string.
(** The orders in which Go ranges over the maps. *)
Variable range_inputs : gmap string GroupInput -> list (string * GroupInput).
Variable range_active : gmap string managedInput -> list (string * managedInput).

(** ** Reports *)

(** A failed report is logged and dropped. *)
Definition report (a : im_answer) (st : StreamRuntimeStatus) (m : imState) : imState :=
  set_im_db (fst (ReportStreamRuntimeStatus (ia_out a) (ia_now a) (im_db m) st)) m.

Definition plain_status (i : GroupInput) (status lastErr : string) : StreamRuntimeStatus :=
  mkStreamRuntimeStatus (inputID i) (gi_GroupID i) (gi_StreamKey i) nodeID status None None None None None None lastErr time.zero.

Definition reportStartError (a : im_answer) (i : GroupInput) (lastErr : string) (m : imState) : imState :=
  report a (plain_status i ActualStatusError lastErr) m.

Definition reportInactive (a : im_answer) (i : GroupInput) (m : imState) : imState :=
  report a (plain_status i ActualStatusPaused "") m.

Definition with_status (status : string) (st : StreamRuntimeStatus) : StreamRuntimeStatus :=
  mkStreamRuntimeStatus (rs_InputID st) (rs_GroupID st) (rs_StreamKey st) (rs_NodeID st) status (rs_KafkaPartition st)
    (rs_KafkaLag st) (rs_CommittedOffset st) (rs_HighWatermarkOffset st) (rs_LastEventTime st) (rs_LastProcessedTime st)
    (rs_LastError st) (rs_UpdatedAt st).

(** The status [stopInput] publishes for a paused input. *)
Definition paused_status (now : time.Time) (i : GroupInput) (s : task_state) : StreamRuntimeStatus :=
  match s with
  | FactTask _ _ s => snapshotLocked group i nodeID ActualStatusPaused "" s
  | SnapTask w => with_status ActualStatusPaused (sw_snapshot group i nodeID (sw_text (sw_lastErr w)) now w)
  end.

(** ** Stopping *)

(** The task is told how to drain and cancelled; one that has returned no longer
    looks. *)
Definition tell_task (flush : bool) (t : task) : task :=
  if tk_done t then mkTask (tk_in t) (tk_state t) (tk_flushOnStop t) true true
  else mkTask (tk_in t) (tk_state t)
         (match tk_state t with FactTask _ _ _ => flush | SnapTask _ => tk_flushOnStop t end) true false.

(** The loop waits until the task has returned. *)
Definition wait_task (a : im_answer) (t : task) : task :=
  if tk_done t then t else mkTask (tk_in t) (ia_drain a (tk_state t)) (tk_flushOnStop t) (tk_canceled t) true.

(** The worker leaves the map first, then it is told and cancelled, then it is
    waited for; only then is the pause reported. *)
Definition stopInput (a : im_answer) (k : string) (reportPause flush : bool) (m : imState) : imState :=
  match im_active m !! k with
  | None => m
  | Some mi =>
      let hand := Some (mi_task mi) in
      let m1 := note hand (set_active (delete k (im_active m)) m) in
      let m2 := note hand (set_tasks (alter (tell_task flush) (mi_task mi) (im_tasks m1)) m1) in
      let m3 := set_tasks (alter (wait_task a) (mi_task mi) (im_tasks m2)) m2 in
      match im_tasks m3 !! mi_task mi with
      | Some t => if reportPause then report a (paused_status (ia_now a) (mi_in mi) (tk_state t)) m3 else m3
      | None => m3
      end
  end.

(** ** Starting *)

Definition consumer_config (i : GroupInput) : Kafka.Config := Kafka.mkConfig brokers (gi_KafkaTopic i) (consumerGroupID i) 0.

Definition new_task (a : im_answer) (i : GroupInput) : task_state :=
  if bool_decide (gi_StreamKind i = StreamKindOrderBookSnapshot) then SnapTask newSnapshotInputWorker
  else
    let hook := bool_decide (gi_StreamKind i = StreamKindOrderBookDelta) in
    let '(seq, last) := if hook && isReady (ia_startBook a) then getSequenceAndLastUpdateID (ia_seqBook a) else (None, None) in
    FactTask (batchFor config (gi_StreamKind i)) hook (newIwState (copyInt64Ptr seq) (copyInt64Ptr last)).

Definition startInput (a : im_answer) (i : GroupInput) (m : imState) : imState :=
  if negb (bool_decide (gi_KafkaCluster i = "")) && negb (bool_decide (gi_KafkaCluster i = "default"))
  then reportStartError a i ("unsupported kafka cluster " +:+ gi_KafkaCluster i) m
  else
    match NewConsumer (consumer_config i) with
    | Err e => reportStartError a i ("consumer: " +:+ consumer_text e) m
    | Ok _ =>
        let m1 := note (Some (length (im_tasks m)))
                    (set_tasks (im_tasks m ++ [mkTask i (new_task a i) false (im_canceled m) false]) m) in
        set_active (<[inputID i := mkManagedInput i (length (im_tasks m))]> (im_active m1)) m1
    end.

(** ** One pass *)

Definition runnable (i : GroupInput) : bool :=
  bool_decide (gi_DesiredStatus i = DesiredStatusRunning) && gi_Enabled i.

Definition index_inputs (f : GroupInput -> bool) (inputs : list GroupInput) : gmap string GroupInput :=
  foldl (fun m i => if isConsumableStreamKind (gi_StreamKind i) && f i then <[inputID i := i]> m else m) ∅ inputs.

Definition is_delta (i : GroupInput) : bool := bool_decide (gi_StreamKind i = StreamKindOrderBookDelta).

Definition task_done (m : imState) (id : nat) : bool :=
  match im_tasks m !! id with
  | Some t => tk_done t
  | None => false
  end.

(** Is a worker of the input running?  One that has returned leaves the map; a
    delta input is marked. *)
Definition reap (k : string) (i : GroupInput) (m : imState) : bool * imState :=
  match im_active m !! k with
  | None => (false, m)
  | Some mi =>
      if task_done m (mi_task mi) then
        let m1 := set_active (delete k (im_active m)) m in
        (false, if is_delta i then set_gap ({[k]} ∪ im_gapExited m1) m1 else m1)
      else (true, m)
  end.

(** A marked delta input waits until the order book is ready. *)
Definition launch (a : im_answer) (k : string) (i : GroupInput) (m : imState) : imState :=
  if is_delta i then
    if bool_decide (k ∈ im_gapExited m) && negb (isReady (ia_gapBook a)) then m
    else startInput a i (set_gap (im_gapExited m ∖ {[k]}) m)
  else startInput a i m.

(** One iteration of the loop over the desired inputs. *)
Definition visit (a : im_answer) (k : string) (i : GroupInput) (m : imState) : imState :=
  let '(running, m1) := reap k i (meanwhile a m) in
  if running then m1 else launch a k i m1.

(** A loop that takes one answer per element. *)
Fixpoint each {A} (f : im_answer -> A -> imState -> imState) (l : list A) (ans : list im_answer) (m : imState)
    : imState * list im_answer :=
  match l with
  | [] => (m, ans)
  | x :: l' => each f l' (tl ans) (f (default im_silence (head ans)) x m)
  end.

Definition to_stop (desired : gmap string GroupInput) (m : imState) : list string :=
  merge_sort (key_le (fun s => s)) (List.filter (fun k => bool_decide (desired !! k = None)) (map fst (map_to_list (im_active m)))).

Definition reconcile (list_answer : outcome) (ans : list im_answer) (m : imState) : imState :=
  match ListGroupInputs list_answer (im_db m) (mg_GroupID group) with
  | Err _ => m
  | Ok inputs =>
      let desired := index_inputs runnable inputs in
      let inactive := index_inputs (fun i => negb (runnable i)) inputs in
      let toStop := to_stop desired m in
      let '(m1, ans1) := each (fun a k m => stopInput a k true true (meanwhile a m)) toStop ans m in
      let '(m2, ans2) := each (fun a ki m => reportInactive a ki.2 (meanwhile a m)) (range_inputs (foldr delete inactive toStop)) ans1 m1 in
      fst (each (fun a ki m => visit a ki.1 ki.2 m) (range_inputs desired) ans2 m2)
  end.

Definition stopAll (flush : bool) (ans : list im_answer) (m : imState) : imState :=
  fst (each (fun a k m => stopInput a k false flush (meanwhile a m)) (map fst (range_active (im_active m))) ans m).

(** ** The manager and its surroundings *)

Inductive im_event :=
| IReconcile (list_answer : outcome) (ans : list im_answer)   (* the ticker of [loop] *)
| ICancel                                                     (* the cancel of [stop] *)
| IStop (flush : bool) (ans : list im_answer)                 (* the ctx.Done arm *)
| IMove (a : im_answer)                                       (* the others *)
| IProgress (id : nat) (f : task_state -> task_state).        (* a task works *)

Definition loop_step (m : imState) (e : im_event) : imState :=
  match e with
  | IReconcile o ans => if im_over m then m else reconcile o ans m
  | IStop flush ans =>
      if im_over m || negb (im_canceled m) then m
      else let m' := stopAll flush ans m in mkImState (im_db m') (im_active m') (im_gapExited m') (im_tasks m') true true (im_seen m')
  | ICancel =>
      mkImState (im_db m) (im_active m) (im_gapExited m)
        (map (fun t => mkTask (tk_in t) (tk_state t) (tk_flushOnStop t) true (tk_done t)) (im_tasks m)) true (im_over m) (im_seen m)
  | IMove a => meanwhile a m
  | IProgress id f =>
      set_tasks (alter (fun t => if tk_done t then t else mkTask (tk_in t) (f (tk_state t)) (tk_flushOnStop t) (tk_canceled t) false) id (im_tasks m)) m
  end.

Definition newInputManager (db : MetaDB) : imState := mkImState db ∅ ∅ [] false false [].

Definition im_run (m : imState) (es : list im_event) : imState := foldl loop_step m es.

End input_manager.

(** ** What the manager keeps *)

Section input_manager_facts.

Variables (group : MarketGroup) (nodeID : string) (brokers : list string) (config : ConsumptionConfig).
Variable consumer_text : consumer_error -> string.
Variable sw_text : sw_error -> string.
Variable range_inputs : gmap string GroupInput -> list (string * GroupInput).
Variable range_active : gmap string managedInput -> list (string * managedInput).
Hypothesis range_inputs_perm : forall m, range_inputs m ≡ₚ map_to_list m.
Hypothesis range_active_perm : forall m, range_active m ≡ₚ map_to_list m.

Local Abbreviation reconcile := (reconcile group nodeID brokers config consumer_text sw_text range_inputs).
Local Abbreviation stopAll := (stopAll group nodeID sw_text range_active).
Local Abbreviation stopInput := (stopInput group nodeID sw_text).
Local Abbreviation startInput := (startInput nodeID brokers config consumer_text).
Local Abbreviation launch := (launch nodeID brokers config consumer_text).
Local Abbreviation visit := (visit nodeID brokers config consumer_text).
Local Abbreviation loop_step := (loop_step group nodeID brokers config consumer_text sw_text range_inputs range_active).

(** An input the manager can run: its kind, its cluster, its Kafka coordinates. *)
Definition servable (i : GroupInput) : Prop :=
  isConsumableStreamKind (gi_StreamKind i) = true /\ (gi_KafkaCluster i = "" \/ gi_KafkaCluster i = "default") /\
  is_ok (NewConsumer (consumer_config brokers i)) = true.

(** At a moment: two workers that run serve different inputs; a worker that runs is
    the one the map has for its input, or the one in the loop's hands; for the
    input of the one in the loop's hands the map has nothing; and nothing runs once
    the loop has returned. *)
Record moment_ok (mo : moment) : Prop := {
  mo_one : forall i j t u, mo_tasks mo !! i = Some t -> mo_tasks mo !! j = Some u -> tk_done t = false -> tk_done u = false ->
    inputID (tk_in t) = inputID (tk_in u) -> i = j;
  mo_known : forall i t, mo_tasks mo !! i = Some t -> tk_done t = false ->
    mi_task <$> mo_active mo !! inputID (tk_in t) = Some i \/ mo_hand mo = Some i;
  mo_held : forall i t, mo_hand mo = Some i -> mo_tasks mo !! i = Some t -> mo_active mo !! inputID (tk_in t) = None;
  mo_quiet : mo_over mo = true -> forall i t, mo_tasks mo !! i = Some t -> tk_done t = true
}.

(** The map names its inputs by id and points at their tasks; a task that has not
    returned is in the map, and serves an input that can be run. *)
Record im_wf (m : imState) : Prop := {
  wf_active : forall k mi, im_active m !! k = Some mi ->
    inputID (mi_in mi) = k /\ exists t, im_tasks m !! mi_task mi = Some t /\ tk_in t = mi_in mi;
  wf_live : forall id t, im_tasks m !! id = Some t -> tk_done t = false ->
    exists mi, im_active m !! inputID (tk_in t) = Some mi /\ mi_task mi = id;
  wf_served : forall id t, im_tasks m !! id = Some t -> servable (tk_in t);
  wf_over : im_over m = true -> im_active m = ∅;
  wf_seen : Forall moment_ok (im_seen m)
}.

(** What may happen to a task that the manager does not stop. *)
Definition later (t t' : task) : Prop := tk_in t' = tk_in t /\ (tk_done t' = false -> tk_done t = false).

Lemma later_refl t : later t t.
Proof. by split. Qed.

Lemma later_trans t1 t2 t3 : later t1 t2 -> later t2 t3 -> later t1 t3.
Proof. intros [] []. split; [congruence|auto]. Qed.

Lemma later_all_refl l : Forall2 later l l.
Proof. apply Forall_Forall2_diag, Forall_forall. intros t _. apply later_refl. Qed.

Lemma later_alter f id l : (forall t, later t (f t)) -> Forall2 later l (alter f id l).
Proof.
  intros Hf. apply Forall2_same_length_lookup_2; [by rewrite length_alter|]. intros i t t' Hi Hi'.
  destruct (decide (i = id)) as [->|Hne].
  - rewrite list_lookup_alter_eq, Hi in Hi'. injection Hi' as <-. apply Hf.
  - rewrite list_lookup_alter_ne, Hi in Hi' by done. injection Hi' as <-. apply later_refl.
Qed.

Lemma later_exits l ids : Forall2 later l (foldl (fun l i => alter task_exit i l) l ids).
Proof.
  revert l. induction ids as [|i ids IH]; intros l; cbn; [apply later_all_refl|].
  eapply (Forall2_trans _ _ _ _ _ _ later_trans); [apply (later_alter task_exit i l)|apply IH]. by intros t.
Qed.

(** Moments stay in order when tasks move on. *)
Lemma moment_ok_later act l l' over hand :
  Forall2 later l l' -> moment_ok (mkMoment act l over hand) -> moment_ok (mkMoment act l' over hand).
Proof.
  intros HF [H1 H2 H3 H4]. cbn in *.
  assert (forall i t, l' !! i = Some t -> exists t0, l !! i = Some t0 /\ tk_in t = tk_in t0 /\ (tk_done t = false -> tk_done t0 = false)) as Hr.
  { intros i t Ht. destruct (Forall2_lookup_r _ _ _ _ _ HF Ht) as (t0 & Ht0 & Hi & Hd). by exists t0. }
  constructor; cbn.
  - intros i j t u Ht Hu Hdt Hdu. destruct (Hr i t Ht) as (t0 & Ht0 & -> & Hd). destruct (Hr j u Hu) as (u0 & Hu0 & -> & Hd').
    by apply (H1 i j t0 u0); auto.
  - intros i t Ht Hd. destruct (Hr i t Ht) as (t0 & Ht0 & -> & Hd0). by apply H2; auto.
  - intros i t Hh Ht. destruct (Hr i t Ht) as (t0 & Ht0 & -> & _). by apply (H3 i t0).
  - intros Hov i t Ht. destruct (Hr i t Ht) as (t0 & Ht0 & _ & Hd). specialize (H4 Hov i t0 Ht0).
    destruct (tk_done t); [done|]. by rewrite Hd in H4.
Qed.

(** Between two steps of the loop nothing is in its hands. *)
Lemma wf_moment m : im_wf m -> moment_ok (moment_of None m).
Proof.
  intros [Ha Hl Hs Ho Hseen]. constructor; cbn; [| |done|].
  - intros i j t u Ht Hu Hdt Hdu Heq. destruct (Hl i t Ht Hdt) as (mi & E1 & <-). destruct (Hl j u Hu Hdu) as (mj & E2 & <-).
    rewrite Heq, E2 in E1. congruence.
  - intros i t Ht Hd. left. destruct (Hl i t Ht Hd) as (mi & -> & <-). done.
  - intros Hov i t Ht. destruct (tk_done t) eqn:E; [done|]. destruct (Hl i t Ht E) as (mi & E1 & _).
    by rewrite (Ho Hov), lookup_empty in E1.
Qed.

(** The worker of an entry, in the loop's hands once the entry is gone. *)
Lemma removed_moment m k mi :
  im_wf m -> im_over m = false -> im_active m !! k = Some mi ->
  moment_ok (moment_of (Some (mi_task mi)) (set_active (delete k (im_active m)) m)).
Proof.
  intros Hm Hov Ek. pose proof (wf_moment m Hm) as [H1 _ _ _]. destruct Hm as [Ha Hl Hs Ho Hseen]. constructor; cbn in *.
  - done.
  - intros i t Ht Hd. destruct (Hl i t Ht Hd) as (mj & Hj & <-). destruct (decide (k = inputID (tk_in t))) as [-> | Hne].
    + right. congruence.
    + left. by rewrite lookup_delete_ne, Hj.
  - intros i t [= <-] Ht. destruct (Ha k mi Ek) as (Hid & t' & Ht' & Hin). rewrite Ht in Ht'. injection Ht' as <-.
    by rewrite Hin, Hid, lookup_delete_eq.
  - by rewrite Hov.
Qed.

(** A worker that was launched and not entered yet. *)
Lemma launched_moment m t :
  im_wf m -> im_over m = false -> im_active m !! inputID (tk_in t) = None ->
  moment_ok (moment_of (Some (length (im_tasks m))) (set_tasks (im_tasks m ++ [t]) m)).
Proof.
  intros Hm Hov Hn. pose proof (wf_moment m Hm) as [H1 H2 _ _]. cbn in *.
  assert (forall i u, im_tasks m !! i = Some u -> tk_done u = false -> inputID (tk_in u) <> inputID (tk_in t)) as Hne.
  { intros i u Hu Hd Heq. destruct (H2 i u Hu Hd) as [Hk|Hk]; [|done]. by rewrite Heq, Hn in Hk. }
  constructor; cbn.
  - intros i j u v [Hu|[Hli Hu]]%lookup_app_Some [Hv|[Hlj Hv]]%lookup_app_Some Hdu Hdv Heq; [by apply (H1 i j u v)|..].
    + apply list_lookup_singleton_Some in Hv as [_ <-]. by destruct (Hne i u Hu Hdu).
    + apply list_lookup_singleton_Some in Hu as [_ <-]. by destruct (Hne j v Hv Hdv).
    + apply list_lookup_singleton_Some in Hu as [? _]. apply list_lookup_singleton_Some in Hv as [? _]. lia.
  - intros i u [Hu|[Hli Hu]]%lookup_app_Some Hd.
    + left. by destruct (H2 i u Hu Hd).
    + right. apply list_lookup_singleton_Some in Hu as [? _]. f_equal. lia.
  - intros i u [= <-] Hu. rewrite list_lookup_middle in Hu by done. by injection Hu as <-.
  - by rewrite Hov.
Qed.

Lemma note_wf hand m : im_wf m -> moment_ok (moment_of hand m) -> im_wf (note hand m).
Proof. intros [Ha Hl Hs Ho Hseen] Hmo. constructor; try done. by constructor. Qed.

Lemma wf_later m l : im_wf m -> Forall2 later (im_tasks m) l -> im_wf (set_tasks l m).
Proof.
  intros [Ha Hl Hs Ho Hseen] HF. constructor; cbn; [| | |done|done].
  - intros k mi Hk. destruct (Ha k mi Hk) as (Hid & t & Ht & Hin). split; [done|].
    destruct (Forall2_lookup_l _ _ _ _ _ HF Ht) as (t' & Ht' & Hi & _). exists t'. by rewrite Hi.
  - intros i t Ht Hd. destruct (Forall2_lookup_r _ _ _ _ _ HF Ht) as (t0 & Ht0 & Hi & Hd0). rewrite Hi. apply (Hl i t0); [done|auto].
  - intros i t Ht. destruct (Forall2_lookup_r _ _ _ _ _ HF Ht) as (t0 & Ht0 & Hi & _). rewrite Hi. by apply (Hs i).
Qed.

(** Fields the invariant does not read. *)
Lemma wf_same m m' :
  im_active m' = im_active m -> im_tasks m' = im_tasks m -> im_over m' = im_over m -> im_seen m' = im_seen m -> im_wf m -> im_wf m'.
Proof. intros E1 E2 E3 E4 [Ha Hl Hs Ho Hseen]. constructor; rewrite ?E1, ?E2, ?E3, ?E4; done. Qed.

Lemma meanwhile_wf a m : im_wf m -> im_wf (meanwhile a m).
Proof.
  intros Hm. unfold meanwhile.
  assert (forall m', im_wf m' -> im_wf (note None m')) as Hn by (intros; apply note_wf; [done|by apply wf_moment]).
  apply Hn. eapply (wf_same (set_tasks (foldl (fun l i => alter task_exit i l) (im_tasks m) (ia_exits a)) m)); try done.
  apply wf_later; [done|apply later_exits].
Qed.

Lemma report_im_wf a st m : im_wf m -> im_wf (report a st m).
Proof. by apply wf_same. Qed.

(** The three steps of a stop on the task. *)
Definition stop_task (a : im_answer) (flush : bool) (t : task) : task := wait_task a (tell_task flush t).

Lemma tell_later f t : later t (tell_task f t).
Proof. unfold tell_task. by destruct (tk_done t) eqn:E. Qed.

Lemma stop_later a f t : later t (stop_task a f t).
Proof. unfold stop_task, wait_task, tell_task. by destruct (tk_done t) eqn:E; cbn; rewrite ?E. Qed.

Lemma stop_done a f t : tk_done (stop_task a f t) = true.
Proof. unfold stop_task, wait_task, tell_task. by destruct (tk_done t) eqn:E; cbn; rewrite ?E. Qed.

Lemma stopInput_tasks a k p f m :
  im_tasks (stopInput a k p f m) =
    match im_active m !! k with Some mi => alter (stop_task a f) (mi_task mi) (im_tasks m) | None => im_tasks m end.
Proof.
  unfold InputManager.stopInput. destruct (im_active m !! k) as [mi|]; [|done]. cbn [im_tasks set_tasks set_active note].
  rewrite list_alter_alter_eq. change (wait_task a ∘ tell_task f) with (stop_task a f). by destruct (alter _ _ _ !! _), p.
Qed.

Lemma stopInput_active a k p f m : im_active (stopInput a k p f m) = delete k (im_active m).
Proof.
  unfold InputManager.stopInput. destruct (im_active m !! k) eqn:E; [|by rewrite delete_id].
  cbn [im_tasks set_tasks set_active note]. by destruct (alter _ _ _ !! _), p.
Qed.

Lemma stopInput_over a k p f m : im_over (stopInput a k p f m) = im_over m.
Proof.
  unfold InputManager.stopInput. destruct (im_active m !! k) eqn:E; [|done].
  cbn [im_tasks set_tasks set_active note]. by destruct (alter _ _ _ !! _), p.
Qed.

(** While the stopped worker drains it is out of the map and in the loop's hands. *)
Lemma stopInput_seen a k p f m :
  im_wf m -> im_over m = false -> Forall moment_ok (im_seen (stopInput a k p f m)).
Proof.
  intros Hm Hover. unfold InputManager.stopInput. destruct (im_active m !! k) as [mi|] eqn:Ek; [|by destruct Hm].
  pose proof (removed_moment m k mi Hm Hover Ek) as Hmo.
  assert (Forall moment_ok (moment_of (Some (mi_task mi)) (set_tasks (alter (tell_task f) (mi_task mi) (im_tasks m)) (set_active (delete k (im_active m)) m))
    :: moment_of (Some (mi_task mi)) (set_active (delete k (im_active m)) m) :: im_seen m)) as H.
  { repeat apply Forall_cons_2; [|done|by destruct Hm]. eapply moment_ok_later; [|exact Hmo]. apply later_alter, tell_later. }
  cbn [im_tasks set_tasks set_active note im_seen]. by destruct (alter _ _ _ !! _), p.
Qed.

Lemma stopInput_wf a k p f m : im_wf m -> im_over m = false -> im_wf (stopInput a k p f m).
Proof.
  intros Hm Hover. pose proof (stopInput_seen a k p f m Hm Hover) as Hseen. destruct Hm as [Ha Hl Hs Ho _].
  destruct (im_active m !! k) as [mi|] eqn:Ek.
  2:{ revert Hseen. unfold InputManager.stopInput. rewrite Ek. intros. by constructor. }
  assert (Forall2 later (im_tasks m) (alter (stop_task a f) (mi_task mi) (im_tasks m))) as HF by apply later_alter, stop_later.
  constructor; rewrite ?stopInput_active, ?stopInput_tasks, ?stopInput_over, ?Ek; [| | |congruence|done].
  - intros j mj Hj. apply lookup_delete_Some in Hj as [Hne Hj]. destruct (Ha j mj Hj) as (Hidj & t & Ht & Hin). split; [done|].
    destruct (Forall2_lookup_l _ _ _ _ _ HF Ht) as (t' & Ht' & Hi & _). exists t'. by rewrite Hi.
  - intros i t Ht Hd. destruct (Forall2_lookup_r _ _ _ _ _ HF Ht) as (t1 & Ht1 & Hi & Hd1).
    destruct (Hl i t1 Ht1 (Hd1 Hd)) as (mj & Hj & Hji). exists mj. rewrite Hi. split; [|done].
    apply lookup_delete_Some. split; [|done]. intros ->. rewrite Ek in Hj. injection Hj as <-. subst i.
    rewrite list_lookup_alter_eq, Ht1 in Ht. injection Ht as <-. by rewrite stop_done in Hd.
  - intros i t Ht. destruct (Forall2_lookup_r _ _ _ _ _ HF Ht) as (t1 & Ht1 & Hi & _). rewrite Hi. by apply (Hs i).
Qed.

Lemma startInput_db a i m :
  ~ servable i -> isConsumableStreamKind (gi_StreamKind i) = true -> exists text, startInput a i m = reportStartError nodeID a i text m.
Proof.
  intros Hn Hc. unfold InputManager.startInput. destruct (negb (bool_decide (gi_KafkaCluster i = "")) && _) eqn:E; [by eexists|].
  destruct (NewConsumer _) eqn:EN; [|by eexists]. destruct Hn. split_and!; [done| |by rewrite EN].
  apply andb_false_iff in E as [E|E]; apply negb_false_iff, bool_decide_eq_true in E; auto.
Qed.

(** A servable input gets a task, under its id. *)
Lemma startInput_servable a i m :
  servable i ->
  startInput a i m =
    let t := mkTask i (new_task config a i) false (im_canceled m) false in
    set_active (<[inputID i := mkManagedInput i (length (im_tasks m))]> (im_active m))
      (note (Some (length (im_tasks m))) (set_tasks (im_tasks m ++ [t]) m)).
Proof.
  intros (_ & Hcl & Hn). unfold InputManager.startInput.
  assert (negb (bool_decide (gi_KafkaCluster i = "")) && negb (bool_decide (gi_KafkaCluster i = "default")) = false) as ->.
  { destruct Hcl as [-> | ->]; by vm_compute. }
  by destruct (NewConsumer _).
Qed.

Lemma servable_dec i : {servable i} + {~ servable i}.
Proof.
  unfold servable. destruct (isConsumableStreamKind _); [|right; naive_solver]. destruct (is_ok _); [|right; naive_solver].
  destruct (decide (gi_KafkaCluster i = "")); [left; auto|]. destruct (decide (gi_KafkaCluster i = "default")); [left; auto|right; naive_solver].
Qed.

Lemma startInput_wf a i m :
  im_wf m -> im_over m = false -> isConsumableStreamKind (gi_StreamKind i) = true -> im_active m !! inputID i = None ->
  im_wf (startInput a i m) /\ im_over (startInput a i m) = false.
Proof.
  intros Hm Hover Hc Hn. destruct (servable_dec i) as [Hs|Hs].
  2:{ destruct (startInput_db a i m Hs Hc) as [text ->]. split; [by apply report_im_wf|done]. }
  rewrite startInput_servable by done. cbv zeta. split; [|done]. set (t0 := mkTask i _ _ _ _).
  pose proof (launched_moment m t0 Hm Hover Hn) as Hmo.
  destruct Hm as [Ha Hl Hsv Ho Hseen]. constructor; cbn; [| | |congruence|by apply Forall_cons_2].
  - intros k mi [[<- <-]|[Hne Hk]]%lookup_insert_Some.
    + split; [done|]. cbn. eexists. by rewrite list_lookup_middle.
    + destruct (Ha k mi Hk) as (Hid & t & Ht & Hin). split; [done|]. exists t. split; [|done]. by apply lookup_app_l_Some.
  - intros id t [Ht|[Hlen Ht]]%lookup_app_Some Hd.
    + destruct (Hl id t Ht Hd) as (mi & Hk & Hmi). exists mi. split; [|done]. rewrite lookup_insert_ne; [done|]. congruence.
    + apply list_lookup_singleton_Some in Ht as [Hz <-]. cbn. rewrite lookup_insert_eq. eexists. split; [done|]. cbn. lia.
  - intros id t [Ht|[Hlen Ht]]%lookup_app_Some; [by apply (Hsv id)|].
    by apply list_lookup_singleton_Some in Ht as [_ <-].
Qed.

Lemma launch_wf a k i m :
  im_wf m -> im_over m = false -> inputID i = k -> isConsumableStreamKind (gi_StreamKind i) = true -> im_active m !! k = None ->
  im_wf (launch a k i m) /\ im_over (launch a k i m) = false.
Proof.
  intros H1 H2 <- Hc H3. unfold InputManager.launch. destruct (is_delta i); [|by apply startInput_wf].
  destruct (_ && _); [done|]. apply startInput_wf; [by apply (wf_same m)|done..].
Qed.

Lemma reap_wf k i m :
  im_wf m -> im_over m = false ->
  im_wf (snd (reap k i m)) /\ im_over (snd (reap k i m)) = false /\ (fst (reap k i m) = false -> im_active (snd (reap k i m)) !! k = None).
Proof.
  intros Hw Ho. unfold reap. destruct (im_active m !! k) as [mi|] eqn:Ek; [|done].
  destruct (task_done m (mi_task mi)) eqn:Ed; [|done].
  assert (im_wf (set_active (delete k (im_active m)) m)) as Hdel.
  { destruct Hw as [Ha Hl Hs Hov Hseen]. constructor; cbn; [| |done|congruence|done].
    - intros j mj [_ Hj]%lookup_delete_Some. by apply Ha.
    - intros id t Ht Hd. destruct (Hl id t Ht Hd) as (mj & Hj & Hmj). exists mj. split; [|done].
      apply lookup_delete_Some. split; [|done]. intros ->. rewrite Ek in Hj. injection Hj as <-.
      unfold task_done in Ed. rewrite Hmj, Ht in Ed. congruence. }
  destruct (is_delta i); cbn; rewrite lookup_delete_eq; [|done]. split; [|done].
  by apply (wf_same (set_active (delete k (im_active m)) m)).
Qed.

Lemma visit_wf a k i m :
  im_wf m -> im_over m = false -> inputID i = k -> isConsumableStreamKind (gi_StreamKind i) = true ->
  im_wf (visit a k i m) /\ im_over (visit a k i m) = false.
Proof.
  intros Hm Hover Hid Hc. unfold InputManager.visit. destruct (reap_wf k i _ (meanwhile_wf a m Hm) Hover) as (H1 & H2 & H3).
  destruct (reap k i (meanwhile a m)) as [[] m1]; [done|]. apply launch_wf; auto.
Qed.

Lemma each_ind {A} (P : imState -> Prop) (f : im_answer -> A -> imState -> imState) l ans m :
  (forall a x m, x ∈ l -> P m -> P (f a x m)) -> P m -> P (fst (each f l ans m)).
Proof.
  revert ans m. induction l as [|x l IH]; intros ans m Hf Hm; cbn; [done|]. apply IH.
  - intros a y m' Hy. apply Hf. by apply elem_of_cons; right.
  - apply Hf; [by apply elem_of_cons; left|done].
Qed.

Lemma index_inputs_Some f inputs k i :
  index_inputs f inputs !! k = Some i ->
  i ∈ inputs /\ inputID i = k /\ isConsumableStreamKind (gi_StreamKind i) = true /\ f i = true.
Proof.
  unfold index_inputs.
  assert (forall m : gmap string GroupInput, (forall k i, m !! k = Some i -> i ∈ inputs /\ inputID i = k /\ isConsumableStreamKind (gi_StreamKind i) = true /\ f i = true) ->
    forall l, (forall x, x ∈ l -> x ∈ inputs) -> forall k i, foldl (fun (m : gmap string GroupInput) i => if isConsumableStreamKind (gi_StreamKind i) && f i then <[inputID i := i]> m else m) m l !! k = Some i ->
    i ∈ inputs /\ inputID i = k /\ isConsumableStreamKind (gi_StreamKind i) = true /\ f i = true) as H.
  { intros m Hm l. revert m Hm. induction l as [|x l IH]; intros m Hm Hin; cbn; [done|]. apply IH.
    - destruct (isConsumableStreamKind (gi_StreamKind x)) eqn:E1, (f x) eqn:E2; cbn; try done.
      intros j y [[<- <-]|[_ Hy]]%lookup_insert_Some; [|by apply Hm]. split_and!; [|done..]. apply Hin. by left.
    - intros y Hy. apply Hin. by right. }
  apply H; [|done]. intros j y. by rewrite lookup_empty.
Qed.

Lemma reconcile_wf o ans m : im_wf m -> im_over m = false -> im_wf (reconcile o ans m) /\ im_over (reconcile o ans m) = false.
Proof.
  intros Hm Ho. unfold InputManager.reconcile. destruct (ListGroupInputs _ _ _) as [inputs|]; [|done]. cbv zeta.
  set (P := fun m => im_wf m /\ im_over m = false). set (desired := index_inputs runnable inputs).
  match goal with |- context [each ?f (to_stop desired m) ans m] =>
    pose proof (each_ind P f (to_stop desired m) ans m) as H1; destruct (each f (to_stop desired m) ans m) as [m1 ans1] end.
  destruct H1 as [Hm1 Ho1]; [|done|].
  { intros a k m' _ [Hm' Ho']. pose proof (meanwhile_wf a m' Hm'). split; [by apply stopInput_wf|].
    by rewrite stopInput_over. }
  match goal with |- context [each ?f ?l ans1 m1] =>
    pose proof (each_ind P f l ans1 m1) as H2; destruct (each f l ans1 m1) as [m2 ans2] end.
  destruct H2 as [Hm2 Ho2]; [|done|].
  { intros a k m' _ [Hm' Ho']. split; [by apply report_im_wf, meanwhile_wf|done]. }
  apply (each_ind P); [|done]. intros a [k i] m' Hki [Hm' Ho']. rewrite range_inputs_perm in Hki.
  apply elem_of_map_to_list, index_inputs_Some in Hki as (_ & <- & Hc & _). by apply visit_wf.
Qed.

Lemma stop_each_active p f ks ans m :
  im_active (fst (each (fun a k m => stopInput a k p f (meanwhile a m)) ks ans m)) = foldl (fun m k => delete k m) (im_active m) ks.
Proof.
  revert ans m. induction ks as [|k ks IH]; intros ans m; cbn; [done|]. by rewrite IH, stopInput_active.
Qed.

(** After [stopAll] the map is empty, so nothing runs. *)
Lemma stopAll_wf f ans m : im_wf m -> im_over m = false -> im_wf (stopAll f ans m) /\ im_active (stopAll f ans m) = ∅.
Proof.
  intros Hm Ho. unfold InputManager.stopAll. split.
  - refine (proj1 (each_ind (fun m => im_wf m /\ im_over m = false) _ _ _ _ _ (conj Hm Ho))). intros a k m' _ [Hm' Ho'].
    pose proof (meanwhile_wf a m' Hm'). by rewrite stopInput_over; split; [apply stopInput_wf|].
  - rewrite stop_each_active. apply map_eq. intros j. rewrite foldl_delete_lookup, lookup_empty. case_bool_decide as B; [done|].
    destruct (im_active m !! j) as [mi|] eqn:E; [|done]. destruct B.
    apply (list_elem_of_fmap_2 fst _ (j, mi)). rewrite range_active_perm. by apply elem_of_map_to_list.
Qed.

Lemma later_map f l : (forall t, later t (f t)) -> Forall2 later l (map f l).
Proof. intros Hf. induction l; cbn; constructor; auto. Qed.

Lemma loop_step_wf m e : im_wf m -> im_wf (loop_step m e).
Proof.
  intros Hm. destruct e as [o ans| |f ans|a|id f]; cbn.
  - destruct (im_over m) eqn:E; [done|]. by apply reconcile_wf.
  - eapply (wf_same (set_tasks _ m)); [done..|]. apply wf_later; [done|]. by apply later_map.
  - destruct (im_over m || negb (im_canceled m)) eqn:E; [done|]. apply orb_false_iff in E as [E _].
    destruct (stopAll_wf f ans m Hm E) as [[Ha Hl Hs Ho Hseen] Hempty]. constructor; done.
  - by apply meanwhile_wf.
  - apply wf_later; [done|]. apply later_alter. intros t. by destruct (tk_done t) eqn:E.
Qed.

Lemma im_run_wf db es : im_wf (foldl loop_step (newInputManager db) es).
Proof.
  assert (im_wf (newInputManager db)) as H0 by (constructor; cbn; [by intros ? ? ?%lookup_empty_Some|by intros ? ?; rewrite lookup_nil..|done|constructor]).
  revert H0. generalize (newInputManager db). induction es as [|e es IH]; intros m Hm; cbn; [done|]. by apply IH, loop_step_wf.
Qed.

(** *** The inputs of the group, by id *)

Lemma select_by_iff {A} (key : A -> string) f (m : gmap string A) x :
  x ∈ select_by key f m <-> f x = true /\ exists k, m !! k = Some x.
Proof.
  unfold select_by. rewrite merge_sort_Permutation, list_elem_of_In, filter_In, in_map_iff. split.
  - intros [([k y] & <- & Hin) Hf]. split; [done|]. exists k. by apply elem_of_map_to_list, list_elem_of_In.
  - intros [Hf [k Hk]]. split; [|done]. exists (k, x). split; [done|]. by apply list_elem_of_In, elem_of_map_to_list.
Qed.

Lemma listed_iff db inputs i :
  meta_wf db -> ListGroupInputs Done db (mg_GroupID group) = Ok inputs ->
  i ∈ inputs <-> md_inputs db !! inputID i = Some i /\ gi_GroupID i = mg_GroupID group.
Proof.
  intros Hwf [= <-]. rewrite select_by_iff, bool_decide_eq_true. split.
  - intros [Hg [k Hk]]. split; [|done]. destruct (mw_input _ Hwf k i Hk) as (Hid & (_ & _ & _ & Hne & _) & _).
    unfold inputID. rewrite bool_decide_true by done. by rewrite Hid.
  - intros [Hk Hg]. split; [done|by eexists].
Qed.

Lemma index_inputs_listed f db inputs k :
  meta_wf db -> ListGroupInputs Done db (mg_GroupID group) = Ok inputs ->
  index_inputs f inputs !! k =
    match md_inputs db !! k with
    | Some i => if bool_decide (gi_GroupID i = mg_GroupID group) && isConsumableStreamKind (gi_StreamKind i) && f i then Some i else None
    | None => None
    end.
Proof.
  intros Hwf HL. assert (forall i, i ∈ inputs -> md_inputs db !! inputID i = Some i /\ gi_GroupID i = mg_GroupID group) as Hin
    by (intros i; by apply listed_iff).
  destruct (index_inputs f inputs !! k) as [i|] eqn:E.
  { apply index_inputs_Some in E as (Hi & <- & Hc & Hf). destruct (Hin i Hi) as [-> Hg]. by rewrite bool_decide_true, Hc, Hf. }
  destruct (md_inputs db !! k) as [i|] eqn:Ek; [|done]. case_bool_decide as Hg; [|done].
  destruct (isConsumableStreamKind (gi_StreamKind i)) eqn:Hc, (f i) eqn:Hf; try done. exfalso.
  assert (inputID i = k) as Hid.
  { destruct (mw_input _ Hwf k i Ek) as (Hid & (_ & _ & _ & Hne & _) & _). unfold inputID. by rewrite bool_decide_true. }
  assert (i ∈ inputs) as Hi by (apply (listed_iff db); [done..|by rewrite Hid]).
  clear -E Hc Hf Hid Hi Hin. revert E. unfold index_inputs.
  assert (forall (m : gmap string GroupInput) l, (forall x, x ∈ l -> x ∈ inputs) -> (i ∈ l \/ m !! k = Some i) -> foldl (fun m i => if isConsumableStreamKind (gi_StreamKind i) && f i then <[inputID i := i]> m else m) m l !! k = Some i) as H.
  { intros m l. revert m. induction l as [|x l IH]; intros m Hsub [Hil|Hm]; cbn; [by apply elem_of_nil in Hil|done| |].
    - apply IH; [by intros y Hy; apply Hsub; right|]. apply elem_of_cons in Hil as [<-|Hil]; [|by left]. right. rewrite Hc, Hf. cbn. by rewrite Hid, lookup_insert_eq.
    - apply IH; [by intros y Hy; apply Hsub; right|]. right. destruct (_ && f x); [|done].
      destruct (decide (inputID x = k)) as [Hx|Hne]; [|by rewrite lookup_insert_ne].
      assert (x = i) as ->; [|by rewrite Hid, lookup_insert_eq].
      destruct (Hin x (Hsub x ltac:(by left))) as [Hx1 _]. destruct (Hin i Hi) as [Hx2 _]. rewrite Hx in Hx1. rewrite Hid in Hx2. congruence. }
  rewrite H; [done|done|by left].
Qed.

(** *** What one call does to the entry of each input *)

(** The entry of an input: none, or whether its task has returned. *)
Definition slot (m : imState) (k : string) : option bool := (fun mi => task_done m (mi_task mi)) <$> im_active m !! k.

(** A worker runs for the input. *)
Definition live (m : imState) (k : string) : Prop :=
  exists id t, im_tasks m !! id = Some t /\ tk_done t = false /\ inputID (tk_in t) = k.

Lemma live_slot m k : im_wf m -> live m k <-> slot m k = Some false.
Proof.
  intros [Ha Hl _ _ _]. unfold slot, live. split.
  - intros (id & t & Ht & Hd & <-). destruct (Hl id t Ht Hd) as (mi & -> & Hmi). cbn. unfold task_done. by rewrite Hmi, Ht, Hd.
  - destruct (im_active m !! k) as [mi|] eqn:E; [|done]. cbn. destruct (Ha k mi E) as (Hid & t & Ht & Hin).
    unfold task_done. rewrite Ht. intros [= Hd]. exists (mi_task mi), t. by rewrite Hin.
Qed.

Definition quiet (a : im_answer) : Prop := ia_exits a = [].

Lemma meanwhile_slot a m k : quiet a -> slot (meanwhile a m) k = slot m k.
Proof. unfold quiet, slot, task_done, meanwhile. intros ->. done. Qed.

Lemma report_slot a st m k : slot (report a st m) k = slot m k.
Proof. done. Qed.

(** Two entries have two tasks. *)
Lemma entries_differ m j k mj mk : im_wf m -> im_active m !! j = Some mj -> im_active m !! k = Some mk -> mi_task mj = mi_task mk -> j = k.
Proof.
  intros Hm Hj Hk Heq. destruct (wf_active m Hm j mj Hj) as (<- & t & Ht & Hin). destruct (wf_active m Hm k mk Hk) as (<- & t' & Ht' & Hin').
  rewrite Heq in Ht. congruence.
Qed.

Lemma stopInput_slot a k p f m j : im_wf m -> slot (stopInput a k p f m) j = if bool_decide (j = k) then None else slot m j.
Proof.
  intros Hm. unfold slot. rewrite stopInput_active. case_bool_decide as Hj; [by rewrite Hj, lookup_delete_eq|].
  rewrite lookup_delete_ne by congruence. destruct (im_active m !! j) as [mj|] eqn:Ej; [|done]. cbn. f_equal.
  unfold task_done. rewrite stopInput_tasks. destruct (im_active m !! k) as [mi|] eqn:Ek; [|done].
  rewrite list_lookup_alter_ne; [done|]. intros Heq. destruct Hj. by eapply entries_differ.
Qed.

Lemma stopInput_gap a k p f m : im_gapExited (stopInput a k p f m) = im_gapExited m.
Proof.
  unfold InputManager.stopInput. destruct (im_active m !! k) as [mi|]; [|done].
  cbn [im_tasks set_tasks set_active note]. by destruct (alter _ _ _ !! _), p.
Qed.

Lemma startInput_slot a i m j :
  im_wf m -> isConsumableStreamKind (gi_StreamKind i) = true ->
  slot (startInput a i m) j = if bool_decide (j = inputID i /\ servable i) then Some false else slot m j.
Proof.
  intros Hm Hc. destruct (servable_dec i) as [Hs|Hs].
  2:{ destruct (startInput_db a i m Hs Hc) as [text ->]. by rewrite bool_decide_false by (by intros []). }
  rewrite startInput_servable by done. unfold slot. cbn. case_bool_decide as B.
  - destruct B as [-> _]. rewrite lookup_insert_eq. cbn. unfold task_done. cbn. by rewrite list_lookup_middle.
  - rewrite lookup_insert_ne by (intros <-; by destruct B). destruct (im_active m !! j) as [mj|] eqn:Ej; [|done]. cbn. f_equal.
    unfold task_done. cbn. destruct (wf_active m Hm j mj Ej) as (_ & t & Ht & _). by rewrite (lookup_app_l_Some _ _ _ _ Ht), Ht.
Qed.

Lemma startInput_gap a i m : isConsumableStreamKind (gi_StreamKind i) = true -> im_gapExited (startInput a i m) = im_gapExited m.
Proof.
  intros Hc. destruct (servable_dec i) as [Hs|Hs]; [by rewrite startInput_servable|]. by destruct (startInput_db a i m Hs Hc) as [text ->].
Qed.

(** A delta input that must wait for a snapshot: its worker has returned, now or
    before, and the book is not ready. *)
Definition waits (ready : bool) (m : imState) (k : string) (i : GroupInput) : Prop :=
  is_delta i = true /\ ready = false /\ (k ∈ im_gapExited m \/ slot m k = Some true).

Lemma launch_slot a k i m :
  im_wf m -> inputID i = k -> isConsumableStreamKind (gi_StreamKind i) = true -> slot m k = None ->
  (forall j, j <> k -> slot (launch a k i m) j = slot m j /\ (j ∈ im_gapExited (launch a k i m) <-> j ∈ im_gapExited m)) /\
  (slot (launch a k i m) k = Some false <->
     servable i /\ ~ (is_delta i = true /\ k ∈ im_gapExited m /\ isReady (ia_gapBook a) = false)).
Proof.
  intros Hm <- Hc Hs. unfold InputManager.launch. destruct (is_delta i) eqn:Hd.
  - destruct (bool_decide (inputID i ∈ im_gapExited m) && negb (isReady (ia_gapBook a))) eqn:E.
    + apply andb_true_iff in E as [E1%bool_decide_eq_true E2%negb_true_iff]. rewrite Hs. split; [done|]. split; [done|]. intros [_ []]. done.
    + set (m' := set_gap _ m). assert (im_wf m') as Hm' by (by apply (wf_same m)). split.
      * intros j Hj. rewrite startInput_slot, startInput_gap, bool_decide_false by (done || by intros [-> _]). split; [done|]. cbn. set_solver.
      * rewrite startInput_slot by done. change (slot m' (inputID i)) with (slot m (inputID i)). rewrite Hs.
        destruct (bool_decide (inputID i = inputID i /\ servable i)) eqn:B; [apply bool_decide_eq_true in B|apply bool_decide_eq_false in B].
        -- split; [|done]. intros _. split; [apply B|]. intros (_ & Hg & Hr). rewrite bool_decide_true, Hr in E by done. done.
        -- split; [done|]. intros [Hsv _]. by destruct B.
  - split.
    + intros j Hj. by rewrite startInput_slot, startInput_gap, bool_decide_false by (done || by intros [-> _]).
    + rewrite startInput_slot, Hs by done. case_bool_decide as B; [split; [|done]; intros _; split; [apply B|by intros [? _]]|].
      split; [done|]. intros [Hsv _]. by destruct B.
Qed.

Lemma visit_slot a k i m :
  im_wf m -> im_over m = false -> quiet a -> inputID i = k -> isConsumableStreamKind (gi_StreamKind i) = true ->
  (forall j, j <> k -> slot (visit a k i m) j = slot m j /\ (j ∈ im_gapExited (visit a k i m) <-> j ∈ im_gapExited m)) /\
  (slot (visit a k i m) k = Some false <-> slot m k = Some false \/ servable i /\ ~ waits (isReady (ia_gapBook a)) m k i).
Proof.
  intros Hm0 Ho0 Hq Hid Hc. unfold InputManager.visit, waits.
  assert (forall j, slot m j = slot (meanwhile a m) j) as Hsl by (intros j; by rewrite meanwhile_slot).
  setoid_rewrite Hsl. clear Hsl. change (im_gapExited m) with (im_gapExited (meanwhile a m)).
  pose proof (meanwhile_wf a m Hm0) as Hm. assert (im_over (meanwhile a m) = false) as Ho by done.
  set (m1 := meanwhile a m) in *. clearbody m1. clear m Hm0 Ho0 Hq.
  destruct (reap_wf k i m1 Hm Ho) as (H1 & _ & H3).
  unfold reap in *. destruct (im_active m1 !! k) as [mi|] eqn:Ek.
  2:{ assert (slot m1 k = None) as Hn by (unfold slot; by rewrite Ek). destruct (launch_slot a k i m1 Hm Hid Hc Hn) as [Hoth ->].
      split; [done|]. rewrite Hn. split; [naive_solver|]. intros [?|[? Hw]]; [done|]. split; [done|]. intros (? & ? & ?). by destruct Hw; auto. }
  assert (slot m1 k = Some (task_done m1 (mi_task mi))) as Hs by (unfold slot; by rewrite Ek). rewrite Hs.
  destruct (task_done m1 (mi_task mi)); [|by split; [|split; [left|]]]. cbn [fst snd] in *.
  match goal with |- context [launch a k i ?x] => set (m2 := x) in * end.
  assert (forall j, j <> k -> slot m2 j = slot m1 j /\ (j ∈ im_gapExited m2 <-> j ∈ im_gapExited m1)) as Hm2.
  { intros j Hj. unfold m2, slot. destruct (is_delta i); cbn; rewrite lookup_delete_ne by done; set_solver. }
  assert (slot m2 k = None) as Hn by (unfold slot; by rewrite H3).
  destruct (launch_slot a k i m2 H1 Hid Hc Hn) as [Hoth ->]. split.
  - intros j Hj. destruct (Hoth j Hj) as [-> ->]. by apply Hm2.
  - assert (is_delta i = true -> k ∈ im_gapExited m2) as Hg by (intros Hd; unfold m2; rewrite Hd; cbn; set_solver).
    split; [|naive_solver]. intros [Hsv Hnw]. right. split; [done|]. intros (Hd & Hr & _). apply Hnw. auto.
Qed.

(** *** What a pass does *)

Lemma each_rest {A} (f : im_answer -> A -> imState -> imState) l ans m : snd (each f l ans m) = drop (length l) ans.
Proof. revert ans m. induction l as [|x l IH]; intros ans m; cbn; [done|]. rewrite IH. by destruct ans; cbn; rewrite ?drop_nil. Qed.

(** No task returns on its own, and every look at the book finds it the same. *)
Definition calm (ready : bool) (a : im_answer) : Prop := quiet a /\ isReady (ia_gapBook a) = ready.

(** Calm answers for [n] calls; the book of [im_silence] is not ready. *)
Definition supply (ready : bool) (n : nat) (ans : list im_answer) : Prop :=
  Forall (calm ready) ans /\ (ready = true -> (n <= length ans)%nat).

Lemma supply_drop ready n k ans : supply ready (n + k) ans -> supply ready k (drop n ans).
Proof. intros [HF Hl]. split; [by apply Forall_drop|]. intros Hr. rewrite length_drop. specialize (Hl Hr). lia. Qed.

Lemma supply_head ready n ans : supply ready (S n) ans -> calm ready (default im_silence (head ans)) /\ supply ready n (tl ans).
Proof.
  intros [HF Hl]. destruct ans as [|a ans]; cbn in *.
  - destruct ready; [specialize (Hl eq_refl); lia|]. by repeat split.
  - apply Forall_cons in HF as [Ha HF]. split; [done|]. split; [done|]. intros Hr. specialize (Hl Hr). lia.
Qed.

Lemma supply_quiet ready n ans : supply ready n ans -> quiet (default im_silence (head ans)).
Proof. intros [HF _]. destruct ans as [|a ans]; [done|]. apply Forall_cons in HF as [[? _] _]. done. Qed.

Lemma supply_tl ready n ans : supply ready n ans -> supply ready (pred n) (tl ans).
Proof.
  intros [HF Hl]. destruct ans as [|a ans]; cbn in *.
  - split; [done|]. intros Hr. specialize (Hl Hr). cbn. lia.
  - apply Forall_cons in HF as [_ HF]. split; [done|]. intros Hr. specialize (Hl Hr). lia.
Qed.

Lemma stop_loop ready n ks ans m :
  im_wf m -> im_over m = false -> supply ready n ans ->
  let m' := fst (each (fun a k m => stopInput a k true true (meanwhile a m)) ks ans m) in
  im_wf m' /\ im_over m' = false /\ im_gapExited m' = im_gapExited m /\
  forall j, slot m' j = if bool_decide (j ∈ ks) then None else slot m j.
Proof.
  cbv zeta. revert n ans m. induction ks as [|k ks IH]; intros n ans m Hm Ho Hs; cbn [each fst]; [done|].
  pose proof (supply_quiet _ _ _ Hs) as Hq. set (a := default im_silence (head ans)) in *.
  pose proof (meanwhile_wf a m Hm) as Hmw.
  destruct (IH (pred n) (tl ans) (stopInput a k true true (meanwhile a m))) as (H1 & H2 & -> & H4);
    [by apply stopInput_wf|by rewrite stopInput_over|by apply supply_tl|]. split_and!; [done|done|by rewrite stopInput_gap|].
  intros j. rewrite H4, stopInput_slot, meanwhile_slot by done. destruct (decide (j ∈ ks)) as [Hj|Hj].
  { rewrite !bool_decide_true by (done || by right). done. }
  rewrite (bool_decide_false (j ∈ ks)) by done. destruct (decide (j = k)) as [->|Hne].
  - rewrite !bool_decide_true by (done || by left). done.
  - rewrite !bool_decide_false by (done || by intros [|]%elem_of_cons). done.
Qed.

Lemma inactive_loop ready n (l : list (string * GroupInput)) ans m :
  im_wf m -> im_over m = false -> supply ready n ans ->
  let m' := fst (each (fun a ki m => reportInactive nodeID a ki.2 (meanwhile a m)) l ans m) in
  im_wf m' /\ im_over m' = false /\ im_gapExited m' = im_gapExited m /\ forall j, slot m' j = slot m j.
Proof.
  cbv zeta. revert n ans m. induction l as [|x l IH]; intros n ans m Hm Ho Hs; cbn [each fst]; [done|].
  pose proof (supply_quiet _ _ _ Hs) as Hq. set (a := default im_silence (head ans)) in *.
  destruct (IH (pred n) (tl ans) (reportInactive nodeID a x.2 (meanwhile a m))) as (H1 & H2 & H3 & H4);
    [by apply report_im_wf, meanwhile_wf|done|by apply supply_tl|]. split_and!; [done|done|by rewrite H3|].
  intros j. by rewrite H4, <- (meanwhile_slot a m j Hq).
Qed.

Lemma visit_loop ready (l : list (string * GroupInput)) ans m :
  im_wf m -> im_over m = false -> supply ready (length l) ans -> NoDup l.*1 ->
  (forall k i, (k, i) ∈ l -> inputID i = k /\ isConsumableStreamKind (gi_StreamKind i) = true) ->
  let m' := fst (each (fun a ki m => visit a ki.1 ki.2 m) l ans m) in
  im_wf m' /\ (forall j, j ∉ l.*1 -> slot m' j = slot m j /\ (j ∈ im_gapExited m' <-> j ∈ im_gapExited m)) /\
  (forall k i, (k, i) ∈ l -> slot m' k = Some false <-> slot m k = Some false \/ servable i /\ ~ waits ready m k i).
Proof.
  cbv zeta. revert ans m. induction l as [|[k i] l IH]; intros ans m Hm Ho Hs Hnd Hl; cbn [each fst snd].
  { split; [done|]. split; [done|]. intros k i Hin. by apply elem_of_nil in Hin. }
  apply supply_head in Hs as [[Hq Hr] Hs]. set (a := default im_silence (head ans)) in *.
  cbn [fmap list_fmap fst] in Hnd. apply NoDup_cons in Hnd as [Hk Hnd].
  destruct (Hl k i) as [Hid Hc]; [by left|]. destruct (visit_wf a k i m Hm Ho Hid Hc) as [Hm' Ho'].
  destruct (visit_slot a k i m Hm Ho Hq Hid Hc) as [Hoth Hsame]. rewrite Hr in Hsame.
  destruct (IH (tl ans) (visit a k i m) Hm' Ho' Hs Hnd) as (H1 & H2 & H3); [intros k' i' Hin; apply Hl; by right|].
  split; [done|]. split.
  - intros j Hj. apply not_elem_of_cons in Hj as [Hjk Hj]. destruct (H2 j Hj) as [-> ->]. by apply Hoth.
  - intros k' i' [[= -> ->]|Hin]%elem_of_cons; [destruct (H2 k Hk) as [-> _]; done|].
    rewrite (H3 k' i' Hin). assert (k' <> k) as Hne by (intros ->; apply Hk; by apply (list_elem_of_fmap_2 fst _ (k, i'))).
    unfold waits. destruct (Hoth k' Hne) as [-> ->]. done.
Qed.

Lemma to_stop_iff desired m j : j ∈ to_stop desired m <-> desired !! j = None /\ is_Some (im_active m !! j).
Proof.
  unfold to_stop. rewrite merge_sort_Permutation, list_elem_of_In, filter_In, bool_decide_eq_true, in_map_iff. split.
  - intros [([k mi] & <- & Hin) Hd]. split; [done|]. apply list_elem_of_In, elem_of_map_to_list in Hin. by eexists.
  - intros [Hd [mi Hmi]]. split; [|done]. exists (j, mi). split; [done|]. by apply list_elem_of_In, elem_of_map_to_list.
Qed.

Lemma slot_None m j : slot m j = None <-> im_active m !! j = None.
Proof. unfold slot. by destruct (im_active m !! j). Qed.

(** The loops of a pass, put together. *)
Lemma reconcile_slots ready ans m inputs desired :
  im_wf m -> im_over m = false -> ListGroupInputs Done (im_db m) (mg_GroupID group) = Ok inputs ->
  desired = index_inputs runnable inputs ->
  supply ready (size (im_active m) + length inputs + size desired) ans ->
  (length (to_stop desired m) <= size (im_active m))%nat ->
  (forall ks, (length (range_inputs (foldr delete (index_inputs (fun i => negb (runnable i)) inputs) ks)) <= length inputs)%nat) ->
  let m' := reconcile Done ans m in
  im_wf m' /\ forall k, slot m' k = Some false <->
    exists i, desired !! k = Some i /\ (slot m k = Some false \/ servable i /\ ~ waits ready m k i).
Proof.
  intros Hm Ho HL -> Hs Hlen1 Hlen2. cbv zeta. unfold InputManager.reconcile. rewrite HL. cbv zeta.
  set (desired := index_inputs runnable inputs) in *. set (inactive := foldr delete _ (to_stop desired m)).
  pose proof (stop_loop ready _ (to_stop desired m) ans m Hm Ho Hs) as (Hm1 & Ho1 & Hg1 & Hs1).
  match goal with |- context [each ?f (to_stop desired m) ans m] =>
    pose proof (each_rest f (to_stop desired m) ans m) as Hr1; destruct (each f (to_stop desired m) ans m) as [m1 ans1] end.
  cbn [fst snd] in *. subst ans1. assert (supply ready (length inputs + size desired) (drop (length (to_stop desired m)) ans)) as Hsup1.
  { apply supply_drop. destruct Hs as [HF Hl]. split; [done|]. intros Hr. specialize (Hl Hr). lia. }
  pose proof (inactive_loop ready _ (range_inputs inactive) _ m1 Hm1 Ho1 Hsup1) as (Hm2 & Ho2 & Hg2 & Hs2).
  match goal with |- context [each ?f (range_inputs inactive) ?x m1] =>
    pose proof (each_rest f (range_inputs inactive) x m1) as Hr2; destruct (each f (range_inputs inactive) x m1) as [m2 ans2] end.
  cbn [fst snd] in *. subst ans2.
  assert (supply ready (length (range_inputs desired)) (drop (length (range_inputs inactive)) (drop (length (to_stop desired m)) ans))) as Hsup2.
  { apply supply_drop. destruct Hsup1 as [HF Hl]. split; [done|]. intros Hr. specialize (Hl Hr). specialize (Hlen2 (to_stop desired m)).
    fold inactive in Hlen2. rewrite (range_inputs_perm desired), length_map_to_list. lia. }
  pose proof (range_inputs_perm desired) as Hp.
  destruct (visit_loop ready (range_inputs desired) _ m2 Hm2 Ho2 Hsup2) as (Hm3 & Hother & Hin).
  { rewrite Hp. apply NoDup_fst_map_to_list. }
  { intros k i. rewrite Hp. intros Hki. apply elem_of_map_to_list, index_inputs_Some in Hki as (_ & ? & ? & _). done. }
  split; [done|]. intros k. destruct (desired !! k) as [i|] eqn:Ed.
  - rewrite (Hin k i) by (rewrite Hp; by apply elem_of_map_to_list).
    assert (slot m2 k = slot m k) as Hk.
    { rewrite Hs2, Hs1, bool_decide_false; [done|]. rewrite to_stop_iff, Ed. by intros []. }
    unfold waits. rewrite Hk, Hg2, Hg1. naive_solver.
  - destruct (Hother k) as [-> _].
    { rewrite Hp. intros ([j i] & -> & Hji)%list_elem_of_fmap. apply elem_of_map_to_list in Hji. cbn in *. congruence. }
    rewrite Hs2, Hs1. split; [|naive_solver]. case_bool_decide as B; [done|].
    destruct (slot m k) eqn:E; [|done]. destruct B. rewrite to_stop_iff. split; [done|].
    destruct (im_active m !! k) eqn:E2; [done|]. apply slot_None in E2. congruence.
Qed.

Lemma to_stop_length desired m : (length (to_stop desired m) <= size (im_active m))%nat.
Proof.
  unfold to_stop. rewrite merge_sort_Permutation, <- length_map_to_list, <- (length_map fst). apply List.filter_length_le.
Qed.

Lemma index_inputs_size f inputs : (size (index_inputs f inputs) <= length inputs)%nat.
Proof.
  unfold index_inputs. assert (forall (m : gmap string GroupInput) l,
    (size (foldl (fun m i => if isConsumableStreamKind (gi_StreamKind i) && f i then <[inputID i := i]> m else m) m l) <= size m + length l)%nat) as H.
  { intros m l. revert m. induction l as [|x l IH]; intros m; cbn; [lia|]. destruct (_ && f x); [|specialize (IH m); lia].
    specialize (IH (<[inputID x := x]> m)). rewrite map_size_insert in IH. destruct (m !! inputID x); unfold id in IH; lia. }
  specialize (H ∅ inputs). rewrite map_size_empty in H. lia.
Qed.

Lemma foldr_delete_size ks (m : gmap string GroupInput) : (size (foldr delete m ks) <= size m)%nat.
Proof.
  induction ks as [|k ks IH]; cbn; [lia|]. rewrite map_size_delete. destruct (_ !! k); unfold id; lia.
Qed.

Lemma valid_kind_consumable k : IsValidStreamKind k = true -> isConsumableStreamKind k = true.
Proof.
  unfold IsValidStreamKind. rewrite bool_decide_eq_true. unfold StreamKinds. rewrite !elem_of_union, !elem_of_singleton.
  by intros [[[-> | ->] | ->] | ->].
Qed.

End input_manager_facts.

(** (C14) Whatever the passes find, the tasks do and the calls answer, at every
    moment of a run, also those inside a pass while a worker is being stopped or
    started: two workers that have not returned serve different inputs; one that has
    not returned is the one the map has for its input, or the one the loop has in
    its hands (it took it out of the map and waits for it, or launched it and has
    not entered it yet), and for the input of that one the map has nothing; and
    once the loop has returned every worker has.  Every worker serves an input of a
    supported kind and cluster with valid Kafka coordinates. *)
Theorem one_worker_per_input group nodeID brokers config consumer_text sw_text range_inputs range_active db es :
  (forall m, range_inputs m ≡ₚ map_to_list m) -> (forall m, range_active m ≡ₚ map_to_list m) ->
  let m := im_run group nodeID brokers config consumer_text sw_text range_inputs range_active (newInputManager db) es in
  (forall mo, mo ∈ moment_of None m :: im_seen m ->
    (forall i j t u, mo_tasks mo !! i = Some t -> mo_tasks mo !! j = Some u -> tk_done t = false -> tk_done u = false ->
      inputID (tk_in t) = inputID (tk_in u) -> i = j) /\
    (forall i t, mo_tasks mo !! i = Some t -> tk_done t = false ->
      mi_task <$> mo_active mo !! inputID (tk_in t) = Some i \/ mo_hand mo = Some i) /\
    (forall i t, mo_hand mo = Some i -> mo_tasks mo !! i = Some t -> mo_active mo !! inputID (tk_in t) = None) /\
    (mo_over mo = true -> forall i t, mo_tasks mo !! i = Some t -> tk_done t = true)) /\
  (forall i t, im_tasks m !! i = Some t -> servable brokers (tk_in t)).
Proof.
  intros Hri Hra. cbv zeta. set (m := im_run _ _ _ _ _ _ _ _ _ es).
  assert (im_wf brokers m) as Hm by (unfold m, im_run; by apply im_run_wf).
  split; [|by destruct Hm]. intros mo Hmo.
  assert (moment_ok mo) as [H1 H2 H3 H4]; [|done].
  apply elem_of_cons in Hmo as [->|Hmo]; [by eapply wf_moment|].
  pose proof (wf_seen _ _ Hm) as Hs. rewrite Forall_forall in Hs. by apply Hs.
Qed.

(** (C15) Convergence: a pass that reads the group's inputs, during which no task
    returns on its own, leaves a worker running for exactly those inputs of the
    group that are to run and are enabled, and either had one or can be served and
    need not wait: only a delta input whose worker has returned waits, and only
    while the order book is not ready. *)
Theorem pass_runs_what_it_should group nodeID brokers config consumer_text sw_text range_inputs range_active db es ready ans inputs :
  (forall m, range_inputs m ≡ₚ map_to_list m) -> (forall m, range_active m ≡ₚ map_to_list m) ->
  let m := im_run group nodeID brokers config consumer_text sw_text range_inputs range_active (newInputManager db) es in
  im_over m = false -> meta_wf (im_db m) ->
  ListGroupInputs Done (im_db m) (mg_GroupID group) = Ok inputs ->
  supply ready (size (im_active m) + 2 * length inputs) ans ->
  forall k, live (reconcile group nodeID brokers config consumer_text sw_text range_inputs Done ans m) k <->
    exists i, md_inputs (im_db m) !! k = Some i /\ gi_GroupID i = mg_GroupID group /\ runnable i = true /\
      (live m k \/ servable brokers i /\ ~ waits ready m k i).
Proof.
  intros Hri Hra. cbv zeta. set (m := im_run _ _ _ _ _ _ _ _ _ es). intros Hover Hwf HL Hsup k.
  assert (im_wf brokers m) as Hm by (unfold m, im_run; by apply im_run_wf).
  destruct (reconcile_slots group nodeID brokers config consumer_text sw_text range_inputs range_active Hri Hra ready ans m inputs _ Hm Hover HL eq_refl) as [Hm' Hk].
  - destruct Hsup as [HF Hl]. split; [done|]. intros Hr. specialize (Hl Hr). pose proof (index_inputs_size runnable inputs). lia.
  - apply to_stop_length.
  - intros ks. rewrite (Hri _), length_map_to_list. etrans; [apply foldr_delete_size|apply index_inputs_size].
  - rewrite (live_slot brokers) by done. rewrite Hk. setoid_rewrite (live_slot brokers m k Hm). apply exist_proper. intros i.
    rewrite (index_inputs_listed group _ (im_db m)) by done. destruct (md_inputs (im_db m) !! k) as [i'|] eqn:E; [|by split; intros [[=] _]].
    destruct (mw_input _ Hwf k i' E) as (_ & (_ & Hv & _) & _). rewrite (valid_kind_consumable _ Hv).
    case_bool_decide as Hg; [|split; [by intros [[=] _]|by intros ([= <-] & ? & _)]].
    cbn [andb]. destruct (runnable i') eqn:Er; [|split; [by intros [[=] _]|intros ([= <-] & _ & Hr & _); congruence]].
    split; [by intros [[= <-] HX]|by intros ([= <-] & _ & _ & HX)].
Qed.

(** ** Concrete runs *)

Definition managed_input (key status : string) : GroupInput := mkGroupInput "" "" key "" "" true "" ("t." +:+ key) "" status 0 0 0.

Definition managed_group : MarketGroup :=
  mkMarketGroup "" "binance" "spot" "BTCUSDT" "BTC" "USDT" "" 0
    [managed_input "trade" "running"; managed_input "orderbook_delta" "running"; managed_input "kline_1m" "paused"] 0 0.

Definition managed_db : MetaDB := fst (CreateGroup Done 5 emptyMeta managed_group).

Definition managed_group_row : MarketGroup :=
  default managed_group (md_groups managed_db !! "binance:spot:BTCUSDT").

Definition managed_config : ConsumptionConfig :=
  mkConsumptionConfig time.Second time.Second (mkBatchConfig 5 time.Second) (mkBatchConfig 5 time.Second) (mkBatchConfig 5 time.Second) time.Minute.

(** Nothing moves between the calls, which succeed; the book is ready or not. *)
Definition still (ready : bool) : im_answer :=
  let b := newOrderBookState "g" "s" in
  let b := if ready then mkOrderBookState true (ob_groupID b) (ob_inputID b) (ob_snapInput b) ∅ ∅ None (Some 7) [] (ob_maxPending b) else b in
  mkImAnswer id [] b b b id 9 Done.

(** The task [n] returns. *)
Definition returns (n : nat) : im_answer := mkImAnswer id [n] (newOrderBookState "" "") (newOrderBookState "" "") (newOrderBookState "" "") id 9 Failed.

(** Another client pauses an input. *)
Definition pauses (streamKey : string) : im_answer :=
  mkImAnswer (fun db => fst (UpdateInputDesiredStatus Done 8 db "binance:spot:BTCUSDT" streamKey "paused")) []
    (newOrderBookState "" "") (newOrderBookState "" "") (newOrderBookState "" "") id 9 Failed.

Definition managed_run (es : list im_event) : imState :=
  im_run managed_group_row "n1" ["k:9092"] managed_config (fun _ => "") (fun _ => "") map_to_list map_to_list (newInputManager managed_db) es.

Definition delta_returned : list im_event := [IReconcile Done (repeat (still false) 20); IMove (returns 0)].

Lemma managed_db_wf : meta_wf managed_db.
Proof. apply CreateGroup_wf, emptyMeta_wf. Qed.

(** The delta input is the first of the two that start; its worker returns and the
    next pass leaves it waiting. *)
Example delta_waits :
  let m := managed_run (delta_returned ++ [IReconcile Done (repeat (still false) 20)]) in
  map (fun t => (gi_StreamKind (tk_in t), tk_done t)) (im_tasks m) = [("orderbook_delta", true); ("trade", false)] /\
  elements (im_gapExited m) = ["binance:spot:BTCUSDT:orderbook_delta"].
Proof. vm_compute. done. Qed.

(** While the paused trades are stopped their worker runs outside the map, in the
    loop's hands. *)
Example stopped_worker_out_of_map :
  let m := managed_run [IReconcile Done (repeat (still false) 20); IMove (pauses "trade"); IReconcile Done (repeat (still false) 20)] in
  existsb (fun mo => bool_decide (mo_hand mo = Some 1%nat) && negb (task_done (set_tasks (mo_tasks mo) m) 1) &&
    bool_decide (mo_active mo !! "binance:spot:BTCUSDT:trade" = None)) (im_seen m) = true.
Proof. vm_compute. reflexivity. Qed.

Lemma one_worker_per_input_witness :
  let m := managed_run (delta_returned ++ [IReconcile Done (repeat (still true) 20); ICancel; IStop true (repeat (still true) 20)]) in
  length (im_tasks m) = 3%nat /\ im_over m = true /\ forall i t, im_tasks m !! i = Some t -> tk_done t = true.
Proof.
  cbv zeta. split; [vm_compute; reflexivity|]. split; [vm_compute; reflexivity|].
  destruct (one_worker_per_input managed_group_row "n1" ["k:9092"] managed_config (fun _ => "") (fun _ => "") map_to_list map_to_list managed_db
    (delta_returned ++ [IReconcile Done (repeat (still true) 20); ICancel; IStop true (repeat (still true) 20)])
    (fun m => reflexivity _) (fun m => reflexivity _)) as [H _].
  destruct (H _ (list_elem_of_here _ _)) as (_ & _ & _ & Hq).
  apply Hq. vm_compute. reflexivity.
Defined.

Definition listed_inputs : list GroupInput :=
  match ListGroupInputs Done (im_db (managed_run delta_returned)) "binance:spot:BTCUSDT" with Ok l => l | Err _ => [] end.

(** The pass reported the paused candles. *)
Lemma delta_returned_wf : meta_wf (im_db (managed_run delta_returned)).
Proof.
  assert (im_db (managed_run delta_returned) =
    fst (ReportStreamRuntimeStatus Done 9 managed_db
           (plain_status "n1" (default (managed_input "" "") (md_inputs managed_db !! "binance:spot:BTCUSDT:kline_1m")) ActualStatusPaused ""))) as ->
    by (vm_compute; reflexivity).
  apply report_wf, managed_db_wf.
Qed.

(** Once the book is ready again the delta input gets a new worker; the paused
    candles get none. *)
Lemma pass_runs_what_it_should_witness :
  let m' := reconcile managed_group_row "n1" ["k:9092"] managed_config (fun _ => "") (fun _ => "") map_to_list Done
              (repeat (still true) 20) (managed_run delta_returned) in
  live m' "binance:spot:BTCUSDT:orderbook_delta" /\ ~ live m' "binance:spot:BTCUSDT:kline_1m".
Proof.
  cbv zeta.
  assert (supply true (size (im_active (managed_run delta_returned)) + 2 * length listed_inputs) (repeat (still true) 20)) as Hs.
  { split; [repeat constructor|]. intros _. apply Nat.leb_le. vm_compute. reflexivity. }
  pose proof (pass_runs_what_it_should managed_group_row "n1" ["k:9092"] managed_config (fun _ => "") (fun _ => "") map_to_list map_to_list
    managed_db delta_returned true (repeat (still true) 20) listed_inputs (fun m => reflexivity _) (fun m => reflexivity _) eq_refl
    delta_returned_wf eq_refl Hs) as H.
  split.
  - apply H. destruct (md_inputs (im_db (managed_run delta_returned)) !! "binance:spot:BTCUSDT:orderbook_delta") as [i|] eqn:E; [|vm_compute in E; discriminate].
    exists i. vm_compute in E. injection E as <-. split; [vm_compute; reflexivity|]. split; [vm_compute; reflexivity|]. split; [vm_compute; reflexivity|].
    right. split; [split; [vm_compute; reflexivity|split; [by right|vm_compute; reflexivity]]|]. by intros (_ & ? & _).
  - intros Hl. apply H in Hl as (i & Hi & _ & Hr & _). vm_compute in Hi. injection Hi as <-. vm_compute in Hr. discriminate.
Defined.

(** ** Two behaviours the code does not intend *)

Definition committed_41 (s : task_state) : task_state :=
  match s with
  | FactTask b h s => FactTask b h (set_position 0 41 s)
  | SnapTask w => SnapTask w
  end.

Definition committed_of (m : imState) (k : string) : option (option Z) :=
  rs_CommittedOffset <$> md_status (im_db m) !! k.

(** The paused status keeps the offset for one pass; the next pass reports the
    input as inactive and the row's counters are gone. *)
Example paused_counters_erased :
  let k := "binance:spot:BTCUSDT:trade" in
  let paused := [IReconcile Done (repeat (still false) 20); IProgress 1 committed_41; IMove (pauses "trade"); IReconcile Done (repeat (still false) 20)] in
  committed_of (managed_run paused) k = Some (Some 41) /\
  committed_of (managed_run (paused ++ [IReconcile Done (repeat (still false) 20)])) k = Some None.
Proof. vm_compute. done. Qed.

(** A graceful stop cancels the context all workers share before it tells any of
    them to flush: one that returns in between leaves its open batch unwritten. *)
Example graceful_stop_without_flush :
  let m := managed_run [IReconcile Done (repeat (still false) 20); ICancel; IMove (returns 1); IStop true (repeat (still false) 20)] in
  im_over m = true /\ tk_flushOnStop <$> im_tasks m = [true; false] /\ tk_done <$> im_tasks m = [true; true].
Proof. vm_compute. done. Qed.
