(* ===== verification/GroupWorker.v ===== *)
(** * A group worker that consumes

    The consuming part of internal/runtime/worker.go: how consumption is
    configured, what the worker reports when it starts, and the loop that stores a
    snapshot of the order book now and then.  The lease part is Worker.v, the
    order book OrderBook.v, the input workers InputManager.v. *)

From S2P Require Import Prelude GoStd Model Metadata Worker OrderBook Storage InputWorker InputManager.

Open Scope Z_scope.

(** ** Configuration *)

(** The fields [enableConsumption] sets; storage and consumer factory are there. *)
Record consumption := mkConsumption {
  cn_brokers : list string;
  cn_statusReportEvery : time.Duration;
  cn_inputReconcileEvery : time.Duration;
  cn_snapshotInterval : time.Duration;
  cn_config : ConsumptionConfig;
  cn_orderBook : orderBookState
}.

Definition positive_or (d default_ : time.Duration) : time.Duration := if (d <=? 0) then default_ else d.

Definition snapshot_input_id (inputs : list GroupInput) : string :=
  match List.find (fun i => bool_decide (gi_StreamKind i = StreamKindOrderBookSnapshot)) inputs with
  | Some i => inputID i
  | None => ""
  end.

Definition enableConsumptionWithConfig (w : Worker) (brokers : list string) (cfg : ConsumptionConfig) : consumption :=
  let reportEvery := positive_or (cc_StatusReportEvery cfg) time.Second in
  let reconcileEvery := positive_or (cc_InputReconcileEvery cfg) (5 * time.Second) in
  let snapInterval := positive_or (cc_SnapshotInterval cfg) time.Minute in
  {| cn_brokers := brokers; cn_statusReportEvery := reportEvery; cn_inputReconcileEvery := reconcileEvery;
     cn_snapshotInterval := snapInterval;
     cn_config := mkConsumptionConfig reportEvery reconcileEvery (cc_TradeBatch cfg) (cc_KlineBatch cfg)
                    (cc_OrderBookDeltaBatch cfg) snapInterval;
     cn_orderBook := newOrderBookState (mg_GroupID (w_group w)) (snapshot_input_id (w_inputs w)) |}.

(** Batches are left to their defaults. *)
Definition enableConsumption (w : Worker) (brokers : list string) (reportEvery reconcileEvery : time.Duration) : consumption :=
  enableConsumptionWithConfig w brokers
    (mkConsumptionConfig reportEvery reconcileEvery (mkBatchConfig 0 0) (mkBatchConfig 0 0) (mkBatchConfig 0 0) 0).

(** ** Start *)

(** Inputs of a kind nothing consumes are reported pending. *)
Fixpoint reportUnsupportedInputs (outs : list outcome) (now : time.Time) (db : MetaDB) (w : Worker) (inputs : list GroupInput)
    : MetaDB :=
  match inputs with
  | [] => db
  | i :: inputs' =>
      if isConsumableStreamKind (gi_StreamKind i) then reportUnsupportedInputs outs now db w inputs'
      else
        let st := mkStreamRuntimeStatus (inputID i) (mg_GroupID (w_group w)) (gi_StreamKey i) (w_nodeID w)
                    ActualStatusPending None None None None None None "" time.zero in
        reportUnsupportedInputs (tl outs) now (fst (ReportStreamRuntimeStatus (default Failed (head outs)) now db st)) w inputs'
  end.

(** The head of [run] with consumption on. *)
Definition begin_consuming (outs : list outcome) (now : time.Time) (db : MetaDB) (w : Worker) : MetaDB * Worker :=
  if w_begun w then (db, w)
  else
    let db1 := reportAll outs now db w (w_inputs w) ActualStatusStarting "" in
    let db2 := reportUnsupportedInputs (drop (length (w_inputs w)) outs) now db1 w (w_inputs w) in
    (db2, set_run WorkerRunning true (w_canceled w) (w_exit w) (w_done w) w).

(** ** The snapshot loop *)

(** One tick: the book when it is asked whether it is ready, and when it is
    exported.  [None] is a panic in the export. *)
Record snapshot_tick := mkSnapshotTick {
  st_checked : orderBookState;
  st_exported : orderBookState;
  st_clock : time.Time;
  st_now : time.Time;
  st_out : outcome
}.

Definition snapshotGenerate (iter : gmap string string -> list (string * string)) (t : snapshot_tick) (db : DB) : option DB :=
  if negb (isReady (st_checked t)) then Some db
  else
    match generateSnapshot iter (st_exported t) (st_clock t) with
    | None => None
    | Some snap =>
        match os_Bids snap, os_Asks snap with
        | [], [] => Some db
        | _, _ => Some (fst (WriteOrderBookSnapshots (st_out t) (st_now t) db [snap]))
        end
    end.

(** [snapshotGenerateLoop], over the ticks until it is stopped. *)
Fixpoint snapshotGenerateLoop (iter : gmap string string -> list (string * string)) (ticks : list snapshot_tick) (db : DB) : option DB :=
  match ticks with
  | [] => Some db
  | t :: ticks' => db' ← snapshotGenerate iter t db; snapshotGenerateLoop iter ticks' db'
  end.

(** ** What the loop stores *)

(** The row is a snapshot of the book at a tick. *)
Definition taken_at (t : snapshot_tick) (row : OrderBookSnapshot) : Prop :=
  isReady (st_checked t) = true /\ ob_ready (st_exported t) = true /\ holds_book (st_exported t) row /\
  os_GroupID row = ob_groupID (st_exported t) /\ os_InputID row = ob_inputID (st_exported t) /\ os_SnapshotTime row = st_clock t.

(** One snapshot written: no row is lost, a new row is the snapshot, and with the
    call executed a row has its key. *)
Lemma write_one_snapshot out now db snap :
  let db' := fst (WriteOrderBookSnapshots out now db [snap]) in
  (forall row, row ∈ db_snapshots db' -> row ∈ db_snapshots db \/ exists id, row = snapshot_row now id snap) /\
  (forall row, row ∈ db_snapshots db -> row ∈ db_snapshots db') /\
  (out = Done -> exists row, row ∈ db_snapshots db' /\ snapshot_key row = snapshot_key snap).
Proof.
  cbv zeta. unfold WriteOrderBookSnapshots. cbn [fold_left].
  assert (let d := insert_snapshot now db snap in
    (forall row, row ∈ db_snapshots d -> row ∈ db_snapshots db \/ exists id, row = snapshot_row now id snap) /\
    (forall row, row ∈ db_snapshots db -> row ∈ db_snapshots d) /\
    (exists row, row ∈ db_snapshots d /\ snapshot_key row = snapshot_key snap)) as (H1 & H2 & H3).
  { cbv zeta. unfold insert_snapshot. destruct (existsb _ _) eqn:E.
    - split_and!; [by left|done|]. apply existsb_exists in E as (row & Hin%list_elem_of_In & Hk%bool_decide_eq_true). by exists row.
    - split_and!; cbn; [|intros row ?; apply elem_of_app; by left|].
      + intros row [Hr|Hr]%elem_of_app; [by left|right]. apply list_elem_of_singleton in Hr as ->. by eexists.
      + eexists. split; [apply elem_of_app; right; by apply list_elem_of_singleton|done]. }
  destruct out; cbn; [done|split_and!; [by left|done|done]|done].
Qed.

Lemma snapshotGenerate_step iter g i t db :
  iterates iter -> ob_fed g i (st_exported t) ->
  exists db', snapshotGenerate iter t db = Some db' /\
    (forall row, row ∈ db_snapshots db' -> row ∈ db_snapshots db \/ taken_at t row) /\
    (forall row, row ∈ db_snapshots db -> row ∈ db_snapshots db') /\
    (isReady (st_checked t) = true -> ob_ready (st_exported t) = true -> st_out t = Done ->
      ~ (ob_bids (st_exported t) = ∅ /\ ob_asks (st_exported t) = ∅) ->
      exists row, row ∈ db_snapshots db' /\ snapshot_key row = (ob_inputID (st_exported t), st_clock t)).
Proof.
  intros Hi Hf. unfold snapshotGenerate. destruct (isReady (st_checked t)) eqn:Hc; cbn [negb].
  2:{ exists db. split_and!; [done|by left|done|by intros]. }
  destruct (ob_ready (st_exported t)) eqn:Hr.
  2:{ exists db. unfold generateSnapshot. rewrite Hr. cbn. split_and!; [done|by left|done|by intros]. }
  destruct (generateSnapshot_ready iter g i _ (st_clock t) Hi Hf Hr) as (bids & asks & -> & Pb & Sb & Pa & Sa). cbn [os_Bids os_Asks].
  match goal with |- context [WriteOrderBookSnapshots _ _ _ [?x]] => set (snap := x) end.
  assert (forall id, taken_at t (snapshot_row (st_now t) id snap)) as Hrow by (intros id; split_and!; try done; by split_and!).
  destruct (write_one_snapshot (st_out t) (st_now t) db snap) as (H1 & H2 & H3).
  destruct (decide (bids = [] /\ asks = [])) as [[-> ->]|Hne].
  - exists db. split_and!; [done|by left|done|]. intros _ _ _ Hne. destruct Hne.
    apply Permutation_nil_l, eq_sym, map_eq_nil in Pb. apply Permutation_nil_l, eq_sym, map_eq_nil in Pa.
    by split; apply map_to_list_empty_iff.
  - exists (fst (WriteOrderBookSnapshots (st_out t) (st_now t) db [snap])). split.
    { destruct bids, asks; [by destruct Hne|done..]. }
    split; [|split; [done|]].
    + intros row Hin. destruct (H1 row Hin) as [?|[id ->]]; [by left|right; apply Hrow].
    + intros _ _ Hout _. by apply H3.
Qed.

(** (C36) The snapshot loop of a group worker never panics; what it adds to the
    table are snapshots of the order book as it was at some tick at which it was
    ready (levels sorted, sequence, group and time included), so that loading such
    a row into a book without buffered deltas restores that book's levels and
    sequence; no row is lost; and a tick whose write succeeds leaves the snapshot
    of a ready book that is not empty, or one with the same time, in the table. *)
Theorem snapshot_loop_stores_books iter g i ticks db :
  iterates iter -> Forall (fun t => ob_fed g i (st_exported t)) ticks ->
  exists db', snapshotGenerateLoop iter ticks db = Some db' /\
    (forall row, row ∈ db_snapshots db -> row ∈ db_snapshots db') /\
    (forall row, row ∈ db_snapshots db' -> row ∈ db_snapshots db \/
      exists t, t ∈ ticks /\ taken_at t row /\
        forall b, ob_pending b = [] -> exists b', applySnapshot b row = (b', None) /\ ob_ready b' = true /\
          ob_bids b' = ob_bids (st_exported t) /\ ob_asks b' = ob_asks (st_exported t) /\ ob_sequence b' = ob_sequence (st_exported t)) /\
    (forall t, t ∈ ticks -> isReady (st_checked t) = true -> ob_ready (st_exported t) = true -> st_out t = Done ->
      ~ (ob_bids (st_exported t) = ∅ /\ ob_asks (st_exported t) = ∅) ->
      exists row, row ∈ db_snapshots db' /\ snapshot_key row = (ob_inputID (st_exported t), st_clock t)).
Proof.
  intros Hi HF. revert db. induction HF as [|t ticks Hf _ IH]; intros db; cbn.
  { exists db. split_and!; [done|done|by left|]. intros t Ht. by apply elem_of_nil in Ht. }
  destruct (snapshotGenerate_step iter g i t db Hi Hf) as (db1 & -> & Hnew & Hold & Hdone). cbn.
  destruct (IH db1) as (db' & -> & Hold' & Hnew' & Hdone'). exists db'. split; [done|]. split; [auto|]. split.
  - intros row Hrow. destruct (Hnew' row Hrow) as [Hrow1|(u & Hu & Hrest)]; [|right; exists u; split; [by right|done]].
    destruct (Hnew row Hrow1) as [?|Ht]; [by left|right]. exists t. split; [by left|]. split; [done|].
    intros b Hb. by apply (holds_book_loads g i); [|apply Ht|].
  - intros u [->|Hu]%elem_of_cons; [|by apply Hdone']. intros H1 H2 H3 H4. destruct (Hdone H1 H2 H3 H4) as (row & Hrow & Hk).
    exists row. auto.
Qed.

Definition sample_ticks : list snapshot_tick :=
  let b := on_delta (fst (applySnapshot (newOrderBookState "g" "i") (sample_snapshot (Some 5) [] [])))
             (seq_delta 6 [lvl "9.5" "1"; lvl "10" "2"] [lvl "11" "3"]) in
  [mkSnapshotTick (newOrderBookState "g" "i") (newOrderBookState "g" "i") 1 1 Done;
   mkSnapshotTick b b 2 3 Done; mkSnapshotTick b (reset b) 4 5 Done; mkSnapshotTick b b 6 7 Failed].

Lemma snapshot_loop_stores_books_witness :
  exists db', snapshotGenerateLoop map_to_list sample_ticks emptyDB = Some db' /\
    map os_Bids (db_snapshots db') = [[lvl "10" "2"; lvl "9.5" "1"]] /\
    forall row, row ∈ db_snapshots db' -> exists t, t ∈ sample_ticks /\ taken_at t row.
Proof.
  destruct (snapshot_loop_stores_books map_to_list "g" "i" sample_ticks emptyDB) as (db' & E & _ & H & _).
  - by intros m.
  - assert (ob_fed "g" "i" (on_delta (fst (applySnapshot (newOrderBookState "g" "i") (sample_snapshot (Some 5) [] [])))
             (seq_delta 6 [lvl "9.5" "1"; lvl "10" "2"] [lvl "11" "3"]))) as Hb.
    { apply fed_delta; [apply fed_snapshot; [apply fed_new|constructor..]|].
      split; repeat constructor; apply validPositive_parses; vm_compute; reflexivity. }
    apply Forall_cons. split; [apply fed_new|]. apply Forall_cons. split; [exact Hb|].
    apply Forall_cons. split; [apply fed_reset; exact Hb|]. apply Forall_cons. split; [exact Hb|apply Forall_nil; exact I].
  - exists db'. split; [exact E|]. split; [vm_compute in E; injection E as <-; reflexivity|].
    intros row Hrow. destruct (H row Hrow) as [Hin|(t & Ht & Hta & _)]; [exfalso; exact (proj1 (elem_of_nil row) Hin)|].
    exists t. split; [exact Ht|exact Hta].
Defined.

(** Every kind the schema admits is consumed, so nothing is ever reported as
    pending here. *)
Lemma reportUnsupported_noop outs now db w inputs :
  Forall (fun i => IsValidStreamKind (gi_StreamKind i) = true) inputs -> reportUnsupportedInputs outs now db w inputs = db.
Proof. induction 1 as [|i inputs Hi _ IH]; cbn; [done|]. by rewrite valid_kind_consumable. Qed.
