(* ===== verification/Config.v ===== *)
(** * Configuration

    internal/config: defaults, environment, YAML file, .env file, validation, and
    how cmd/md-stream-runtime hands the result to the components.  The YAML
    syntax is gopkg.in/yaml.v3's: its decoder is a parameter that turns the
    expanded text into the file's schema. *)

From Stdlib Require Import Ascii.
From S2P Require Import Prelude GoStd Duration Model InputWorker Reconcile Node Partitions.

Open Scope Z_scope.

Definition ModeControlPlane : string := "control-plane".
Definition ModeStreamRuntime : string := "stream-runtime".

Module Cfg.

Record Config := mkConfig {
  Mode : string;
  HTTPAddr : string;
  MetricsAddr : string;
  DatabaseDSN : string;
  DBMaxConns : Z;
  DBMinConns : Z;
  DBConnectTimeout : time.Duration;
  KafkaBrokers : list string;
  RuntimeNodeID : string;
  RuntimeMaxGroups : Z;
  RuntimeMaxWeight : Z;
  LeaseTTL : time.Duration;
  LeaseRenewInterval : time.Duration;
  ReconcileInterval : time.Duration;
  HeartbeatInterval : time.Duration;
  ShutdownTimeout : time.Duration;
  InputStatusReportInterval : time.Duration;
  InputReconcileInterval : time.Duration;
  TradeBatchSize : Z;
  TradeBatchFlushInterval : time.Duration;
  KlineBatchSize : Z;
  KlineBatchFlushInterval : time.Duration;
  OrderBookDeltaBatchSize : Z;
  OrderBookDeltaFlushInterval : time.Duration;
  OrderBookSnapshotInterval : time.Duration;
  OrderBookDeltaRetention : time.Duration;
  OrderBookDeltaPartitionInterval : time.Duration;
  PartitionMaintenanceInterval : time.Duration;
  PartitionPrecreateHorizon : time.Duration;
  LogLevel : string;
  LogFormat : string
}.

End Cfg.

Abbreviation Config := Cfg.Config.

Definition Default : Config := {|
  Cfg.Mode := ModeControlPlane; Cfg.HTTPAddr := ":8080"; Cfg.MetricsAddr := ":9090";
  Cfg.DatabaseDSN := ""; Cfg.DBMaxConns := 10; Cfg.DBMinConns := 0; Cfg.DBConnectTimeout := 5 * time.Second;
  Cfg.KafkaBrokers := ["127.0.0.1:19090"];
  Cfg.RuntimeNodeID := ""; Cfg.RuntimeMaxGroups := 10; Cfg.RuntimeMaxWeight := 100;
  Cfg.LeaseTTL := 30 * time.Second; Cfg.LeaseRenewInterval := 10 * time.Second;
  Cfg.ReconcileInterval := 5 * time.Second; Cfg.HeartbeatInterval := 10 * time.Second;
  Cfg.ShutdownTimeout := 20 * time.Second;
  Cfg.InputStatusReportInterval := time.Second; Cfg.InputReconcileInterval := 2 * time.Second;
  Cfg.TradeBatchSize := 500; Cfg.TradeBatchFlushInterval := 100 * time.Millisecond;
  Cfg.KlineBatchSize := 100; Cfg.KlineBatchFlushInterval := 500 * time.Millisecond;
  Cfg.OrderBookDeltaBatchSize := 2000; Cfg.OrderBookDeltaFlushInterval := 100 * time.Millisecond;
  Cfg.OrderBookSnapshotInterval := time.Minute; Cfg.OrderBookDeltaRetention := 72 * time.Hour;
  Cfg.OrderBookDeltaPartitionInterval := time.Hour; Cfg.PartitionMaintenanceInterval := time.Hour;
  Cfg.PartitionPrecreateHorizon := 3 * time.Hour;
  Cfg.LogLevel := "info"; Cfg.LogFormat := "json"
|}.

Inductive config_error :=
| ErrInteger (key : string)
| ErrDuration (key : string)
| ErrDSN
| ErrMode (m : string)
| ErrPositive (key : string)
| ErrRange (key : string)
| ErrBrokers
| ErrEmptyBroker
| ErrRenewTTL
| ErrPartitionInterval
| ErrReadFile
| ErrYAML
| ErrNotKeyValue (line : nat)
| ErrEmptyKey (line : nat)
| ErrReadDotEnv
| ErrOpenDotEnv
| ErrSetenv (key : string).

(** ** The environment *)

Definition LookupFunc : Type := string -> option string.

(** A value that is set and not blank. *)
Definition set_value (lookup : LookupFunc) (key : string) : option string :=
  match lookup key with
  | Some v => if bool_decide (strings.TrimSpace v = "") then None else Some v
  | None => None
  end.

Definition stringEnv (lookup : LookupFunc) (key def : string) : string :=
  match set_value lookup key with
  | Some v => v
  | None => def
  end.

Fixpoint split_comma (s : string) : list string :=
  match s with
  | EmptyString => [""]
  | String c s' =>
      if Ascii.eqb c ","%char then "" :: split_comma s'
      else match split_comma s' with
           | p :: ps => String c p :: ps
           | [] => [String c ""]
           end
  end.

Definition stringSliceEnv (lookup : LookupFunc) (key : string) (def : list string) : list string :=
  match set_value lookup key with
  | Some v => map strings.TrimSpace (split_comma v)
  | None => def
  end.

Definition parse_env {A} (parse : string -> option A) (err : config_error) (lookup : LookupFunc) (key : string) (def : A)
    : result config_error A :=
  match set_value lookup key with
  | Some v => match parse (strings.TrimSpace v) with
              | Some n => Ok n
              | None => Err err
              end
  | None => Ok def
  end.

Definition int32Env (lookup : LookupFunc) (key : string) (def : Z) : result config_error Z :=
  parse_env (strconv.ParseInt 32) (ErrInteger key) lookup key def.

Definition intEnv (lookup : LookupFunc) (key : string) (def : Z) : result config_error Z :=
  parse_env strconv.Atoi (ErrInteger key) lookup key def.

Definition durationEnv (lookup : LookupFunc) (key : string) (def : time.Duration) : result config_error time.Duration :=
  parse_env ParseDuration (ErrDuration key) lookup key def.

(** ** Validation *)

Definition check (ok : bool) (e : config_error) : result config_error () := if ok then Ok () else Err e.

Definition positive (key : string) (v : Z) : result config_error () := check (0 <? v) (ErrPositive key).

(** The two loops over maps report one of the offending names; here the first of
    the source's list. *)
Fixpoint all_positive (l : list (string * Z)) : result config_error () :=
  match l with
  | [] => Ok ()
  | (key, v) :: l' => _ ← positive key v; all_positive l'
  end.

Definition Validate (c : Config) : result config_error () :=
  _ ← check (negb (bool_decide (strings.TrimSpace (Cfg.DatabaseDSN c) = ""))) ErrDSN;
  _ ← check (bool_decide (Cfg.Mode c = ModeControlPlane) || bool_decide (Cfg.Mode c = ModeStreamRuntime)) (ErrMode (Cfg.Mode c));
  _ ← positive "DB_MAX_CONNS" (Cfg.DBMaxConns c);
  _ ← check ((0 <=? Cfg.DBMinConns c) && (Cfg.DBMinConns c <=? Cfg.DBMaxConns c)) (ErrRange "DB_MIN_CONNS");
  _ ← positive "DB_CONNECT_TIMEOUT" (Cfg.DBConnectTimeout c);
  _ ← check (negb (bool_decide (Cfg.KafkaBrokers c = []))) ErrBrokers;
  _ ← check (forallb (fun b => negb (bool_decide (strings.TrimSpace b = ""))) (Cfg.KafkaBrokers c)) ErrEmptyBroker;
  _ ← positive "RUNTIME_MAX_GROUPS" (Cfg.RuntimeMaxGroups c);
  _ ← positive "RUNTIME_MAX_WEIGHT" (Cfg.RuntimeMaxWeight c);
  _ ← positive "LEASE_TTL" (Cfg.LeaseTTL c);
  _ ← positive "LEASE_RENEW_INTERVAL" (Cfg.LeaseRenewInterval c);
  _ ← check (Cfg.LeaseRenewInterval c <? Cfg.LeaseTTL c) ErrRenewTTL;
  _ ← positive "RECONCILE_INTERVAL" (Cfg.ReconcileInterval c);
  _ ← positive "HEARTBEAT_INTERVAL" (Cfg.HeartbeatInterval c);
  _ ← positive "SHUTDOWN_TIMEOUT" (Cfg.ShutdownTimeout c);
  _ ← positive "INPUT_STATUS_REPORT_INTERVAL" (Cfg.InputStatusReportInterval c);
  _ ← positive "INPUT_RECONCILE_INTERVAL" (Cfg.InputReconcileInterval c);
  _ ← all_positive [("TRADE_BATCH_SIZE", Cfg.TradeBatchSize c); ("KLINE_BATCH_SIZE", Cfg.KlineBatchSize c);
                    ("ORDERBOOK_DELTA_BATCH_SIZE", Cfg.OrderBookDeltaBatchSize c)];
  _ ← all_positive [("TRADE_BATCH_FLUSH_INTERVAL", Cfg.TradeBatchFlushInterval c);
                    ("KLINE_BATCH_FLUSH_INTERVAL", Cfg.KlineBatchFlushInterval c);
                    ("ORDERBOOK_DELTA_FLUSH_INTERVAL", Cfg.OrderBookDeltaFlushInterval c);
                    ("ORDERBOOK_SNAPSHOT_INTERVAL", Cfg.OrderBookSnapshotInterval c);
                    ("ORDERBOOK_DELTA_RETENTION", Cfg.OrderBookDeltaRetention c);
                    ("PARTITION_MAINTENANCE_INTERVAL", Cfg.PartitionMaintenanceInterval c)];
  _ ← check (Cfg.OrderBookDeltaPartitionInterval c =? time.Hour) ErrPartitionInterval;
  check (0 <=? Cfg.PartitionPrecreateHorizon c) (ErrRange "PARTITION_PRECREATE_HORIZON").

(** ** Loading *)

Definition Load (lookup : LookupFunc) : result config_error Config :=
  let d := Default in
  let Mode := stringEnv lookup "MODE" (Cfg.Mode d) in
  let HTTPAddr := stringEnv lookup "HTTP_ADDR" (Cfg.HTTPAddr d) in
  let MetricsAddr := stringEnv lookup "METRICS_ADDR" (Cfg.MetricsAddr d) in
  let DatabaseDSN := stringEnv lookup "DATABASE_DSN" (Cfg.DatabaseDSN d) in
  let DatabaseDSN := stringEnv lookup "STORAGE_DSN" DatabaseDSN in
  DBMaxConns ← int32Env lookup "DB_MAX_CONNS" (Cfg.DBMaxConns d);
  DBMinConns ← int32Env lookup "DB_MIN_CONNS" (Cfg.DBMinConns d);
  DBConnectTimeout ← durationEnv lookup "DB_CONNECT_TIMEOUT" (Cfg.DBConnectTimeout d);
  let KafkaBrokers := stringSliceEnv lookup "KAFKA_BROKERS" (Cfg.KafkaBrokers d) in
  let RuntimeNodeID := stringEnv lookup "RUNTIME_NODE_ID" (Cfg.RuntimeNodeID d) in
  RuntimeMaxGroups ← intEnv lookup "RUNTIME_MAX_GROUPS" (Cfg.RuntimeMaxGroups d);
  RuntimeMaxWeight ← intEnv lookup "RUNTIME_MAX_WEIGHT" (Cfg.RuntimeMaxWeight d);
  LeaseTTL ← durationEnv lookup "LEASE_TTL" (Cfg.LeaseTTL d);
  LeaseRenewInterval ← durationEnv lookup "LEASE_RENEW_INTERVAL" (Cfg.LeaseRenewInterval d);
  ReconcileInterval ← durationEnv lookup "RECONCILE_INTERVAL" (Cfg.ReconcileInterval d);
  HeartbeatInterval ← durationEnv lookup "HEARTBEAT_INTERVAL" (Cfg.HeartbeatInterval d);
  ShutdownTimeout ← durationEnv lookup "SHUTDOWN_TIMEOUT" (Cfg.ShutdownTimeout d);
  InputStatusReportInterval ← durationEnv lookup "INPUT_STATUS_REPORT_INTERVAL" (Cfg.InputStatusReportInterval d);
  InputReconcileInterval ← durationEnv lookup "INPUT_RECONCILE_INTERVAL" (Cfg.InputReconcileInterval d);
  TradeBatchSize ← intEnv lookup "TRADE_BATCH_SIZE" (Cfg.TradeBatchSize d);
  TradeBatchFlushInterval ← durationEnv lookup "TRADE_BATCH_FLUSH_INTERVAL" (Cfg.TradeBatchFlushInterval d);
  KlineBatchSize ← intEnv lookup "KLINE_BATCH_SIZE" (Cfg.KlineBatchSize d);
  KlineBatchFlushInterval ← durationEnv lookup "KLINE_BATCH_FLUSH_INTERVAL" (Cfg.KlineBatchFlushInterval d);
  OrderBookDeltaBatchSize ← intEnv lookup "ORDERBOOK_DELTA_BATCH_SIZE" (Cfg.OrderBookDeltaBatchSize d);
  OrderBookDeltaFlushInterval ← durationEnv lookup "ORDERBOOK_DELTA_FLUSH_INTERVAL" (Cfg.OrderBookDeltaFlushInterval d);
  OrderBookSnapshotInterval ← durationEnv lookup "ORDERBOOK_SNAPSHOT_INTERVAL" (Cfg.OrderBookSnapshotInterval d);
  OrderBookDeltaRetention ← durationEnv lookup "ORDERBOOK_DELTA_RETENTION" (Cfg.OrderBookDeltaRetention d);
  OrderBookDeltaPartitionInterval ← durationEnv lookup "ORDERBOOK_DELTA_PARTITION_INTERVAL" (Cfg.OrderBookDeltaPartitionInterval d);
  PartitionMaintenanceInterval ← durationEnv lookup "PARTITION_MAINTENANCE_INTERVAL" (Cfg.PartitionMaintenanceInterval d);
  PartitionPrecreateHorizon ← durationEnv lookup "PARTITION_PRECREATE_HORIZON" (Cfg.PartitionPrecreateHorizon d);
  let LogLevel := stringEnv lookup "LOG_LEVEL" (Cfg.LogLevel d) in
  let LogFormat := stringEnv lookup "LOG_FORMAT" (Cfg.LogFormat d) in
  let cfg := Cfg.mkConfig Mode HTTPAddr MetricsAddr DatabaseDSN DBMaxConns DBMinConns DBConnectTimeout KafkaBrokers
    RuntimeNodeID RuntimeMaxGroups RuntimeMaxWeight LeaseTTL LeaseRenewInterval ReconcileInterval HeartbeatInterval
    ShutdownTimeout InputStatusReportInterval InputReconcileInterval TradeBatchSize TradeBatchFlushInterval
    KlineBatchSize KlineBatchFlushInterval OrderBookDeltaBatchSize OrderBookDeltaFlushInterval
    OrderBookSnapshotInterval OrderBookDeltaRetention OrderBookDeltaPartitionInterval
    PartitionMaintenanceInterval PartitionPrecreateHorizon LogLevel LogFormat in
  _ ← Validate cfg;
  Ok cfg.

(** ** YAML (yaml.go) *)

Record yaml_batch := mkYamlBatch { yb_size : option Z; yb_flush : string }.

Record yamlConfig := mkYamlConfig {
  y_mode : string;
  y_http_addr : string;
  y_metrics_addr : string;
  y_dsn : string;
  y_max_conns : option Z;
  y_min_conns : option Z;
  y_connect_timeout : string;
  y_clusters : gmap string (list string);
  y_node_id : string;
  y_max_groups : option Z;
  y_max_weight : option Z;
  y_lease_ttl : string;
  y_lease_renew_interval : string;
  y_reconcile_interval : string;
  y_heartbeat_interval : string;
  y_shutdown_timeout : string;
  y_status_report_interval : string;
  y_input_reconcile_interval : string;
  y_trade : yaml_batch;
  y_kline : yaml_batch;
  y_delta : yaml_batch;
  y_snapshot_interval : string;
  y_delta_retention : string;
  y_delta_partition_interval : string;
  y_maintenance_interval : string;
  y_precreate_horizon : string;
  y_log_level : string;
  y_log_format : string
}.

Inductive yaml_answer := YamlEmpty | YamlError | YamlOk (yc : yamlConfig).

Definition put (key value : string) (m : gmap string string) : gmap string string :=
  if bool_decide (value = "") then m else <[key := value]> m.

Definition putInt (key : string) (value : option Z) (m : gmap string string) : gmap string string :=
  match value with
  | Some n => <[key := strconv.FormatInt n]> m
  | None => m
  end.

Definition brokers_of (yc : yamlConfig) : string :=
  match y_clusters yc !! "default" with
  | Some bs => if Nat.ltb 0 (length bs) then strings.Join bs "," else ""
  | None => ""
  end.

(** The flattening of the schema to the environment's keys. *)
Definition flatten (yc : yamlConfig) : gmap string string :=
  foldl (fun m (f : gmap string string -> gmap string string) => f m) ∅
    [put "MODE" (y_mode yc); put "HTTP_ADDR" (y_http_addr yc); put "METRICS_ADDR" (y_metrics_addr yc);
     put "DATABASE_DSN" (y_dsn yc); putInt "DB_MAX_CONNS" (y_max_conns yc); putInt "DB_MIN_CONNS" (y_min_conns yc);
     put "DB_CONNECT_TIMEOUT" (y_connect_timeout yc); put "KAFKA_BROKERS" (brokers_of yc);
     put "RUNTIME_NODE_ID" (y_node_id yc); putInt "RUNTIME_MAX_GROUPS" (y_max_groups yc);
     putInt "RUNTIME_MAX_WEIGHT" (y_max_weight yc); put "LEASE_TTL" (y_lease_ttl yc);
     put "LEASE_RENEW_INTERVAL" (y_lease_renew_interval yc); put "RECONCILE_INTERVAL" (y_reconcile_interval yc);
     put "HEARTBEAT_INTERVAL" (y_heartbeat_interval yc); put "SHUTDOWN_TIMEOUT" (y_shutdown_timeout yc);
     put "INPUT_STATUS_REPORT_INTERVAL" (y_status_report_interval yc);
     put "INPUT_RECONCILE_INTERVAL" (y_input_reconcile_interval yc);
     putInt "TRADE_BATCH_SIZE" (yb_size (y_trade yc)); put "TRADE_BATCH_FLUSH_INTERVAL" (yb_flush (y_trade yc));
     putInt "KLINE_BATCH_SIZE" (yb_size (y_kline yc)); put "KLINE_BATCH_FLUSH_INTERVAL" (yb_flush (y_kline yc));
     putInt "ORDERBOOK_DELTA_BATCH_SIZE" (yb_size (y_delta yc));
     put "ORDERBOOK_DELTA_FLUSH_INTERVAL" (yb_flush (y_delta yc));
     put "ORDERBOOK_SNAPSHOT_INTERVAL" (y_snapshot_interval yc);
     put "ORDERBOOK_DELTA_RETENTION" (y_delta_retention yc);
     put "ORDERBOOK_DELTA_PARTITION_INTERVAL" (y_delta_partition_interval yc);
     put "PARTITION_MAINTENANCE_INTERVAL" (y_maintenance_interval yc);
     put "PARTITION_PRECREATE_HORIZON" (y_precreate_horizon yc);
     put "LOG_LEVEL" (y_log_level yc); put "LOG_FORMAT" (y_log_format yc)].

(** ** The .env file (dotenv.go) *)

(** The lines of [bufio.Scanner]: a final newline ends no line, a carriage return
    before the newline is dropped.  A line that does not fit the scanner's buffer
    ends the scan with an error. *)
Fixpoint raw_lines (s : string) : list string :=
  match s with
  | EmptyString => []
  | String c s' =>
      if Ascii.eqb c (ascii_of_nat 10) then "" :: raw_lines s'
      else match raw_lines s' with
           | p :: ps => String c p :: ps
           | [] => [String c ""]
           end
  end.

Fixpoint drop_cr (s : string) : string :=
  match s with
  | EmptyString => ""
  | String c s' => if Ascii.eqb c (ascii_of_nat 13) && bool_decide (s' = "") then "" else String c (drop_cr s')
  end.

Definition max_line : Z := 65535.

Definition unquoteEnvValue (v : string) : string :=
  match v with
  | String q (String c v' as rest) =>
      if Ascii.eqb q (ascii_of_nat 34) || Ascii.eqb q (ascii_of_nat 39) then
        match strings.split_last q rest with
        | Some (inner, "") => inner
        | _ => v
        end
      else v
  | _ => v
  end.

(** One line: nothing, or a pair. *)
Definition dotenv_line (n : nat) (text : string) : result config_error (option (string * string)) :=
  let line := strings.TrimSpace text in
  if bool_decide (line = "") || strings.HasPrefix line "#" then Ok None
  else
    match strings.split_first "="%char (strings.TrimPrefix line "export ") with
    | None => Err (ErrNotKeyValue n)
    | Some (key, value) =>
        let key := strings.TrimSpace key in
        if bool_decide (key = "") then Err (ErrEmptyKey n)
        else Ok (Some (key, unquoteEnvValue (strings.TrimSpace value)))
    end.

(** The scan, from line [n + 1]; later keys override earlier ones. *)
Fixpoint dotenv_lines (n : nat) (out : gmap string string) (lines : list string) : result config_error (gmap string string) :=
  match lines with
  | [] => Ok out
  | l :: lines' =>
      if (max_line <? Z.of_nat (String.length l)) then Err ErrReadDotEnv
      else
        p ← dotenv_line (S n) (drop_cr l);
        dotenv_lines (S n) (match p with Some (k, v) => <[k := v]> out | None => out end) lines'
  end.

Definition ParseDotEnv (text : string) : result config_error (gmap string string) := dotenv_lines 0 ∅ (raw_lines text).

(** ** Files and the process *)

Inductive file_answer := Missing | Unreadable | Contents (text : string).

(** [os.Setenv] refuses what the kernel could not pass on. *)
Definition valid_setenv (k v : string) : bool :=
  negb (bool_decide (k = "")) && negb (strings.has_byte "="%char k) &&
  negb (strings.has_byte (ascii_of_nat 0) k) && negb (strings.has_byte (ascii_of_nat 0) v).

(** The loop over the parsed pairs, in the order Go ranges over them. *)
Fixpoint apply_pairs (env : gmap string string) (applied : list string) (pairs : list (string * string))
    : result config_error (list string) * gmap string string :=
  match pairs with
  | [] => (Ok applied, env)
  | (k, v) :: pairs' =>
      match env !! k with
      | Some _ => apply_pairs env applied pairs'
      | None =>
          if valid_setenv k v then apply_pairs (<[k := v]> env) (applied ++ [k]) pairs'
          else (Err (ErrSetenv k), env)
      end
  end.

Section process.

(** The files, the order of a range over a map, and the YAML decoder. *)
Variable files : string -> file_answer.
Variable range : gmap string string -> list (string * string).
Variable yaml_decode : string -> yaml_answer.

Definition ParseYAML (data : string) (lookup : LookupFunc) : result config_error (gmap string string) :=
  let expanded := Expand data (fun name => match lookup name with Some v => v | None => "" end) in
  match yaml_decode expanded with
  | YamlEmpty => Ok ∅
  | YamlError => Err ErrYAML
  | YamlOk yc => Ok (flatten yc)
  end.

Definition LoadDotEnv (path : string) (env : gmap string string) : result config_error (list string) * gmap string string :=
  match files path with
  | Missing => (Ok [], env)
  | Unreadable => (Err ErrOpenDotEnv, env)
  | Contents text =>
      match ParseDotEnv text with
      | Err e => (Err e, env)
      | Ok pairs => apply_pairs env [] (range pairs)
      end
  end.

(** The environment over the file. *)
Definition combined (lookup : LookupFunc) (fileValues : gmap string string) : LookupFunc := fun key =>
  match set_value lookup key with
  | Some v => Some v
  | None => fileValues !! key
  end.

Definition LoadFile (configPath : string) (lookup : LookupFunc) : result config_error Config :=
  if bool_decide (configPath = "") then Load lookup
  else
    match files configPath with
    | Missing => Load lookup
    | Unreadable => Err ErrReadFile
    | Contents data =>
        fileValues ← ParseYAML data lookup;
        Load (combined lookup fileValues)
    end.

Definition getenv (env : gmap string string) (k : string) : string := default "" (env !! k).

Definition resolveConfigPath (env : gmap string string) (explicit : string) : string :=
  if negb (bool_decide (explicit = "")) then explicit
  else if negb (bool_decide (getenv env "CONFIG_FILE" = "")) then getenv env "CONFIG_FILE"
  else match files "config.yaml" with
       | Missing => ""
       | _ => "config.yaml"
       end.

Definition Bootstrap (explicitFile : string) (env : gmap string string)
    : result config_error (Config * list string) * gmap string string :=
  let dotenvPath := if bool_decide (getenv env "DOTENV_FILE" = "") then ".env" else getenv env "DOTENV_FILE" in
  let '(r, env1) := LoadDotEnv dotenvPath env in
  match r with
  | Err e => (Err e, env1)
  | Ok applied =>
      (cfg ← LoadFile (resolveConfigPath env1 explicitFile) (fun k => env1 !! k); Ok (cfg, applied), env1)
  end.

End process.

(** ** Every setting comes from its own key *)

(** How a field is read: its key, and whether as text, list, integer or duration;
    the DSN has a key that goes before another one. *)
Inductive setting :=
| SText (key : string) (get : Config -> string)
| SEither (key other : string) (get : Config -> string)
| SList (key : string) (get : Config -> list string)
| SNumber (bits : Z) (key : string) (get : Config -> Z)
| SSpan (key : string) (get : Config -> time.Duration).

(** The text that is set for it. *)
Definition setting_value (lookup : LookupFunc) (s : setting) : option string :=
  match s with
  | SText k _ | SList k _ | SNumber _ k _ | SSpan k _ => set_value lookup k
  | SEither k other _ => match set_value lookup k with Some v => Some v | None => set_value lookup other end
  end.

(** All fields of the configuration. *)
Definition settings : list setting :=
  [SText "MODE" Cfg.Mode; SText "HTTP_ADDR" Cfg.HTTPAddr; SText "METRICS_ADDR" Cfg.MetricsAddr;
   SEither "STORAGE_DSN" "DATABASE_DSN" Cfg.DatabaseDSN; SList "KAFKA_BROKERS" Cfg.KafkaBrokers;
   SNumber 32 "DB_MAX_CONNS" Cfg.DBMaxConns; SNumber 32 "DB_MIN_CONNS" Cfg.DBMinConns;
   SSpan "DB_CONNECT_TIMEOUT" Cfg.DBConnectTimeout; SText "RUNTIME_NODE_ID" Cfg.RuntimeNodeID;
   SNumber 64 "RUNTIME_MAX_GROUPS" Cfg.RuntimeMaxGroups; SNumber 64 "RUNTIME_MAX_WEIGHT" Cfg.RuntimeMaxWeight;
   SSpan "LEASE_TTL" Cfg.LeaseTTL; SSpan "LEASE_RENEW_INTERVAL" Cfg.LeaseRenewInterval;
   SSpan "RECONCILE_INTERVAL" Cfg.ReconcileInterval; SSpan "HEARTBEAT_INTERVAL" Cfg.HeartbeatInterval;
   SSpan "SHUTDOWN_TIMEOUT" Cfg.ShutdownTimeout; SSpan "INPUT_STATUS_REPORT_INTERVAL" Cfg.InputStatusReportInterval;
   SSpan "INPUT_RECONCILE_INTERVAL" Cfg.InputReconcileInterval; SNumber 64 "TRADE_BATCH_SIZE" Cfg.TradeBatchSize;
   SSpan "TRADE_BATCH_FLUSH_INTERVAL" Cfg.TradeBatchFlushInterval; SNumber 64 "KLINE_BATCH_SIZE" Cfg.KlineBatchSize;
   SSpan "KLINE_BATCH_FLUSH_INTERVAL" Cfg.KlineBatchFlushInterval;
   SNumber 64 "ORDERBOOK_DELTA_BATCH_SIZE" Cfg.OrderBookDeltaBatchSize;
   SSpan "ORDERBOOK_DELTA_FLUSH_INTERVAL" Cfg.OrderBookDeltaFlushInterval;
   SSpan "ORDERBOOK_SNAPSHOT_INTERVAL" Cfg.OrderBookSnapshotInterval;
   SSpan "ORDERBOOK_DELTA_RETENTION" Cfg.OrderBookDeltaRetention;
   SSpan "ORDERBOOK_DELTA_PARTITION_INTERVAL" Cfg.OrderBookDeltaPartitionInterval;
   SSpan "PARTITION_MAINTENANCE_INTERVAL" Cfg.PartitionMaintenanceInterval;
   SSpan "PARTITION_PRECREATE_HORIZON" Cfg.PartitionPrecreateHorizon;
   SText "LOG_LEVEL" Cfg.LogLevel; SText "LOG_FORMAT" Cfg.LogFormat].

(** The field has the value its key gives, or its default. *)
Definition resolved (lookup : LookupFunc) (c : Config) (s : setting) : Prop :=
  match setting_value lookup s with
  | None => match s with
            | SText _ get | SEither _ _ get => get c = get Default
            | SList _ get => get c = get Default
            | SNumber _ _ get | SSpan _ get => get c = get Default
            end
  | Some v => match s with
              | SText _ get | SEither _ _ get => get c = v
              | SList _ get => get c = map strings.TrimSpace (split_comma v)
              | SNumber bits _ get => strconv.ParseInt bits (strings.TrimSpace v) = Some (get c)
              | SSpan _ get => ParseDuration (strings.TrimSpace v) = Some (get c)
              end
  end.

Lemma parse_env_Ok {A} (parse : string -> option A) err lookup key def a :
  parse_env parse err lookup key def = Ok a ->
  match set_value lookup key with
  | None => a = def
  | Some v => parse (strings.TrimSpace v) = Some a
  end.
Proof.
  unfold parse_env. destruct (set_value lookup key) as [v|]; [|by intros [= <-]]. destruct (parse _); [|done]. by intros [= <-].
Qed.

Lemma Ok_inj {A} (a b : A) : @Ok config_error A a = Ok b -> a = b.
Proof. by intros [= ->]. Qed.

(** Take a chain of parsed fields apart. *)
Local Ltac load_inv H :=
  repeat match type of H with
  | mbind _ (parse_env _ _ _ _ _) = Ok _ =>
      let v := fresh "v" in let G := fresh "G" in
      apply bind_Ok in H as (v & G & H); apply parse_env_Ok in G
  end.

Lemma Load_resolved lookup c :
  Load lookup = Ok c ->
  Validate c = Ok () /\ Forall (resolved lookup c) settings.
Proof.
  unfold Load, int32Env, intEnv, durationEnv, strconv.Atoi. cbv zeta. intros H. load_inv H.
  apply bind_Ok in H as ([] & HV & HO). pose proof (Ok_inj _ _ HO) as Hc. clear HO. subst c. split; [done|]. clear HV.
  unfold settings. repeat (apply Forall_cons; split); try apply Forall_nil; try done; unfold resolved; cbn [setting_value];
    try assumption.
  all: unfold stringEnv, stringSliceEnv; cbn; repeat match goal with |- context [set_value ?l ?k] => destruct (set_value l k) end; reflexivity.
Qed.

(** No field is left out: the settings fix the configuration. *)
Lemma resolved_eq lookup c c' s :
  resolved lookup c s -> resolved lookup c' s ->
  match s with
  | SText _ get | SEither _ _ get => get c = get c'
  | SList _ get => get c = get c'
  | SNumber _ _ get | SSpan _ get => get c = get c'
  end.
Proof. unfold resolved. destruct (setting_value lookup s), s; congruence. Qed.

Lemma settings_fix lookup c c' : Forall (resolved lookup c) settings -> Forall (resolved lookup c') settings -> c = c'.
Proof.
  intros H H'. assert (Forall (fun s => resolved lookup c s /\ resolved lookup c' s) settings) as HF by (by apply Forall_and).
  eapply Forall_impl in HF; [|intros s [? ?]; by apply (resolved_eq lookup c c' s)]. clear H H'.
  unfold settings in HF. repeat (apply Forall_cons in HF as [? HF]). destruct c, c'. cbn in *. by subst.
Qed.

(** ** The .env file never overrides *)

Lemma apply_pairs_Ok env applied pairs applied' env' :
  NoDup pairs.*1 -> apply_pairs env applied pairs = (Ok applied', env') ->
  env' = env ∪ list_to_map pairs /\ applied' = applied ++ List.filter (fun k => bool_decide (env !! k = None)) pairs.*1.
Proof.
  revert env applied. induction pairs as [|[k v] pairs IH]; intros env applied Hnd; cbn.
  { intros [= <- <-]. by rewrite (right_id_L ∅ (∪)), app_nil_r. }
  apply NoDup_cons in Hnd as [Hk Hnd]. destruct (env !! k) as [w|] eqn:E.
  - intros H. destruct (IH _ _ Hnd H) as [-> ->]. rewrite bool_decide_false by done. split; [|done].
    apply map_eq. intros j. rewrite !lookup_union. destruct (decide (k = j)) as [->|Hne].
    + rewrite E. by destruct (list_to_map pairs !! j), (<[j:=v]> (list_to_map pairs) !! j).
    + by rewrite lookup_insert_ne.
  - destruct (valid_setenv k v); [|done]. intros H. destruct (IH _ _ Hnd H) as [-> ->]. rewrite bool_decide_true by done. split.
    + apply map_eq. intros j. rewrite !lookup_union. destruct (decide (k = j)) as [->|Hne].
      * rewrite !lookup_insert_eq, E. cbn. rewrite not_elem_of_list_to_map_1; [done|]. exact Hk.
      * by rewrite !lookup_insert_ne.
    + rewrite <- app_assoc. f_equal. cbn. f_equal. assert (forall l, k ∉ l ->
        List.filter (fun j => bool_decide (<[k:=v]> env !! j = None)) l = List.filter (fun j => bool_decide (env !! j = None)) l) as Hext; [|by apply Hext].
      clear. induction l as [|j l IHl]; intros Hn; cbn; [done|]. apply not_elem_of_cons in Hn as [Hj Hn].
      rewrite lookup_insert_ne by done. rewrite IHl by done. done.
Qed.

Lemma apply_pairs_keeps env applied pairs k v :
  env !! k = Some v -> (apply_pairs env applied pairs).2 !! k = Some v.
Proof.
  revert env applied. induction pairs as [|[j w] pairs IH]; intros env applied Hk; cbn; [done|].
  destruct (env !! j) eqn:Ej; [by apply IH|]. destruct (valid_setenv j w); [|done]. apply IH.
  rewrite lookup_insert_ne; [done|]. intros ->. congruence.
Qed.

(** ** Precedence *)

Section precedence.

Variable files : string -> file_answer.
Variable range : gmap string string -> list (string * string).
Variable yaml_decode : string -> yaml_answer.
Hypothesis range_perm : forall m, range m ≡ₚ map_to_list m.

(** What the optional .env file assigns, and what the optional YAML file says;
    nothing where there is no readable file. *)
Definition dotenv_values (path : string) : gmap string string :=
  match files path with
  | Contents text => match ParseDotEnv text with Ok pairs => pairs | Err _ => ∅ end
  | _ => ∅
  end.

Definition file_values (path : string) (lookup : LookupFunc) : gmap string string :=
  if bool_decide (path = "") then ∅
  else match files path with
       | Contents data => match ParseYAML yaml_decode data lookup with Ok m => m | Err _ => ∅ end
       | _ => ∅
       end.

Definition dotenv_path (env : gmap string string) : string :=
  if bool_decide (getenv env "DOTENV_FILE" = "") then ".env" else getenv env "DOTENV_FILE".

(** Process environment over .env, both over the YAML file. *)
Definition layers (env dotenv file : gmap string string) : LookupFunc :=
  combined (fun k => match env !! k with Some v => Some v | None => dotenv !! k end) file.

Lemma LoadDotEnv_Ok path env applied env1 :
  LoadDotEnv files range path env = (Ok applied, env1) ->
  env1 = env ∪ dotenv_values path /\
  forall k, k ∈ applied <-> is_Some (dotenv_values path !! k) /\ env !! k = None.
Proof.
  unfold LoadDotEnv, dotenv_values. destruct (files path) as [| |text].
  - intros [= <- <-]. rewrite (right_id_L ∅ (∪)). split; [done|]. intros k. rewrite lookup_empty. split; [by intros ?%elem_of_nil|by intros [[? [=]] _]].
  - done.
  - destruct (ParseDotEnv text) as [pairs|]; [|done]. intros H. pose proof (range_perm pairs) as Hp.
    assert (NoDup (range pairs).*1) as Hnd by (rewrite Hp; apply NoDup_fst_map_to_list).
    apply apply_pairs_Ok in H as [-> ->]; [|done].
    assert (list_to_map (range pairs) = pairs) as -> by (rewrite (list_to_map_proper _ _ Hnd Hp); apply list_to_map_to_list).
    split; [done|]. intros k. cbn [app]. rewrite !list_elem_of_In, filter_In, bool_decide_eq_true, <- list_elem_of_In.
    rewrite Hp, list_elem_of_fmap. split.
    + intros [([j v] & -> & Hin) Hn]. apply elem_of_map_to_list in Hin. by split; [exists v|].
    + intros [[v Hv] Hn]. split; [|done]. exists (k, v). split; [done|]. by apply elem_of_map_to_list.
Qed.

Lemma LoadDotEnv_keeps path env k v :
  env !! k = Some v -> (LoadDotEnv files range path env).2 !! k = Some v.
Proof.
  intros Hk. unfold LoadDotEnv. destruct (files path); [done|done|]. destruct (ParseDotEnv text); [|done]. by apply apply_pairs_keeps.
Qed.

Lemma Load_ext l1 l2 : (forall k, set_value l1 k = set_value l2 k) -> Load l1 = Load l2.
Proof.
  intros H. unfold Load, stringEnv, int32Env, intEnv, durationEnv, stringSliceEnv, parse_env. by rewrite !H.
Qed.

Lemma combined_empty lookup k : set_value (combined lookup ∅) k = set_value lookup k.
Proof.
  unfold combined, set_value. destruct (lookup k) as [v|] eqn:E; [|by rewrite lookup_empty].
  case_bool_decide as B; [by rewrite lookup_empty|]. by rewrite bool_decide_false.
Qed.

Lemma LoadFile_layers path lookup c :
  LoadFile files yaml_decode path lookup = Ok c -> Load (combined lookup (file_values path lookup)) = Ok c.
Proof.
  unfold LoadFile, file_values. rewrite <- (Load_ext (combined lookup ∅) lookup) by apply combined_empty.
  case_bool_decide; [done|]. destruct (files path); [done|done|]. by destruct (ParseYAML _ _ _).
Qed.

(** (C17) A configuration that loads is the layered one, and no field is left out:
    every setting has the value the process environment gives its key, else (where
    the environment has no such variable) the .env file, else the YAML file, else
    the default; a blank value counts as none, a blank variable of the environment
    hides the one of .env.  One setting has two keys: the DSN is the value of
    STORAGE_DSN in any of these layers, and only when it has none that of
    DATABASE_DSN, so that a STORAGE_DSN of .env goes before a DATABASE_DSN of the
    process environment.  The configuration passed validation.  The environment
    afterwards is the process environment extended by the .env file, whose applied
    keys are the reported ones; and no outcome changes a variable that was set. *)
Theorem bootstrap_precedence explicit env r env' :
  Bootstrap files range yaml_decode explicit env = (r, env') ->
  (forall k v, env !! k = Some v -> env' !! k = Some v) /\
  match r with
  | Err _ => True
  | Ok (c, applied) =>
      let dotenv := dotenv_values (dotenv_path env) in
      let file := file_values (resolveConfigPath files env' explicit) (fun k => env' !! k) in
      env' = env ∪ dotenv /\
      (forall k, k ∈ applied <-> is_Some (dotenv !! k) /\ env !! k = None) /\
      Validate c = Ok () /\
      Forall (resolved (layers env dotenv file) c) settings /\
      (forall c', Forall (resolved (layers env dotenv file) c') settings -> c' = c)
  end.
Proof.
  unfold Bootstrap. fold (dotenv_path env). intros H. split.
  - intros k v Hk. pose proof (LoadDotEnv_keeps (dotenv_path env) env k v Hk) as Hk'.
    destruct (LoadDotEnv _ _ _ _) as [[ap|] env1]; by injection H as _ <-.
  - destruct (LoadDotEnv _ _ _ _) as [[ap|] env1] eqn:E; [|by injection H as <- _].
    injection H as <- <-. destruct (LoadFile _ _ _ _) as [c|] eqn:EL; [|done]. cbn.
    apply LoadDotEnv_Ok in E as [-> Hap]. split; [done|]. split; [done|]. apply LoadFile_layers in EL.
    rewrite (Load_ext _ (layers env (dotenv_values (dotenv_path env)) (file_values (resolveConfigPath files (env ∪ dotenv_values (dotenv_path env)) explicit)
      (fun k => (env ∪ dotenv_values (dotenv_path env)) !! k)))) in EL.
    + apply Load_resolved in EL as [HV HF]. split_and!; [done|done|]. intros c' HF'. by eapply settings_fix.
    + intros k. unfold layers, combined, set_value. rewrite lookup_union.
      by destruct (env !! k), (dotenv_values (dotenv_path env) !! k).
Qed.

End precedence.

(** With both keys set the second one read wins. *)
Lemma storage_dsn_wins lookup c d s :
  set_value lookup "DATABASE_DSN" = Some d -> set_value lookup "STORAGE_DSN" = Some s -> Load lookup = Ok c -> Cfg.DatabaseDSN c = s.
Proof.
  intros Hd Hs [_ HF]%Load_resolved. rewrite Forall_forall in HF.
  specialize (HF (SEither "STORAGE_DSN" "DATABASE_DSN" Cfg.DatabaseDSN)). unfold resolved in HF. cbn in HF. rewrite Hs in HF.
  apply HF. unfold settings. repeat first [by left|right].
Qed.

(** So the .env file overrides the process environment. *)
Example dotenv_dsn_overrides_environment :
  (fun r => Cfg.DatabaseDSN r.1) <$>
    (Bootstrap (fun path => if bool_decide (path = ".env") then Contents "STORAGE_DSN=postgres://dotenv" else Missing)
       map_to_list (fun _ => YamlEmpty) "" {["DATABASE_DSN" := "postgres://environment"]}).1 = Ok "postgres://dotenv".
Proof. vm_compute. reflexivity. Qed.

(** A local setup: the port comes from the process, the node id from .env, the
    lease from YAML. *)
Definition sample_files (path : string) : file_answer :=
  if bool_decide (path = ".env") then Contents ("RUNTIME_NODE_ID='n1'" +:+ String (ascii_of_nat 10) "HTTP_ADDR=:1111")
  else if bool_decide (path = "config.yaml") then Contents "lease: ${TTL}"
  else Missing.

Definition no_batch : yaml_batch := mkYamlBatch None "".

Definition sample_yaml (text : string) : yaml_answer :=
  YamlOk (mkYamlConfig "stream-runtime" "" "" "postgres://x" None None "" ∅ "ignored" (Some 3) None
            (strings.TrimPrefix text "lease: ") "" "" "" "" "" "" no_batch no_batch no_batch "" "" "" "" "" "" "").

Definition sample_environ : gmap string string := {["HTTP_ADDR" := ":9999"; "TTL" := "45s"]}.

Definition sample_config : Config :=
  match (Bootstrap sample_files map_to_list sample_yaml "" sample_environ).1 with Ok (c, _) => c | Err _ => Default end.

Lemma bootstrap_precedence_witness :
  Cfg.HTTPAddr sample_config = ":9999" /\ Cfg.RuntimeNodeID sample_config = "n1" /\
  Cfg.LeaseTTL sample_config = 45 * time.Second /\ Cfg.RuntimeMaxGroups sample_config = 3 /\
  let '(r, env') := Bootstrap sample_files map_to_list sample_yaml "" sample_environ in
  (forall k v, sample_environ !! k = Some v -> env' !! k = Some v) /\
  match r with
  | Err _ => True
  | Ok (c, applied) =>
      let dotenv := dotenv_values sample_files (dotenv_path sample_environ) in
      let file := file_values sample_files sample_yaml (resolveConfigPath sample_files env' "") (fun k => env' !! k) in
      env' = sample_environ ∪ dotenv /\
      (forall k, k ∈ applied <-> is_Some (dotenv !! k) /\ sample_environ !! k = None) /\
      Validate c = Ok () /\
      Forall (resolved (layers sample_environ dotenv file) c) settings /\
      (forall c', Forall (resolved (layers sample_environ dotenv file) c') settings -> c' = c)
  end.
Proof.
  do 4 (apply conj; [vm_compute; reflexivity|]).
  destruct (Bootstrap sample_files map_to_list sample_yaml "" sample_environ) as [r env'] eqn:E.
  apply (bootstrap_precedence sample_files map_to_list sample_yaml (fun m => reflexivity _) "" sample_environ r env' E).
Defined.

(** ** Writing a .env file *)

Definition dquote : ascii := ascii_of_nat 34.
Definition newline : ascii := ascii_of_nat 10.

Definition key_byte (c : ascii) : bool :=
  let n := nat_of_ascii c in
  ((48 <=? n) && (n <=? 57) || (65 <=? n) && (n <=? 90) || (97 <=? n) && (n <=? 122) || (n =? 95))%nat.

Fixpoint all_bytes (p : ascii -> bool) (s : string) : bool :=
  match s with
  | EmptyString => true
  | String c s' => p c && all_bytes p s'
  end.

Definition dotenv_key (k : string) : Prop := k <> "" /\ all_bytes key_byte k = true.

Definition pair_line (p : string * string) : string := p.1 +:+ String "="%char (String dquote (p.2 +:+ String dquote "")).

(** [KEY="value"], a line each. *)
Definition print_dotenv (l : list (string * string)) : string :=
  foldr (fun p s => pair_line p +:+ String newline s) "" l.

Lemma raw_lines_app l s : strings.has_byte newline l = false -> raw_lines (l +:+ String newline s) = l :: raw_lines s.
Proof.
  unfold newline. induction l as [|c l IH]; [done|]. cbn [strings.has_byte]. intros [Hc Hl]%orb_false_iff.
  rewrite strings_facts.app_cons. cbn [raw_lines]. by rewrite Hc, IH.
Qed.

Lemma has_byte_all p c s : all_bytes p s = true -> p c = false -> strings.has_byte c s = false.
Proof.
  induction s as [|a s IH]; cbn; [done|]. intros [Ha Hs]%andb_true_iff Hc. rewrite IH by done.
  destruct (Ascii.eqb_spec a c) as [->|]; [congruence|done].
Qed.

(** A byte that no white-space rune starts or ends with. *)
Definition plain_byte (c : ascii) : bool :=
  forallb (fun p => match p with a :: _ => negb (Ascii.eqb a c) | [] => false end) (strings.space_runes ++ map (@rev ascii) strings.space_runes).

Lemma strip_any_plain ps c l :
  forallb (fun p => match p with a :: _ => negb (Ascii.eqb a c) | [] => false end) ps = true -> strings.strip_any ps (c :: l) = None.
Proof.
  induction ps as [|p ps IH]; cbn; [done|]. intros [Hp Hps]%andb_true_iff. destruct p as [|a p]; [done|].
  cbn. apply negb_true_iff in Hp. rewrite Hp. by apply IH.
Qed.

Lemma trim_bytes_plain a b l : plain_byte a = true -> plain_byte b = true -> strings.trim_bytes (a :: l ++ [b]) = a :: l ++ [b].
Proof.
  unfold plain_byte. rewrite !forallb_app. intros [Ha _]%andb_true_iff [_ Hb]%andb_true_iff. unfold strings.trim_bytes.
  rewrite (strings_facts.trim_front_id _ _ (a :: l ++ [b])) by (by apply strip_any_plain).
  cbn [rev]. rewrite rev_app_distr. cbn [rev app]. rewrite strings_facts.trim_front_id by (by apply strip_any_plain).
  cbn. by rewrite rev_app_distr, rev_involutive.
Qed.

Lemma list_ascii_app s t : String.list_ascii_of_string (s +:+ t) = String.list_ascii_of_string s ++ String.list_ascii_of_string t.
Proof. induction s as [|c s IH]; [done|]. rewrite strings_facts.app_cons. cbn. by rewrite IH. Qed.

Lemma TrimSpace_plain a s b : plain_byte a = true -> plain_byte b = true -> strings.TrimSpace (String a (s +:+ String b "")) = String a (s +:+ String b "").
Proof.
  intros Ha Hb. unfold strings.TrimSpace. cbn [String.list_ascii_of_string]. rewrite list_ascii_app. cbn [String.list_ascii_of_string].
  rewrite trim_bytes_plain by done. cbn [String.string_of_list_ascii]. f_equal. change [b] with (String.list_ascii_of_string (String b "")). by rewrite <- list_ascii_app, String.string_of_list_ascii_of_string.
Qed.

Lemma byte_cases (P : ascii -> Prop) : (forall n, (n < 256)%nat -> P (ascii_of_nat n)) -> forall c, P c.
Proof. intros H c. rewrite <- (ascii_nat_embedding c). apply H, nat_ascii_bounded. Qed.

Lemma key_byte_plain c : key_byte c = true -> plain_byte c = true.
Proof.
  assert (forallb (fun n => implb (key_byte (ascii_of_nat n)) (plain_byte (ascii_of_nat n))) (seq 0 256) = true) as H by (vm_compute; reflexivity).
  revert c. apply (byte_cases (fun c => key_byte c = true -> plain_byte c = true)). intros n Hn Hk. assert (In n (seq 0 256)) as Hin by (apply in_seq; lia).
  pose proof (proj1 (forallb_forall _ _) H n Hin) as Hi. cbv beta in Hi. by rewrite Hk in Hi.
Qed.

(** A nonempty plain string is its own trimming. *)
Lemma TrimSpace_key k : dotenv_key k -> strings.TrimSpace k = k.
Proof.
  intros [Hne Hk]. destruct k as [|a k]; [done|]. cbn in Hk. apply andb_true_iff in Hk as [Ha Hk]. apply key_byte_plain in Ha.
  destruct (decide (k = "")) as [->|Hk0].
  { unfold strings.TrimSpace. cbn [String.list_ascii_of_string]. unfold strings.trim_bytes.
    unfold plain_byte in *. rewrite forallb_app in *. apply andb_true_iff in Ha as [H1 H2].
    rewrite (strings_facts.trim_front_id _ _ [_]) by (by apply strip_any_plain). cbn [rev app].
    by rewrite strings_facts.trim_front_id by (by apply strip_any_plain). }
  assert (exists s b, k = s +:+ String b "" /\ key_byte b = true) as (s & b & -> & Hb).
  { clear -Hk Hk0. induction k as [|c k IH]; [done|]. cbn in Hk. apply andb_true_iff in Hk as [Hc Hk].
    destruct (decide (k = "")) as [->|Hn]; [by exists "", c|]. destruct (IH Hk Hn) as (s & b & -> & Hb). by exists (String c s), b. }
  apply TrimSpace_plain; [done|]. by apply key_byte_plain.
Qed.

Lemma unquote_quoted v : unquoteEnvValue (String dquote (v +:+ String dquote "")) = v.
Proof.
  unfold unquoteEnvValue. pose proof (strings_facts.split_last_app dquote v "" eq_refl) as H.
  destruct (v +:+ String dquote "") as [|c r] eqn:E; [by destruct v|]. cbn [Ascii.eqb]. 
  change (Ascii.eqb dquote (ascii_of_nat 34)) with true. cbn [orb]. by rewrite H.
Qed.

Lemma drop_cr_quoted s : drop_cr (s +:+ String dquote "") = s +:+ String dquote "".
Proof.
  induction s as [|c s IH]; [done|]. rewrite strings_facts.app_cons. cbn [drop_cr]. rewrite IH.
  rewrite (bool_decide_false (s +:+ String dquote "" = "")) by (by destruct s). by rewrite andb_false_r.
Qed.

Lemma prefix_byte a b s : strings.HasPrefix (String a s) (String b "") = true -> b = a.
Proof. unfold strings.HasPrefix. simpl. by destruct (ascii_dec b a). Qed.

Lemma dotenv_line_pair n k v : dotenv_key k -> dotenv_line n (pair_line (k, v)) = Ok (Some (k, v)).
Proof.
  intros [Hne Hb]. pose proof (TrimSpace_key k (conj Hne Hb)) as Ht.
  assert (strings.has_byte "="%char k = false) as Heq by (by apply (has_byte_all key_byte)).
  assert (forall w, strings.TrimSpace (String dquote (w +:+ String dquote "")) = String dquote (w +:+ String dquote "")) as Hq.
  { intros w. by apply TrimSpace_plain. }
  unfold dotenv_line, pair_line. cbn [fst snd].
  assert (strings.TrimSpace (k +:+ String "="%char (String dquote (v +:+ String dquote ""))) = k +:+ String "="%char (String dquote (v +:+ String dquote ""))) as ->.
  { destruct k as [|a k]; [done|]. cbn in Hb. apply andb_true_iff in Hb as [Ha _]. rewrite strings_facts.app_cons.
    change (String "="%char (String dquote (v +:+ String dquote ""))) with (String "="%char (String dquote v) +:+ String dquote "").
    rewrite <- strings_facts.app_assoc. apply TrimSpace_plain; [by apply key_byte_plain|done]. }
  rewrite bool_decide_false by (by destruct k). cbn [orb].
  assert (strings.HasPrefix (k +:+ String "="%char (String dquote (v +:+ String dquote ""))) "#" = false) as ->.
  { destruct k as [|a k]; [done|]. cbn in Hb. apply andb_true_iff in Hb as [Ha _]. rewrite strings_facts.app_cons.
    destruct (strings.HasPrefix _ "#") eqn:E; [|done]. apply prefix_byte in E as <-. vm_compute in Ha. discriminate. }
  assert (strings.TrimPrefix (k +:+ String "="%char (String dquote (v +:+ String dquote ""))) "export " =
          k +:+ String "="%char (String dquote (v +:+ String dquote ""))) as ->.
  { unfold strings.TrimPrefix. destruct (strings.HasPrefix _ _) eqn:E; [exfalso|done]. apply strings_facts.HasPrefix_split in E.
    apply (f_equal (strings.split_first "="%char)) in E. rewrite strings_facts.split_first_app in E by done.
    revert E. generalize (strings.TrimPrefix (k +:+ String "="%char (String dquote (v +:+ String dquote ""))) "export "). intros r.
    rewrite !strings_facts.app_cons. cbn. destruct (strings.split_first "="%char ("" +:+ r)) as [[p q]|]; [|done]. intros [= -> _]. vm_compute in Hb. discriminate. }
  rewrite strings_facts.split_first_app by done. rewrite Ht, bool_decide_false by done. by rewrite Hq, unquote_quoted.
Qed.

(** A pair the format can carry: a name, and a value on one line that the
    scanner's buffer holds. *)
Definition dotenv_pair (p : string * string) : Prop :=
  dotenv_key p.1 /\ strings.has_byte newline p.2 = false /\ Z.of_nat (String.length (pair_line p)) <= max_line.

Lemma pair_line_no_newline p : dotenv_pair p -> strings.has_byte newline (pair_line p) = false.
Proof.
  intros ([_ Hk] & Hv & _). unfold pair_line. rewrite strings_facts.has_byte_app. rewrite (has_byte_all key_byte) by done.
  change (strings.has_byte newline (p.2 +:+ String dquote "") = false). by rewrite strings_facts.has_byte_app, Hv.
Qed.

Lemma raw_lines_print l : Forall dotenv_pair l -> raw_lines (print_dotenv l) = map pair_line l.
Proof.
  induction 1 as [|p l Hp _ IH]; [done|]. cbn [print_dotenv foldr map]. rewrite raw_lines_app by (by apply pair_line_no_newline).
  by rewrite <- IH.
Qed.

Lemma drop_cr_pair_line p : drop_cr (pair_line p) = pair_line p.
Proof.
  destruct p as [k v]. unfold pair_line. cbn [fst snd].
  change (String "="%char (String dquote (v +:+ String dquote ""))) with (String "="%char (String dquote v) +:+ String dquote "").
  rewrite <- strings_facts.app_assoc. apply drop_cr_quoted.
Qed.

Lemma dotenv_lines_print n out l :
  Forall dotenv_pair l -> dotenv_lines n out (map pair_line l) = Ok (foldl (fun m p => <[p.1 := p.2]> m) out l).
Proof.
  intros Hl. revert n out. induction Hl as [|[k v] l (Hk & _ & Hlen) _ IH]; intros n out; [done|]. cbn [map dotenv_lines foldl].
  apply Z.ltb_ge in Hlen. rewrite Hlen, drop_cr_pair_line, dotenv_line_pair by done. cbn [mbind result_bind]. apply IH.
Qed.

(** Writing pairs as KEY=value lines with the value in double quotes and
    parsing the text gives the pairs back, the last one of a key winning: whatever
    the values hold (quotes, equal signs, hashes, blanks at the ends, carriage
    returns), a newline apart. *)
Theorem dotenv_roundtrip l :
  Forall dotenv_pair l -> ParseDotEnv (print_dotenv l) = Ok (foldl (fun m p => <[p.1 := p.2]> m) ∅ l).
Proof. intros Hl. unfold ParseDotEnv. rewrite raw_lines_print by done. by apply dotenv_lines_print. Qed.

Lemma dotenv_roundtrip_witness :
  let l := [("DATABASE_DSN", "postgres://u:p=#'@h/db "); ("K_1", String dquote ""); ("K_1", " x")] in
  ParseDotEnv (print_dotenv l) = Ok {["DATABASE_DSN" := "postgres://u:p=#'@h/db "; "K_1" := " x"]}.
Proof.
  cbv zeta. rewrite (dotenv_roundtrip [("DATABASE_DSN", "postgres://u:p=#'@h/db "); ("K_1", String dquote ""); ("K_1", " x")]).
  - vm_compute. reflexivity.
  - repeat (apply Forall_cons; split; [split; [split; [done|by vm_compute] | split; vm_compute; [done|discriminate]]|]). apply Forall_nil. exact I.
Defined.
