(* ===== verification/Entry.v ===== *)
(** * From the configuration to the running components

    cmd/md-stream-runtime/main.go, the guards and defaults of the components it
    builds (runtime/node.go, runtime/worker.go, storage/partitions.go,
    kafka/consumer.go), and the readiness check both commands serve. *)

From S2P Require Import Prelude GoStd Model Kafka Metadata Worker Reconcile Node Partitions InputWorker GroupWorker Config.

Open Scope Z_scope.

Definition partition_config (cfg : Config) : DeltaPartitionConfig :=
  mkDeltaPartitionConfig (Cfg.OrderBookDeltaRetention cfg) (Cfg.PartitionMaintenanceInterval cfg) (Cfg.PartitionPrecreateHorizon cfg).

Definition node_config (nodeID hostname podName : string) (cfg : Config) : NodeConfig :=
  mkNodeConfig nodeID hostname podName (Cfg.RuntimeMaxGroups cfg) (Cfg.RuntimeMaxWeight cfg) (Cfg.LeaseTTL cfg)
    (Cfg.LeaseRenewInterval cfg) (Cfg.ReconcileInterval cfg) (Cfg.HeartbeatInterval cfg) (Cfg.ShutdownTimeout cfg).

Definition consumption_config (cfg : Config) : ConsumptionConfig :=
  mkConsumptionConfig (Cfg.InputStatusReportInterval cfg) (Cfg.InputReconcileInterval cfg)
    (mkBatchConfig (Cfg.TradeBatchSize cfg) (Cfg.TradeBatchFlushInterval cfg))
    (mkBatchConfig (Cfg.KlineBatchSize cfg) (Cfg.KlineBatchFlushInterval cfg))
    (mkBatchConfig (Cfg.OrderBookDeltaBatchSize cfg) (Cfg.OrderBookDeltaFlushInterval cfg))
    (Cfg.OrderBookSnapshotInterval cfg).

(** [suffix] is what [randomSuffix] draws. *)
Definition resolveNodeID (configured podName hostname suffix : string) : string :=
  if negb (bool_decide (configured = "")) then configured
  else
    let base := if bool_decide (podName = "") then hostname else podName in
    let base := if bool_decide (base = "") then "md-stream-runtime" else base in
    base +:+ "-" +:+ suffix.

(** The four checks at the head of [Node.Run]; [storage] and [consumers] say
    whether they are set. *)
Definition run_guards (store storage consumers : bool) (cfg : NodeConfig) (brokers : list string) : bool :=
  store && negb (bool_decide (nc_NodeID cfg = "")) && Bool.eqb storage consumers &&
  negb (storage && bool_decide (brokers = [])).

(** The fields of a node but its workers; what the node only passes on (store,
    storage, consumer factory) is whether it is set. *)
Record node_deps := mkNodeDeps {
  nd_store : bool;
  nd_cfg : NodeConfig;
  nd_storage : bool;
  nd_consumers : bool;
  nd_brokers : list string;
  nd_statusReportEvery : time.Duration;
  nd_inputReconcileEvery : time.Duration;
  nd_consumptionConfig : ConsumptionConfig
}.

Definition no_consumption : ConsumptionConfig :=
  mkConsumptionConfig 0 0 (mkBatchConfig 0 0) (mkBatchConfig 0 0) (mkBatchConfig 0 0) 0.

Definition NewNode (store : bool) (cfg : NodeConfig) : node_deps :=
  mkNodeDeps store (Node.withDefaults cfg) false false [] 0 0 no_consumption.

Definition EnableConsumptionWithConfig (n : node_deps) (st consumers : bool) (brokers : list string) (cfg : ConsumptionConfig) : node_deps :=
  mkNodeDeps (nd_store n) (nd_cfg n) st consumers brokers (cc_StatusReportEvery cfg) (cc_InputReconcileEvery cfg) cfg.

Definition EnableConsumption (n : node_deps) (st consumers : bool) (brokers : list string) (statusReportEvery inputReconcileEvery : time.Duration)
    : node_deps :=
  EnableConsumptionWithConfig n st consumers brokers
    (mkConsumptionConfig statusReportEvery inputReconcileEvery (mkBatchConfig 0 0) (mkBatchConfig 0 0) (mkBatchConfig 0 0) 0).

(** What [Node.Run] checks of the node it is called on. *)
Definition node_guards (n : node_deps) : bool :=
  run_guards (nd_store n) (nd_storage n) (nd_consumers n) (nd_cfg n) (nd_brokers n).

(** What [tryStartWorker] gives a new worker to consume with. *)
Definition worker_consumption (n : node_deps) (w : Worker) : option consumption :=
  if nd_storage n then Some (enableConsumptionWithConfig w (nd_brokers n) (nd_consumptionConfig n)) else None.

Definition required_schema_version : Z := 6.

(** [readyCheck]: the answers of the ping and of the version query. *)
Definition readyCheck (ping : bool) (version : option Z) : bool :=
  ping && match version with Some v => negb (v <? required_schema_version) | None => false end.

(** ** A configuration that loads is the one the components run with *)

Lemma check_Ok b e u : check b e = Ok u -> b = true.
Proof. by destruct b. Qed.

Lemma all_positive_Ok l u : all_positive l = Ok u -> Forall (fun kv => 0 < kv.2) l.
Proof.
  revert u. induction l as [|[k v] l IH]; intros u; cbn; [by constructor|]. unfold positive. intros H.
  apply bind_Ok in H as ([] & G%check_Ok & H). constructor; [by apply Z.ltb_lt|by eapply IH].
Qed.

Lemma Validate_fields c :
  Validate c = Ok () ->
  Cfg.KafkaBrokers c <> [] /\ Forall (fun b => strings.TrimSpace b <> "") (Cfg.KafkaBrokers c) /\
  0 < Cfg.RuntimeMaxGroups c /\ 0 < Cfg.RuntimeMaxWeight c /\ 0 < Cfg.LeaseRenewInterval c < Cfg.LeaseTTL c /\
  0 < Cfg.ReconcileInterval c /\ 0 < Cfg.HeartbeatInterval c /\ 0 < Cfg.ShutdownTimeout c /\
  0 < Cfg.InputStatusReportInterval c /\ 0 < Cfg.InputReconcileInterval c /\
  Forall (Z.lt 0) [Cfg.TradeBatchSize c; Cfg.KlineBatchSize c; Cfg.OrderBookDeltaBatchSize c; Cfg.TradeBatchFlushInterval c;
                   Cfg.KlineBatchFlushInterval c; Cfg.OrderBookDeltaFlushInterval c; Cfg.OrderBookSnapshotInterval c;
                   Cfg.OrderBookDeltaRetention c; Cfg.PartitionMaintenanceInterval c] /\
  0 <= Cfg.PartitionPrecreateHorizon c /\ strings.TrimSpace (Cfg.DatabaseDSN c) <> "".
Proof.
  unfold Validate, positive. intros H.
  repeat (let G := fresh "G" in apply bind_Ok in H as ([] & G & H); first [apply check_Ok in G|apply all_positive_Ok in G]).
  apply check_Ok in H. rewrite !Forall_cons in *. cbn [snd] in *. bool_to_prop.
  split_and!; try done; try lia.
  apply Forall_forall. intros b Hb%list_elem_of_In.
  match goal with H : forallb _ _ = true |- _ => rewrite forallb_forall in H; specialize (H b Hb); by apply negb_true_iff, bool_decide_eq_false in H end.
Qed.

Lemma Bootstrap_valid files range yaml_decode explicit env c applied env' :
  Bootstrap files range yaml_decode explicit env = (Ok (c, applied), env') -> Validate c = Ok ().
Proof.
  unfold Bootstrap. destruct (LoadDotEnv _ _ _ _) as [[ap|] env1]; [|done]. intros [= H _].
  destruct (LoadFile _ _ _ _) as [c'|] eqn:EL; [|done]. injection H as -> _. apply LoadFile_layers in EL.
  by apply Load_resolved in EL as [HV _].
Qed.

Lemma Validate_pool c : Validate c = Ok () -> 0 < Cfg.DBMaxConns c.
Proof.
  unfold Validate, positive. intros H.
  repeat (let G := fresh "G" in apply bind_Ok in H as ([] & G & H); first [apply check_Ok in G|clear G]).
  by bool_to_prop.
Qed.

Lemma manager_id cfg :
  0 < dp_Retention cfg -> 0 < dp_MaintenanceInterval cfg -> 0 <= dp_PrecreateHorizon cfg ->
  NewOrderBookDeltaPartitionManager true cfg = Ok cfg.
Proof.
  intros H1 H2 H3. unfold NewOrderBookDeltaPartitionManager. cbn.
  destruct (Z.leb_spec (dp_Retention cfg) 0); [lia|]. destruct (Z.leb_spec (dp_MaintenanceInterval cfg) 0); [lia|].
  by destruct (Z.ltb_spec (dp_PrecreateHorizon cfg) 0); [lia|].
Qed.

Lemma positive_or_id d e : 0 < d -> positive_or d e = d.
Proof. intros H. unfold positive_or. destruct (Z.leb_spec d 0); lia. Qed.

Lemma batch_defaults_id b : 0 < bc_Size b -> 0 < bc_FlushInterval b -> InputWorker.withDefaults b = b.
Proof.
  intros H1 H2. unfold InputWorker.withDefaults. destruct b as [s f]; cbn in *.
  destruct (Z.leb_spec s 0); [lia|]. by destruct (Z.leb_spec f 0); [lia|].
Qed.

Lemma node_defaults_id c :
  0 < nc_MaxGroups c -> 0 < nc_MaxWeight c -> 0 < nc_RenewInterval c < nc_LeaseTTL c -> 0 < nc_ReconcileInterval c ->
  0 < nc_HeartbeatInterval c -> 0 < nc_ShutdownTimeout c -> Node.withDefaults c = c.
Proof.
  intros H1 H2 H3 H4 H5 H6. unfold Node.withDefaults. destruct c; cbn in *.
  repeat match goal with |- context [(?x <=? ?y)] => destruct (Z.leb_spec x y); [lia|]; cbn end. done.
Qed.

Lemma trim_brokers_Ok bs : Forall (fun b => strings.TrimSpace b <> "") bs -> trim_brokers bs = Ok (map strings.TrimSpace bs).
Proof.
  unfold trim_brokers. induction 1 as [|b bs Hb _ IH]; cbn; [done|]. rewrite bool_decide_false by done. cbn. by rewrite IH.
Qed.

Lemma resolveNodeID_not_empty configured podName hostname suffix : resolveNodeID configured podName hostname suffix <> "".
Proof.
  unfold resolveNodeID. case_bool_decide; cbn; [|done]. by destruct (if bool_decide (_ = "") then _ else _).
Qed.

(** The settings of a valid configuration are those the node and its workers keep. *)
Lemma Validate_node c nodeID hostname podName :
  Validate c = Ok () -> Node.withDefaults (node_config nodeID hostname podName c) = node_config nodeID hostname podName c.
Proof. intros (_ & _ & H1 & H2 & H3 & H4 & H5 & H6 & _)%Validate_fields. by apply node_defaults_id. Qed.

Lemma Validate_guards c podName hostname suffix :
  Validate c = Ok () ->
  run_guards true true true (node_config (resolveNodeID (Cfg.RuntimeNodeID c) podName hostname suffix) hostname podName c)
    (Cfg.KafkaBrokers c) = true.
Proof.
  intros (Hb & _)%Validate_fields. unfold run_guards. cbn. rewrite bool_decide_false by apply resolveNodeID_not_empty.
  by rewrite bool_decide_false.
Qed.

Lemma Validate_worker c w :
  Validate c = Ok () -> cn_config (enableConsumptionWithConfig w (Cfg.KafkaBrokers c) (consumption_config c)) = consumption_config c.
Proof.
  intros (_ & _ & _ & _ & _ & _ & _ & _ & H7 & H8 & HF & _)%Validate_fields. rewrite !Forall_cons in HF.
  unfold enableConsumptionWithConfig, consumption_config. cbn. by rewrite !positive_or_id by (lia || apply HF).
Qed.

(** (C31) What [Bootstrap] accepts is what runs: no component refuses the loaded
    configuration and none replaces a value of it by a default.  The partition
    manager takes its three values; the node keeps capacities and intervals; each
    fact kind gets its own batch size and flush interval; the worker keeps the
    report, reconcile and snapshot intervals; the node passes the checks of its Run
    under any host names; and a consumer can be made for every named topic and
    group. *)
Theorem loaded_config_is_run files range yaml_decode explicit env c applied env' :
  Bootstrap files range yaml_decode explicit env = (Ok (c, applied), env') ->
  NewOrderBookDeltaPartitionManager true (partition_config c) = Ok (partition_config c) /\
  (forall nodeID hostname podName, Node.withDefaults (node_config nodeID hostname podName c) = node_config nodeID hostname podName c) /\
  batchFor (consumption_config c) StreamKindTrade = mkBatchConfig (Cfg.TradeBatchSize c) (Cfg.TradeBatchFlushInterval c) /\
  batchFor (consumption_config c) StreamKindKline = mkBatchConfig (Cfg.KlineBatchSize c) (Cfg.KlineBatchFlushInterval c) /\
  batchFor (consumption_config c) StreamKindOrderBookDelta = mkBatchConfig (Cfg.OrderBookDeltaBatchSize c) (Cfg.OrderBookDeltaFlushInterval c) /\
  (forall w, cn_config (enableConsumptionWithConfig w (Cfg.KafkaBrokers c) (consumption_config c)) = consumption_config c) /\
  (forall podName hostname suffix,
    run_guards true true true (node_config (resolveNodeID (Cfg.RuntimeNodeID c) podName hostname suffix) hostname podName c) (Cfg.KafkaBrokers c) = true) /\
  (forall topic group, strings.TrimSpace topic <> "" -> strings.TrimSpace group <> "" ->
    NewConsumer (Kafka.mkConfig (Cfg.KafkaBrokers c) topic group 0) =
    Ok (reader_config (map strings.TrimSpace (Cfg.KafkaBrokers c)) topic group)).
Proof.
  intros HB%Bootstrap_valid. pose proof (Validate_fields _ HB) as (Hb & Hbs & H1 & H2 & H3 & H4 & H5 & H6 & H7 & H8 & HF & H9 & _).
  rewrite !Forall_cons in HF. destruct HF as (B1 & B2 & B3 & B4 & B5 & B6 & B7 & B8 & B9 & _). split_and!.
  - by apply manager_id.
  - intros nodeID hostname podName. by apply Validate_node.
  - by apply batch_defaults_id.
  - by apply batch_defaults_id.
  - by apply batch_defaults_id.
  - intros w. by apply Validate_worker.
  - intros podName hostname suffix. by apply Validate_guards.
  - intros topic group Ht Hg. unfold NewConsumer. cbn. destruct (Cfg.KafkaBrokers c) as [|b bs] eqn:E; [done|].
    rewrite trim_brokers_Ok by done. cbn [mbind result_bind]. by rewrite !bool_decide_false.
Qed.

Lemma loaded_config_is_run_witness :
  batchFor (consumption_config sample_config) StreamKindTrade = mkBatchConfig 500 (100 * time.Millisecond).
Proof.
  destruct (Bootstrap sample_files map_to_list sample_yaml "" sample_environ) as [[[c applied]|e] env'] eqn:E; [|vm_compute in E; discriminate].
  pose proof (loaded_config_is_run sample_files map_to_list sample_yaml "" sample_environ c applied env' E) as (_ & _ & H & _).
  assert (sample_config = c) as -> by (unfold sample_config; rewrite E; reflexivity).
  rewrite H. assert (Some (Cfg.TradeBatchSize c, Cfg.TradeBatchFlushInterval c) = Some (500, 100 * time.Millisecond)) as HS.
  { change c with (match @Ok config_error _ (c, applied) with Ok (c, _) => c | Err _ => Default end).
    change (@Ok config_error _ (c, applied)) with (fst (@Ok config_error _ (c, applied), env')). rewrite <- E. vm_compute. reflexivity. }
  injection HS as -> ->. reflexivity.
Defined.
