(* ===== verification/Migrate.v ===== *)
(** * Schema migrations

    internal/db/migrate.go.  What a migration's SQL text does to the schema is a
    parameter: [run_script] maps a schema to the new one, or fails.  Nothing is
    assumed of it; in particular a down script need not take its up script back.  A
    script runs as one transaction together with its row in schema_migrations, so a
    call either has both effects or none, whatever answer the client gets. *)

From Stdlib Require Import Ascii.
From S2P Require Import Prelude GoStd.

Open Scope Z_scope.

Record Migration := mkMigration {
  mi_Version : Z;
  mi_Name : string;
  mi_Up : string;
  mi_Down : string
}.

Inductive migrate_error :=
| ErrFilename (base : string)
| ErrDirection (base : string)
| ErrNoVersion (base : string)
| ErrNotNumeric (base : string)
| ErrReadMigration (base : string)
| ErrMissingUp (version : Z)
| ErrMissingDown (version : Z)
| ErrDatabase
| ErrScript (version : Z).

(** ** Loading *)

(** [strings.Split] on a one-byte separator. *)
Fixpoint split_byte (c : ascii) (s : string) : list string :=
  match s with
  | EmptyString => [""]
  | String a s' =>
      if Ascii.eqb a c then "" :: split_byte c s'
      else match split_byte c s' with
           | p :: ps => String a p :: ps
           | [] => [String a ""]
           end
  end.

Definition parseMigrationName (base : string) : result migrate_error (Z * string * string) :=
  match split_byte "."%char base with
  | [stem; direction; ext] =>
      if negb (bool_decide (ext = "sql")) then Err (ErrFilename base)
      else if negb (bool_decide (direction = "up")) && negb (bool_decide (direction = "down")) then Err (ErrDirection base)
      else
        match strings.split_first "_"%char stem with
        | None => Err (ErrNoVersion base)
        | Some (prefix, name) =>
            if bool_decide (prefix = "") then Err (ErrNoVersion base)
            else match strconv.Atoi prefix with
                 | None => Err (ErrNotNumeric base)
                 | Some version => Ok (version, name, direction)
                 end
        end
  | _ => Err (ErrFilename base)
  end.

Fixpoint has_suffix (s p : string) : bool :=
  bool_decide (s = p) || match s with String _ s' => has_suffix s' p | EmptyString => false end.

(** The pattern "*.sql". *)
Definition is_sql (name : string) : bool := negb (strings.has_byte "/"%char name) && has_suffix name ".sql".

Definition blank (s : string) : bool := bool_decide (strings.TrimSpace s = "").

Definition set_script (direction content : string) (m : Migration) : Migration :=
  if bool_decide (direction = "up") then mkMigration (mi_Version m) (mi_Name m) content (mi_Down m)
  else mkMigration (mi_Version m) (mi_Name m) (mi_Up m) content.

(** One file of the directory; [None] is a read error. *)
Definition load_file (byVersion : gmap Z Migration) (f : string * option string) : result migrate_error (gmap Z Migration) :=
  p ← parseMigrationName f.1;
  let '(version, shortName, direction) := p in
  match f.2 with
  | None => Err (ErrReadMigration f.1)
  | Some content =>
      let mig := default (mkMigration version shortName "" "") (byVersion !! version) in
      Ok (<[version := set_script direction content mig]> byVersion)
  end.

Fixpoint load_files (byVersion : gmap Z Migration) (files : list (string * option string)) : result migrate_error (gmap Z Migration) :=
  match files with
  | [] => Ok byVersion
  | f :: files' => m ← load_file byVersion f; load_files m files'
  end.

Definition check_scripts (m : Migration) : result migrate_error Migration :=
  if blank (mi_Up m) then Err (ErrMissingUp (mi_Version m))
  else if blank (mi_Down m) then Err (ErrMissingDown (mi_Version m))
  else Ok m.

Definition version_le (a b : Migration) : Prop := mi_Version a <= mi_Version b.

#[export] Instance version_le_dec : RelDecision version_le.
Proof. intros a b. unfold version_le. apply _. Defined.

(** [loadMigrations]: the directory in the order of its names, and the order in
    which Go ranges over the map. *)
Definition loadMigrations (range : gmap Z Migration -> list (Z * Migration)) (dir : list (string * option string))
    : result migrate_error (list Migration) :=
  byVersion ← load_files ∅ (List.filter (fun f => is_sql f.1) dir);
  out ← result_mapM check_scripts (map snd (range byVersion));
  Ok (merge_sort version_le out).

(** ** Text of the scripts *)

Fixpoint double_quotes (s : string) : string :=
  match s with
  | EmptyString => ""
  | String c s' => if Ascii.eqb c "'"%char then String c (String c (double_quotes s')) else String c (double_quotes s')
  end.

Definition quoteLiteral (s : string) : string := "'" +:+ double_quotes s +:+ "'".

Definition newline_text : string := String (ascii_of_nat 10) "".

Definition up_script (m : Migration) : string :=
  "BEGIN;" +:+ newline_text +:+ mi_Up m +:+ newline_text +:+ ";" +:+ newline_text +:+
  "INSERT INTO schema_migrations (version, name) VALUES (" +:+ strconv.FormatInt (mi_Version m) +:+ ", " +:+
  quoteLiteral (mi_Name m) +:+ ");" +:+ newline_text +:+ "COMMIT;".

Definition down_script (m : Migration) : string :=
  "BEGIN;" +:+ newline_text +:+ mi_Down m +:+ newline_text +:+ ";" +:+ newline_text +:+
  "DELETE FROM schema_migrations WHERE version = " +:+ strconv.FormatInt (mi_Version m) +:+ ";" +:+ newline_text +:+ "COMMIT;".

(** The server's reading of a quoted literal: its value and what follows. *)
Fixpoint read_quoted (s : string) : option (string * string) :=
  match s with
  | EmptyString => None
  | String c s' =>
      if Ascii.eqb c "'"%char then
        match s' with
        | String d s'' => if Ascii.eqb d "'"%char then match read_quoted s'' with Some (v, r) => Some (String c v, r) | None => None end
                          else Some ("", s')
        | EmptyString => Some ("", "")
        end
      else match read_quoted s' with Some (v, r) => Some (String c v, r) | None => None end
  end.

Definition read_literal (s : string) : option (string * string) :=
  match s with
  | String c s' => if Ascii.eqb c "'"%char then read_quoted s' else None
  | EmptyString => None
  end.

(** ** Running *)

Section migrator.

Context {S : Type}.
(** What a script does to the schema. *)
Variable run_script : string -> S -> option S.

(** The schema, and the table schema_migrations when it exists. *)
Record Schema := mkSchema { sc_objects : S; sc_applied : option (gmap Z string) }.

Definition applied_of (db : Schema) : gmap Z string := default ∅ (sc_applied db).

(** CREATE TABLE IF NOT EXISTS schema_migrations *)
Definition create_bookkeeping (db : Schema) : Schema := mkSchema (sc_objects db) (Some (applied_of db)).

Definition ensureBookkeeping (out : outcome) (db : Schema) : result migrate_error () * Schema :=
  match out with
  | Done => (Ok (), create_bookkeeping db)
  | Failed => (Err ErrDatabase, db)
  | Lost => (Err ErrDatabase, create_bookkeeping db)
  end.

Definition appliedVersions (out : outcome) (db : Schema) : result migrate_error (gset Z) :=
  match out with
  | Done => Ok (dom (applied_of db))
  | _ => Err ErrDatabase
  end.

(** The transaction of [up_script] and of [down_script]; version is a primary key. *)
Definition up_tx (m : Migration) (db : Schema) : option Schema :=
  match run_script (mi_Up m) (sc_objects db), applied_of db !! mi_Version m with
  | Some s', None => Some (mkSchema s' (Some (<[mi_Version m := mi_Name m]> (applied_of db))))
  | _, _ => None
  end.

Definition down_tx (m : Migration) (db : Schema) : option Schema :=
  match run_script (mi_Down m) (sc_objects db) with
  | Some s' => Some (mkSchema s' (Some (delete (mi_Version m) (applied_of db))))
  | None => None
  end.

(** [execScript]; an error inside the script rolls it back. *)
Definition execScript (out : outcome) (version : Z) (tx : Schema -> option Schema) (db : Schema) : result migrate_error () * Schema :=
  match out, tx db with
  | Failed, _ | _, None => (Err (ErrScript version), db)
  | Done, Some db' => (Ok (), db')
  | Lost, Some db' => (Err (ErrScript version), db')
  end.

(** The loop of [Up] and of [Down]: one script per migration that [wanted] selects. *)
Fixpoint script_loop (wanted : Z -> bool) (tx : Migration -> Schema -> option Schema) (outs : list outcome) (migs : list Migration)
    (db : Schema) : result migrate_error () * Schema :=
  match migs with
  | [] => (Ok (), db)
  | m :: migs' =>
      if wanted (mi_Version m) then
        match execScript (default Failed (head outs)) (mi_Version m) (tx m) db with
        | (Err e, db') => (Err e, db')
        | (Ok _, db') => script_loop wanted tx (tl outs) migs' db'
        end
      else script_loop wanted tx outs migs' db
  end.

(** The answers: bookkeeping, list of versions, one per script. *)
Definition Up (migs : list Migration) (o1 o2 : outcome) (outs : list outcome) (db : Schema) : result migrate_error () * Schema :=
  let '(r, db1) := ensureBookkeeping o1 db in
  match r with
  | Err e => (Err e, db1)
  | Ok _ =>
      match appliedVersions o2 db1 with
      | Err e => (Err e, db1)
      | Ok applied => script_loop (fun v => negb (bool_decide (v ∈ applied))) up_tx outs migs db1
      end
  end.

Definition Down (migs : list Migration) (o1 o2 : outcome) (outs : list outcome) (db : Schema) : result migrate_error () * Schema :=
  let '(r, db1) := ensureBookkeeping o1 db in
  match r with
  | Err e => (Err e, db1)
  | Ok _ =>
      match appliedVersions o2 db1 with
      | Err e => (Err e, db1)
      | Ok applied => script_loop (fun v => bool_decide (v ∈ applied)) down_tx outs (rev migs) db1
      end
  end.

(** SELECT max(version); none is 0. *)
Definition max_version (t : gmap Z string) : Z :=
  match map fst (map_to_list t) with
  | [] => 0
  | v :: vs => foldl Z.max v vs
  end.

Definition Version (o1 o2 : outcome) (db : Schema) : result migrate_error Z * Schema :=
  let '(r, db1) := ensureBookkeeping o1 db in
  match r with
  | Err e => (Err e, db1)
  | Ok _ => (match o2 with Done => Ok (max_version (applied_of db1)) | _ => Err ErrDatabase end, db1)
  end.

End migrator.

(** ** What a history of runs comes to *)

Section migration_walk.

Context {S : Type}.
Variable run_script : string -> S -> option S.

(** One script after the other: up runs the first pending migration and puts it on
    the stack of the applied ones, down runs the last applied one's down script and
    gives it back.  A step that finds none, or whose script fails, is no walk. *)
Fixpoint walk (steps : list bool) (stack pending : list Migration) (s : S) : option (list Migration * list Migration * S) :=
  match steps with
  | [] => Some (stack, pending, s)
  | true :: steps' =>
      match pending with
      | m :: pending' => s' ← run_script (mi_Up m) s; walk steps' (m :: stack) pending' s'
      | [] => None
      end
  | false :: steps' =>
      match stack with
      | m :: stack' => s' ← run_script (mi_Down m) s; walk steps' stack' (m :: pending) s'
      | [] => None
      end
  end.

(** The scripts of a list in order, until one fails: those that ran, the rest. *)
Fixpoint run_while (script : Migration -> string) (l : list Migration) (s : S) : list Migration * list Migration * S :=
  match l with
  | [] => ([], [], s)
  | m :: l' =>
      match run_script (script m) s with
      | None => ([], l, s)
      | Some s' => let '(ran, rest, s'') := run_while script l' s' in (m :: ran, rest, s'')
      end
  end.

(** The answer of a run that stopped before [rest]. *)
Definition stopped_at (rest : list Migration) : result migrate_error () :=
  match rest with
  | [] => Ok ()
  | m :: _ => Err (ErrScript (mi_Version m))
  end.

(** The rows of schema_migrations for the applied ones. *)
Definition recorded (l : list Migration) : gmap Z string := list_to_map (map (fun m => (mi_Version m, mi_Name m)) l).

End migration_walk.

(** ** The text of a name is one literal *)

Lemma read_double_quotes s r :
  match r with String c _ => Ascii.eqb c "'"%char = false | EmptyString => True end ->
  read_quoted (double_quotes s +:+ String "'"%char r) = Some (s, r).
Proof.
  intros Hr. induction s as [|c s IH].
  - change (double_quotes "" +:+ String "'"%char r) with (String "'"%char r). cbn [read_quoted]. rewrite Ascii.eqb_refl.
    destruct r as [|c r]; [done|]. by rewrite Hr.
  - cbn [double_quotes]. destruct (Ascii.eqb_spec c "'"%char) as [->|Hc].
    + rewrite !strings_facts.app_cons. cbn [read_quoted]. rewrite !Ascii.eqb_refl. by rewrite IH.
    + rewrite strings_facts.app_cons. cbn [read_quoted]. apply Ascii.eqb_neq in Hc. by rewrite Hc, IH.
Qed.

(** Whatever the name holds, the server reads it back and goes on behind it. *)
Lemma quoteLiteral_read s r :
  match r with String c _ => Ascii.eqb c "'"%char = false | EmptyString => True end ->
  read_literal (quoteLiteral s +:+ r) = Some (s, r).
Proof.
  intros Hr. unfold quoteLiteral. rewrite strings_facts.app_assoc.
  change ("'" +:+ (double_quotes s +:+ "'") +:+ r) with (String "'"%char ((double_quotes s +:+ "'") +:+ r)).
  unfold read_literal. rewrite Ascii.eqb_refl, strings_facts.app_assoc. by apply read_double_quotes.
Qed.

(** ** Loading *)

(** The file is the script of a version in a direction. *)
Definition is_script (v : Z) (direction content : string) (f : string * option string) : Prop :=
  exists name, parseMigrationName f.1 = Ok (v, name, direction) /\ f.2 = Some content.

Lemma parseMigrationName_direction base v n d : parseMigrationName base = Ok (v, n, d) -> d = "up" \/ d = "down".
Proof.
  unfold parseMigrationName. destruct (split_byte "."%char base) as [|stem [|dir [|ext [|]]]]; try done.
  destruct (negb (bool_decide (ext = "sql"))); [done|].
  destruct (negb (bool_decide (dir = "up")) && _) eqn:E; [done|].
  destruct (strings.split_first _ stem) as [[p q]|]; [|done]. destruct (bool_decide (p = "")); [done|].
  destruct (strconv.Atoi p); [|done]. intros [= _ _ <-].
  apply andb_false_iff in E as [E|E]; apply negb_false_iff, bool_decide_eq_true in E; auto.
Qed.

Definition script_of (direction : string) (m : Migration) : string := if bool_decide (direction = "up") then mi_Up m else mi_Down m.

(** What the map knows after some files: versions are keys, scripts come from
    files, every file has left its version; a script given once is the file's. *)
Record loaded (m : gmap Z Migration) (seen : list (string * option string)) : Prop := {
  ld_key : forall v mig, m !! v = Some mig -> mi_Version mig = v;
  ld_from : forall v mig d, m !! v = Some mig -> d = "up" \/ d = "down" ->
    script_of d mig = "" \/ exists f, f ∈ seen /\ is_script v d (script_of d mig) f;
  ld_kept : forall f v d content, f ∈ seen -> is_script v d content f ->
    exists mig, m !! v = Some mig /\
      ((forall f' c', f' ∈ seen -> is_script v d c' f' -> c' = content) -> script_of d mig = content)
}.

Lemma set_script_of d d' c m : d = "up" \/ d = "down" -> d' = "up" \/ d' = "down" ->
  script_of d' (set_script d c m) = if bool_decide (d' = d) then c else script_of d' m.
Proof. by intros [-> | ->] [-> | ->]. Qed.

Lemma set_script_version d c m : mi_Version (set_script d c m) = mi_Version m.
Proof. unfold set_script. by case_bool_decide. Qed.

Lemma load_file_loaded m seen f m' : loaded m seen -> load_file m f = Ok m' -> loaded m' (seen ++ [f]).
Proof.
  intros [Hk Hfrom Hkept] H. unfold load_file in H. apply bind_Ok in H as ([[v n] d] & Hp & H).
  destruct (f.2) as [content|] eqn:Ec; [|done]. injection H as <-.
  pose proof (parseMigrationName_direction _ _ _ _ Hp) as Hd. assert (is_script v d content f) as Hf by (by exists n).
  remember (default (mkMigration v n "" "") (m !! v)) as mig eqn:Emig.
  assert (mi_Version mig = v) as Hv by (rewrite Emig; destruct (m !! v) eqn:E; cbn; [by eapply Hk|done]).
  constructor.
  - intros v' mig' [[Ev <-]|[Hne Hm]]%lookup_insert_Some; [subst v'; by rewrite set_script_version|by eapply Hk].
  - intros v' mig' d' [[Ev <-]|[Hne Hm]]%lookup_insert_Some Hd'; [subst v'|].
    + rewrite set_script_of by done. case_bool_decide as B; [right; exists f; subst; split; [by apply elem_of_app; right; left|done]|].
      rewrite Emig. destruct (m !! v) as [old|] eqn:E; cbn.
      * destruct (Hfrom v old d' E Hd') as [?|(g & Hg & ?)]; [by left|right; exists g; split; [by apply elem_of_app; left|done]].
      * left. by destruct Hd' as [-> | ->].
    + destruct (Hfrom v' mig' d' Hm Hd') as [?|(g & Hg & ?)]; [by left|right; exists g; split; [by apply elem_of_app; left|done]].
  - intros g v' d' c' [Hg|Hg]%elem_of_app Hs.
    + destruct (Hkept g v' d' c' Hg Hs) as (old & Hold & Huniq). destruct (decide (v' = v)) as [->|Hne].
      * exists (set_script d content mig). split; [by rewrite lookup_insert_eq|]. intros Hall.
        destruct Hs as (n' & Hpg & Hcg). rewrite set_script_of by (done || by eapply parseMigrationName_direction).
        case_bool_decide as B; [subst d'; by apply (Hall f); [apply elem_of_app; right; left|]|].
        rewrite Emig, Hold. cbn. apply Huniq. intros f' c'' Hf'. apply Hall. by apply elem_of_app; left.
      * exists old. rewrite lookup_insert_ne by done. split; [done|]. intros Hall. apply Huniq. intros f' c'' Hf'. apply Hall. by apply elem_of_app; left.
    + apply list_elem_of_singleton in Hg as ->. destruct Hs as (n' & Hpg & Hcg). rewrite Hp in Hpg. injection Hpg as <- <- <-.
      rewrite Ec in Hcg. injection Hcg as <-. exists (set_script d content mig). split; [by rewrite lookup_insert_eq|]. intros _.
      rewrite set_script_of by done. by rewrite bool_decide_true.
Qed.

Lemma load_files_loaded files m seen m' : loaded m seen -> load_files m files = Ok m' -> loaded m' (seen ++ files).
Proof.
  revert m seen. induction files as [|f files IH]; intros m seen Hm H; cbn in H; [injection H as <-; by rewrite app_nil_r|].
  apply bind_Ok in H as (m1 & H1 & H). rewrite (cons_middle f), app_assoc. eapply IH; [|done]. by eapply load_file_loaded.
Qed.

Lemma check_scripts_Ok l out :
  result_mapM check_scripts l = Ok out -> out = l /\ Forall (fun m => blank (mi_Up m) = false /\ blank (mi_Down m) = false) l.
Proof.
  revert out. induction l as [|m l IH]; intros out H; cbn in H; [by injection H as <-|].
  apply bind_Ok in H as (m' & Hm & H). apply bind_Ok in H as (out' & Ho & [= <-]). destruct (IH _ Ho) as [-> HF].
  unfold check_scripts in Hm. destruct (blank (mi_Up m)) eqn:E1; [done|]. destruct (blank (mi_Down m)) eqn:E2; [done|]. injection Hm as <-.
  split; [done|]. by constructor.
Qed.

Lemma blank_empty : blank "" = true.
Proof. by vm_compute. Qed.

(** Migrations that load: their versions are strictly ascending; no script is
    blank; every script is the content of a file of its version and direction;
    every SQL file's version is there, and a script that only one file gives is
    that file's content. *)
Theorem migrations_loaded range dir migs :
  (forall m, range m ≡ₚ map_to_list m) -> loadMigrations range dir = Ok migs ->
  StronglySorted Z.lt (map mi_Version migs) /\
  (forall m d, m ∈ migs -> d = "up" \/ d = "down" ->
    blank (script_of d m) = false /\ exists f, f ∈ dir /\ is_sql f.1 = true /\ is_script (mi_Version m) d (script_of d m) f) /\
  (forall f v d content, f ∈ dir -> is_sql f.1 = true -> is_script v d content f ->
    exists m, m ∈ migs /\ mi_Version m = v /\
      ((forall f' c', f' ∈ dir -> is_sql f'.1 = true -> is_script v d c' f' -> c' = content) -> script_of d m = content)).
Proof.
  intros Hr H. unfold loadMigrations in H. apply bind_Ok in H as (byVersion & HL & H). apply bind_Ok in H as (out & Hc & [= <-]).
  apply check_scripts_Ok in Hc as [-> HF].
  assert (loaded ∅ []) as H0 by (constructor; [by intros ? ? ?%lookup_empty_Some|by intros ? ? ? ?%lookup_empty_Some|by intros ? ? ? ? ?%elem_of_nil]).
  apply (load_files_loaded _ _ _ _ H0) in HL as [Hk Hfrom Hkept]. cbn [app] in *.
  assert (forall f, f ∈ List.filter (fun f => is_sql f.1) dir <-> f ∈ dir /\ is_sql f.1 = true) as Hdir
    by (intros f; by rewrite !list_elem_of_In, filter_In).
  assert (forall m, m ∈ merge_sort version_le (map snd (range byVersion)) <-> byVersion !! mi_Version m = Some m) as Hin.
  { intros m. rewrite merge_sort_Permutation, (Hr byVersion), list_elem_of_In, in_map_iff. split.
    - intros ([v m'] & <- & Hvm%list_elem_of_In%elem_of_map_to_list). cbn. by rewrite (Hk _ _ Hvm).
    - intros Hm. exists (mi_Version m, m). split; [done|]. by apply list_elem_of_In, elem_of_map_to_list. }
  split_and!.
  - assert (StronglySorted version_le (merge_sort version_le (map snd (range byVersion)))) as Hs.
    { apply StronglySorted_merge_sort; intros x; unfold version_le; lia. }
    assert (NoDup (map mi_Version (merge_sort version_le (map snd (range byVersion))))) as Hnd.
    { rewrite merge_sort_Permutation, (Hr byVersion). rewrite map_map.
      rewrite (map_ext_in _ fst); [apply NoDup_fst_map_to_list|]. intros [v m] Hvm%list_elem_of_In%elem_of_map_to_list. by apply Hk. }
    revert Hs Hnd. generalize (merge_sort version_le (map snd (range byVersion))). clear. intros l.
    induction 1 as [|m l Hs IH HF]; cbn; [constructor|]. rewrite NoDup_cons. intros [Hn Hnd]. constructor; [by apply IH|].
    apply Forall_map, Forall_forall. intros x Hx. rewrite Forall_forall in HF. specialize (HF x Hx). unfold version_le in HF.
    destruct (decide (mi_Version m = mi_Version x)) as [E|]; [|lia]. destruct Hn. rewrite E. by apply list_elem_of_In, in_map, list_elem_of_In.
  - intros m d Hm Hd. apply Hin in Hm as Hm'. assert (blank (script_of d m) = false) as Hb.
    { rewrite Forall_forall in HF. destruct (HF m) as [? ?]; [|by destruct Hd as [-> | ->]].
      rewrite (Hr byVersion), list_elem_of_In. apply in_map_iff. exists (mi_Version m, m). split; [done|]. by apply list_elem_of_In, elem_of_map_to_list. }
    split; [done|]. destruct (Hfrom _ _ d Hm' Hd) as [E|(f & Hf & Hs)]; [by rewrite E, blank_empty in Hb|].
    apply Hdir in Hf as [? ?]. by exists f.
  - intros f v d content Hf Hsql Hs. destruct (Hkept f v d content) as (m & Hm & Hu); [by apply Hdir|done|].
    pose proof (Hk _ _ Hm) as Hv. exists m. rewrite Hin, Hv. split; [done|]. split; [done|]. intros Hall. apply Hu.
    intros f' c' [? ?]%Hdir. by apply Hall.
Qed.

Definition sample_dir : list (string * option string) :=
  [("000001_init.down.sql", Some "DROP TABLE a;"); ("000001_init.up.sql", Some "CREATE TABLE a();");
   ("000010_b.down.sql", Some "DROP TABLE b;"); ("000010_b.up.sql", Some "CREATE TABLE b();");
   ("000002_it's.down.sql", Some "DROP TABLE c;"); ("000002_it's.up.sql", Some "CREATE TABLE c();"); ("README.md", None)].

Definition sample_migrations : list Migration :=
  match loadMigrations map_to_list sample_dir with Ok l => l | Err _ => [] end.

Lemma migrations_loaded_witness :
  map mi_Version sample_migrations = [1; 2; 10] /\ StronglySorted Z.lt (map mi_Version sample_migrations).
Proof.
  split; [vm_compute; reflexivity|].
  destruct (migrations_loaded map_to_list sample_dir sample_migrations (fun m => reflexivity _)) as (H & _); [vm_compute; reflexivity|exact H].
Defined.

(** Two migrations with one version are merged: the first one's script is lost
    without an error. *)
Example shared_version_loses_script :
  map (fun m => (mi_Version m, mi_Name m, mi_Up m)) <$>
    loadMigrations map_to_list [("000001_a.down.sql", Some "A-"); ("000001_a.up.sql", Some "A+"); ("000001_b.down.sql", Some "B-"); ("000001_b.up.sql", Some "B+")]
  = Ok [(1, "a", "B+")].
Proof. by vm_compute. Qed.

(** ** Running: the applied migrations form a prefix *)

Section migrator_facts.

Context {S : Type}.
Variable run_script : string -> S -> option S.
Variable migs : list Migration.
Hypothesis versions_differ : NoDup (map mi_Version migs).

Local Abbreviation up_tx := (up_tx run_script).
Local Abbreviation down_tx := (down_tx run_script).
Local Abbreviation Up := (Up run_script migs).
Local Abbreviation Down := (Down run_script migs).

(** All of a list of transactions, in order. *)
Fixpoint tx_all (tx : Migration -> Schema -> option Schema) (l : list Migration) (db : @Schema S) : option Schema :=
  match l with
  | [] => Some db
  | m :: l' => db' ← tx m db; tx_all tx l' db'
  end.

Lemma tx_all_app tx l1 l2 db : tx_all tx (l1 ++ l2) db = (db' ← tx_all tx l1 db; tx_all tx l2 db').
Proof. revert db. induction l1 as [|m l1 IH]; intros db; cbn; [done|]. destruct (tx m db); cbn; [apply IH|done]. Qed.

(** The loop performs some of the wanted transactions in order, all of them when
    it succeeds. *)
Lemma script_loop_prefix wanted tx outs l db r db' :
  script_loop wanted tx outs l db = (r, db') ->
  exists l1 l2, List.filter (fun m => wanted (mi_Version m)) l = l1 ++ l2 /\ tx_all tx l1 db = Some db' /\ (is_ok r = true -> l2 = []).
Proof.
  revert outs db. induction l as [|m l IH]; intros outs db; cbn; [intros [= <- <-]; by exists [], []|].
  destruct (wanted (mi_Version m)); [|by apply IH].
  unfold execScript. destruct (default Failed (head outs)).
  - destruct (tx m db) as [db1|] eqn:E; [|intros [= <- <-]; by eexists [], _].
    intros H. destruct (IH _ _ H) as (l1 & l2 & -> & H1 & H2). exists (m :: l1), l2. cbn. by rewrite E.
  - intros [= <- <-]. by eexists [], _.
  - destruct (tx m db) as [db1|] eqn:E; intros [= <- <-]; [|by eexists [], _].
    exists [m], (List.filter (fun m => wanted (mi_Version m)) l). cbn. by rewrite E.
Qed.

Lemma up_tx_applied m db db' : up_tx m db = Some db' ->
  dom (applied_of db') = {[mi_Version m]} ∪ dom (applied_of db) /\ (mi_Version m ∉ dom (applied_of db)) /\ create_bookkeeping db' = db'.
Proof.
  unfold Migrate.up_tx. destruct (run_script _ _); [|done]. destruct (applied_of db !! mi_Version m) eqn:E; [done|]. intros [= <-]. cbn.
  rewrite dom_insert_L. split; [done|]. split; [|done]. by apply not_elem_of_dom.
Qed.

Lemma up_all_applied l db db' : tx_all up_tx l db = Some db' ->
  dom (applied_of db') = list_to_set (map mi_Version l) ∪ dom (applied_of db) /\ (create_bookkeeping db = db -> create_bookkeeping db' = db').
Proof.
  revert db. induction l as [|m l IH]; intros db; cbn; [intros [= <-]; split; [set_solver|done]|].
  intros H. destruct (up_tx m db) as [db1|] eqn:E; [|done]. apply up_tx_applied in E as (E1 & _ & E3).
  destruct (IH _ H) as [-> H2]. rewrite E1. split; [set_solver|]. intros _. by apply H2.
Qed.

(** What is left of a duplicate-free list when a part's versions are excluded. *)
Lemma filter_rest (l l1 l2 : list Migration) (applied done_ : gset Z) :
  NoDup (map mi_Version l) ->
  List.filter (fun m => negb (bool_decide (mi_Version m ∈ applied))) l = l1 ++ l2 ->
  done_ = list_to_set (map mi_Version l1) ∪ applied ->
  List.filter (fun m => negb (bool_decide (mi_Version m ∈ done_))) l = l2.
Proof.
  intros Hnd Hf ->.
  assert (List.filter (fun m => negb (bool_decide (mi_Version m ∈ ((list_to_set (map mi_Version l1) ∪ applied) : gset Z)))) l =
    List.filter (fun m => negb (bool_decide (mi_Version m ∈ map mi_Version l1))) (List.filter (fun m => negb (bool_decide (mi_Version m ∈ applied))) l)) as ->.
  { clear. induction l as [|m l IH]; cbn; [done|]. rewrite IH. clear IH.
    destruct (decide (mi_Version m ∈ applied)) as [B|B].
    - rewrite (bool_decide_true (mi_Version m ∈ applied)) by done. rewrite bool_decide_true by set_solver. done.
    - rewrite (bool_decide_false (mi_Version m ∈ applied)) by done. cbn [negb List.filter].
      destruct (decide (mi_Version m ∈ map mi_Version l1)) as [C|C].
      + rewrite !bool_decide_true by set_solver. done.
      + rewrite !bool_decide_false by set_solver. done. }
  assert (NoDup (map mi_Version (l1 ++ l2))) as Hnd'.
  { rewrite <- Hf. clear -Hnd. induction l as [|m l IH]; cbn; [constructor|]. cbn in Hnd. apply NoDup_cons in Hnd as [Hm Hnd].
    destruct (negb _); [|by apply IH]. cbn. apply NoDup_cons. split; [|by apply IH]. intros Hin. apply Hm.
    apply list_elem_of_In, in_map_iff in Hin as (x & <- & Hx). apply filter_In in Hx as [Hx _]. by apply list_elem_of_In, in_map. }
  rewrite Hf. rewrite map_app in Hnd'. apply NoDup_app in Hnd' as (_ & Hdisj & _). rewrite List.filter_app.
  rewrite (forallb_filter_id _ l2).
  - rewrite filter_none; [done|]. intros m Hm%list_elem_of_In. apply negb_false_iff, bool_decide_eq_true. by apply list_elem_of_In, in_map.
  - apply forallb_forall. intros m Hm. apply negb_true_iff, bool_decide_eq_false. intros Hin.
    apply (Hdisj _ Hin). by apply list_elem_of_In, in_map.
Qed.

(** *** Interrupted runs *)

(** One run of the migrator, whatever the answers. *)
Inductive attempt (db : Schema) : Schema -> Prop :=
| AUp o1 o2 outs : attempt db (snd (Up o1 o2 outs db))
| ADown o1 o2 outs : attempt db (snd (Down o1 o2 outs db)).

Definition up_attempt (db db' : Schema) : Prop := exists o1 o2 outs, db' = snd (Up o1 o2 outs db).

(** A prefix of the migrations is recorded as applied. *)
Definition applied_prefix (db : @Schema S) (l1 l2 : list Migration) : Prop :=
  migs = l1 ++ l2 /\ dom (applied_of db) = list_to_set (map mi_Version l1).

(** What [Up] wants is the rest, what [Down] wants the prefix backwards. *)
Lemma prefix_pending db l1 l2 :
  applied_prefix db l1 l2 -> List.filter (fun m => negb (bool_decide (mi_Version m ∈ dom (applied_of db)))) migs = l2.
Proof.
  intros (Hm & Hdom). apply (filter_rest migs l1 l2 ∅); [done| |by rewrite Hdom; set_solver].
  rewrite <- Hm. apply forallb_filter_id, forallb_forall. intros m _. apply negb_true_iff, bool_decide_eq_false. set_solver.
Qed.

Lemma prefix_applied db l1 l2 :
  applied_prefix db l1 l2 -> List.filter (fun m => bool_decide (mi_Version m ∈ dom (applied_of db))) (rev migs) = rev l1.
Proof.
  intros (Hm & Hdom). rewrite Hdom, Hm, rev_app_distr, List.filter_app. rewrite Hm, map_app in versions_differ.
  apply NoDup_app in versions_differ as (_ & Hdisj & _). rewrite (forallb_filter_id _ (rev l1)).
  - rewrite filter_none; [done|]. intros m Hx%list_elem_of_In%in_rev.
    apply bool_decide_eq_false. rewrite elem_of_list_to_set. intros Hin. apply (Hdisj _ Hin). by apply list_elem_of_In, in_map.
  - apply forallb_forall. intros m Hx%in_rev. apply bool_decide_eq_true. rewrite elem_of_list_to_set. by apply list_elem_of_In, in_map.
Qed.

(** *** Histories as walks *)

Local Abbreviation walk := (walk run_script).
Local Abbreviation run_while := (run_while run_script).

Lemma walk_app h1 h2 st pend s :
  walk (h1 ++ h2) st pend s = (x ← walk h1 st pend s; walk h2 x.1.1 x.1.2 x.2).
Proof.
  revert st pend s. induction h1 as [|[] h1 IH]; intros st pend s; cbn; [done|..].
  - destruct pend as [|m pend]; [done|]. destruct (run_script _ s); [apply IH|done].
  - destruct st as [|m st]; [done|]. destruct (run_script _ s); [apply IH|done].
Qed.

(** The database holds what the stack says. *)
Definition holds (db : @Schema S) (st pend : list Migration) : Prop := migs = rev st ++ pend /\ applied_of db = recorded st.

Lemma recorded_dom l : dom (recorded l) = list_to_set (map mi_Version l).
Proof. unfold recorded. rewrite dom_list_to_map_L. f_equal. induction l as [|m l IH]; cbn; [done|by f_equal]. Qed.

Lemma holds_prefix db st pend : holds db st pend -> applied_prefix db (rev st) pend.
Proof.
  intros [Hm Ha]. split; [done|]. rewrite Ha, recorded_dom. apply set_eq. intros v. rewrite !elem_of_list_to_set, map_rev.
  by rewrite !list_elem_of_In, <- in_rev.
Qed.

Lemma holds_unique db st pend st' pend' : holds db st pend -> holds db st' pend' -> st = st' /\ pend = pend'.
Proof.
  intros H1 H2. pose proof (prefix_pending _ _ _ (holds_prefix _ _ _ H1)) as E1. pose proof (prefix_pending _ _ _ (holds_prefix _ _ _ H2)) as E2.
  assert (pend = pend') as -> by congruence. split; [|done]. destruct H1 as [E _], H2 as [E' _]. rewrite E in E'.
  apply app_inj_2 in E' as [E' _]; [|done]. by rewrite <- (rev_involutive st), E', rev_involutive.
Qed.

Lemma up_walk k1 k2 st db db' :
  tx_all up_tx k1 db = Some db' -> holds db st (k1 ++ k2) ->
  walk (repeat true (length k1)) st (k1 ++ k2) (sc_objects db) = Some (rev k1 ++ st, k2, sc_objects db') /\ holds db' (rev k1 ++ st) k2.
Proof.
  revert st db. induction k1 as [|m k1 IH]; intros st db; cbn; [by intros [= <-]|].
  destruct (up_tx m db) as [db1|] eqn:Etx; cbn; [|done]. unfold Migrate.up_tx in Etx.
  destruct (run_script (mi_Up m) (sc_objects db)) as [s'|] eqn:E; [|done].
  destruct (applied_of db !! mi_Version m); [done|]. injection Etx as <-. intros Hall [Hm Ha]. cbn. rewrite <- app_assoc.
  refine (IH (m :: st) _ Hall _). split; [by rewrite Hm; cbn; rewrite <- app_assoc|]. cbn. by rewrite Ha.
Qed.

Lemma stack_head_new m st : NoDup (map mi_Version (m :: st)) -> recorded st !! mi_Version m = None.
Proof. intros Hnd. apply NoDup_cons in Hnd as [Hm _]. apply not_elem_of_dom. by rewrite recorded_dom, elem_of_list_to_set. Qed.

Lemma holds_NoDup db st pend : holds db st pend -> NoDup (map mi_Version st).
Proof.
  intros [Hm _]. rewrite Hm, map_app in versions_differ. apply NoDup_app in versions_differ as (H & _ & _).
  by rewrite map_rev, Permutation_rev, rev_involutive in H.
Qed.

Lemma holds_down db m st pend s' :
  holds db (m :: st) pend -> holds (mkSchema s' (Some (delete (mi_Version m) (applied_of db)))) st (m :: pend).
Proof.
  intros H. pose proof (stack_head_new m st (holds_NoDup _ _ _ H)) as Hn. destruct H as [Hm Ha]. split.
  - rewrite Hm. cbn. by rewrite <- app_assoc.
  - cbn. rewrite Ha. unfold recorded. cbn. by apply delete_insert_id.
Qed.

Lemma down_walk k1 k2 pend db db' :
  tx_all down_tx k1 db = Some db' -> holds db (k1 ++ k2) pend ->
  walk (repeat false (length k1)) (k1 ++ k2) pend (sc_objects db) = Some (k2, rev k1 ++ pend, sc_objects db') /\ holds db' k2 (rev k1 ++ pend).
Proof.
  revert pend db. induction k1 as [|m k1 IH]; intros pend db; cbn; [by intros [= <-]|].
  destruct (down_tx m db) as [db1|] eqn:Etx; cbn; [|done]. unfold Migrate.down_tx in Etx.
  destruct (run_script (mi_Down m) (sc_objects db)) as [s'|] eqn:E; [|done]. injection Etx as <-.
  intros Hall H. cbn. rewrite <- app_assoc. refine (IH (m :: pend) _ Hall _). by apply holds_down.
Qed.

(** A run continues the walk: ups only, or downs only. *)
Lemma Up_walk db o1 o2 outs st pend :
  holds db st pend ->
  exists n st' pend', walk (repeat true n) st pend (sc_objects db) = Some (st', pend', sc_objects (snd (Up o1 o2 outs db))) /\
    holds (snd (Up o1 o2 outs db)) st' pend'.
Proof.
  intros Hh. unfold Migrate.Up. destruct o1; cbn; [|by exists 0%nat, st, pend|by exists 0%nat, st, pend].
  destruct o2; cbn; [|by exists 0%nat, st, pend|by exists 0%nat, st, pend].
  destruct (script_loop _ up_tx outs migs (create_bookkeeping db)) as [r db1] eqn:E. cbn.
  apply script_loop_prefix in E as (k1 & k2 & Hf & Hk & _). rewrite (prefix_pending _ _ _ (holds_prefix _ _ _ Hh)) in Hf. subst pend.
  exists (length k1), (rev k1 ++ st), k2. by apply (up_walk k1 k2 st (create_bookkeeping db)).
Qed.

Lemma Down_walk db o1 o2 outs st pend :
  holds db st pend ->
  exists n st' pend', walk (repeat false n) st pend (sc_objects db) = Some (st', pend', sc_objects (snd (Down o1 o2 outs db))) /\
    holds (snd (Down o1 o2 outs db)) st' pend'.
Proof.
  intros Hh. unfold Migrate.Down. destruct o1; cbn; [|by exists 0%nat, st, pend|by exists 0%nat, st, pend].
  destruct o2; cbn; [|by exists 0%nat, st, pend|by exists 0%nat, st, pend].
  destruct (script_loop _ down_tx outs (rev migs) (create_bookkeeping db)) as [r db1] eqn:E. cbn.
  apply script_loop_prefix in E as (k1 & k2 & Hf & Hk & _). rewrite (prefix_applied _ _ _ (holds_prefix _ _ _ Hh)), rev_involutive in Hf. subst st.
  exists (length k1), k2, (rev k1 ++ pend). by apply (down_walk k1 k2 pend (create_bookkeeping db)).
Qed.

Lemma attempts_walk db0 db :
  applied_of db0 = ∅ -> rtc attempt db0 db ->
  exists h st pend, walk h [] migs (sc_objects db0) = Some (st, pend, sc_objects db) /\ holds db st pend.
Proof.
  intros He. revert db. apply rtc_ind_r; [by exists [], [], migs|]. intros y z _ Hst (h & st & pend & Hw & Hh).
  destruct Hst as [o1 o2 outs|o1 o2 outs].
  - destruct (Up_walk y o1 o2 outs st pend Hh) as (n & st' & pend' & Hw' & Hh'). exists (h ++ repeat true n), st', pend'.
    by rewrite walk_app, Hw.
  - destruct (Down_walk y o1 o2 outs st pend Hh) as (n & st' & pend' & Hw' & Hh'). exists (h ++ repeat false n), st', pend'.
    by rewrite walk_app, Hw.
Qed.

Lemma up_attempts_walk db0 db :
  applied_of db0 = ∅ -> rtc up_attempt db0 db ->
  exists n st pend, walk (repeat true n) [] migs (sc_objects db0) = Some (st, pend, sc_objects db) /\ holds db st pend.
Proof.
  intros He. revert db. apply rtc_ind_r; [by exists 0%nat, [], migs|]. intros y z _ (o1 & o2 & outs & ->) (n & st & pend & Hw & Hh).
  destruct (Up_walk y o1 o2 outs st pend Hh) as (n' & st' & pend' & Hw' & Hh'). exists (n + n')%nat, st', pend'.
  by rewrite repeat_app, walk_app, Hw.
Qed.

(** A walk upwards is the up scripts in order. *)
Lemma walk_ups n st pend s st' pend' s' :
  walk (repeat true n) st pend s = Some (st', pend', s') ->
  exists k, st' = rev k ++ st /\ run_while mi_Up k s = (k, [], s').
Proof.
  revert st pend s. induction n as [|n IH]; intros st pend s; cbn; [intros [= <- _ <-]; by exists []|].
  destruct pend as [|m pend]; [done|]. destruct (run_script (mi_Up m) s) as [s1|] eqn:E; cbn; [|done].
  intros (k & -> & Hk)%IH. exists (m :: k). cbn. rewrite E, Hk, <- app_assoc. done.
Qed.

(** *** Undisturbed runs *)

Fixpoint calm_scripts (tx : Migration -> Schema -> option Schema) (l : list Migration) (db : @Schema S) : result migrate_error () * Schema :=
  match l with
  | [] => (Ok (), db)
  | m :: l' => match tx m db with Some db' => calm_scripts tx l' db' | None => (Err (ErrScript (mi_Version m)), db) end
  end.

Lemma script_loop_calm wanted tx n l db :
  (length l <= n)%nat -> script_loop wanted tx (repeat Done n) l db = calm_scripts tx (List.filter (fun m => wanted (mi_Version m)) l) db.
Proof.
  revert n db. induction l as [|m l IH]; intros n db Hn; cbn in *; [done|].
  destruct (wanted (mi_Version m)); [|apply IH; lia]. destruct n as [|n]; [lia|]. cbn. unfold execScript.
  destruct (tx m db) as [db1|]; [apply IH; lia|done].
Qed.

Lemma holds_schema db st pend : holds db st pend -> create_bookkeeping db = db -> db = mkSchema (sc_objects db) (Some (recorded st)).
Proof. by intros [_ <-] <-. Qed.

Lemma calm_ups l st db :
  holds db st l -> create_bookkeeping db = db ->
  calm_scripts up_tx l db =
    (let '(ran, rest, s) := run_while mi_Up l (sc_objects db) in (stopped_at rest, mkSchema s (Some (recorded (rev ran ++ st))))).
Proof.
  revert st db. induction l as [|m l IH]; intros st db Hh Hc; cbn.
  { f_equal. by eapply holds_schema. }
  pose proof (prefix_pending _ _ _ (holds_prefix _ _ _ Hh)) as Hp. unfold Migrate.up_tx.
  destruct (run_script (mi_Up m) (sc_objects db)) as [s'|]; [|f_equal; by eapply holds_schema].
  assert (applied_of db !! mi_Version m = None) as Hn.
  { apply not_elem_of_dom. intros Hin. assert (m ∈ m :: l) as Hm by (by left).
    rewrite <- Hp in Hm. apply list_elem_of_In, filter_In in Hm as [_ Hm]. by rewrite bool_decide_true in Hm. }
  rewrite Hn, (IH (m :: st)); [|split; cbn; [rewrite (proj1 Hh); cbn; by rewrite <- app_assoc|by rewrite (proj2 Hh)]|done].
  cbn. destruct (run_while mi_Up l s') as [[ran rest] s'']. cbn. by rewrite <- app_assoc.
Qed.

Lemma calm_downs l pend db :
  holds db l pend -> create_bookkeeping db = db ->
  calm_scripts down_tx l db =
    (let '(ran, rest, s) := run_while mi_Down l (sc_objects db) in (stopped_at rest, mkSchema s (Some (recorded rest)))).
Proof.
  revert pend db. induction l as [|m l IH]; intros pend db Hh Hc; cbn.
  { f_equal. by apply (holds_schema db [] pend). }
  unfold Migrate.down_tx. destruct (run_script (mi_Down m) (sc_objects db)) as [s'|]; [|f_equal; by eapply holds_schema].
  rewrite (IH (m :: pend)); [|by apply holds_down|done]. cbn. by destruct (run_while mi_Down l s') as [[ran rest] s''].
Qed.

Lemma max_version_bounds (t : gmap Z string) v :
  v ∈ dom t -> max_version t ∈ dom t /\ v <= max_version t.
Proof.
  assert (forall x, x ∈ dom t <-> x ∈ map fst (map_to_list t)) as Hd.
  { intros x. rewrite list_elem_of_In, in_map_iff, elem_of_dom. split.
    - intros [n Hn]. exists (x, n). split; [done|]. by apply list_elem_of_In, elem_of_map_to_list.
    - intros ([y n] & <- & Hin%list_elem_of_In%elem_of_map_to_list). by eexists. }
  unfold max_version. rewrite !Hd. generalize (map fst (map_to_list t)). intros [|x l]; [by intros ?%elem_of_nil|].
  assert (forall l x, (foldl Z.max x l = x \/ foldl Z.max x l ∈ l) /\ x <= foldl Z.max x l /\ (forall y, y ∈ l -> y <= foldl Z.max x l)) as H.
  { clear. induction l as [|y l IH]; intros x; cbn; [split_and!; [by left|lia|by intros ? ?%elem_of_nil]|].
    destruct (IH (Z.max x y)) as (H1 & H2 & H3). split_and!; [|lia|].
    - destruct H1 as [->|H1]; [|right; by right]. destruct (Z.max_spec x y) as [[_ ->]|[_ ->]]; [right; by left|by left].
    - intros z [->|Hz]%elem_of_cons; [lia|by apply H3]. }
  destruct (H l x) as (H1 & H2 & H3). intros Hv. split.
  - destruct H1 as [->|H1]; [by left|by right].
  - apply elem_of_cons in Hv as [->|Hv]; [done|by apply H3].
Qed.

(** *** What is recorded, whatever the scripts do *)

Lemma down_all_applied l db db' : tx_all down_tx l db = Some db' -> dom (applied_of db') = dom (applied_of db) ∖ list_to_set (map mi_Version l).
Proof.
  revert db. induction l as [|m l IH]; intros db; cbn; [intros [= <-]; set_solver|].
  destruct (down_tx m db) as [db1|] eqn:E; [|done]. cbn. intros H. rewrite (IH _ H). unfold Migrate.down_tx in E.
  destruct (run_script (mi_Down m) (sc_objects db)); [|done]. injection E as <-. cbn.
  rewrite dom_delete_L. set_solver.
Qed.

Lemma Up_recorded db o1 o2 outs r db' l1 l2 :
  applied_prefix db l1 l2 -> Up o1 o2 outs db = (r, db') ->
  exists k1 k2, applied_prefix db' k1 k2 /\ (is_ok r = true -> k2 = [] /\ is_Some (sc_applied db')).
Proof.
  intros Hp. assert (applied_prefix (create_bookkeeping db) l1 l2) as Hb by exact Hp. unfold Migrate.Up.
  destruct o1; cbn; [|intros [= <- <-]; by exists l1, l2|intros [= <- <-]; by exists l1, l2].
  destruct o2; cbn; [|intros [= <- <-]; by exists l1, l2|intros [= <- <-]; by exists l1, l2].
  intros H. apply script_loop_prefix in H as (k1 & k2 & Hf & Hk & Hr). cbn in Hf. rewrite (prefix_pending _ _ _ Hp) in Hf.
  apply up_all_applied in Hk as [Hd Hc]. exists (l1 ++ k1), k2. destruct Hp as [Hm Hdom]. split; [split|].
  - by rewrite Hm, Hf, app_assoc.
  - rewrite Hd. change (applied_of (create_bookkeeping db)) with (applied_of db). rewrite Hdom, map_app. set_solver.
  - intros Hok. split; [by apply Hr|]. rewrite <- (Hc eq_refl). by eexists.
Qed.

Lemma Down_recorded db o1 o2 outs r db' l1 l2 :
  applied_prefix db l1 l2 -> Down o1 o2 outs db = (r, db') ->
  exists k1 k2, applied_prefix db' k1 k2 /\ (is_ok r = true -> k1 = []).
Proof.
  intros Hp. assert (applied_prefix (create_bookkeeping db) l1 l2) as Hb by exact Hp. unfold Migrate.Down.
  destruct o1; cbn; [|intros [= <- <-]; by exists l1, l2|intros [= <- <-]; by exists l1, l2].
  destruct o2; cbn; [|intros [= <- <-]; by exists l1, l2|intros [= <- <-]; by exists l1, l2].
  intros H. apply script_loop_prefix in H as (k1 & k2 & Hf & Hk & Hr). cbn in Hf. rewrite (prefix_applied _ _ _ Hp) in Hf.
  apply (f_equal (@rev _)) in Hf. rewrite rev_involutive, rev_app_distr in Hf. apply down_all_applied in Hk.
  destruct Hp as [Hm Hdom]. exists (rev k2), (rev k1 ++ l2). split; [split|].
  - by rewrite Hm, Hf, app_assoc.
  - rewrite Hk. change (applied_of (create_bookkeeping db)) with (applied_of db). rewrite Hdom, Hf, map_app.
    rewrite Hm, Hf, !map_app in versions_differ. apply NoDup_app in versions_differ as (Hn & _ & _). apply NoDup_app in Hn as (_ & Hdisj & _).
    apply set_eq. intros v. rewrite elem_of_difference, !elem_of_list_to_set, elem_of_app, !list_elem_of_In.
    split; [|intros Hv; split; [by left|]].
    + intros [[Hv|Hv] Hn]; [done|]. destruct Hn. apply in_map_iff in Hv as (x & <- & Hx). by apply in_map, in_rev.
    + intros Hn. apply list_elem_of_In in Hv. apply (Hdisj _ Hv), list_elem_of_In. apply in_map_iff in Hn as (x & <- & Hx). apply in_rev in Hx; by apply in_map.
  - intros Hok. by rewrite (Hr Hok).
Qed.

Lemma attempts_recorded db0 db : applied_of db0 = ∅ -> rtc attempt db0 db -> exists l1 l2, applied_prefix db l1 l2.
Proof.
  intros He Hr. assert (exists l1 l2, applied_prefix db0 l1 l2) as H0 by (exists [], migs; split; [done|by rewrite He]).
  clear He. induction Hr as [x|x y z Hst _ IH]; [done|]. apply IH. destruct H0 as (l1 & l2 & Hp).
  destruct Hst as [o1 o2 outs|o1 o2 outs].
  - destruct (Up o1 o2 outs x) as [r y] eqn:E. destruct (Up_recorded _ _ _ _ _ _ _ _ Hp E) as (k1 & k2 & ? & _). by eauto.
  - destruct (Down o1 o2 outs x) as [r y] eqn:E. destruct (Down_recorded _ _ _ _ _ _ _ _ Hp E) as (k1 & k2 & ? & _). by eauto.
Qed.

(** The highest version recorded is the last of the prefix. *)
Lemma prefix_version db l1 l2 :
  StronglySorted Z.lt (map mi_Version migs) -> applied_prefix db l1 l2 ->
  max_version (applied_of db) = default 0 (mi_Version <$> last l1).
Proof.
  intros Hs [Hm Hdom]. destruct (last l1) as [m|] eqn:El; cbn.
  - apply last_Some in El as [k ->]. destruct (max_version_bounds (applied_of db) (mi_Version m)) as [Hin Hle]; [rewrite Hdom; set_solver|].
    rewrite Hdom, elem_of_list_to_set, map_app, elem_of_app in Hin. cbn in Hin. destruct Hin as [Hin|Hin%list_elem_of_singleton]; [|done].
    exfalso. rewrite Hm, !map_app in Hs. cbn in Hs. apply StronglySorted_app in Hs as (Hlt & Hs1 & _).
    apply StronglySorted_app in Hs1 as (Hlt1 & _ & _). specialize (Hlt1 _ (mi_Version m) Hin ltac:(by left)). lia.
  - apply last_None in El as ->. cbn in Hdom. apply dom_empty_inv_L in Hdom. by rewrite Hdom.
Qed.

End migrator_facts.

Lemma sorted_versions_differ (migs : list Migration) : StronglySorted Z.lt (map mi_Version migs) -> NoDup (map mi_Version migs).
Proof.
  intros Hs. induction Hs as [|x l _ IH HF]; constructor; [|done]. intros Hin. rewrite Forall_forall in HF. specialize (HF x Hin). lia.
Qed.

(** (C16) Migrations can be interrupted anywhere, and nothing is assumed of the
    scripts.  Start with none applied and let the versions be ascending.  After any
    runs of Up and Down, whatever calls failed or lost their answer, the database is
    what one script after the other makes of the initial one, where up only ever
    runs the first pending migration and down the last applied one: schema_migrations
    holds exactly the applied ones, a prefix of the list, and Version names its last
    member (0 if there is none).  If only Up ever ran, the schema is what the up
    scripts of that prefix make of the initial one, each run once, in order.  From
    any such state an undisturbed Up runs the up scripts of the rest in order, and an
    undisturbed Down the down scripts of the applied ones from the last to the first;
    both record what ran, and end well exactly when no script failed. *)
Theorem migrations_resume {S : Type} (run_script : string -> S -> option S) migs db0 db :
  StronglySorted Z.lt (map mi_Version migs) -> applied_of db0 = ∅ -> rtc (attempt run_script migs) db0 db ->
  exists steps stack pending,
    migs = rev stack ++ pending /\
    walk run_script steps [] migs (sc_objects db0) = Some (stack, pending, sc_objects db) /\
    applied_of db = recorded stack /\
    Version Done Done db = (Ok (default 0 (mi_Version <$> head stack)), create_bookkeeping db) /\
    (rtc (up_attempt run_script migs) db0 db -> run_while run_script mi_Up (rev stack) (sc_objects db0) = (rev stack, [], sc_objects db)) /\
    Up run_script migs Done Done (repeat Done (length migs)) db =
      (let '(ran, rest, s) := run_while run_script mi_Up pending (sc_objects db) in
       (stopped_at rest, mkSchema s (Some (recorded (rev ran ++ stack))))) /\
    Down run_script migs Done Done (repeat Done (length migs)) db =
      (let '(ran, rest, s) := run_while run_script mi_Down stack (sc_objects db) in
       (stopped_at rest, mkSchema s (Some (recorded rest)))).
Proof.
  intros Hs He Hr. pose proof (sorted_versions_differ migs Hs) as Hnd.
  destruct (attempts_walk run_script migs Hnd db0 db He Hr) as (h & st & pend & Hw & Hh). exists h, st, pend.
  pose proof (holds_prefix migs db st pend Hh) as Hp. split_and!; [apply Hh|done|apply Hh|..].
  - unfold Version. cbn. do 3 f_equal. rewrite (prefix_version migs Hnd db (rev st) pend Hs Hp). do 2 f_equal.
    destruct st as [|m st]; [done|]. cbn. by rewrite last_snoc.
  - intros Hup. destruct (up_attempts_walk run_script migs Hnd db0 db He Hup) as (n & st' & pend' & Hw' & Hh').
    destruct (holds_unique migs Hnd db st pend st' pend' Hh Hh') as [<- <-].
    destruct (walk_ups run_script _ _ _ _ _ _ _ Hw') as (k & -> & Hk). by rewrite app_nil_r, rev_involutive.
  - unfold Up. cbn. rewrite script_loop_calm by done. cbn. rewrite (prefix_pending migs Hnd db (rev st) pend Hp).
    by apply (calm_ups run_script migs Hnd pend st (create_bookkeeping db)).
  - unfold Down. cbn. rewrite script_loop_calm by (by rewrite length_rev). cbn.
    rewrite (prefix_applied migs Hnd db (rev st) pend Hp), rev_involutive.
    by apply (calm_downs run_script migs Hnd st pend (create_bookkeeping db)).
Qed.

(** A schema that remembers every script it ran, the latest first. *)
Definition sample_run (script : string) (ran : list string) : option (list string) := Some (script :: ran).

Definition fresh_schema : @Schema (list string) := mkSchema [] None.

(** An Up whose first script commits without an answer, one that fails after the
    next script, a Down that takes one back. *)
Definition schema_1 : @Schema (list string) := snd (Up sample_run sample_migrations Done Done [Lost] fresh_schema).
Definition schema_2 : @Schema (list string) := snd (Up sample_run sample_migrations Done Done [Done; Failed] schema_1).
Definition interrupted_schema : @Schema (list string) := snd (Down sample_run sample_migrations Done Done [Done; Failed] schema_2).

(** What ran before, and what an undisturbed Up adds. *)
Example interrupted_then_up :
  sc_objects interrupted_schema = ["DROP TABLE c;"; "CREATE TABLE c();"; "CREATE TABLE a();"] /\
  Up sample_run sample_migrations Done Done (repeat Done 3) interrupted_schema =
    (Ok (), mkSchema ("CREATE TABLE b();" :: "CREATE TABLE c();" :: sc_objects interrupted_schema) (Some {[1 := "init"; 2 := "it's"; 10 := "b"]})).
Proof. vm_compute. done. Qed.

(** From the interrupted schema one migration is applied; two scripts of Up are due,
    one of Down. *)
Lemma migrations_resume_witness :
  exists stack pending, sample_migrations = rev stack ++ pending /\
    applied_of interrupted_schema = recorded stack /\
    Up sample_run sample_migrations Done Done (repeat Done 3) interrupted_schema =
      (let '(ran, rest, s) := run_while sample_run mi_Up pending (sc_objects interrupted_schema) in
       (stopped_at rest, mkSchema s (Some (recorded (rev ran ++ stack))))).
Proof.
  destruct (migrations_resume sample_run sample_migrations fresh_schema interrupted_schema) as (h & st & pend & Hm & _ & Ha & _ & _ & Hup & _).
  - change (map mi_Version sample_migrations) with [1; 2; 10]. repeat constructor.
  - reflexivity.
  - apply (rtc_l _ _ schema_1); [exact (AUp sample_run sample_migrations fresh_schema Done Done [Lost])|].
    apply (rtc_l _ _ schema_2); [exact (AUp sample_run sample_migrations schema_1 Done Done [Done; Failed])|].
    apply rtc_once. exact (ADown sample_run sample_migrations schema_2 Done Done [Done; Failed]).
  - exists st, pend. split; [exact Hm|]. split; [exact Ha|exact Hup].
Defined.
