(* ===== verification/Metrics.v ===== *)
(** * Metrics

    internal/observability/metrics.go: counters, gauges, histograms over binary64
    floats, the registry and its text exposition.  Only the shortest decimal form
    of a float ([%g]) is a parameter. *)

From Stdlib Require Import Ascii SpecFloat.
From S2P Require Import Prelude GoStd Duration Metadata.

Open Scope Z_scope.

(** ** Histograms *)

Record Histogram := mkHistogram {
  hg_buckets : list float64;
  hg_counts : list Z;           (* one more than buckets: +Inf is the last *)
  hg_sum : float64;
  hg_total : Z
}.

Definition float_zero : float64 := S754_zero false.

Definition NewHistogram (buckets : list float64) : Histogram :=
  mkHistogram buckets (replicate (S (length buckets)) 0) float_zero 0.

(** The first bucket whose bound is not below the value, or their number. *)
Fixpoint bucket_of (v : float64) (buckets : list float64) : nat :=
  match buckets with
  | [] => O
  | upper :: rest => if SFleb v upper then O else S (bucket_of v rest)
  end.

Definition Observe (v : float64) (h : Histogram) : Histogram :=
  mkHistogram (hg_buckets h) (alter (fun c => wrap64 (c + 1)) (bucket_of v (hg_buckets h)) (hg_counts h))
    (SFadd 53 1024 (hg_sum h) v) (wrap64 (hg_total h + 1)).

Definition DefaultLatencyBuckets : list float64 := Eval vm_compute in map float_of_Z [1; 5; 10; 25; 50; 100; 250; 500; 1000; 2500; 5000].

(** ** The registry *)

Record Registry := mkRegistry {
  rg_counters : gmap string Z;
  rg_gauges : gmap string Z;
  rg_histograms : gmap string Histogram;
  rg_helps : gmap string string;
  rg_labels : gmap string string
}.

Definition NewRegistry (labels : gmap string string) : Registry := mkRegistry ∅ ∅ ∅ ∅ labels.

(** The metric of a name, created at the first access. *)
Definition Counter (name help : string) (r : Registry) : Registry :=
  match rg_counters r !! name with
  | Some _ => r
  | None => mkRegistry (<[name := 0]> (rg_counters r)) (rg_gauges r) (rg_histograms r) (<[name := help]> (rg_helps r)) (rg_labels r)
  end.

Definition Gauge (name help : string) (r : Registry) : Registry :=
  match rg_gauges r !! name with
  | Some _ => r
  | None => mkRegistry (rg_counters r) (<[name := 0]> (rg_gauges r)) (rg_histograms r) (<[name := help]> (rg_helps r)) (rg_labels r)
  end.

Definition Histogram_ (name help : string) (buckets : list float64) (r : Registry) : Registry :=
  match rg_histograms r !! name with
  | Some _ => r
  | None => mkRegistry (rg_counters r) (rg_gauges r) (<[name := NewHistogram buckets]> (rg_histograms r))
              (<[name := help]> (rg_helps r)) (rg_labels r)
  end.

(** Methods of the metric that a name returns. *)
Definition Add (name help : string) (n : Z) (r : Registry) : Registry :=
  let r := Counter name help r in
  mkRegistry (alter (fun c => wrap64 (c + n)) name (rg_counters r)) (rg_gauges r) (rg_histograms r) (rg_helps r) (rg_labels r).

Definition Set_ (name help : string) (v : Z) (r : Registry) : Registry :=
  let r := Gauge name help r in
  mkRegistry (rg_counters r) (alter (fun _ => v) name (rg_gauges r)) (rg_histograms r) (rg_helps r) (rg_labels r).

Definition ObserveIn (name help : string) (buckets : list float64) (v : float64) (r : Registry) : Registry :=
  let r := Histogram_ name help buckets r in
  mkRegistry (rg_counters r) (rg_gauges r) (alter (Observe v) name (rg_histograms r)) (rg_helps r) (rg_labels r).

(** ** The metrics of the program *)

Definition MetricHeartbeatAgeSec : string := "marketdata_runtime_heartbeat_age_seconds".
Definition MetricOwnedGroups : string := "marketdata_runtime_owned_groups".
Definition MetricProcessedTotal : string := "marketdata_runtime_processed_messages_total".
Definition MetricWriteErrorsTotal : string := "marketdata_runtime_write_errors_total".
Definition MetricDecodeErrorsTotal : string := "marketdata_runtime_decode_errors_total".
Definition MetricLeaseFailures : string := "marketdata_runtime_lease_renew_failures_total".
Definition MetricStorageWriteLatency : string := "marketdata_storage_write_latency_ms".

(** The functions on the global registry; without one they do nothing. *)
Inductive metric_event :=
| IncProcessedTotal (n : Z)
| IncWriteErrors
| IncDecodeErrors
| IncLeaseFailures
| ObserveWriteLatencyMs (ms : float64)
| SetOwnedGroups (n : Z)
| ReportHeartbeat.

Definition record_event (e : metric_event) (r : Registry) : Registry :=
  match e with
  | IncProcessedTotal n => Add MetricProcessedTotal "Total number of messages decoded and persisted" n r
  | IncWriteErrors => Add MetricWriteErrorsTotal "Total number of database write failures" 1 r
  | IncDecodeErrors => Add MetricDecodeErrorsTotal "Total number of message decode/validation failures" 1 r
  | IncLeaseFailures => Add MetricLeaseFailures "Total number of group lease renewal failures" 1 r
  | ObserveWriteLatencyMs ms =>
      ObserveIn MetricStorageWriteLatency "Database write latency in milliseconds" DefaultLatencyBuckets ms r
  | SetOwnedGroups n => Set_ MetricOwnedGroups "Number of MarketGroups currently owned by this runtime" n r
  | ReportHeartbeat => Set_ MetricHeartbeatAgeSec "Seconds since last successful runtime heartbeat" 0 r
  end.

Definition globally (e : metric_event) (globalRegistry : option Registry) : option Registry :=
  match globalRegistry with
  | None => None
  | Some r => Some (record_event e r)
  end.

(** ** The text exposition *)

(** Two map keys in the order of [sort.Strings]. *)
Definition sortedKeys {A} (m : gmap string A) : list string := merge_sort (key_le (fun s => s)) (map fst (map_to_list m)).

Definition quote : string := String (ascii_of_nat 34) "".

Definition label_pair (k v : string) : string := k +:+ "=" +:+ quote +:+ v +:+ quote.

Definition static_labels (labels : gmap string string) : string :=
  match sortedKeys labels with
  | [] => ""
  | ks => "{" +:+ strings.Join (map (fun k => label_pair k (default "" (labels !! k))) ks) "," +:+ "}"
  end.

Fixpoint drop_last (s : string) : string :=
  match s with
  | EmptyString => ""
  | String c EmptyString => ""
  | String c s' => String c (drop_last s')
  end.

Definition histogramLabels (staticLabels le : string) : string :=
  if bool_decide (staticLabels = "") then "{" +:+ label_pair "le" le +:+ "}"
  else drop_last staticLabels +:+ "," +:+ label_pair "le" le +:+ "}".

Section exposition.

(** [fmt.Sprintf("%g", x)] *)
Variable fmt_g : float64 -> string.

(** A line: a comment, an integer sample, a float sample. *)
Inductive line :=
| Help (name help : string)
| Type_ (name kind : string)
| Sample (name labels : string) (v : Z)
| SampleF (name labels : string) (v : float64).

Definition render (l : line) : string :=
  match l with
  | Help name help => "# HELP " +:+ name +:+ " " +:+ help
  | Type_ name kind => "# TYPE " +:+ name +:+ " " +:+ kind
  | Sample name labels v => name +:+ labels +:+ " " +:+ strconv.FormatInt v
  | SampleF name labels v => name +:+ labels +:+ " " +:+ fmt_g v
  end.

Definition help_of (r : Registry) (name : string) : string := default "" (rg_helps r !! name).

(** The cumulative count up to a bucket, summed from the start each time. *)
Definition cumulative (h : Histogram) (i : nat) : Z := foldl (fun cum c => wrap64 (cum + c)) 0 (take (S i) (hg_counts h)).

Definition histogram_lines (r : Registry) (name : string) (h : Histogram) : list line :=
  let labels := static_labels (rg_labels r) in
  [Help name (help_of r name); Type_ name "histogram"] ++
  imap (fun i upper => Sample (name +:+ "_bucket") (histogramLabels labels (fmt_g upper)) (cumulative h i)) (hg_buckets h) ++
  [Sample (name +:+ "_bucket") (histogramLabels labels "+Inf") (hg_total h);
   SampleF (name +:+ "_sum") labels (hg_sum h);
   Sample (name +:+ "_count") labels (hg_total h)].

Definition plain_lines (kind : string) (r : Registry) (m : gmap string Z) : list line :=
  concat (map (fun name => [Help name (help_of r name); Type_ name kind;
                            Sample name (static_labels (rg_labels r)) (default 0 (m !! name))]) (sortedKeys m)).

(** The lines [serveMetrics] prints, each ended by a newline. *)
Definition exposition (r : Registry) : list line :=
  plain_lines "counter" r (rg_counters r) ++ plain_lines "gauge" r (rg_gauges r) ++
  concat (map (fun name => match rg_histograms r !! name with Some h => histogram_lines r name h | None => [] end)
            (sortedKeys (rg_histograms r))).

Definition serveMetrics (r : Registry) : string :=
  foldr (fun l s => render l +:+ String (ascii_of_nat 10) s) "" (exposition r).

End exposition.

(** ** Health *)

Inductive health_reply := HealthOK | Ready | NotReady (message : string).

Definition health_status (h : health_reply) : Z := match h with NotReady _ => 503 | _ => 200 end.

(** [check] answers [None], or the text of its error. *)
Definition ReadinessHandler (check : option string) : health_reply :=
  match check with
  | Some e => NotReady e
  | None => Ready
  end.

(** ** The order of floats *)

(** Sign and size class, exponent, mantissa. *)
Definition float_key (x : float64) : option (Z * Z * Z) :=
  match x with
  | S754_nan => None
  | S754_infinity true => Some (-2, 0, 0)
  | S754_infinity false => Some (2, 0, 0)
  | S754_zero _ => Some (0, 0, 0)
  | S754_finite true m e => Some (-1, - e, - Z.pos m)
  | S754_finite false m e => Some (1, e, Z.pos m)
  end.

Definition key3_le (a b : Z * Z * Z) : Prop :=
  let '(a1, a2, a3) := a in let '(b1, b2, b3) := b in a1 < b1 \/ a1 = b1 /\ (a2 < b2 \/ a2 = b2 /\ a3 <= b3).

Lemma SFleb_key x y :
  SFleb x y = true <-> exists a b, float_key x = Some a /\ float_key y = Some b /\ key3_le a b.
Proof.
  assert (forall a b, float_key x = Some a -> float_key y = Some b -> (SFleb x y = true <-> key3_le a b)) as H.
  { intros a b. unfold SFleb, SFcompare.
    destruct x as [s1|s1| |s1 m1 e1], y as [s2|s2| |s2 m2 e2]; cbn; try done; try destruct s1; try destruct s2; intros [= <-] [= <-]; cbn;
      try first [by (split; [lia|done])|by (split; [done|lia])].
    - change (Pos.compare_cont Eq m1 m2) with (Pos.compare m1 m2). destruct (Z.compare_spec e1 e2), (Pos.compare_spec m1 m2); cbn; split; try done; lia.
    - change (Pos.compare_cont Eq m1 m2) with (Pos.compare m1 m2). destruct (Z.compare_spec e1 e2), (Pos.compare_spec m1 m2); cbn; split; try done; lia. }
  destruct (float_key x) as [a|] eqn:E1, (float_key y) as [b|] eqn:E2.
  - rewrite (H a b eq_refl eq_refl). split; [intros Hk; by exists a, b|by intros (? & ? & [= <-] & [= <-] & Hk)].
  - split; [|by intros (? & ? & _ & [=] & _)]. destruct y as [|[]| |[]]; try done. unfold SFleb, SFcompare. by destruct x.
  - split; [|by intros (? & ? & [=] & _)]. by destruct x as [|[]| |[]].
  - split; [|by intros (? & ? & [=] & _)]. by destruct x as [|[]| |[]].
Qed.

Lemma SFleb_trans x y z : SFleb x y = true -> SFleb y z = true -> SFleb x z = true.
Proof.
  rewrite !SFleb_key. intros (a & b & Ha & Hb & H1) (b' & c & Hb' & Hc & H2). rewrite Hb in Hb'. injection Hb' as <-.
  exists a, c. split_and!; [done..|]. destruct a as [[]], b as [[]], c as [[]]. unfold key3_le in *. lia.
Qed.

(** ** What a histogram counts *)

Definition float_sorted (buckets : list float64) : Prop := StronglySorted (fun a b => SFleb a b = true) buckets.

Lemma bucket_of_le v buckets i u :
  float_sorted buckets -> buckets !! i = Some u -> (bucket_of v buckets <= i)%nat <-> SFleb v u = true.
Proof.
  intros Hs. revert i. induction Hs as [|b buckets Hs IH HF]; intros i Hi; [done|]. cbn. destruct (SFleb v b) eqn:E.
  - split; [|lia]. intros _. destruct i as [|i]; cbn in Hi; [by injection Hi as <-|].
    rewrite Forall_forall in HF. eapply SFleb_trans; [exact E|]. apply HF. by eapply list_elem_of_lookup_2.
  - destruct i as [|i]; cbn in Hi; [injection Hi as <-; rewrite E; split; [lia|done]|]. rewrite <- (IH i Hi). lia.
Qed.

Lemma bucket_of_length v buckets : (bucket_of v buckets <= length buckets)%nat.
Proof. induction buckets as [|b buckets IH]; cbn; [lia|]. destruct (SFleb v b); lia. Qed.

Definition observed (buckets vs : list float64) : Histogram := foldl (fun h v => Observe v h) (NewHistogram buckets) vs.

Definition count {A} (f : A -> bool) (l : list A) : Z := Z.of_nat (length (List.filter f l)).

Lemma count_snoc {A} (f : A -> bool) l x : count f (l ++ [x]) = count f l + (if f x then 1 else 0).
Proof. unfold count. rewrite List.filter_app, length_app. cbn. destruct (f x); cbn; lia. Qed.

Lemma count_le {A} (f : A -> bool) l : 0 <= count f l <= Z.of_nat (length l).
Proof. unfold count. pose proof (List.filter_length_le f l). lia. Qed.

Lemma observed_buckets buckets vs : hg_buckets (observed buckets vs) = buckets.
Proof. unfold observed. induction vs as [|v vs IH] using rev_ind; [done|]. by rewrite foldl_snoc. Qed.

Lemma int64_nat n : (Z.of_nat n < 2 ^ 63) -> int64 (Z.of_nat n).
Proof. unfold int64, int64_min, int64_max. lia. Qed.

Lemma observed_total buckets vs : Z.of_nat (length vs) < 2 ^ 63 -> hg_total (observed buckets vs) = Z.of_nat (length vs).
Proof.
  unfold observed. induction vs as [|v vs IH] using rev_ind; [done|]. rewrite foldl_snoc, length_app. cbn [length]. intros H. cbn [hg_total Observe].
  rewrite IH by lia. replace (Z.of_nat (length vs) + 1) with (Z.of_nat (length vs + 1)) by lia. by apply wrap64_small, int64_nat.
Qed.

Lemma observed_counts buckets vs :
  Z.of_nat (length vs) < 2 ^ 63 ->
  hg_counts (observed buckets vs) = map (fun j => count (fun v => Nat.eqb (bucket_of v buckets) j) vs) (seq 0 (S (length buckets))).
Proof.
  unfold observed. induction vs as [|v vs IH] using rev_ind; intros H.
  - cbn [foldl NewHistogram hg_counts]. generalize (S (length buckets)). intros n. generalize O.
    induction n as [|n IH]; intros j; cbn; [done|]. f_equal. apply IH.
  - rewrite foldl_snoc. cbn [Observe hg_counts]. rewrite length_app in H. cbn in H. rewrite IH by lia.
    rewrite (observed_buckets buckets vs : hg_buckets (foldl _ _ vs) = buckets).
    apply list_eq. intros j. destruct (decide (j < S (length buckets))%nat) as [Hj|Hj].
    + assert (forall ws, map (fun j => count (fun v => Nat.eqb (bucket_of v buckets) j) ws) (seq 0 (S (length buckets))) !! j =
        Some (count (fun v => Nat.eqb (bucket_of v buckets) j) ws)) as Hl by (intros ws; by rewrite list_lookup_fmap, lookup_seq_lt).
      rewrite Hl, count_snoc. destruct (Nat.eqb_spec (bucket_of v buckets) j) as [E|E].
      * rewrite E, list_lookup_alter_eq, Hl. cbn. f_equal. apply wrap64_small. unfold int64, int64_min, int64_max.
        pose proof (count_le (fun v => Nat.eqb (bucket_of v buckets) j) vs). lia.
      * rewrite list_lookup_alter_ne by done. rewrite Hl. f_equal. lia.
    + rewrite !lookup_ge_None_2; [done|rewrite length_map, length_seq; lia|rewrite length_alter, length_map, length_seq; lia].
Qed.

(** Counting the values of one bucket after another is counting them at once. *)
Lemma count_split (f : float64 -> nat) vs i :
  count (fun v => Nat.leb (f v) (S i)) vs = count (fun v => Nat.leb (f v) i) vs + count (fun v => Nat.eqb (f v) (S i)) vs.
Proof.
  unfold count. induction vs as [|v vs IH]; [done|]. cbn [List.filter].
  destruct (Nat.leb_spec (f v) (S i)), (Nat.leb_spec (f v) i), (Nat.eqb_spec (f v) (S i)); cbn [length]; lia.
Qed.

Lemma observed_cumulative buckets vs i :
  Z.of_nat (length vs) < 2 ^ 63 -> (i <= length buckets)%nat ->
  cumulative (observed buckets vs) i = count (fun v => Nat.leb (bucket_of v buckets) i) vs.
Proof.
  intros H Hi. unfold cumulative. rewrite observed_counts by done. rewrite firstn_map, take_seq. replace (S i `min` S (length buckets))%nat with (S i) by lia.
  clear Hi. induction i as [|i IH].
  - cbn [seq map foldl]. rewrite Z.add_0_l, wrap64_small; [|apply int64_nat; pose proof (count_le (fun v => Nat.eqb (bucket_of v buckets) 0) vs); unfold count in *; lia].
    unfold count. f_equal. f_equal. apply List.filter_ext. intros v. by destruct (bucket_of v buckets).
  - rewrite seq_S, map_app, foldl_app, IH. cbn [map foldl]. rewrite Nat.add_0_l, count_split. apply wrap64_small, int64_nat || apply wrap64_small.
    unfold int64, int64_min, int64_max.
    pose proof (count_le (fun v => Nat.leb (bucket_of v buckets) (S i)) vs). rewrite count_split in H0.
    pose proof (count_le (fun v => Nat.leb (bucket_of v buckets) i) vs). pose proof (count_le (fun v => Nat.eqb (bucket_of v buckets) (S i)) vs). lia.
Qed.

(** The number exported for a bound is the number of values not above it. *)
Lemma cumulative_counts buckets vs i u :
  float_sorted buckets -> Z.of_nat (length vs) < 2 ^ 63 -> buckets !! i = Some u ->
  cumulative (observed buckets vs) i = count (fun v => SFleb v u) vs.
Proof.
  intros Hs Hl Hi. rewrite observed_cumulative; [|done|by eapply Nat.lt_le_incl, lookup_lt_Some].
  unfold count. f_equal. f_equal. apply List.filter_ext. intros v.
  destruct (SFleb v u) eqn:E; [apply Nat.leb_le|apply Nat.leb_gt, Nat.nle_gt].
  - by apply (bucket_of_le v buckets i u).
  - intros Hle. apply (bucket_of_le v buckets i u) in Hle; [congruence|done..].
Qed.

(** ** What the registry reports *)

Lemma sortedKeys_iff {A} (m : gmap string A) k : k ∈ sortedKeys m <-> is_Some (m !! k).
Proof.
  unfold sortedKeys. rewrite merge_sort_Permutation, list_elem_of_In, in_map_iff. split.
  - intros ([j x] & <- & Hin%list_elem_of_In%elem_of_map_to_list). by eexists.
  - intros [x Hx]. exists (k, x). split; [done|]. by apply list_elem_of_In, elem_of_map_to_list.
Qed.

Lemma Add_lookup name help n r k :
  rg_counters (Add name help n r) !! k = if bool_decide (k = name) then Some (wrap64 (default 0 (rg_counters r !! name) + n)) else rg_counters r !! k.
Proof.
  unfold Add, Counter. case_bool_decide as B; [subst k|].
  - destruct (rg_counters r !! name) as [c|] eqn:E; cbn; rewrite lookup_alter_eq; [by rewrite E|by rewrite lookup_insert_eq].
  - destruct (rg_counters r !! name) as [c|] eqn:E; cbn; rewrite lookup_alter_ne by done; [done|by rewrite lookup_insert_ne].
Qed.

Lemma Set_lookup name help n r k :
  rg_gauges (Set_ name help n r) !! k = if bool_decide (k = name) then Some n else rg_gauges r !! k.
Proof.
  unfold Set_, Gauge. case_bool_decide as B; [subst k|].
  - destruct (rg_gauges r !! name) as [c|] eqn:E; cbn; rewrite lookup_alter_eq; [by rewrite E|by rewrite lookup_insert_eq].
  - destruct (rg_gauges r !! name) as [c|] eqn:E; cbn; rewrite lookup_alter_ne by done; [done|by rewrite lookup_insert_ne].
Qed.

Lemma ObserveIn_lookup name help buckets v r k :
  rg_histograms (ObserveIn name help buckets v r) !! k =
    if bool_decide (k = name) then Some (Observe v (default (NewHistogram buckets) (rg_histograms r !! name))) else rg_histograms r !! k.
Proof.
  unfold ObserveIn, Histogram_. case_bool_decide as B; [subst k|].
  - destruct (rg_histograms r !! name) as [c|] eqn:E; cbn; rewrite lookup_alter_eq; [by rewrite E|by rewrite lookup_insert_eq].
  - destruct (rg_histograms r !! name) as [c|] eqn:E; cbn; rewrite lookup_alter_ne by done; [done|by rewrite lookup_insert_ne].
Qed.

Lemma Counter_same name help r : rg_gauges (Counter name help r) = rg_gauges r /\ rg_histograms (Counter name help r) = rg_histograms r /\ rg_labels (Counter name help r) = rg_labels r.
Proof. unfold Counter. by destruct (_ !! _). Qed.

Lemma Gauge_same name help r : rg_counters (Gauge name help r) = rg_counters r /\ rg_histograms (Gauge name help r) = rg_histograms r /\ rg_labels (Gauge name help r) = rg_labels r.
Proof. unfold Gauge. by destruct (_ !! _). Qed.

Lemma Histogram_same name help b r : rg_counters (Histogram_ name help b r) = rg_counters r /\ rg_gauges (Histogram_ name help b r) = rg_gauges r /\ rg_labels (Histogram_ name help b r) = rg_labels r.
Proof. unfold Histogram_. by destruct (_ !! _). Qed.

(** What an event adds to a counter; the latency it observes. *)
Definition increment (name : string) (e : metric_event) : option Z :=
  match e with
  | IncProcessedTotal n => if bool_decide (name = MetricProcessedTotal) then Some n else None
  | IncWriteErrors => if bool_decide (name = MetricWriteErrorsTotal) then Some 1 else None
  | IncDecodeErrors => if bool_decide (name = MetricDecodeErrorsTotal) then Some 1 else None
  | IncLeaseFailures => if bool_decide (name = MetricLeaseFailures) then Some 1 else None
  | _ => None
  end.

Definition latency (e : metric_event) : option float64 :=
  match e with ObserveWriteLatencyMs ms => Some ms | _ => None end.

Definition after_events (labels : gmap string string) (events : list metric_event) : Registry :=
  foldl (fun r e => record_event e r) (NewRegistry labels) events.

Definition sum (l : list Z) : Z := foldl Z.add 0 l.

Lemma wrap64_add_l a n : wrap64 (wrap64 a + n) = wrap64 (a + n).
Proof. replace (wrap64 a + n) with (wrap64 a - - n) by lia. rewrite wrap64_sub. f_equal. lia. Qed.

Lemma after_counters labels events name :
  rg_counters (after_events labels events) !! name =
    match omap (increment name) events with [] => None | ns => Some (wrap64 (sum ns)) end.
Proof.
  unfold after_events. induction events as [|e events IH] using rev_ind; [apply lookup_empty|]. rewrite foldl_snoc, omap_app. cbn [omap list_omap].
  assert (forall nm help n, rg_counters (Add nm help n (foldl (fun r e => record_event e r) (NewRegistry labels) events)) !! name =
    match omap (increment name) events ++ (if bool_decide (name = nm) then [n] else []) with [] => None | ns => Some (wrap64 (sum ns)) end) as HA.
  { intros nm help n. rewrite Add_lookup. case_bool_decide as B; [|by rewrite app_nil_r]. subst nm. rewrite IH. unfold sum.
    destruct (omap (increment name) events) as [|x xs]; cbn; [done|]. by rewrite foldl_snoc, wrap64_add_l. }
  destruct e; cbn [record_event increment]; rewrite ?HA; try (by case_bool_decide); rewrite app_nil_r.
  - unfold ObserveIn. cbn. destruct (Histogram_same MetricStorageWriteLatency "Database write latency in milliseconds" DefaultLatencyBuckets (foldl (fun r e => record_event e r) (NewRegistry labels) events)) as [-> _]. exact IH.
  - unfold Set_. cbn. destruct (Gauge_same MetricOwnedGroups "Number of MarketGroups currently owned by this runtime" (foldl (fun r e => record_event e r) (NewRegistry labels) events)) as [-> _]. exact IH.
  - unfold Set_. cbn. destruct (Gauge_same MetricHeartbeatAgeSec "Seconds since last successful runtime heartbeat" (foldl (fun r e => record_event e r) (NewRegistry labels) events)) as [-> _]. exact IH.
Qed.

Lemma Add_same name help n r : rg_gauges (Add name help n r) = rg_gauges r /\ rg_histograms (Add name help n r) = rg_histograms r /\ rg_labels (Add name help n r) = rg_labels r.
Proof. unfold Add. cbn. apply Counter_same. Qed.

Lemma Set_same name help n r : rg_histograms (Set_ name help n r) = rg_histograms r /\ rg_labels (Set_ name help n r) = rg_labels r.
Proof. unfold Set_. cbn. apply Gauge_same. Qed.

Lemma ObserveIn_same name help b v r : rg_gauges (ObserveIn name help b v r) = rg_gauges r /\ rg_labels (ObserveIn name help b v r) = rg_labels r.
Proof. unfold ObserveIn. cbn. apply Histogram_same. Qed.

Lemma record_labels e r : rg_labels (record_event e r) = rg_labels r.
Proof. destruct e; cbn [record_event]; first [apply Add_same|apply Set_same|apply ObserveIn_same]. Qed.

Lemma after_labels labels events : rg_labels (after_events labels events) = labels.
Proof. unfold after_events. induction events as [|e events IH] using rev_ind; [done|]. by rewrite foldl_snoc, record_labels. Qed.

Lemma after_histogram labels events :
  rg_histograms (after_events labels events) !! MetricStorageWriteLatency =
    match omap latency events with [] => None | vs => Some (observed DefaultLatencyBuckets vs) end.
Proof.
  unfold after_events. induction events as [|e events IH] using rev_ind; [apply lookup_empty|]. rewrite foldl_snoc, omap_app. cbn [omap list_omap].
  destruct e; cbn [record_event latency]; rewrite ?app_nil_r; try (by rewrite (proj1 (proj2 (Add_same _ _ _ _)))); try (by rewrite (proj1 (Set_same _ _ _ _))).
  rewrite ObserveIn_lookup, bool_decide_true by done. rewrite IH. unfold observed. destruct (omap latency events) as [|x xs]; cbn; [done|]. by rewrite foldl_snoc.
Qed.

(** The heartbeat gauge is only ever set to zero: no age is ever reported. *)
Lemma heartbeat_age_is_zero labels events v :
  rg_gauges (after_events labels events) !! MetricHeartbeatAgeSec = Some v -> v = 0.
Proof.
  unfold after_events. revert v. induction events as [|e events IH] using rev_ind; intros v; [cbn; by rewrite lookup_empty|]. rewrite foldl_snoc.
  destruct e; cbn [record_event]; rewrite ?(proj1 (Add_same _ _ _ _)), ?(proj1 (ObserveIn_same _ _ _ _ _)), ?Set_lookup; try apply IH; cbn; by intros [= <-].
Qed.

(** The last value a gauge was set to. *)
Definition gauge_set (name : string) (e : metric_event) : option Z :=
  match e with
  | SetOwnedGroups n => if bool_decide (name = MetricOwnedGroups) then Some n else None
  | ReportHeartbeat => if bool_decide (name = MetricHeartbeatAgeSec) then Some 0 else None
  | _ => None
  end.

Lemma after_gauges labels events name :
  rg_gauges (after_events labels events) !! name = last (omap (gauge_set name) events).
Proof.
  unfold after_events. induction events as [|e events IH] using rev_ind; [apply lookup_empty|]. rewrite foldl_snoc, omap_app. cbn [omap list_omap].
  destruct e; cbn [record_event gauge_set];
    rewrite ?(proj1 (Add_same _ _ _ _)), ?(proj1 (ObserveIn_same _ _ _ _ _)), ?Set_lookup, ?app_nil_r; try exact IH;
    (case_bool_decide; [by rewrite last_snoc|by rewrite app_nil_r]).
Qed.

(** ** The names and help texts of the metrics *)

Definition counter_names : list string := [MetricDecodeErrorsTotal; MetricLeaseFailures; MetricProcessedTotal; MetricWriteErrorsTotal].
Definition gauge_names : list string := [MetricHeartbeatAgeSec; MetricOwnedGroups].

Definition help_text (name : string) : string :=
  if bool_decide (name = MetricDecodeErrorsTotal) then "Total number of message decode/validation failures"
  else if bool_decide (name = MetricLeaseFailures) then "Total number of group lease renewal failures"
  else if bool_decide (name = MetricProcessedTotal) then "Total number of messages decoded and persisted"
  else if bool_decide (name = MetricWriteErrorsTotal) then "Total number of database write failures"
  else if bool_decide (name = MetricHeartbeatAgeSec) then "Seconds since last successful runtime heartbeat"
  else if bool_decide (name = MetricOwnedGroups) then "Number of MarketGroups currently owned by this runtime"
  else if bool_decide (name = MetricStorageWriteLatency) then "Database write latency in milliseconds"
  else "".

(** Every metric of a registry is one of the program's, with its help text. *)
Record known_metrics (r : Registry) : Prop := {
  known_counters : forall name, is_Some (rg_counters r !! name) -> name ∈ counter_names /\ rg_helps r !! name = Some (help_text name);
  known_gauges : forall name, is_Some (rg_gauges r !! name) -> name ∈ gauge_names /\ rg_helps r !! name = Some (help_text name);
  known_histograms : forall name, is_Some (rg_histograms r !! name) -> name = MetricStorageWriteLatency /\ rg_helps r !! name = Some (help_text name)
}.

Lemma Add_known name help n r : known_metrics r -> name ∈ counter_names -> help = help_text name -> known_metrics (Add name help n r).
Proof.
  intros [H1 H2 H3] Hn ->. assert (forall k, rg_helps r !! k = Some (help_text k) -> rg_helps (Add name (help_text name) n r) !! k = Some (help_text k)) as HH.
  { intros k Hk. unfold Add, Counter. destruct (_ !! name); [done|]. cbn. destruct (decide (k = name)) as [->|]; [by rewrite lookup_insert_eq|by rewrite lookup_insert_ne]. }
  pose proof (Add_same name (help_text name) n r) as (E1 & E2 & _). split; rewrite ?E1, ?E2.
  - intros k. rewrite Add_lookup. case_bool_decide as B; [subst k; intros _; split; [done|]|intros Hk; destruct (H1 k Hk); auto].
    unfold Add, Counter. destruct (rg_counters r !! name) eqn:E; cbn; [apply H1; by eexists|by rewrite lookup_insert_eq].
  - intros k Hk. destruct (H2 k Hk). auto.
  - intros k Hk. destruct (H3 k Hk). auto.
Qed.

Lemma Set_known name help n r : known_metrics r -> name ∈ gauge_names -> help = help_text name -> known_metrics (Set_ name help n r).
Proof.
  intros [H1 H2 H3] Hn ->. assert (forall k, rg_helps r !! k = Some (help_text k) -> rg_helps (Set_ name (help_text name) n r) !! k = Some (help_text k)) as HH.
  { intros k Hk. unfold Set_, Gauge. destruct (_ !! name); [done|]. cbn. destruct (decide (k = name)) as [->|]; [by rewrite lookup_insert_eq|by rewrite lookup_insert_ne]. }
  pose proof (Gauge_same name (help_text name) r) as (E1 & E2 & _). split.
  - intros k. unfold Set_. cbn [rg_counters]. rewrite E1. intros Hk. destruct (H1 k Hk). split; [done|]. by apply HH.
  - intros k. rewrite Set_lookup. case_bool_decide as B; [subst k; intros _; split; [done|]|intros Hk; destruct (H2 k Hk); auto].
    unfold Set_, Gauge. destruct (rg_gauges r !! name) eqn:E; cbn; [apply H2; by eexists|by rewrite lookup_insert_eq].
  - intros k. rewrite (proj1 (Set_same _ _ _ _)). intros Hk. destruct (H3 k Hk). auto.
Qed.

Lemma ObserveIn_known help b v r :
  known_metrics r -> help = help_text MetricStorageWriteLatency -> known_metrics (ObserveIn MetricStorageWriteLatency help b v r).
Proof.
  intros [H1 H2 H3] ->. set (name := MetricStorageWriteLatency).
  assert (forall k, rg_helps r !! k = Some (help_text k) -> rg_helps (ObserveIn name (help_text name) b v r) !! k = Some (help_text k)) as HH.
  { intros k Hk. unfold ObserveIn, Histogram_. destruct (_ !! name); [done|]. cbn. destruct (decide (k = name)) as [->|]; [by rewrite lookup_insert_eq|by rewrite lookup_insert_ne]. }
  pose proof (Histogram_same name (help_text name) b r) as (E1 & E2 & _). split.
  - intros k. unfold ObserveIn. cbn [rg_counters]. rewrite E1. intros Hk. destruct (H1 k Hk). split; [done|]. by apply HH.
  - intros k. unfold ObserveIn. cbn [rg_gauges]. rewrite E2. intros Hk. destruct (H2 k Hk). split; [done|]. by apply HH.
  - intros k. rewrite ObserveIn_lookup. case_bool_decide as B; [subst k; intros _; split; [done|]|intros Hk; destruct (H3 k Hk); auto].
    unfold ObserveIn, Histogram_. destruct (rg_histograms r !! name) eqn:E; cbn; [apply H3; by eexists|by rewrite lookup_insert_eq].
Qed.

Lemma after_known labels events : known_metrics (after_events labels events).
Proof.
  unfold after_events. induction events as [|e events IH] using rev_ind.
  - split; intros name [x Hx]; cbn in Hx; by rewrite lookup_empty in Hx.
  - rewrite foldl_snoc. destruct e; cbn [record_event];
      first [apply (Add_known _ _ _ _ IH)|apply (Set_known _ _ _ _ IH)|apply (ObserveIn_known _ _ _ _ IH)];
      first [vm_compute; reflexivity|unfold counter_names, gauge_names; set_solver].
Qed.

(** ** The printed text *)

(** The keys of a map all of whose keys are among some names, given in order. *)
Lemma sortedKeys_among {A} (m : gmap string A) names :
  StronglySorted string_le names -> NoDup names -> (forall k, is_Some (m !! k) -> k ∈ names) ->
  sortedKeys m = filter (fun k => is_Some (m !! k)) names.
Proof.
  intros Hs Hn Hin. apply (StronglySorted_unique string_le).
  - apply Sorted_StronglySorted; [apply _|]. unfold sortedKeys. apply (Sorted_merge_sort (key_le (fun s => s))).
  - clear -Hs. induction Hs as [|k names Hs IH HF]; [constructor|]. rewrite filter_cons. case_decide; [|done].
    constructor; [done|]. rewrite Forall_forall in HF |- *. intros x [_ Hx]%list_elem_of_filter. by apply HF.
  - apply NoDup_Permutation.
    + unfold sortedKeys. rewrite merge_sort_Permutation. apply (NoDup_fst_map_to_list m).
    + by apply NoDup_filter.
    + intros k. rewrite sortedKeys_iff, list_elem_of_filter. split; [|by intros []]. intros Hk. split; [done|by apply Hin].
Qed.

(** Bounds of the default histogram ascend. *)
Lemma default_buckets_sorted : float_sorted DefaultLatencyBuckets.
Proof. repeat constructor. Qed.

(** ** The page *)

Definition newline : string := String (ascii_of_nat 10) "".

Definition unlines (ls : list string) : string := foldr (fun l s => l +:+ newline +:+ s) "" ls.

(** Labels in braces: the static ones in the order of their names, then the others. *)
Definition braces (labels : gmap string string) (more : list (string * string)) : string :=
  match (map (fun k => label_pair k (default "" (labels !! k))) (sortedKeys labels) ++ map (fun kv => label_pair kv.1 kv.2) more)%list with
  | [] => ""
  | pairs => "{" +:+ strings.Join pairs "," +:+ "}"
  end.

(** A metric with its two comments; nothing when it has no sample. *)
Definition family (name kind : string) (samples : list string) : list string :=
  match samples with
  | [] => []
  | _ => ("# HELP " +:+ name +:+ " " +:+ help_text name) :: ("# TYPE " +:+ name +:+ " " +:+ kind) :: samples
  end.

Section page.

Variable fmt_g : float64 -> string.
Variable labels : gmap string string.
Variable events : list metric_event.

Definition counter_family (name : string) : list string :=
  family name "counter"
    match omap (increment name) events with
    | [] => []
    | ns => [name +:+ braces labels [] +:+ " " +:+ strconv.FormatInt (wrap64 (sum ns))]
    end.

Definition gauge_family (name : string) : list string :=
  family name "gauge"
    match last (omap (gauge_set name) events) with
    | None => []
    | Some v => [name +:+ braces labels [] +:+ " " +:+ strconv.FormatInt v]
    end.

Definition latency_family : list string :=
  let name := MetricStorageWriteLatency in
  family name "histogram"
    match omap latency events with
    | [] => []
    | seen =>
        let total := strconv.FormatInt (Z.of_nat (length seen)) in
        map (fun u => name +:+ "_bucket" +:+ braces labels [("le", fmt_g u)] +:+ " " +:+
                      strconv.FormatInt (count (fun v => SFleb v u) seen)) DefaultLatencyBuckets ++
        [name +:+ "_bucket" +:+ braces labels [("le", "+Inf")] +:+ " " +:+ total;
         name +:+ "_sum" +:+ braces labels [] +:+ " " +:+ fmt_g (foldl (SFadd 53 1024) float_zero seen);
         name +:+ "_count" +:+ braces labels [] +:+ " " +:+ total]
    end.

Definition page : list string :=
  concat (map counter_family counter_names) ++ concat (map gauge_family gauge_names) ++ latency_family.

(** ** How [serveMetrics] comes to print it *)

Lemma serveMetrics_unlines r : serveMetrics fmt_g r = unlines (map (render fmt_g) (exposition fmt_g r)).
Proof. unfold serveMetrics, unlines. by induction (exposition fmt_g r) as [|l ls IH]; cbn; [|rewrite IH]. Qed.

Lemma static_labels_braces : static_labels labels = braces labels [].
Proof. unfold static_labels, braces. rewrite app_nil_r. by destruct (sortedKeys labels). Qed.

Lemma Join_snoc x l y : strings.Join ((x :: l) ++ [y]) "," = strings.Join (x :: l) "," +:+ "," +:+ y.
Proof. revert x. induction l as [|z l IH]; intros x; [done|]. cbn in *. by rewrite IH, !strings_facts.app_assoc. Qed.

Lemma drop_last_app s c : drop_last (s +:+ String c "") = s.
Proof. induction s as [|a s IH]; [done|]. rewrite !strings_facts.app_cons. cbn [drop_last]. rewrite IH. by destruct s. Qed.

Lemma histogramLabels_braces le : histogramLabels (static_labels labels) le = braces labels [("le", le)].
Proof.
  unfold histogramLabels, static_labels, braces. destruct (sortedKeys labels) as [|k ks]; [done|].
  rewrite bool_decide_false by done. cbn [map fst snd]. rewrite <- (strings_facts.app_assoc "{" _ "}"), drop_last_app.
  cbn [app]. rewrite app_comm_cons, Join_snoc, !strings_facts.app_assoc. done.
Qed.

Lemma concat_filter {A B} (P : A -> Prop) `{!forall x, Decision (P x)} (f : A -> list B) l :
  concat (map f (filter P l)) = concat (map (fun x => if decide (P x) then f x else []) l).
Proof. induction l as [|x l IH]; [done|]. rewrite filter_cons. cbn. rewrite <- IH. by case_decide. Qed.

Lemma plain_lines_page kind r m names :
  rg_labels r = labels -> StronglySorted string_le names -> NoDup names ->
  (forall k, is_Some (m !! k) -> k ∈ names /\ rg_helps r !! k = Some (help_text k)) ->
  map (render fmt_g) (plain_lines kind r m) =
    concat (map (fun name => family name kind
      match m !! name with None => [] | Some v => [name +:+ braces labels [] +:+ " " +:+ strconv.FormatInt v] end) names).
Proof.
  intros HL Hs Hn Hk. unfold plain_lines. rewrite (sortedKeys_among m names Hs Hn) by (intros k Hi; by apply Hk).
  rewrite HL, static_labels_braces, concat_map, map_map, concat_filter. f_equal. apply map_ext. intros name.
  case_decide as D; [|by rewrite <- eq_None_not_Some in D; rewrite D].
  cbn [map render]. unfold help_of. rewrite (proj2 (Hk name D)). by destruct D as [v ->].
Qed.

Lemma family_samples name kind samples :
  samples <> [] -> family name kind samples =
    ["# HELP " +:+ name +:+ " " +:+ help_text name; "# TYPE " +:+ name +:+ " " +:+ kind] ++ samples.
Proof. by destruct samples. Qed.

Lemma observed_sum buckets vs : hg_sum (observed buckets vs) = foldl (SFadd 53 1024) float_zero vs.
Proof. unfold observed. induction vs as [|v vs IH] using rev_ind; [done|]. rewrite !foldl_snoc. cbn. by rewrite IH. Qed.

Lemma bucket_lines_page seen :
  Z.of_nat (length seen) < 2 ^ 63 ->
  map (render fmt_g) (imap (fun i upper => Sample (MetricStorageWriteLatency +:+ "_bucket") (histogramLabels (static_labels labels) (fmt_g upper))
    (cumulative (observed DefaultLatencyBuckets seen) i)) DefaultLatencyBuckets) =
  map (fun u => MetricStorageWriteLatency +:+ "_bucket" +:+ braces labels [("le", fmt_g u)] +:+ " " +:+
    strconv.FormatInt (count (fun v => SFleb v u) seen)) DefaultLatencyBuckets.
Proof.
  intros Hl. apply list_eq. intros i. change (@map ?A ?B) with (@fmap list _ A B). rewrite !list_lookup_fmap, list_lookup_imap.
  destruct (DefaultLatencyBuckets !! i) as [u|] eqn:Hi; [|done]. cbn [option_map fmap option_fmap render].
  by rewrite histogramLabels_braces, (cumulative_counts DefaultLatencyBuckets seen i u default_buckets_sorted Hl Hi), strings_facts.app_assoc.
Qed.

Lemma latency_page r :
  rg_labels r = labels -> Z.of_nat (length (omap latency events)) < 2 ^ 63 ->
  (forall name, is_Some (rg_histograms r !! name) -> name = MetricStorageWriteLatency /\ rg_helps r !! name = Some (help_text name)) ->
  rg_histograms r !! MetricStorageWriteLatency =
    match omap latency events with [] => None | vs => Some (observed DefaultLatencyBuckets vs) end ->
  map (render fmt_g) (concat (map (fun name => match rg_histograms r !! name with Some h => histogram_lines fmt_g r name h | None => [] end)
    (sortedKeys (rg_histograms r)))) = latency_family.
Proof.
  intros HL Hlen Hk Hh.
  rewrite (sortedKeys_among _ [MetricStorageWriteLatency]); [|repeat constructor|apply NoDup_singleton|intros k Hi%Hk; destruct Hi as [-> _]; by left].
  rewrite filter_cons, filter_nil. unfold latency_family. case_decide as D.
  - pose proof (proj2 (Hk _ D)) as Hhelp. destruct (omap latency events) as [|x xs] eqn:E; [by rewrite Hh in D; destruct D|].
    cbn [map concat]. rewrite Hh, <- E, app_nil_r in *. unfold histogram_lines, help_of. rewrite Hhelp, HL, observed_buckets, observed_total by done.
    rewrite family_samples by discriminate. rewrite !map_app, bucket_lines_page by done. cbn [map render].
    by rewrite histogramLabels_braces, static_labels_braces, observed_sum, !strings_facts.app_assoc, E.
  - by destruct (omap latency events); [|rewrite Hh in D; exfalso; apply D; eexists].
Qed.

End page.

(** (C37) /metrics prints exactly what happened.  After any events (fewer than 2^63)
    the text is the lines of [page], each ended by a newline, and nothing else: in the
    order of their names, for each counter that was incremented its two comments and
    ONE sample with the sum of the increments (as an int64), for each gauge that was
    set one sample with the last value; and, once a latency was observed, for every
    bucket bound the number of observations not above it, the number of all of them
    under +Inf and as count, and their sum, the bucket label after the static ones. *)
Theorem exposition_reports_events fmt_g labels events :
  Z.of_nat (length events) < 2 ^ 63 ->
  serveMetrics fmt_g (after_events labels events) = unlines (page fmt_g labels events).
Proof.
  intros Hlen. assert (Z.of_nat (length (omap latency events)) < 2 ^ 63) as Hl.
  { assert (length (omap latency events) <= length events)%nat; [|lia]. clear. induction events as [|e es IH]; cbn; [lia|]. destruct (latency e); cbn; lia. }
  pose proof (after_labels labels events) as HL. destruct (after_known labels events) as [K1 K2 K3].
  rewrite serveMetrics_unlines. f_equal. unfold exposition, page. rewrite !map_app. f_equal; [|f_equal].
  - rewrite (plain_lines_page fmt_g labels "counter" _ _ counter_names HL); [|repeat constructor|apply (bool_decide_unpack _); vm_compute; exact I|exact K1].
    f_equal. apply map_ext. intros name. unfold counter_family. rewrite after_counters. by destruct (omap (increment name) events).
  - rewrite (plain_lines_page fmt_g labels "gauge" _ _ gauge_names HL); [|repeat constructor|apply (bool_decide_unpack _); vm_compute; exact I|exact K2].
    f_equal. apply map_ext. intros name. unfold gauge_family. rewrite after_gauges. by destruct (last (omap (gauge_set name) events)).
  - by apply latency_page; [..|apply after_histogram].
Qed.

Definition sample_events : list metric_event :=
  [IncProcessedTotal 3; ReportHeartbeat; ObserveWriteLatencyMs (float_of_Z 5); IncProcessedTotal 4; ObserveWriteLatencyMs (float_of_Z 7);
   IncLeaseFailures; ObserveWriteLatencyMs (float_of_Z 9999); SetOwnedGroups 2].

(** The page of these events, letter by letter ([q] is the double quote). *)
Definition sample_page : list string :=
  let q := quote in
  let service := ("service=" +:+ q +:+ "md" +:+ q)%string in
  let bucket le n := ("marketdata_storage_write_latency_ms_bucket{" +:+ service +:+ ",le=" +:+ q +:+ le +:+ q +:+ "} " +:+ n)%string in
  ["# HELP marketdata_runtime_lease_renew_failures_total Total number of group lease renewal failures";
   "# TYPE marketdata_runtime_lease_renew_failures_total counter";
   "marketdata_runtime_lease_renew_failures_total{" +:+ service +:+ "} 1";
   "# HELP marketdata_runtime_processed_messages_total Total number of messages decoded and persisted";
   "# TYPE marketdata_runtime_processed_messages_total counter";
   "marketdata_runtime_processed_messages_total{" +:+ service +:+ "} 7";
   "# HELP marketdata_runtime_heartbeat_age_seconds Seconds since last successful runtime heartbeat";
   "# TYPE marketdata_runtime_heartbeat_age_seconds gauge";
   "marketdata_runtime_heartbeat_age_seconds{" +:+ service +:+ "} 0";
   "# HELP marketdata_runtime_owned_groups Number of MarketGroups currently owned by this runtime";
   "# TYPE marketdata_runtime_owned_groups gauge";
   "marketdata_runtime_owned_groups{" +:+ service +:+ "} 2";
   "# HELP marketdata_storage_write_latency_ms Database write latency in milliseconds";
   "# TYPE marketdata_storage_write_latency_ms histogram";
   bucket "1" "0"; bucket "5" "1"; bucket "10" "2"; bucket "25" "2"; bucket "50" "2"; bucket "100" "2"; bucket "250" "2";
   bucket "500" "2"; bucket "1000" "2"; bucket "2500" "2"; bucket "5000" "2"; bucket "+Inf" "3";
   "marketdata_storage_write_latency_ms_sum{" +:+ service +:+ "} 10011";
   "marketdata_storage_write_latency_ms_count{" +:+ service +:+ "} 3"].

(** [%g] on the integers that occur here. *)
Definition fmt_g_sample (x : float64) : string :=
  match List.find (fun n => SFeqb (float_of_Z n) x) [1; 5; 10; 25; 50; 100; 250; 500; 1000; 2500; 5000; 10011] with
  | Some n => strconv.FormatInt n
  | None => ""
  end.

Lemma exposition_reports_events_witness :
  serveMetrics fmt_g_sample (after_events {["service" := "md"]} sample_events) = unlines sample_page.
Proof.
  etransitivity; [apply exposition_reports_events|]; vm_compute; reflexivity.
Defined.
