(* ===== verification/Logging.v ===== *)
(** * Logging

    internal/logging/logging.go: which records a command's logger writes, and in
    which of the two formats.  Writing them is slog's. *)

From S2P Require Import Prelude GoStd.

Open Scope Z_scope.

(** The levels of log/slog. *)
Module slog.

Definition Level : Type := Z.
Definition LevelDebug : Level := -4.
Definition LevelInfo : Level := 0.
Definition LevelWarn : Level := 4.
Definition LevelError : Level := 8.

(** A logger to the standard output: its handler and its least level. *)
Inductive Handler := TextHandler | JSONHandler.

Record Logger := mkLogger { lg_handler : Handler; lg_level : Level }.

Definition Enabled (l : Logger) (level : Level) : bool := (lg_level l <=? level).

End slog.

Definition parseLevel (level : string) : slog.Level :=
  let l := strings.ToLower (strings.TrimSpace level) in
  if bool_decide (l = "debug") then slog.LevelDebug
  else if bool_decide (l = "warn") || bool_decide (l = "warning") then slog.LevelWarn
  else if bool_decide (l = "error") then slog.LevelError
  else slog.LevelInfo.

Definition New (level format : string) : slog.Logger :=
  slog.mkLogger (if strings.EqualFold format "text" then slog.TextHandler else slog.JSONHandler) (parseLevel level).

(** No setting of the level silences errors, and debug records are written only
    when they are asked for. *)
Lemma errors_are_logged level format : slog.Enabled (New level format) slog.LevelError = true.
Proof. unfold slog.Enabled, New, parseLevel. cbn [slog.lg_level]. repeat case_match; done. Qed.

Lemma debug_is_asked_for level format :
  slog.Enabled (New level format) slog.LevelDebug = true <-> strings.ToLower (strings.TrimSpace level) = "debug".
Proof.
  unfold slog.Enabled, New, parseLevel. cbn [slog.lg_level]. case_bool_decide as H; [done|].
  repeat (case_match; try done).
Qed.

Example logger_settings :
  New " Warning" "TEXT" = slog.mkLogger slog.TextHandler slog.LevelWarn /\ New "verbose" "xml" = slog.mkLogger slog.JSONHandler slog.LevelInfo.
Proof. by vm_compute. Qed.
