(* ===== verification/Commands.v ===== *)
(** * The two commands

    cmd/md-control-plane/main.go and cmd/md-stream-runtime/main.go: what each
    does in order, from the loaded configuration to its end, with the pool of
    db/pool.go, the migrations of the repository (migrations/migrations.go) and
    the readiness check they serve.  What a call to the outside does is an
    answer; servers, signals and logging are glue.  The mode, which each command
    sets in its configuration, is read by nothing after that and is left out. *)

From S2P Require Import Prelude GoStd Model Kafka Metadata Worker Reconcile Node Partitions InputWorker GroupWorker Config Entry Migrate.

Open Scope Z_scope.

(** ** The connection pool *)

Record PoolConfig := mkPoolConfig {
  pc_DSN : string;
  pc_MaxConns : Z;
  pc_MinConns : Z;
  pc_ConnectTimeout : time.Duration;
  pc_SearchPath : string
}.

(** What the code reads and writes of a parsed pgxpool configuration. *)
Record pgx_settings := mkPgx {
  px_MaxConns : Z;
  px_MinConns : Z;
  px_RuntimeParams : gmap string string
}.

Inductive pool_error := ErrParseDSN | ErrCreatePool | ErrPing.

Section pool.
(** [pgxpool.ParseConfig] *)
Variable ParseConfig : string -> option pgx_settings.

Definition pool_settings (cfg : PoolConfig) (px : pgx_settings) : pgx_settings :=
  mkPgx (if (0 <? pc_MaxConns cfg) then pc_MaxConns cfg else px_MaxConns px)
    (if (0 <? pc_MinConns cfg) then pc_MinConns cfg else px_MinConns px)
    (if bool_decide (pc_SearchPath cfg = "") then px_RuntimeParams px
     else <["search_path" := pc_SearchPath cfg]> (px_RuntimeParams px)).

Definition ping_timeout (cfg : PoolConfig) : time.Duration :=
  if (pc_ConnectTimeout cfg <=? 0) then 5 * time.Second else pc_ConnectTimeout cfg.

(** [ping] says whether the server answers within a time. *)
Definition NewPool (cfg : PoolConfig) (created : bool) (ping : time.Duration -> bool) : result pool_error pgx_settings :=
  match ParseConfig (pc_DSN cfg) with
  | None => Err ErrParseDSN
  | Some px =>
      if negb created then Err ErrCreatePool
      else if negb (ping (ping_timeout cfg)) then Err ErrPing
      else Ok (pool_settings cfg px)
  end.

(** The pool both commands ask for. *)
Definition pool_config (cfg : Config.Config) : PoolConfig :=
  mkPoolConfig (Cfg.DatabaseDSN cfg) (Cfg.DBMaxConns cfg) (Cfg.DBMinConns cfg) (Cfg.DBConnectTimeout cfg) "".

Inductive command_error :=
| ErrConfiguration (e : config_error)
| ErrPool (e : pool_error)
| ErrMigration (e : migrate_error)
| ErrManager (e : manager_error)
| ErrMaintenance (e : part_error)
| ErrServe
| ErrNode
| ErrShutdown.

(** The head of both commands: configuration, then pool. *)
Definition connect (bootstrap : result config_error (Config.Config * list string)) (created : bool) (ping : time.Duration -> bool)
    : result command_error (Config.Config * pgx_settings) :=
  match bootstrap with
  | Err e => Err (ErrConfiguration e)
  | Ok (cfg, _) =>
      match NewPool (pool_config cfg) created ping with
      | Err e => Err (ErrPool e)
      | Ok px => Ok (cfg, px)
      end
  end.

(** ** md-control-plane *)

Definition migration_names : list string :=
  ["000001_init_metadata.down.sql"; "000001_init_metadata.up.sql";
   "000002_init_market_data.down.sql"; "000002_init_market_data.up.sql";
   "000003_tighten_metadata_constraints.down.sql"; "000003_tighten_metadata_constraints.up.sql";
   "000004_batching_and_delta_partitions.down.sql"; "000004_batching_and_delta_partitions.up.sql";
   "000005_drop_depth_limit.down.sql"; "000005_drop_depth_limit.up.sql";
   "000006_stream_poison_records.down.sql"; "000006_stream_poison_records.up.sql"].

(** The embedded directory, as far as its files can be read. *)
Definition FS (contents : string -> option string) : list (string * option string) :=
  map (fun n => (n, contents n)) migration_names.

Section control_plane.
Context {S : Type}.
Variable run_script : string -> S -> option S.
Variable range : gmap Z Migration -> list (Z * Migration).
Variable dir : list (string * option string).

(** The answers of the database to the migrator. *)
Record migrator_answers := mkAnswers {
  ma_table : outcome; ma_list : outcome; ma_scripts : list outcome;
  ma_table' : outcome; ma_version : outcome
}.

(** The branch of the flags -migrate and -migrate-down, the second one first. *)
Definition migrate_command (down : bool) (a : migrator_answers) (db : @Schema S) : result command_error () * @Schema S :=
  match loadMigrations range dir with
  | Err e => (Err (ErrMigration e), db)
  | Ok migs =>
      if down then
        match Down run_script migs (ma_table a) (ma_list a) (ma_scripts a) db with
        | (Err e, db') => (Err (ErrMigration e), db')
        | (Ok _, db') => (Ok (), db')
        end
      else
        match Up run_script migs (ma_table a) (ma_list a) (ma_scripts a) db with
        | (Err e, db') => (Err (ErrMigration e), db')
        | (Ok _, db') =>
            match Version (ma_table' a) (ma_version a) db' with
            | (Err e, db'') => (Err (ErrMigration e), db'')
            | (Ok _, db'') => (Ok (), db'')
            end
        end
  end.

(** How serving ends: a server fails, or a signal comes and the two servers are
    shut down within the timeout or not. *)
Inductive serve_end := ServerFailed | Signalled (api health : bool).

Definition serve (e : serve_end) : result command_error () :=
  match e with
  | ServerFailed => Err ErrServe
  | Signalled api health => if api && health then Ok () else Err ErrShutdown
  end.

Definition control_plane_run (migrateUp migrateDown : bool) (bootstrap : result config_error (Config.Config * list string))
    (created : bool) (ping : time.Duration -> bool) (a : migrator_answers) (e : serve_end) (db : @Schema S)
    : result command_error () * @Schema S :=
  match connect bootstrap created ping with
  | Err err => (Err err, db)
  | Ok _ => if migrateUp || migrateDown then migrate_command migrateDown a db else (serve e, db)
  end.

(** SELECT COALESCE(MAX(version), 0) FROM schema_migrations; without the table it fails. *)
Definition schema_version (db : @Schema S) : option Z := max_version <$> sc_applied db.

(** The readiness check of the control plane, the same as the runtime's. *)
Definition control_plane_ready (ping : bool) (db : @Schema S) : bool := readyCheck ping (schema_version db).

End control_plane.

(** ** md-stream-runtime *)

(** The pool and the node the runtime has made. *)
Record started := mkStarted {
  sd_pool : pgx_settings;
  sd_node : node_deps
}.

(** [run] up to the node: the partitions are maintained once before anything is
    consumed.  [free] and [now] are what the maintenance pass reads. *)
Definition runtime_start (bootstrap : result config_error (Config.Config * list string)) (created : bool)
    (ping : time.Duration -> bool) (hostname podName suffix : string) (free : bool) (now : time.Time)
    (parts : pstate) : result command_error started * PartDB :=
  match connect bootstrap created ping with
  | Err err => (Err err, parts.1)
  | Ok (cfg, px) =>
      let nodeID := resolveNodeID (Cfg.RuntimeNodeID cfg) podName hostname suffix in
      match NewOrderBookDeltaPartitionManager true (partition_config cfg) with
      | Err e => (Err (ErrManager e), parts.1)
      | Ok pc =>
          match Maintain pc free now parts with
          | (Err e, s) => (Err (ErrMaintenance e), s.1)
          | (Ok _, s) =>
              let node := NewNode true (node_config nodeID hostname podName cfg) in
              (Ok (mkStarted px (EnableConsumptionWithConfig node true true (Cfg.KafkaBrokers cfg) (consumption_config cfg))), s.1)
          end
      end
  end.

(** The rest of [run]: [node] is what Node.Run returns once its guards pass,
    [health] whether the health server shuts down in time. *)
Definition runtime_run (start : result command_error started) (node : started -> bool) (health : bool) : result command_error () :=
  match start with
  | Err e => Err e
  | Ok st =>
      if negb (node_guards (sd_node st)) || negb (node st) then Err ErrNode
      else if health then Ok () else Err ErrShutdown
  end.

End pool.

(** ** The migrations of the repository *)

Definition repository_versions : list Z := [1; 2; 3; 4; 5; 6].

Lemma check_scripts_all l :
  Forall (fun m => blank (mi_Up m) = false /\ blank (mi_Down m) = false) l -> result_mapM check_scripts l = Ok l.
Proof.
  induction 1 as [|m l [H1 H2] _ IH]; [done|].
  assert (check_scripts m = Ok m) as E by (unfold check_scripts; by rewrite H1, H2). cbn. rewrite E. cbn. by rewrite IH.
Qed.

Lemma version_sorted_unique (l : list Migration) (vs : list Z) :
  map mi_Version l ≡ₚ vs -> StronglySorted Z.lt vs -> map mi_Version (merge_sort version_le l) = vs.
Proof.
  intros Hp Hs. apply (StronglySorted_unique Z.le).
  - assert (StronglySorted version_le (merge_sort version_le l)) as H
      by (apply StronglySorted_merge_sort; intros x; unfold version_le; lia).
    induction H as [|m k _ IH HF]; cbn; [constructor|]. constructor; [done|]. apply Forall_map. exact HF.
  - clear Hp. induction Hs as [|v vs _ IH HF]; constructor; [done|]. eapply Forall_impl; [exact HF|]. cbn. lia.
  - by rewrite merge_sort_Permutation.
Qed.

(** Whatever the scripts hold, as long as none is blank, the six migrations load. *)
Lemma repository_loads range contents :
  (forall m, range m ≡ₚ map_to_list m) ->
  (forall n, n ∈ migration_names -> exists c, contents n = Some c /\ blank c = false) ->
  exists migs, loadMigrations range (FS contents) = Ok migs /\ map mi_Version migs = repository_versions.
Proof.
  intros Hr Hc.
  assert (exists cs, FS contents = zip migration_names (map Some cs) /\ length cs = 12%nat /\ Forall (fun c => blank c = false) cs) as (cs & -> & Hlen & Hb).
  { unfold FS. assert (length migration_names = 12%nat) as <- by done. revert Hc. generalize migration_names. clear.
    induction l as [|n l IH]; intros Hc; [by exists []|]. destruct (Hc n ltac:(by left)) as (c & E & Hb).
    destruct IH as (cs & Ez & Hl & Hbs); [intros x Hx; apply Hc; by right|]. exists (c :: cs). cbn. rewrite E, Hl, <- Ez. split_and!; [done..|by constructor]. }
  do 12 (destruct cs as [|? cs]; [done|]). destruct cs; [|done]. clear Hlen. rewrite !Forall_cons in Hb.
  destruct Hb as (? & ? & ? & ? & ? & ? & ? & ? & ? & ? & ? & ? & _).
  unfold loadMigrations.
  match goal with |- context [load_files ∅ ?l] => let v := eval vm_compute in (load_files ∅ l) in
    assert (load_files ∅ l = v) as -> by (vm_compute; reflexivity) end.
  cbv beta iota delta [mbind result_bind].
  match goal with |- context [range ?m] => pose proof (Hr m) as Hm;
    let v := eval vm_compute in (map_to_list m) in assert (map_to_list m = v) as Em by (vm_compute; reflexivity); rewrite Em in Hm; generalize dependent (range m) end.
  intros l Hm. rewrite check_scripts_all.
  - eexists. split; [done|]. apply version_sorted_unique; [rewrite Hm; cbn; solve_Permutation|repeat constructor].
  - rewrite Hm. cbn. by repeat constructor.
Qed.

(** ** Ready means migrated *)

Section readiness.
Context {S : Type}.
Variable migs : list Migration.
Hypothesis six : map mi_Version migs = repository_versions.

Lemma six_sorted : StronglySorted Z.lt (map mi_Version migs).
Proof. rewrite six. repeat constructor. Qed.

Lemma prefix_complete (db : @Schema S) l1 l2 :
  applied_prefix migs db l1 l2 -> dom (applied_of db) = list_to_set repository_versions <-> l2 = [].
Proof.
  intros [Hm Hdom]. rewrite Hdom, <- six. split; [|intros ->; by rewrite Hm, app_nil_r]. intros E.
  destruct l2 as [|m l2]; [done|]. exfalso. pose proof (sorted_versions_differ migs six_sorted) as Hnd.
  rewrite Hm, map_app in Hnd. apply NoDup_app in Hnd as (_ & Hdisj & _). apply (Hdisj (mi_Version m)); [|by left].
  apply (elem_of_list_to_set (C := gset Z)). rewrite E, Hm, map_app. apply elem_of_list_to_set, elem_of_app. right. by left.
Qed.

(** The last version of a proper prefix is below the one required. *)
Lemma prefix_ready (db : @Schema S) l1 l2 :
  applied_prefix migs db l1 l2 -> control_plane_ready true db = true <-> is_Some (sc_applied db) /\ l2 = [].
Proof.
  intros Hp. pose proof (prefix_version migs (sorted_versions_differ migs six_sorted) db l1 l2 six_sorted Hp) as Hv.
  unfold control_plane_ready, readyCheck, schema_version, required_schema_version, applied_of in *.
  destruct (sc_applied db) as [t|]; cbn in *; [|split; [done|by intros [[? ?] _]]]. rewrite Hv. destruct Hp as [Hm _].
  destruct l2 as [|m l2].
  - rewrite app_nil_r in Hm. subst l1. assert (mi_Version <$> last migs = Some 6) as ->; [|by split; [eauto|]].
    rewrite <- fmap_last. unfold fmap, list_fmap. change (last (map mi_Version migs) = Some 6). by rewrite six.
  - split; [|by intros [_ ?]]. destruct (last l1) as [x|] eqn:El; cbn; [|done]. intros Hle%negb_true_iff%Z.ltb_ge. exfalso.
    apply last_Some in El as [k ->]. pose proof six_sorted as Hs. rewrite Hm, !map_app in Hs.
    apply StronglySorted_app in Hs as (Hlt & _ & _).
    specialize (Hlt (mi_Version x) (mi_Version m) ltac:(apply elem_of_app; right; by left) ltac:(by left)).
    assert (mi_Version m ∈ repository_versions) as Hin by (rewrite <- six, Hm, map_app; apply elem_of_app; right; by left).
    unfold repository_versions in Hin. repeat (apply elem_of_cons in Hin as [Hin|Hin]; [lia|]). by apply elem_of_nil in Hin.
Qed.

Variable run_script : string -> S -> option S.
Variables (range : gmap Z Migration -> list (Z * Migration)) (dir : list (string * option string)).
Hypothesis loads : loadMigrations range dir = Ok migs.

Lemma migrate_down_ready a db db' l1 l2 :
  applied_prefix migs db l1 l2 -> migrate_command run_script range dir true a db = (Ok (), db') -> control_plane_ready true db' = false.
Proof.
  intros Hp. unfold migrate_command. rewrite loads.
  destruct (Down _ _ _ _ _ _) as [[[]|e] db1] eqn:E; [|done]. intros [= <-].
  apply (Down_recorded run_script migs (sorted_versions_differ migs six_sorted) db _ _ _ _ _ l1 l2 Hp) in E as (k1 & k2 & Hk & Hr).
  rewrite (Hr eq_refl) in Hk. apply not_true_is_false. intros H%(prefix_ready db1 [] k2 Hk). destruct H as [_ ->].
  destruct Hk as [Hk _]. by rewrite Hk in six.
Qed.

Lemma migrate_up_ready a db db' l1 l2 :
  applied_prefix migs db l1 l2 -> migrate_command run_script range dir false a db = (Ok (), db') -> control_plane_ready true db' = true.
Proof.
  intros Hp. unfold migrate_command. rewrite loads.
  destruct (Up _ _ _ _ _ _) as [[[]|e] db1] eqn:E; [|done]. intros H.
  apply (Up_recorded run_script migs (sorted_versions_differ migs six_sorted) db _ _ _ _ _ l1 l2 Hp) in E as (k1 & k2 & Hk & Hr).
  destruct (Hr eq_refl) as [-> Hs]. assert (control_plane_ready true db1 = true) as Hok by (by apply (prefix_ready db1 k1 [] Hk)).
  unfold Version in H. destruct Hs as [t Ht]. assert (create_bookkeeping db1 = db1) as Hb
    by (unfold create_bookkeeping, applied_of; destruct db1; cbn in *; by subst).
  destruct (ma_table' a); cbn in H; [|done|done]. rewrite Hb in H. destruct (ma_version a); [|done|done]. by injection H as <-.
Qed.

End readiness.

(** (C18) Ready means migrated.  Take the twelve migration files of the repository, none
    of them blank, and a database without migrations.  They load as the versions 1
    to 6; after any runs of the migrator, interrupted anywhere, whatever the scripts
    do, the readiness check of the commands passes exactly when all six are applied;
    a run of md-control-plane -migrate that ends well leaves the database ready, one
    of -migrate-down leaves it not ready (so does one with both flags), and one that
    serves does not touch the schema. *)
Theorem ready_iff_migrated {S} ParseConfig (run_script : string -> S -> option S) range contents db0 :
  (forall m, range m ≡ₚ map_to_list m) ->
  (forall n, n ∈ migration_names -> exists c, contents n = Some c /\ blank c = false) ->
  applied_of db0 = ∅ ->
  exists migs, loadMigrations range (FS contents) = Ok migs /\ map mi_Version migs = repository_versions /\
  forall db, rtc (attempt run_script migs) db0 db ->
    (control_plane_ready true db = true <-> is_Some (sc_applied db) /\ dom (applied_of db) = list_to_set repository_versions) /\
    forall up down bootstrap created ping a e db',
      control_plane_run ParseConfig run_script range (FS contents) up down bootstrap created ping a e db = (Ok (), db') ->
      (down = true -> control_plane_ready true db' = false) /\
      (down = false -> up = true -> control_plane_ready true db' = true) /\
      (down = false -> up = false -> db' = db).
Proof.
  intros Hr Hc He. destruct (repository_loads range contents Hr Hc) as (migs & Hl & H6). exists migs. split_and!; [done|done|].
  intros db Hs. destruct (attempts_recorded run_script migs (sorted_versions_differ migs (six_sorted migs H6)) db0 db He Hs) as (l1 & l2 & Hp).
  split; [rewrite (prefix_ready migs H6 db l1 l2 Hp), (prefix_complete migs H6 db l1 l2 Hp); done|].
  intros up down bootstrap created ping a e db'. unfold control_plane_run. destruct (connect _ _ _ _) as [x|]; [|done].
  destruct up, down; cbn [orb]; intros H; split_and!; try done; intros.
  - by eapply migrate_down_ready.
  - by eapply migrate_up_ready.
  - by eapply migrate_down_ready.
  - by injection H as _ <-.
Qed.

(** (C19) What the runtime starts with.  When the runtime comes as far as its node, with
    a configuration that loaded, over partition tables left by any passes and
    inserts that left no detach pending: the node has the settings that were loaded
    and passes the checks of its Run; every worker it starts consumes with the
    loaded brokers, batches and intervals; the pool has the loaded number of connections;
    and, unless another process held the maintenance lock at that moment ([free] is
    false: then nothing is said of the partitions), the partition tables are exactly
    those a pass without any fault leaves, so that a pass that met a fault has ended
    the command instead: every delta of the current hour and up to the horizon finds
    its partition, and of the recorded partitions that have expired neither row nor
    table is left.  A command that does not come as far ends with its error, whatever
    the node and the health server would have done. *)
Theorem runtime_starts_ready ParseConfig files range yaml_decode explicit env c applied env'
    created ping hostname podName suffix free now clock es answers r parts' :
  Bootstrap files range yaml_decode explicit env = (Ok (c, applied), env') ->
  hist_ok (partition_config c) clock es -> hist_clock clock es <= now -> in_calendar (partition_config c) now ->
  let parts := part_run (partition_config c) emptyParts es in
  no_pending parts ->
  runtime_start ParseConfig (Ok (c, applied)) created ping hostname podName suffix free now (parts, answers) = (r, parts') ->
  match r with
  | Err e => forall node health, runtime_run r node health = Err e
  | Ok st =>
      nd_cfg (sd_node st) = node_config (resolveNodeID (Cfg.RuntimeNodeID c) podName hostname suffix) hostname podName c /\
      node_guards (sd_node st) = true /\
      (forall w, exists cn, worker_consumption (sd_node st) w = Some cn /\
        cn_brokers cn = Cfg.KafkaBrokers c /\ cn_config cn = consumption_config c) /\
      px_MaxConns (sd_pool st) = Cfg.DBMaxConns c /\
      (free = true ->
        Maintain (partition_config c) true now (parts, []) = (Ok (), (parts', [])) /\
        (forall t, covered (partition_config c) now t -> is_ok (insert_row t parts') = true) /\
        (forall name a b, pd_catalog parts' !! name = Some (a, b) -> now - dp_Retention (partition_config c) < b) /\
        (forall name a b, pd_catalog parts !! name = Some (a, b) -> b <= now - dp_Retention (partition_config c) ->
          pd_tables parts' !! name = None))
  end.
Proof.
  intros HB Hh Hcl Hcal parts Hnp. apply Bootstrap_valid in HB as HV. apply Validate_pool in HV as Hpool.
  pose proof (Validate_fields _ HV) as (_ & _ & _ & _ & _ & _ & _ & _ & _ & _ & HF & H9 & _).
  rewrite !Forall_cons in HF. destruct HF as (_ & _ & _ & _ & _ & _ & _ & B8 & B9 & _).
  unfold runtime_start, connect, NewPool. destruct (ParseConfig _) as [px|]; [|by intros [= <- _]].
  destruct created; cbn [negb]; [|by intros [= <- _]]. destruct (ping _); cbn [negb]; [|by intros [= <- _]].
  assert (NewOrderBookDeltaPartitionManager true (partition_config c) = Ok (partition_config c)) as -> by (by apply manager_id).
  destruct (Maintain _ _ _ _) as [[u|e] s] eqn:EM; intros [= <- <-]; [|done]. cbn. split_and!; try done.
  - by apply Validate_node.
  - unfold node_guards. cbn. rewrite Validate_node by done. by apply Validate_guards.
  - intros w. eexists. split; [done|]. split; [done|]. by apply Validate_worker.
  - by destruct (Z.ltb_spec 0 (Cfg.DBMaxConns c)); [|lia].
  - intros ->. apply calm_success_Maintain in EM.
    destruct (calm_pass (partition_config c) now parts) as (db' & E & Hcov & Hcat & Htab); [done|done|done| |done|].
    + by eapply part_wf_later, part_run_wf, emptyParts_wf.
    + pose proof EM as EM'. rewrite EM in E. injection E as Eu Es. rewrite <- Es in *. split_and!; [|done..]. by destruct u.
Qed.

(** ** Runs of the commands *)

Definition sample_ParseConfig (_ : string) : option pgx_settings := Some (mkPgx 4 0 ∅).

Definition sample_contents (_ : string) : option string := Some "SELECT 1".

Definition note_script (script : string) (log : list string) : option (list string) := Some (script :: log).

(** The first two scripts run, the answer of the third one is lost. *)
Definition interrupted_answers : migrator_answers := mkAnswers Done Done [Done; Done; Lost] Done Done.
Definition calm_answers : migrator_answers := mkAnswers Done Done (repeat Done 6) Done Done.

Definition migrate_run (down : bool) (a : migrator_answers) (db : @Schema (list string)) : result command_error () * @Schema (list string) :=
  control_plane_run sample_ParseConfig note_script map_to_list (FS sample_contents) true down (Ok (sample_config, [])) true (fun _ => true) a
    ServerFailed db.

Definition half_migrated : @Schema (list string) := (migrate_run false interrupted_answers (mkSchema [] None)).2.
Definition migrated : @Schema (list string) := (migrate_run false calm_answers half_migrated).2.

Lemma ready_iff_migrated_witness :
  control_plane_ready true migrated = true /\ control_plane_ready true half_migrated = false /\
  control_plane_ready true (migrate_run true calm_answers migrated).2 = false.
Proof.
  destruct (ready_iff_migrated sample_ParseConfig note_script map_to_list sample_contents (mkSchema [] None)) as (migs & _ & _ & H).
  - intros m. reflexivity.
  - intros n _. exists "SELECT 1". split; [reflexivity|vm_compute; reflexivity].
  - reflexivity.
  - destruct (H (mkSchema [] None) ltac:(constructor)) as [_ Hrun]. split.
    + apply (Hrun true false (Ok (sample_config, [])) true (fun _ => true) calm_answers ServerFailed); [|reflexivity|reflexivity].
      vm_compute. reflexivity.
    + split; vm_compute; reflexivity.
Defined.

(** A start over an empty database: the partition of the current hour is there
    before the node runs. *)
Definition sample_start : result command_error started * PartDB :=
  runtime_start sample_ParseConfig (Bootstrap sample_files map_to_list sample_yaml "" sample_environ).1 true (fun _ => true)
    "host-1" "" "0a1b2c3d" true sample_now (emptyParts, []).

Lemma runtime_starts_ready_witness :
  match sample_start with
  | (Ok st, parts) =>
      node_guards (sd_node st) = true /\
      is_ok (insert_row sample_now parts) = true /\ is_ok (insert_row sample_now emptyParts) = false
  | (Err _, _) => False
  end.
Proof.
  destruct (Bootstrap sample_files map_to_list sample_yaml "" sample_environ) as [[[c applied]|e] env'] eqn:E; [|vm_compute in E; discriminate].
  assert (sample_config = c) as Hc by (unfold sample_config; rewrite E; reflexivity).
  destruct sample_start as [r parts] eqn:ER. unfold sample_start in ER. rewrite E in ER. cbn [fst] in ER.
  pose proof (runtime_starts_ready sample_ParseConfig sample_files map_to_list sample_yaml "" sample_environ c applied env'
    true (fun _ => true) "host-1" "" "0a1b2c3d" true sample_now sample_now [] [] r parts E) as H.
  rewrite <- Hc in *.
  assert (is_ok r = true) as Hr.
  { change r with (fst (r, parts)). rewrite <- ER. vm_compute. reflexivity. }
  destruct r as [st|e]; [|discriminate].
  destruct H as (_ & H1 & _ & _ & H2).
  - split.
  - vm_compute. discriminate.
  - vm_compute. split; discriminate.
  - intros name p Hp. destruct (lookup_empty_Some name p Hp).
  - exact ER.
  - split; [exact H1|]. split; [|vm_compute; reflexivity]. apply H2; [reflexivity|]. vm_compute. split; [discriminate|reflexivity].
Defined.
